(** * Layout service: a shallow embedding of the layout engine

    The development follows the TypeScript sources of the layout service:
    - [DMApp] (model/DMApp.ts): constraint lookup and priority overrides;
    - [ComponentController]: the [setPriority] action that stores overrides;
    - [PackerUtils] and [LayoutPacker]: the packing engine;
    - [LayoutGenerator]: the translation of a context into packer input and
      of the packer output into a device-keyed layout;
    - [LayoutManager]: the carry-over rules applied against the previous
      layout.

    Conventions of the embedding.
    - A JavaScript [number] is an exact rational ([Q]).  [Math.trunc] and
      [Math.round] are written out on [Q].  The engine only adds, multiplies,
      divides, truncates and compares; every concrete evaluation below stays
      on integers or on ratios that are far from the comparison thresholds.
    - An optional property ([hasOwnProperty], [null], [undefined]) is an
      [option]; a JavaScript object used as a dictionary is a [gmap] when
      only lookups matter and an association list when the enumeration
      order matters.
    - Mutable objects that are shared between several lists of the packer
      live in an explicit store indexed by addresses.
    - A component object of the DMApp that [manageHiddenComps] puts on
      several device entries is one object: the layout records the places
      that hold it, and an assignment to it shows in all of them. *)

From Stdlib Require Import ZArith QArith Qround Qabs String List Sorted Bool Lia
  Lqa.
From stdpp Require Import base option list gmap strings.

Local Open Scope Z_scope.
Local Open Scope string_scope.
Local Open Scope list_scope.

(** ** JavaScript numbers *)

Module Js.

Definition number := Q.

(** [Math.trunc]: rounding towards zero. *)
Definition trunc (q : Q) : Q :=
  inject_Z (Z.quot (Qnum q) (Z.pos (Qden q))).

(** [Math.round]: the nearest integer, halves rounded up. *)
Definition round (q : Q) : Q :=
  inject_Z (Qfloor (q + (1 # 2))).

Definition eqb (a b : Q) : bool := Qeq_bool a b.
Definition ltb (a b : Q) : bool := negb (Qle_bool b a).
Definition leb (a b : Q) : bool := Qle_bool a b.
Definition gtb (a b : Q) : bool := ltb b a.
Definition geb (a b : Q) : bool := leb b a.

Definition max (a b : Q) : Q := if leb a b then b else a.
Definition min (a b : Q) : Q := if leb a b then a else b.

(** Strict equality of two optional strings ([===] on values that may be
    [null]). *)
Definition ostr_eqb (a b : option string) : bool :=
  match a, b with
  | Some x, Some y => String.eqb x y
  | None, None => true
  | _, _ => false
  end.

(** A property that is present and not [null]. *)
Definition isSet {A : Type} (o : option A) : bool :=
  match o with
  | Some _ => true
  | None => false
  end.

(** [_.contains] on a list of strings. *)
Definition contains (l : list string) (s : string) : bool :=
  existsb (String.eqb s) l.

End Js.

Notation "a =? b" := (Js.eqb a b) (at level 70) : Q_scope.
Notation "a <? b" := (Js.ltb a b) (at level 70) : Q_scope.
Notation "a <=? b" := (Js.leb a b) (at level 70) : Q_scope.
Notation "a >? b" := (Js.gtb a b) (at level 70) : Q_scope.
Notation "a >=? b" := (Js.geb a b) (at level 70) : Q_scope.

(** ** Outcomes of a run

    [TypeError] is the exception JavaScript raises when a property of
    [undefined] or [null] is read.  [NotANumber] marks a run that would go
    on with a [NaN] (a size in inch mode without its inch fields or dpi, a
    division by zero): such runs are outside the embedding.  [OutOfFuel]
    is the bound on the iterations of the packer's loops.  [Repack] marks
    a run of [LayoutPacker._pack] that goes into one of its re-packing
    passes (the second pass over the rectangles that did not fit, the pass
    that fills white space, the shuffle of [__beautify]): the embedding
    follows [_pack] through the first pass and up to the tests that guard
    the later ones. *)

Inductive outcome (A : Type) : Type :=
| Ok (a : A)
| TypeError
| NotANumber
| OutOfFuel
| Repack.

Arguments Ok {A} a.
Arguments TypeError {A}.
Arguments NotANumber {A}.
Arguments OutOfFuel {A}.
Arguments Repack {A}.

Definition obind {A B : Type} (m : outcome A) (f : A -> outcome B) : outcome B :=
  match m with
  | Ok a => f a
  | TypeError => TypeError
  | NotANumber => NotANumber
  | OutOfFuel => OutOfFuel
  | Repack => Repack
  end.

Definition defined {A : Type} (o : option A) : outcome A :=
  match o with
  | Some a => Ok a
  | None => TypeError
  end.

Definition numeric {A : Type} (o : option A) : outcome A :=
  match o with
  | Some a => Ok a
  | None => NotANumber
  end.

Fixpoint omapM {A B : Type} (f : A -> outcome B) (l : list A) : outcome (list B) :=
  match l with
  | [] => Ok []
  | x :: rest =>
      obind (f x) (fun y => obind (omapM f rest) (fun ys => Ok (y :: ys)))
  end.

Fixpoint ofoldM {A S : Type} (f : S -> A -> outcome S) (l : list A) (s : S)
  : outcome S :=
  match l with
  | [] => Ok s
  | x :: rest => obind (f s x) (fun s' => ofoldM f rest s')
  end.

Declare Scope outcome_scope.
Delimit Scope outcome_scope with outcome.
Notation "x <- m ;; k" := (obind m (fun x => k))
  (at level 100, m at next level, right associativity) : outcome_scope.

(** ** Documents: sizes, constraints, components, devices, contexts *)

Module Doc.

(** [IPrefSizeDocument] / [PackingSize].  [mode] is ["px"], ["percent"]
    or ["inches"]; the inch fields are written by [LayoutPacker.init] and
    [PackerUtils.prepareRects], which copy width and height into them for
    a size in inch mode. *)
Record PackingSize := mkPackingSize {
  width : Q;
  height : Q;
  mode : option string;
  widthInches : option Q;
  heightInches : option Q }.

Definition px (w h : Q) : PackingSize :=
  {| width := w; height := h; mode := Some "px";
     widthInches := None; heightInches := None |}.

(** [IConstraintConfigDocument]: one constraint set as the constraint
    document gives it.  The aspect string ["w:h"] is kept as the pair of
    numbers [parseFloat] reads from its two parts. *)
Record ConstraintDoc := mkConstraintDoc {
  aspect : option (Q * Q);
  prefSize : option PackingSize;
  minSize : option PackingSize;
  targetRegions : option (list string);
  priority : Z;
  audio : option bool;
  video : option bool;
  touchInteraction : option bool;
  margin : option Q;
  anchor : option (list string);
  componentDependency : option (list string) }.

(** [IConstraintDocument] *)
Record ConstraintPair := mkConstraintPair {
  constraintId : string;
  personal : ConstraintDoc;
  communal : ConstraintDoc }.

(** [IOverrideDocument]: one scope and a dictionary of priorities. *)
Record Override := mkOverride {
  scope : string;
  priorities : gmap string Z }.

(** A coordinate of an emitted layout: a number of pixels, or the string
    that [convertLayoutToPercentages] builds from a number and ["%"]. *)
Inductive Coord :=
| Pixels (q : Q)
| Percent (q : Q).

Record Size := mkSize { s_width : Coord; s_height : Coord }.
Record Position := mkPosition { p_x : Coord; p_y : Coord }.

(** [ILayoutDocument] of a component, with the fields [runLayout] adds. *)
Record CLayout := mkCLayout {
  position : option Position;
  size : option Size;
  zDepth : option Q;
  instanceId : option string;
  l_priority : option Z;
  visible : option bool;
  l_deviceId : option string;
  l_regionId : option string;
  l_mode : option string }.

(** [IComponentDocument], with the fields the engine attaches when a
    component enters a layout.  The opaque payload ([config],
    [parameters]) is passed through untouched and left out. *)
Record Component := mkComponent {
  componentId : string;
  c_constraintId : option string;
  startTime : option Q;
  stopTime : option Q;
  layout : CLayout;
  priorityOverrides : option (gmap string Override);
  c_prefSize : option PackingSize;
  DMAppId : option string;
  c_contextId : option string }.

(** [ICapabilitiesDocument] *)
Record Caps := mkCaps {
  displayWidth : Q;
  displayHeight : Q;
  displayResolution : option Q;
  concurrentAudio : option Q;
  concurrentVideo : option Q;
  caps_touchInteraction : option bool;
  communalDevice : bool }.

(** [IRegionDocument] *)
Record Region := mkRegion {
  r_regionId : string;
  r_displayWidth : Q;
  r_displayHeight : Q;
  resizable : bool }.

(** [IDeviceDocument] *)
Record Device := mkDevice {
  deviceId : string;
  caps : Caps;
  regions : option (list Region);
  group : string }.

(** [IContextDocument] *)
Record Context := mkContext {
  ctx_id : string;
  devices : list Device;
  percentCoords : option bool }.

(** [IDMAppDocument] *)
Record DMApp := mkDMApp {
  dmapp_id : string;
  components : list Component;
  constraints : list ConstraintPair }.

End Doc.

(** ** Globals (globals.ts) *)

Module Globals.
Import Doc.

Definition MinDimension : Q := 0.
Definition ReductionRate : Q := 8 # 10.
Definition MaxIterations : nat := 5.
Definition SingleReductionRate : Q := 7 # 10.

Definition absoluteMinSize : PackingSize := px 1 1.

Definition defaultComponentConstraint : ConstraintDoc :=
  {| aspect := None; prefSize := None;
     minSize := Some (px MinDimension MinDimension);
     targetRegions := None; priority := 1;
     audio := None; video := None; touchInteraction := None;
     margin := Some 0%Q; anchor := None; componentDependency := None |}.

Definition defaultConstraintId : string := "default".

Definition defaultComponentLayout : CLayout :=
  {| position := Some {| p_x := Pixels 0; p_y := Pixels 0 |};
     size := Some {| s_width := Pixels (-1); s_height := Pixels (-1) |};
     zDepth := Some 0%Q; instanceId := None; l_priority := None;
     visible := Some false;
     l_deviceId := None; l_regionId := None; l_mode := None |}.

End Globals.

(** ** Context (model/Context.ts) *)

Module Context.
Import Doc.

Definition getDevice (ctx : Context) (id : string) : option Device :=
  find (fun d => String.eqb (deviceId d) id) (devices ctx).

Definition hasDevice (ctx : Context) (id : string) : bool :=
  existsb (fun d => String.eqb (deviceId d) id) (devices ctx).

Definition getGroupDevices (ctx : Context) (groupId : string) : list string :=
  map deviceId (filter (fun d => String.eqb (group d) groupId) (devices ctx)).

Inductive groupType := communal | personal | mixed.

Definition groupType_eqb (a b : groupType) : bool :=
  match a, b with
  | communal, communal | personal, personal | mixed, mixed => true
  | _, _ => false
  end.

(** [getDeviceGroups]: one group per distinct [device.group], in order of
    first appearance; the type turns to [mixed] as soon as a member
    disagrees with the first one. *)
Fixpoint addToGroups (d : Device) (gs : list (string * groupType))
  : option (list (string * groupType)) :=
  match gs with
  | [] => None
  | (g, t) :: rest =>
      if String.eqb g (group d) then
        Some ((g, match t, communalDevice (caps d) with
                  | personal, true => mixed
                  | communal, false => mixed
                  | _, _ => t
                  end) :: rest)
      else option_map (cons (g, t)) (addToGroups d rest)
  end.

Definition getDeviceGroups (ctx : Context) : list (string * groupType) :=
  fold_left
    (fun gs d =>
       match addToGroups d gs with
       | Some gs' => gs'
       | None =>
           gs ++ [(group d,
                   if communalDevice (caps d) then communal else personal)]
       end)
    (devices ctx) [].

End Context.

(** ** DMApp (model/DMApp.ts) *)

Module DMApp.
Import Doc.

Definition withMinSize (c : ConstraintDoc) : ConstraintDoc :=
  match minSize c with
  | Some _ => c
  | None =>
      {| aspect := aspect c; prefSize := prefSize c;
         minSize := Some Globals.absoluteMinSize;
         targetRegions := targetRegions c; priority := priority c;
         audio := audio c; video := video c;
         touchInteraction := touchInteraction c;
         margin := margin c; anchor := anchor c;
         componentDependency := componentDependency c |}
  end.

(** [getComponentConstraints]: the first constraint with the given id, or
    the global default constraint when there is none. *)
Definition getComponentConstraints (app : DMApp) (cid : option string)
    (wantCommunal : bool) : ConstraintDoc :=
  match filter (fun c => Js.ostr_eqb (Some (constraintId c)) cid)
               (constraints app) with
  | [] => Globals.defaultComponentConstraint
  | c :: _ =>
      if wantCommunal then withMinSize (communal c)
      else withMinSize (personal c)
  end.

Definition getComponent (app : DMApp) (id : string) : option Component :=
  match filter (fun c => String.eqb (componentId c) id) (components app) with
  | [] => None
  | c :: _ => Some c
  end.

(** The dictionary key an override is read under: the device id for scope
    ["device"], the device's group for scope ["group"], and the literal
    ["context"] for every other scope. *)
Definition overrideKey (o : Override) (device : Device) : string :=
  if String.eqb (scope o) "device" then deviceId device
  else if String.eqb (scope o) "group" then group device
  else "context".

(** [getPriority].  The source then tests
    [c.hasOwnProperty("constraints)")], a key no component carries, so the
    fall-back is always the constraint document's priority. *)
Definition getPriority (app : DMApp) (c : Component) (device : Device)
    (devtype : string) : Z :=
  let fallback :=
    priority (getComponentConstraints app (c_constraintId c)
                (String.eqb devtype "communal")) in
  match priorityOverrides c with
  | Some ovs =>
      match ovs !! devtype with
      | Some o =>
          match priorities o !! overrideKey o device with
          | Some p => p
          | None => fallback
          end
      | None => fallback
      end
  | None => fallback
  end.

Definition resolvePriority (app : DMApp) (c : Component) (device : Device)
    (wantCommunal : bool) : Z :=
  getPriority app c device (if wantCommunal then "communal" else "personal").

(** *** The life cycle of a component *)

Definition withComponents (app : DMApp) (cs : list Component) : DMApp :=
  {| dmapp_id := dmapp_id app; components := cs;
     constraints := constraints app |}.

(** [this.select(this.constraints, c => c.constraintId === id).length > 0] *)
Definition knowsConstraint (app : DMApp) (id : string) : bool :=
  existsb (fun c => String.eqb (constraintId c) id) (constraints app).

(** [initComponent], for the [componentId] and the [constraintId] of its
    first argument: the DMApp it leaves and the component it returns.  A
    component that is there already is returned as it is; a new one names
    the default constraint unless the DMApp has the constraint it asks
    for. *)
Definition initComponent (app : DMApp) (id : string) (cid : option string)
  : DMApp * Component :=
  match getComponent app id with
  | Some component => (app, component)
  | None =>
      let constraintId :=
        match cid with
        | Some k =>
            if String.eqb k "" then Globals.defaultConstraintId
            else if knowsConstraint app k then k
            else Globals.defaultConstraintId
        | None => Globals.defaultConstraintId
        end in
      let component :=
        {| componentId := id; c_constraintId := Some constraintId;
           startTime := None; stopTime := None;
           layout := Globals.defaultComponentLayout;
           priorityOverrides := None; c_prefSize := None;
           DMAppId := None; c_contextId := None |} in
      (withComponents app (components app ++ [component]), component)
  end.

(** The components after an assignment to properties of the object that
    [getComponent] returns: the first component of the id. *)
Fixpoint onFirst (id : string) (f : Component -> Component)
    (cs : list Component) : list Component :=
  match cs with
  | [] => []
  | c :: rest =>
      if String.eqb (componentId c) id then f c :: rest
      else c :: onFirst id f rest
  end.

Definition setVisible (l : CLayout) (v : bool) : CLayout :=
  {| position := position l; size := size l; zDepth := zDepth l;
     instanceId := instanceId l; l_priority := l_priority l;
     visible := Some v;
     l_deviceId := l_deviceId l; l_regionId := l_regionId l;
     l_mode := l_mode l |}.

Definition started (time : Q) (c : Component) : Component :=
  {| componentId := componentId c; c_constraintId := c_constraintId c;
     startTime := Some time; stopTime := stopTime c;
     layout := setVisible (layout c) true;
     priorityOverrides := priorityOverrides c; c_prefSize := c_prefSize c;
     DMAppId := DMAppId c; c_contextId := c_contextId c |}.

Definition stopped (time : Q) (c : Component) : Component :=
  {| componentId := componentId c; c_constraintId := c_constraintId c;
     startTime := startTime c; stopTime := Some time;
     layout := setVisible (layout c) false;
     priorityOverrides := priorityOverrides c; c_prefSize := c_prefSize c;
     DMAppId := DMAppId c; c_contextId := c_contextId c |}.

(** [startComponent] and [stopComponent]: the DMApp they leave. *)
Definition startComponent (app : DMApp) (id : string) (time : Q) : DMApp :=
  withComponents app (onFirst id (started time) (components app)).

Definition stopComponent (app : DMApp) (id : string) (time : Q) : DMApp :=
  withComponents app (onFirst id (stopped time) (components app)).

(** [removeComponent]: [splice] takes out the object [getComponent]
    returned, the first component of the id. *)
Fixpoint withoutFirst (id : string) (cs : list Component) : list Component :=
  match cs with
  | [] => []
  | c :: rest =>
      if String.eqb (componentId c) id then rest
      else c :: withoutFirst id rest
  end.

Definition removeComponent (app : DMApp) (id : string) : DMApp :=
  withComponents app (withoutFirst id (components app)).

(** [showComponents] and [hideComponents]: the loop over the listed ids.
    [this.getComponent(comp).layout] raises a [TypeError] for an id the
    DMApp does not have. *)
Definition withVisible (v : bool) (c : Component) : Component :=
  {| componentId := componentId c; c_constraintId := c_constraintId c;
     startTime := startTime c; stopTime := stopTime c;
     layout := setVisible (layout c) v;
     priorityOverrides := priorityOverrides c; c_prefSize := c_prefSize c;
     DMAppId := DMAppId c; c_contextId := c_contextId c |}.

Definition setVisibility (v : bool) (app : DMApp) (clist : list string)
  : outcome DMApp :=
  ofoldM
    (fun app id =>
       match getComponent app id with
       | Some _ =>
           Ok (withComponents app (onFirst id (withVisible v) (components app)))
       | None => TypeError
       end)
    clist app.

Definition showComponents (app : DMApp) (clist : list string)
  : outcome DMApp := setVisibility true app clist.

Definition hideComponents (app : DMApp) (clist : list string)
  : outcome DMApp := setVisibility false app clist.

End DMApp.

(** ** ComponentController: the [setPriority] action *)

Module ComponentController.
Import Doc.

(** One entry of [item.overrides]. *)
Record OverrideEntry := mkEntry { e_id : string; e_priority : Z }.

(** One item of the request body in its list form. *)
Record OverrideItem := mkItem {
  devtype : string;
  i_scope : string;
  overrides : list OverrideEntry }.

(** The body of the innermost loop.  [None] is the [TypeError] raised by
    [delete component.priorityOverrides[devType].priorities[id]] when the
    component has no override record for [devType]; the request then fails
    and nothing is saved. *)
Definition storeOverride (ovs : gmap string Override)
    (devType sc : string) (p : OverrideEntry)
  : option (gmap string Override) :=
  let id := if String.eqb sc "context" then "context" else e_id p in
  if Z.eqb (e_priority p) (-1) then
    match ovs !! devType with
    | Some o =>
        Some (<[devType :=
                 {| scope := scope o;
                    priorities := delete id (priorities o) |}]> ovs)
    | None => None
    end
  else
    let prios :=
      match ovs !! devType with
      | Some o => priorities o
      | None => ∅
      end in
    Some (<[devType :=
             {| scope := sc;
                priorities := <[id := e_priority p]> prios |}]> ovs).

Fixpoint storeEntries (ovs : gmap string Override) (devType sc : string)
    (ps : list OverrideEntry) : option (gmap string Override) :=
  match ps with
  | [] => Some ovs
  | p :: rest =>
      match storeOverride ovs devType sc p with
      | Some ovs' => storeEntries ovs' devType sc rest
      | None => None
      end
  end.

Fixpoint storeItems (ovs : gmap string Override) (items : list OverrideItem)
  : option (gmap string Override) :=
  match items with
  | [] => Some ovs
  | it :: rest =>
      match storeEntries ovs (devtype it) (i_scope it) (overrides it) with
      | Some ovs' => storeItems ovs' rest
      | None => None
      end
  end.

(** The backwards-compatible body [{personalPriority, communalPriority}]:
    the communal value is stored under scope ["context"], and for a
    personal requesting device the personal value is stored under scope
    ["device"]; neither value is compared with -1. *)
Definition storeLegacy (ovs : gmap string Override) (isCommunal : bool)
    (reqDeviceId : string) (communalPriority personalPriority : Z)
  : gmap string Override :=
  let prios (t : string) :=
    match ovs !! t with
    | Some o => priorities o
    | None => ∅
    end in
  let ovs1 :=
    <["communal" :=
        {| scope := "context";
           priorities := <["context" := communalPriority]> (prios "communal") |}]>
      ovs in
  if isCommunal then ovs1
  else
    <["personal" :=
        {| scope := "device";
           priorities :=
             <[reqDeviceId := personalPriority]>
               (match ovs1 !! "personal" with
                | Some o => priorities o
                | None => ∅
                end) |}]> ovs1.

(** The [priority] case of [componentAction] on the component record. *)
Definition setPriorityList (c : Component) (items : list OverrideItem)
  : option Component :=
  let ovs := default ∅ (priorityOverrides c) in
  match storeItems ovs items with
  | Some ovs' =>
      Some {| componentId := componentId c;
              c_constraintId := c_constraintId c;
              startTime := startTime c; stopTime := stopTime c;
              layout := layout c;
              priorityOverrides := Some ovs';
              c_prefSize := c_prefSize c;
              DMAppId := DMAppId c; c_contextId := c_contextId c |}
  | None => None
  end.

End ComponentController.

(** ** Util (Util.ts) *)

Module Util.

Definition idSeparator : string := "_".

Definition componentInstanceId (ctxid dmappid deviceid componentid : string)
  : string :=
  String.append ctxid (String.append idSeparator
    (String.append dmappid (String.append idSeparator
      (String.append deviceid (String.append idSeparator componentid))))).

(** [isEqualwithPrecision] *)
Definition isEqualwithPrecision (f1 f2 precision : Q) : bool :=
  let diff := (f1 - f2)%Q in
  (diff <? precision)%Q && (diff >? (-1 * precision))%Q.

(** [isLarger] *)
Definition isLarger (w1 h1 w2 h2 : Q) : Z :=
  if (w1 <? w2)%Q then 1
  else if (w1 >? w2)%Q then -1
  else if (h1 <? h2)%Q then 1
  else if (h1 >? h2)%Q then -1
  else 0.

End Util.

(** ** Layouts (model/Layout.ts, tools/LayoutManager.ts) *)

Module Layout.
Import Doc.

(** [IDeviceLayoutDocument] *)
Record DeviceLayout := mkDeviceLayout {
  dl_deviceId : string;
  dl_components : list Component }.

(** [Skipped] / [IPlacementGroupDocument] *)
Record Skipped := mkSkipped {
  sk_group : string;
  status : string;
  sk_components : list string }.

(** [GeneratedLayout] / [ILayoutDocument] *)
Record GeneratedLayout := mkLayout {
  gl_contextId : string;
  gl_devices : list DeviceLayout;
  notPlaced : list Skipped;
  timestamp : Q }.

Definition withDevices (l : GeneratedLayout) (ds : list DeviceLayout)
  : GeneratedLayout :=
  {| gl_contextId := gl_contextId l; gl_devices := ds;
     notPlaced := notPlaced l; timestamp := timestamp l |}.

Definition findDevice (id : string) (ds : list DeviceLayout)
  : option DeviceLayout :=
  find (fun d => String.eqb (dl_deviceId d) id) ds.

Definition findComponent (id : string) (cs : list Component)
  : option Component :=
  find (fun c => String.eqb (componentId c) id) cs.

(** [targetDev.components.push(comp)] where [targetDev] is the first entry
    of the list with the given device id. *)
Fixpoint pushOnDevice (id : string) (comp : Component)
    (ds : list DeviceLayout) : list DeviceLayout :=
  match ds with
  | [] => []
  | d :: rest =>
      if String.eqb (dl_deviceId d) id then
        {| dl_deviceId := dl_deviceId d;
           dl_components := dl_components d ++ [comp] |} :: rest
      else d :: pushOnDevice id comp rest
  end.

(** The index of the first element of a list that passes a test, and the
    length of the list when none does. *)
Fixpoint firstIndex {A : Type} (f : A -> bool) (l : list A) : nat :=
  match l with
  | [] => 0
  | x :: rest => if f x then 0 else S (firstIndex f rest)
  end.

(** The index in the list of the entry [findDevice] returns. *)
Definition deviceIndex (id : string) (ds : list DeviceLayout) : nat :=
  firstIndex (fun d => String.eqb (dl_deviceId d) id) ds.

End Layout.

(** ** LayoutManager (tools/LayoutManager.ts): the carry-over rules *)

Module LayoutManager.
Import Doc Layout.

Definition withDMAppId (c : Component) (id : string) : Component :=
  {| componentId := componentId c; c_constraintId := c_constraintId c;
     startTime := startTime c; stopTime := stopTime c;
     layout := layout c; priorityOverrides := priorityOverrides c;
     c_prefSize := c_prefSize c;
     DMAppId := Some id; c_contextId := c_contextId c |}.

(** The body of [complist.forEach] in [manageInitedComps]. *)
Definition carryInited (app : DMApp) (deviceId : string) (comp : Component)
    (newLayout : GeneratedLayout) : GeneratedLayout :=
  match findDevice deviceId (gl_devices newLayout) with
  | Some targetDev =>
      match findComponent (componentId comp) (dl_components targetDev) with
      | None =>
          withDevices newLayout
            (pushOnDevice deviceId (withDMAppId comp (dmapp_id app))
               (gl_devices newLayout))
      | Some _ => newLayout
      end
  | None => newLayout
  end.

(** [manageInitedComps] *)
Definition manageInitedComps (ctx : Context)
    (prevLayout : option GeneratedLayout) (newLayout : GeneratedLayout)
    (app : DMApp) : GeneratedLayout :=
  match prevLayout with
  | None => newLayout
  | Some prev =>
      fold_left
        (fun nl dev =>
           fold_left
             (fun nl' comp => carryInited app (dl_deviceId dev) comp nl')
             (filter (fun c => negb (Js.isSet (startTime c)))
                     (dl_components dev))
             nl)
        (gl_devices prev) newLayout
  end.

(** The layout object [manageHiddenComps] assigns to the component object
    of the DMApp when it carries it to a device. *)
Definition hiddenLayout (ctx : Context) (app : DMApp) (deviceId compId : string)
  : CLayout :=
  {| position := Some {| p_x := Pixels 0; p_y := Pixels 0 |};
     size := Some {| s_width := Pixels (-1); s_height := Pixels (-1) |};
     zDepth := None;
     instanceId :=
       Some (Util.componentInstanceId (ctx_id ctx) (dmapp_id app)
               deviceId compId);
     l_priority := None; visible := None;
     l_deviceId := Some deviceId; l_regionId := None; l_mode := None |}.

(** The component object of the DMApp after the assignments to
    [DMAppId], [contextId] and [layout] that carry it to a device. *)
Definition hiddenComponent (ctx : Context) (app : DMApp)
    (deviceId compId : string) (latestComp : Component) : Component :=
  {| componentId := componentId latestComp;
     c_constraintId := c_constraintId latestComp;
     startTime := startTime latestComp; stopTime := stopTime latestComp;
     layout := hiddenLayout ctx app deviceId compId;
     priorityOverrides := priorityOverrides latestComp;
     c_prefSize := c_prefSize latestComp;
     DMAppId := Some (dmapp_id app); c_contextId := Some (ctx_id ctx) |}.

(** [latestComp] is the component object of the DMApp itself:
    [dmapp.getComponent] returns the first component of that id and makes
    no copy, and [newComp] is another name of that object.  The
    assignments to [newComp.DMAppId], [newComp.contextId] and
    [newComp.layout] change the one object, and that object is what is
    pushed on every device entry the component is carried to.

    [Carried] is the layout under construction together with the places
    of it that hold an object of the DMApp: the component id of the
    object, the index of the device entry and the index of the object in
    the components of that entry.  Entries and components are only ever
    pushed, so a place keeps its indices. *)
Record Carried := mkCarried {
  shown : GeneratedLayout;
  held : list (string * (nat * nat)) }.

Definition holds (places : list (string * (nat * nat))) (compId : string)
    (i j : nat) : bool :=
  existsb (fun h => String.eqb (fst h) compId
                    && Nat.eqb (fst (snd h)) i && Nat.eqb (snd (snd h)) j)
          places.

(** The device entries after an assignment to the object of the DMApp for
    [compId], [newComp] being the object after the assignment: every
    place that holds the object shows it. *)
Definition assign (compId : string) (newComp : Component)
    (places : list (string * (nat * nat))) (ds : list DeviceLayout)
  : list DeviceLayout :=
  imap (fun i d =>
          {| dl_deviceId := dl_deviceId d;
             dl_components :=
               imap (fun j c => if holds places compId i j then newComp else c)
                    (dl_components d) |})
       ds.

(** The body of [prevLayout.devices.forEach] in [manageHiddenComps].
    [hiddenComponent] is the object of the DMApp after the three
    assignments; the fields it takes from [latestComp] are never assigned
    to, so it is the same whether or not the object was carried before.
    The assignments come before the search for the target device, and
    show in the places that hold the object already.  In the source the
    branch that finds the component already listed on the target device
    assigns the object to a local variable only, which pushes nothing. *)
Definition carryHidden (ctx : Context) (app : DMApp) (compId : string)
    (dev : DeviceLayout) (c : Carried) : Carried :=
  match findComponent compId (dl_components dev) with
  | Some comp =>
      if Context.hasDevice ctx (dl_deviceId dev) then
        match DMApp.getComponent app (componentId comp) with
        | Some latestComp =>
            if String.eqb (componentId comp) compId
               && negb (Js.isSet (stopTime latestComp))
               && Js.isSet (startTime comp)
               && Js.isSet (size (layout comp))
            then
              let newComp :=
                hiddenComponent ctx app (dl_deviceId dev) compId latestComp in
              let devices :=
                assign compId newComp (held c) (gl_devices (shown c)) in
              match findDevice (dl_deviceId dev) devices with
              | Some targetDev =>
                  match findComponent compId (dl_components targetDev) with
                  | Some _ =>
                      {| shown := withDevices (shown c) devices;
                         held := held c |}
                  | None =>
                      {| shown :=
                           withDevices (shown c)
                             (pushOnDevice (dl_deviceId dev) newComp devices);
                         held :=
                           held c ++
                           [(compId,
                             (deviceIndex (dl_deviceId dev) devices,
                              length (dl_components targetDev)))] |}
                  end
              | None =>
                  {| shown :=
                       withDevices (shown c)
                         (devices ++
                          [{| dl_deviceId := dl_deviceId dev;
                              dl_components := [newComp] |}]);
                     held := held c ++ [(compId, (length devices, 0%nat))] |}
              end
            else c
        | None => c
        end
      else c
  | None => c
  end.

Definition hiddenStatus (s : string) : bool :=
  String.eqb s "incompatible" || String.eqb s "skipped".

(** [manageHiddenComps].  The new layout comes from the generator and
    from [manageInitedComps], whose records are objects of their own: no
    place of it holds an object of the DMApp at the start. *)
Definition manageHiddenComps (ctx : Context)
    (prevLayout : option GeneratedLayout) (newLayout : GeneratedLayout)
    (app : DMApp) : GeneratedLayout :=
  match prevLayout with
  | None => newLayout
  | Some prev =>
      shown
        (fold_left
           (fun c np =>
              if hiddenStatus (status np) then
                fold_left
                  (fun c' compId =>
                     fold_left
                       (fun c'' dev => carryHidden ctx app compId dev c'')
                       (gl_devices prev) c')
                  (sk_components np) c
              else c)
           (notPlaced newLayout) {| shown := newLayout; held := [] |})
  end.

(** The layout transformations [evaluateLayout] applies for one DMApp
    ([notifyCreate], between the two, only emits messages). *)
Definition carryOver (ctx : Context) (prevLayout : option GeneratedLayout)
    (newLayout : GeneratedLayout) (app : DMApp) : GeneratedLayout :=
  manageHiddenComps ctx prevLayout
    (manageInitedComps ctx prevLayout newLayout app) app.

End LayoutManager.

(** ** PackerUtils (tools/PackerUtils.ts): data and pure helpers *)

Module PackerUtils.

(** [ILayoutConstraint]: a constraint set as [buildComponentList] hands it
    to the packer ([prefSize], [priority], [valid], [margin], [_aspect]
    and [dependencies] filled in, [minSize] filled in by the DMApp). *)
Record ILayoutConstraint := mkConstraint {
  aspect : option (Q * Q);
  _aspect : Q;
  prefSize : Doc.PackingSize;
  minSize : Doc.PackingSize;
  valid : list string;
  priority : Z;
  audio : option bool;
  video : option bool;
  margin : Q;
  marginInches : option Q;
  anchor : option (list string);
  dependencies : list string }.

(** [ISizeDocument] *)
Record ISize := mkISize { wd : Q; ht : Q }.

(** The part of a bounding box [toPixelResolution] reads. *)
Record Bounds := mkBounds {
  b_boundingWidth : Q;
  b_boundingHeight : Q;
  b_dpi : option Q }.

Definition defaultBounds : Bounds :=
  {| b_boundingWidth := 1000; b_boundingHeight := 1000; b_dpi := Some 96%Q |}.

(** [BBox], as [computeBounds] builds it. *)
Record BBox := mkBBox {
  bb_boundingWidth : Q;
  bb_boundingHeight : Q;
  bb_width : Q;
  bb_height : Q;
  boundingX0 : Q;
  boundingY0 : Q;
  boundingX1 : Q;
  boundingY1 : Q;
  centerX : Q;
  centerY : Q }.

(** [PackerRegion] and [PackerRectangle]: the rectangle of a tree node and
    the rectangle of a component share one shape.  A component rectangle
    has no bounding box, device or region until it is placed; a node
    rectangle has constraints once a component was placed on it or on the
    node it was cut from. *)
Record PackerRectangle := mkRect {
  x0 : Q;
  y0 : Q;
  width : Q;
  height : Q;
  dpi : option Q;
  deviceId : option string;
  regionId : option string;
  boundingWidth : Q;
  boundingHeight : Q;
  maxVideo : option Q;
  maxAudio : option Q;
  communal : bool;
  componentId : option string;
  DMAppId : option string;
  r_margin : option Q;
  constraints : option ILayoutConstraint;
  personalconstraints : option ILayoutConstraint }.

Definition boundsOfRect (r : PackerRectangle) : Bounds :=
  {| b_boundingWidth := boundingWidth r;
     b_boundingHeight := boundingHeight r;
     b_dpi := dpi r |}.

Definition boundsOfBBox (b : BBox) : Bounds :=
  {| b_boundingWidth := bb_boundingWidth b;
     b_boundingHeight := bb_boundingHeight b;
     b_dpi := None |}.

Definition noAspect : Q := 0.

Definition minRect : ISize :=
  {| wd := Globals.MinDimension; ht := Globals.MinDimension |}.

Definition defaultPrefSize : Doc.PackingSize := Doc.px (-1) (-1).

Definition modeIs (s : Doc.PackingSize) (m : string) : bool :=
  Js.ostr_eqb (Doc.mode s) (Some m).

(** [resolveConstraints] on the rectangle of the node and a rectangle. *)
Definition resolveConstraints (nodeRect : PackerRectangle) (mixedGroup : bool)
    (rect : PackerRectangle) : option ILayoutConstraint :=
  if mixedGroup && negb (communal nodeRect) then personalconstraints rect
  else constraints rect.

(** [toPixelResolution].  [None] stands for a result that is not a number:
    a size in inch mode read without its inch fields or without a dpi. *)
Definition toPixelResolution (size : Doc.PackingSize) (defaultval : ISize)
    (bbox : Bounds) (aspect : Q) : option ISize :=
  let w0 := if (Doc.width size =? -1)%Q then wd defaultval else Doc.width size in
  let h0 := if (Doc.height size =? -1)%Q then ht defaultval else Doc.height size in
  let scaled :=
    if modeIs size "inches" then
      match Doc.widthInches size, Doc.heightInches size, b_dpi bbox with
      | Some wi, Some hi, Some d => Some ((wi * d)%Q, (hi * d)%Q)
      | _, _, _ => None
      end
    else if modeIs size "percent" then
      Some ((Doc.width size * b_boundingWidth bbox / 100)%Q,
            (Doc.height size * b_boundingHeight bbox / 100)%Q)
    else Some (w0, h0) in
  match scaled with
  | None => None
  | Some (w, h) =>
      if negb (aspect =? noAspect)%Q then
        if (Doc.width size =? 0)%Q then
          Some {| wd := Js.trunc (h / aspect); ht := h |}
        else
          Some {| wd := w; ht := Js.max h (Js.trunc (w * aspect)) |}
      else Some {| wd := w; ht := h |}
  end.

(** [getAspectCorrectedComponentSize] *)
Definition getAspectCorrectedComponentSize (width height margin aspect
    boundingW boundingH : Q) : ISize :=
  if (aspect =? noAspect)%Q then {| wd := width; ht := height |}
  else
    let m := (2 * margin)%Q in
    if (aspect <=? 1)%Q then
      let h := (width * aspect)%Q in
      if (h + m >? boundingH)%Q then
        let h' := (height - m)%Q in
        {| wd := Js.trunc (h' / aspect); ht := Js.trunc h' |}
      else {| wd := Js.trunc width; ht := Js.trunc h |}
    else
      let w := (height / aspect)%Q in
      if (w + m >? boundingW)%Q then
        let w' := (width - m)%Q in
        {| wd := Js.trunc w'; ht := Js.trunc (w' * aspect) |}
      else {| wd := Js.trunc w; ht := Js.trunc height |}.

(** [correctedSize] *)
Definition correctedSize (width height margin aspect boundingwidth
    boundingheight : Q) : ISize :=
  let m := margin in
  let size :=
    getAspectCorrectedComponentSize (width - m) (height - m) margin aspect
      boundingwidth boundingheight in
  {| wd := (wd size + m)%Q; ht := (ht size + m)%Q |}.

(** [rectSize] *)
Definition rectSize (constraint : ILayoutConstraint) (bbox : option Bounds)
  : option ISize :=
  let bbox := default defaultBounds bbox in
  match toPixelResolution (minSize constraint) minRect bbox noAspect with
  | None => None
  | Some minsize =>
      match toPixelResolution (prefSize constraint) minsize bbox noAspect with
      | None => None
      | Some pixels =>
          Some (correctedSize (wd pixels) (ht pixels) (margin constraint)
                  (_aspect constraint) (b_boundingWidth bbox)
                  (b_boundingHeight bbox))
      end
  end.

(** [meetsMinReq], on the size [toPixelResolution] gave for [minRect]. *)
Definition meetsMinReq (rect : PackerRectangle) (minsize : ISize) : bool :=
  if (width rect >? 0)%Q && (width rect <? wd minsize)%Q then false
  else if (height rect >? 0)%Q && (height rect <? ht minsize)%Q then false
  else true.

(** [directed_aspect_correct] *)
Definition directed_aspect_correct (width height aspect margin : Q)
    (primaryDir : string) : ISize :=
  let m := (2 * margin)%Q in
  let h := (height - m)%Q in
  let w := (width - m)%Q in
  let '(w, h) :=
    if String.eqb primaryDir "width" then
      let h := (w * aspect)%Q in
      if (h + m >? height)%Q then
        let h := (height - m)%Q in ((h / aspect)%Q, h)
      else (w, h)
    else
      let w := (h / aspect)%Q in
      if (w + m >? width)%Q then
        let w := (width - m)%Q in (w, (w * aspect)%Q)
      else (w, h) in
  {| wd := Js.trunc (w + m); ht := Js.trunc (h + m) |}.

(** [directed_aspect_correct_] *)
Definition directed_aspect_correct_ (width height aspect margin : Q)
    (primaryDir : string) (minsize : ISize) : ISize :=
  let m := (2 * margin)%Q in
  let h := (height - m)%Q in
  let w := (width - m)%Q in
  let '(w, h) :=
    if String.eqb primaryDir "width" then
      let h := (w * aspect)%Q in
      if (h + m >? height)%Q then
        let h := (height - m)%Q in ((h / aspect)%Q, h)
      else (w, h)
    else
      let w := (h / aspect)%Q in
      if (w + m >? width)%Q then
        let w := (width - m)%Q in (w, (w * aspect)%Q)
      else if (w <? wd minsize)%Q then
        let w := (wd minsize - m)%Q in (w, (w * aspect)%Q)
      else (w, h) in
  {| wd := Js.trunc (w + m); ht := Js.trunc (h + m) |}.

(** [directed_aspect_correct_no_check] *)
Definition directed_aspect_correct_no_check (width height aspect margin : Q)
    (dir : string) : ISize :=
  let m := (2 * margin)%Q in
  let h := (height - m)%Q in
  let w := (width - m)%Q in
  let '(w, h) :=
    if String.eqb dir "width" then (w, (w * aspect)%Q)
    else ((h / aspect)%Q, h) in
  {| wd := Js.trunc (w + m); ht := Js.trunc (h + m) |}.

(** *** Orderings of boxes *)

Definition area (rect : PackerRectangle) : Q := (width rect * height rect)%Q.

(** [largerEqual] on the widths and heights of two boxes. *)
Definition largerEqual (w1 h1 w2 h2 : Q) : Z :=
  let area1 := (w1 * h1)%Q in
  let area2 := (w2 * h2)%Q in
  if (area1 <? area2)%Q then 1
  else if (area1 >? area2)%Q then -1
  else if (w1 <? w2)%Q then 1
  else if (w1 >? w2)%Q then -1
  else if (h1 <? h2)%Q then 1
  else if (h1 =? h2)%Q then 0
  else -1.

Definition larger (w1 h1 w2 h2 : Q) : Z :=
  let r := largerEqual w1 h1 w2 h2 in
  if Z.eqb r 0 then -1 else r.

Definition topleft (box1 box2 : PackerRectangle) : Z :=
  if (y0 box1 >? y0 box2)%Q then 1
  else if (y0 box1 <? y0 box2)%Q then -1
  else if (x0 box1 >? x0 box2)%Q then 1
  else -1.

Definition larger_first (box1 box2 : PackerRectangle) : Z :=
  let r := largerEqual (width box1) (height box1) (width box2) (height box2) in
  if negb (Z.eqb r 0) then r else topleft box1 box2.

Definition largerAreaEqual (box1 box2 : PackerRectangle) : Z :=
  let area1 := (width box1 * height box1)%Q in
  let area2 := (width box2 * height box2)%Q in
  if (area1 <? area2)%Q then 1
  else if (area1 >? area2)%Q then -1
  else 0.

Definition larger_tl (box1 box2 : PackerRectangle) : Z :=
  let r := largerAreaEqual box1 box2 in
  if negb (Z.eqb r 0) then r else topleft box1 box2.

Definition largerDimArea (w1 h1 w2 h2 : Q) : Z :=
  let area1 := (w1 * h1)%Q in
  let area2 := (w2 * h2)%Q in
  if (w1 <? w2)%Q then 1
  else if (w1 >? w2)%Q then -1
  else if (area1 <? area2)%Q then 1
  else if (area1 >? area2)%Q then -1
  else if (h1 <? h2)%Q then 1
  else if (h1 >? h2)%Q then -1
  else 0.

Definition smaller (w1 h1 w2 h2 : Q) : Z :=
  let area1 := (w1 * h1)%Q in
  let area2 := (w2 * h2)%Q in
  if (w1 <? w2)%Q then -1
  else if (w1 >? w2)%Q then 1
  else if (h1 <? h2)%Q then -1
  else if (h1 >? h2)%Q then 1
  else if (area1 <? area2)%Q then -1
  else if (area1 >? area2)%Q then 1
  else 0.

Definition smaller_tl (box1 box2 : PackerRectangle) : Z :=
  let r := smaller (width box1) (height box1) (width box2) (height box2) in
  if negb (Z.eqb r 0) then r else topleft box1 box2.

Definition _larger (w1 h1 w2 h2 : Q) : Z :=
  let r := smaller w1 h1 w2 h2 in
  if Z.eqb r (-1) then 1 else if Z.eqb r 1 then -1 else r.

(** [Array.prototype.sort] with a comparison function, as the insertion
    sort of the V8 engine of Node 9 (the runtime of the Dockerfile), which
    that engine uses for arrays of at most ten elements: an element moves
    in front of its left neighbour while [comparefn(neighbour, element)]
    is positive. *)
Section Sort.
Context {A : Type} (comparefn : A -> A -> Z).

(** [sorted] is the sorted prefix in reverse order (nearest neighbour
    first). *)
Fixpoint sortInsert (element : A) (sortedRev : list A) : list A :=
  match sortedRev with
  | [] => [element]
  | tmp :: rest =>
      if Z.ltb 0 (comparefn tmp element) then
        tmp :: sortInsert element rest
      else element :: sortedRev
  end.

Definition jsSort (l : list A) : list A :=
  rev (fold_left (fun acc x => sortInsert x acc) l []).
End Sort.

(** A monadic form of the insertion sort of [jsSort], for
    comparison functions that may leave the embedding. *)
Section SortM.
Context {A : Type} (comparefn : A -> A -> outcome Z).

Fixpoint sortInsertM (element : A) (sortedRev : list A) : outcome (list A) :=
  match sortedRev with
  | [] => Ok [element]
  | tmp :: rest =>
      obind (comparefn tmp element) (fun order =>
        if Z.ltb 0 order then
          obind (sortInsertM element rest) (fun l => Ok (tmp :: l))
        else Ok (element :: sortedRev))
  end.

Definition jsSortM (l : list A) : outcome (list A) :=
  obind (ofoldM (fun acc x => sortInsertM x acc) l [])
        (fun r => Ok (rev r)).
End SortM.

(** *** Regions, bounds and anchors *)

(** [validRegion] *)
Definition validRegion (validlist : list string) (rect : PackerRectangle)
  : bool :=
  match regionId rect with
  | Some r => Js.contains validlist r
  | None => false
  end
  || match deviceId rect with
     | Some d => Js.contains validlist d
     | None => false
     end.

(** [isAnchored] *)
Definition isAnchored (c : option ILayoutConstraint) : bool :=
  match c with
  | Some c => Js.isSet (anchor c)
  | None => false
  end.

(** [hasAnchor] *)
Definition hasAnchor (c : ILayoutConstraint) (a : string) : bool :=
  match anchor c with
  | Some l => Js.contains l a
  | None => false
  end.

(** [anchoredLeft], [anchoredTop], [anchoredRight], [anchoredBottom] and
    [anchoredVCenter], by the name of the anchor. *)
Definition anchored (c : option ILayoutConstraint) (a : string) : bool :=
  match c with
  | Some c' => isAnchored c && hasAnchor c' a
  | None => false
  end.

(** [computeBounds].  The two centre tests of the source read the anchors
    of the rectangle instead of those of its constraints; a rectangle has
    none, and both centres stay at -1. *)
Definition computeBounds (bbox : PackerRectangle) (isAnchored : bool)
    (reduction : Q) (c : ILayoutConstraint) : BBox :=
  let on (a : string) (v : Q) : Q :=
    if isAnchored && hasAnchor c a then v else (-1)%Q in
  {| bb_boundingWidth := boundingWidth bbox;
     bb_boundingHeight := boundingHeight bbox;
     bb_width := (boundingWidth bbox * reduction)%Q;
     bb_height := (boundingHeight bbox * reduction)%Q;
     boundingX0 := on "left" 0%Q;
     boundingY0 := on "top" 0%Q;
     boundingX1 := on "right" (x0 bbox + width bbox * reduction)%Q;
     boundingY1 := on "bottom" (y0 bbox + height bbox * reduction)%Q;
     centerX := (-1)%Q;
     centerY := (-1)%Q |}.

(** [packedDependencies] *)
Definition packedDependencies (rect : PackerRectangle)
    (placedRects : list string) : outcome bool :=
  match constraints rect with
  | None => TypeError
  | Some c => Ok (forallb (Js.contains placedRects) (dependencies c))
  end.

(** [fitsIn] *)
Definition fitsIn (rect nodeRect : PackerRectangle) : bool :=
  (width rect <=? width nodeRect)%Q && (height rect <=? height nodeRect)%Q.

(** [fitsExactly] *)
Definition fitsExactly (rect nodeRect : PackerRectangle) : bool :=
  (width rect <=? width nodeRect)%Q
  && (width rect >=? width nodeRect - Globals.MinDimension)%Q
  && (height rect <=? height nodeRect)%Q
  && (height rect >=? height nodeRect - Globals.MinDimension)%Q.

(** [centered] *)
Definition centered (rect : PackerRectangle) (direction : string) : bool :=
  if String.eqb direction "vertical" then
    let midpt := (boundingHeight rect / 2)%Q in
    negb ((y0 rect + height rect <? midpt)%Q || (y0 rect >? midpt)%Q)
  else
    let midpt := (boundingWidth rect / 2)%Q in
    negb ((x0 rect + width rect <? midpt)%Q || (x0 rect >? midpt)%Q).

(** [setUndefinedLegLength], for the leg [which] of the node rectangle and
    of the enclosing box. *)
Definition setUndefinedLegLength (nodeRect : PackerRectangle)
    (parentRect : BBox) (factor : Q) (which : string) (minSize : ISize)
    (margin : Q) : Q :=
  let isW := String.eqb which "width" in
  let parentLeg := if isW then bb_width parentRect else bb_height parentRect in
  let nodeLeg := if isW then width nodeRect else height nodeRect in
  let minLeg := if isW then wd minSize else ht minSize in
  let dim := (parentLeg * factor - 2 * margin)%Q in
  let leg := (nodeLeg * factor - 2 * margin)%Q in
  if (area nodeRect >? bb_width parentRect * bb_height parentRect)%Q then
    if (leg >=? minLeg)%Q then leg else dim
  else if (dim >=? minLeg)%Q then dim else leg.

End PackerUtils.

(** ** Device (model/Device.ts) *)

Module Device.

(** [meetConstraints].  With no [margin] in the constraint the two size
    comparisons are made against [NaN] and are false. *)
Definition meetConstraints (device : Doc.Device) (c : Doc.ConstraintDoc)
  : bool :=
  let caps := Doc.caps device in
  let tooSmall :=
    match Doc.minSize c, Doc.margin c with
    | Some ms, Some m =>
        (Doc.width ms >? Doc.displayWidth caps - 2 * m)%Q
        || (Doc.height ms >? Doc.displayHeight caps - 2 * m)%Q
    | _, _ => false
    end in
  let below1 (cap : option Q) :=
    match cap with
    | Some n => (n <? 1)%Q
    | None => false
    end in
  if tooSmall then false
  else if bool_decide (Doc.audio c = Some true)
          && below1 (Doc.concurrentAudio caps) then false
  else if bool_decide (Doc.video c = Some true)
          && below1 (Doc.concurrentVideo caps) then false
  else if bool_decide (Doc.touchInteraction c = Some true)
          && negb (bool_decide (Doc.caps_touchInteraction caps = Some true))
  then false
  else true.

End Device.

(** ** LayoutGenerator (tools/LayoutGenerator.ts) *)

Module LayoutGenerator.
Import PackerUtils.
Local Open Scope outcome_scope.

(** [ContextLayout] *)
Record ContextLayout := mkContextLayout {
  cl_devices : list Layout.DeviceLayout;
  cl_notPlaced : list Layout.Skipped }.

(** The result of [LayoutPacker._pack]: the placed rectangles and the ids
    of the components that were not placed. *)
Record Packing := mkPacking {
  p_layout : list PackerRectangle;
  p_notPlaced : list string;
  p_noDevice : list string }.

(** A component of [getPrioritizedComponentList]: a clone of the DMApp's
    component with its constraint sets attached. *)
Record PrioritizedComponent := mkPrioritized {
  pc_component : Doc.Component;
  pc_constraints : Doc.ConstraintDoc;
  pc_personalconstraints : option Doc.ConstraintDoc }.

(** [buildRegionNodeTree]: one root rectangle per logical region, or one
    for the whole display of a device that declares no region. *)
Definition rootRect (device : Doc.Device) (dev : string) (w h : Q)
    (region : string) : PackerRectangle :=
  {| x0 := 0; y0 := 0; width := w; height := h;
     dpi := Doc.displayResolution (Doc.caps device);
     deviceId := Some dev; regionId := Some region;
     boundingWidth := w; boundingHeight := h;
     maxVideo := Doc.concurrentVideo (Doc.caps device);
     maxAudio := Doc.concurrentAudio (Doc.caps device);
     communal := Doc.communalDevice (Doc.caps device);
     componentId := None; DMAppId := None; r_margin := None;
     constraints := None; personalconstraints := None |}.

Definition deviceRegions (device : Doc.Device) (dev : string)
  : list PackerRectangle :=
  match Doc.regions device with
  | None | Some [] =>
      [rootRect device dev (Doc.displayWidth (Doc.caps device))
         (Doc.displayHeight (Doc.caps device)) dev]
  | Some rs =>
      map (fun r => rootRect device dev (Doc.r_displayWidth r)
                      (Doc.r_displayHeight r) (Doc.r_regionId r)) rs
  end.

Definition buildRegionNodeTree (ctx : Doc.Context) (devices : list string)
  : outcome (list PackerRectangle) :=
  l <- omapM (fun dev =>
                device <- defined (Context.getDevice ctx dev);;
                Ok (deviceRegions device dev)) devices;;
  Ok (concat l).

(** [getAspect]: the ratio height over width of the aspect string. *)
Definition getAspect (c : Doc.ConstraintDoc) : outcome Q :=
  match Doc.aspect c with
  | None => Ok noAspect
  | Some (w, h) => if (w =? 0)%Q then NotANumber else Ok (h / w)%Q
  end.

(** [getPrefSize] *)
Definition getPrefSize (c : Doc.Component) (constraints : Doc.ConstraintDoc)
  : Doc.PackingSize :=
  match Doc.c_prefSize c with
  | Some p => p
  | None => default defaultPrefSize (Doc.prefSize constraints)
  end.

(** The comparison function of [getPrioritizedComponentList].  Both
    components carry a constraint set here, so the two tests of the source
    for a missing one are not taken. *)
Definition prioritizedCompare (app : Doc.DMApp) (device : Doc.Device)
    (a b : PrioritizedComponent) : outcome Z :=
  let priorityA := DMApp.getPriority app (pc_component a) device "personal" in
  let priorityB := DMApp.getPriority app (pc_component b) device "personal" in
  if Z.ltb priorityA priorityB then Ok 1
  else if Z.ltb priorityB priorityA then Ok (-1)
  else if Js.isSet (Doc.anchor (pc_constraints a)) then Ok 1
  else if Js.isSet (Doc.anchor (pc_constraints b)) then Ok (-1)
  else
    let box :=
      {| b_boundingWidth := Doc.displayWidth (Doc.caps device);
         b_boundingHeight := Doc.displayHeight (Doc.caps device);
         b_dpi := Doc.displayResolution (Doc.caps device) |} in
    ma <- defined (Doc.minSize (pc_constraints a));;
    mb <- defined (Doc.minSize (pc_constraints b));;
    sa <- numeric (toPixelResolution ma minRect box noAspect);;
    sb <- numeric (toPixelResolution mb minRect box noAspect);;
    Ok (Util.isLarger (wd sa) (ht sa) (wd sb) (ht sb)).

(** [getPrioritizedComponentList] *)
Definition getPrioritizedComponentList (app : Doc.DMApp)
    (device : Doc.Device) (grouptype : Context.groupType)
  : outcome (list PrioritizedComponent) :=
  let isMixed := Context.groupType_eqb grouptype Context.mixed in
  let components :=
    map (fun c =>
           if isMixed then
             {| pc_component := c;
                pc_constraints :=
                  DMApp.getComponentConstraints app (Doc.c_constraintId c) true;
                pc_personalconstraints :=
                  Some (DMApp.getComponentConstraints app
                          (Doc.c_constraintId c) false) |}
           else
             {| pc_component := c;
                pc_constraints :=
                  DMApp.getComponentConstraints app (Doc.c_constraintId c)
                    (Doc.communalDevice (Doc.caps device));
                pc_personalconstraints := None |})
        (Doc.components app) in
  if Nat.ltb (length components) 2 then Ok components
  else jsSortM (prioritizedCompare app device) components.

(** The regions a constraint set may use: every region of a device that
    meets the constraints, restricted to [targetRegions] when present.
    [seen] is the list the source tests for duplicates, which for the
    personal set of a mixed group is the list of the communal set. *)
Definition pushRegion (ctx : Doc.Context) (c : Doc.ConstraintDoc)
    (seen : option (list string)) (acc : list string) (dev : PackerRectangle)
  : outcome (list string) :=
  devId <- defined (deviceId dev);;
  regId <- defined (regionId dev);;
  device <- defined (Context.getDevice ctx devId);;
  if Device.meetConstraints device c then
    match Doc.targetRegions c with
    | Some targets =>
        if Js.contains targets regId then Ok (acc ++ [regId]) else Ok acc
    | None =>
        if negb (Js.contains (default acc seen) regId)
        then Ok (acc ++ [regId]) else Ok acc
    end
  else Ok acc.

Definition withMargin (c : Doc.ConstraintDoc) : Doc.ConstraintDoc :=
  {| Doc.aspect := Doc.aspect c; Doc.prefSize := Doc.prefSize c;
     Doc.minSize := Doc.minSize c;
     Doc.targetRegions := Doc.targetRegions c;
     Doc.priority := Doc.priority c;
     Doc.audio := Doc.audio c; Doc.video := Doc.video c;
     Doc.touchInteraction := Doc.touchInteraction c;
     Doc.margin := Some (default 0%Q (Doc.margin c));
     Doc.anchor := Doc.anchor c;
     Doc.componentDependency := Doc.componentDependency c |}.

(** The constraint object after the assignments of [buildComponentList].
    [minSize] is always present on a constraint set that comes from
    [DMApp.getComponentConstraints]. *)
Definition resolved (c : Doc.Component) (doc : Doc.ConstraintDoc)
    (prio : Z) (validregions : list string) : outcome ILayoutConstraint :=
  asp <- getAspect doc;;
  ms <- defined (Doc.minSize doc);;
  Ok {| aspect := Doc.aspect doc;
        _aspect := asp;
        prefSize := getPrefSize c doc;
        minSize := ms;
        valid := validregions;
        priority := prio;
        audio := Doc.audio doc;
        video := Doc.video doc;
        margin := default 0%Q (Doc.margin doc);
        marginInches := None;
        anchor := Doc.anchor doc;
        dependencies := default [] (Doc.componentDependency doc) |}.

(** An entry of [componentlist]: the component with its constraint sets;
    the packer writes the geometry. *)
Definition entry (app : Doc.DMApp) (c : Doc.Component)
    (com : ILayoutConstraint) (personal : option ILayoutConstraint)
  : PackerRectangle :=
  {| x0 := 0; y0 := 0; width := 0; height := 0; dpi := None;
     deviceId := None; regionId := None;
     boundingWidth := 0; boundingHeight := 0;
     maxVideo := None; maxAudio := None; communal := false;
     componentId := Some (Doc.componentId c);
     DMAppId := Some (Doc.dmapp_id app); r_margin := None;
     constraints := Some com; personalconstraints := personal |}.

(** The comparison function of the final sort of [buildComponentList]. *)
Definition clistCompare (region0 : Bounds) (a b : ILayoutConstraint)
  : outcome Z :=
  let pa := priority a in
  let pb := priority b in
  if Z.ltb pa pb then Ok 1
  else if Z.ltb pb pa then Ok (-1)
  else
    sa <- numeric (rectSize a (Some region0));;
    sb <- numeric (rectSize b (Some region0));;
    let r := largerEqual (wd sa) (ht sa) (wd sb) (ht sb) in
    if negb (Z.eqb r 0) then Ok r
    else
      match anchor a, anchor b with
      | _, None => Ok 1
      | None, Some _ => Ok (-1)
      | Some anchorA, Some anchorB =>
          if Js.contains anchorA "top" then Ok (-1)
          else if Js.contains anchorB "top" then Ok 1
          else if Js.contains anchorA "right" then Ok (-1)
          else if Js.contains anchorB "right" then Ok 1
          else if Js.contains anchorA "left" then Ok (-1)
          else if Js.contains anchorB "left" then Ok 1
          else if Js.contains anchorA "bottom" then Ok (-1)
          else if Js.contains anchorB "bottom" then Ok 1
          else Ok (-1)
      end.

Definition entryCompare (region0 : Bounds) (a b : PackerRectangle)
  : outcome Z :=
  ca <- defined (constraints a);;
  cb <- defined (constraints b);;
  clistCompare region0 ca cb.

(** The body of [components.forEach] in [buildComponentList]: the entry of
    the component, when it is visible and has a valid region. *)
Definition buildEntry (ctx : Doc.Context) (app : Doc.DMApp)
    (device : Doc.Device) (regions : list PackerRectangle)
    (grouptype : Context.groupType) (c : PrioritizedComponent)
  : outcome (option PackerRectangle) :=
  let isMixed := Context.groupType_eqb grouptype Context.mixed in
  let comp := pc_component c in
  let comconstraints := pc_constraints c in
  validregions <- ofoldM (pushRegion ctx comconstraints None) regions [];;
  personal <-
    (if isMixed then
       p <- defined (pc_personalconstraints c);;
       pvalid <- ofoldM (pushRegion ctx (withMargin p) (Some validregions))
                   regions [];;
       r <- resolved comp p (DMApp.resolvePriority app comp device false)
              pvalid;;
       Ok (Some r)
     else Ok None);;
  com <- resolved comp comconstraints
           (DMApp.resolvePriority app comp device
              (if isMixed then true
               else Doc.communalDevice (Doc.caps device)))
           validregions;;
  let visible :=
    match Doc.visible (Doc.layout comp) with
    | None => true
    | Some v => v
    end && Z.ltb 0 (priority com) in
  if Nat.ltb 0 (length validregions) && visible
  then Ok (Some (entry app comp com personal))
  else Ok None.

(** [buildComponentList]: the sorted [componentlist] and [allIds]. *)
Definition buildComponentList (ctx : Doc.Context) (dmapps : list Doc.DMApp)
    (devicelist : list string) (regions : list PackerRectangle)
    (grouptype : Context.groupType)
  : outcome (list PackerRectangle * list string) :=
  dev0 <- defined (head devicelist);;
  device <- defined (Context.getDevice ctx dev0);;
  region0 <- defined (head regions);;
  perApp <- omapM
    (fun app =>
       components <- getPrioritizedComponentList app device grouptype;;
       entries <- omapM (buildEntry ctx app device regions grouptype)
                    components;;
       Ok (omap id entries,
           map (fun c => Doc.componentId (pc_component c)) components))
    dmapps;;
  let componentlist := concat (map fst perApp) in
  let allids := concat (map snd perApp) in
  clist <- jsSortM (entryCompare (boundsOfRect region0)) componentlist;;
  Ok (clist, allids).

(** *** Post-processing of a layout *)

Definition strOf (o : option string) : string := default "null" o.

Definition withLayout (c : Doc.Component) (l : Doc.CLayout) : Doc.Component :=
  {| Doc.componentId := Doc.componentId c;
     Doc.c_constraintId := Doc.c_constraintId c;
     Doc.startTime := Doc.startTime c; Doc.stopTime := Doc.stopTime c;
     Doc.layout := l;
     Doc.priorityOverrides := Doc.priorityOverrides c;
     Doc.c_prefSize := Doc.c_prefSize c;
     Doc.DMAppId := Doc.DMAppId c; Doc.c_contextId := Doc.c_contextId c |}.

Definition withGeometry (l : Doc.CLayout) (p : option Doc.Position)
    (s : option Doc.Size) : Doc.CLayout :=
  {| Doc.position := p; Doc.size := s; Doc.zDepth := Doc.zDepth l;
     Doc.instanceId := Doc.instanceId l;
     Doc.l_priority := Doc.l_priority l; Doc.visible := Doc.visible l;
     Doc.l_deviceId := Doc.l_deviceId l; Doc.l_regionId := Doc.l_regionId l;
     Doc.l_mode := Doc.l_mode l |}.

(** The first loop of [postProcess] on one component: the instance id, and
    the purge of a region id that equals the device id. *)
Definition stamp (ctx : Doc.Context) (comp : Doc.Component) : Doc.Component :=
  let l := Doc.layout comp in
  withLayout comp
    {| Doc.position := Doc.position l; Doc.size := Doc.size l;
       Doc.zDepth := Doc.zDepth l;
       Doc.instanceId :=
         Some (Util.componentInstanceId (Doc.ctx_id ctx)
                 (strOf (Doc.DMAppId comp)) (strOf (Doc.l_deviceId l))
                 (Doc.componentId comp));
       Doc.l_priority := Doc.l_priority l; Doc.visible := Doc.visible l;
       Doc.l_deviceId := Doc.l_deviceId l;
       Doc.l_regionId :=
         if Js.ostr_eqb (Doc.l_deviceId l) (Doc.l_regionId l) then None
         else Doc.l_regionId l;
       Doc.l_mode := Doc.l_mode l |}.

(** The width and height a component's coordinates are relative to: those
    of its region when it names one the device declares (the last one of
    that id), those of the display otherwise. *)
Definition referenceSize (device : Doc.Device) (comp : Doc.Component)
  : outcome (Q * Q) :=
  let devWidth := Doc.displayWidth (Doc.caps device) in
  let devHeight := Doc.displayHeight (Doc.caps device) in
  match Doc.l_regionId (Doc.layout comp) with
  | None => Ok (devWidth, devHeight)
  | Some rid =>
      regions <- defined (Doc.regions device);;
      Ok (fold_left
            (fun acc region =>
               if String.eqb (Doc.r_regionId region) rid
               then (Doc.r_displayWidth region, Doc.r_displayHeight region)
               else acc)
            regions (devWidth, devHeight))
  end.

Definition mapCoord (f : Q -> Doc.Coord) (c : Doc.Coord) : Doc.Coord :=
  match c with
  | Doc.Pixels q => f q
  | Doc.Percent _ => c
  end.

Definition mapGeometry (fw fh : Q -> Doc.Coord) (comp : Doc.Component)
  : Doc.Component :=
  let l := Doc.layout comp in
  withLayout comp
    (withGeometry l
       (option_map
          (fun p => {| Doc.p_x := mapCoord fw (Doc.p_x p);
                       Doc.p_y := mapCoord fh (Doc.p_y p) |})
          (Doc.position l))
       (option_map
          (fun s => {| Doc.s_width := mapCoord fw (Doc.s_width s);
                       Doc.s_height := mapCoord fh (Doc.s_height s) |})
          (Doc.size l))).

Definition mapDevices (ctx : Doc.Context)
    (f : Doc.Device -> Doc.Component -> outcome Doc.Component)
    (layout : ContextLayout) : outcome ContextLayout :=
  devs <- omapM
    (fun dev =>
       device <- defined (Context.getDevice ctx (Layout.dl_deviceId dev));;
       comps <- omapM (f device) (Layout.dl_components dev);;
       Ok {| Layout.dl_deviceId := Layout.dl_deviceId dev;
             Layout.dl_components := comps |})
    (cl_devices layout);;
  Ok {| cl_devices := devs; cl_notPlaced := cl_notPlaced layout |}.

(** [convertLayoutToPercentages] *)
Definition convertLayoutToPercentages (ctx : Doc.Context)
    (layout : ContextLayout) : outcome ContextLayout :=
  mapDevices ctx
    (fun device comp =>
       wh <- referenceSize device comp;;
       Ok (mapGeometry (fun q => Doc.Percent (100 * q / fst wh)%Q)
                       (fun q => Doc.Percent (100 * q / snd wh)%Q) comp))
    layout.

(** [truncateLayoutSizes] *)
Definition truncateLayoutSizes (ctx : Doc.Context) (layout : ContextLayout)
  : outcome ContextLayout :=
  mapDevices ctx
    (fun device comp =>
       _ <- referenceSize device comp;;
       Ok (mapGeometry (fun q => Doc.Pixels (Js.round q))
                       (fun q => Doc.Pixels (Js.round q)) comp))
    layout.

(** [postProcess] *)
Definition postProcess (ctx : Doc.Context) (layout : ContextLayout)
  : outcome ContextLayout :=
  let stamped :=
    {| cl_devices :=
         map (fun dev =>
                {| Layout.dl_deviceId := Layout.dl_deviceId dev;
                   Layout.dl_components :=
                     map (stamp ctx) (Layout.dl_components dev) |})
             (cl_devices layout);
       cl_notPlaced := cl_notPlaced layout |} in
  if bool_decide (Doc.percentCoords ctx = Some true)
  then convertLayoutToPercentages ctx stamped
  else truncateLayoutSizes ctx stamped.

(** *** Running the packer for one group *)

(** [_.difference] and [_.union] on lists of ids. *)
Definition difference (a b : list string) : list string :=
  filter (fun x => negb (Js.contains b x)) a.

Definition uniq (l : list string) : list string :=
  fold_left (fun acc x => if Js.contains acc x then acc else acc ++ [x]) l [].

Definition union (a b : list string) : list string := uniq (a ++ b).

Definition pushNotPlaced (layout : ContextLayout) (groupname st : string)
    (ids : list string) : ContextLayout :=
  {| cl_devices := cl_devices layout;
     cl_notPlaced :=
       cl_notPlaced layout ++
       [{| Layout.sk_group := groupname; Layout.status := st;
           Layout.sk_components := ids |}] |}.

(** [groupLayout[deviceId].push(component)]: the dictionary keeps its keys
    in insertion order (device ids are not array indices). *)
Fixpoint pushGroup (dev : string) (comp : Doc.Component)
    (g : list (string * list Doc.Component))
  : list (string * list Doc.Component) :=
  match g with
  | [] => [(dev, [comp])]
  | (d, cs) :: rest =>
      if String.eqb d dev then (d, cs ++ [comp]) :: rest
      else (d, cs) :: pushGroup dev comp rest
  end.

(** The body of [packed.layout.forEach] in [runLayout]: the layout record
    of one rectangle the packer returned. *)
Definition placedComponent (ctx : Doc.Context) (dmapps : list Doc.DMApp)
    (grouptype : Context.groupType) (c : PackerRectangle)
  : outcome Doc.Component :=
  app <- defined (find (fun a => Js.ostr_eqb (Some (Doc.dmapp_id a)) (DMAppId c))
                    dmapps);;
  cid <- defined (componentId c);;
  component <- defined (DMApp.getComponent app cid);;
  usePersonal <-
    (if Context.groupType_eqb grouptype Context.mixed then
       devId <- defined (deviceId c);;
       device <- defined (Context.getDevice ctx devId);;
       Ok (negb (Doc.communalDevice (Doc.caps device)))
     else Ok false);;
  componentConstraints <-
    defined (if usePersonal then personalconstraints c else constraints c);;
  let m := margin componentConstraints in
  let l := Doc.layout component in
  Ok {| Doc.componentId := Doc.componentId component;
        Doc.c_constraintId := Doc.c_constraintId component;
        Doc.startTime := Doc.startTime component;
        Doc.stopTime := Doc.stopTime component;
        Doc.layout :=
          {| Doc.position :=
               Some {| Doc.p_x := Doc.Pixels (x0 c + m);
                       Doc.p_y := Doc.Pixels (y0 c + m) |};
             Doc.size :=
               Some {| Doc.s_width := Doc.Pixels (width c - 2 * m);
                       Doc.s_height := Doc.Pixels (height c - 2 * m) |};
             Doc.zDepth := Doc.zDepth l;
             Doc.instanceId := Doc.instanceId l;
             Doc.l_priority := Some (priority componentConstraints);
             Doc.visible := Doc.visible l;
             Doc.l_deviceId := deviceId c;
             Doc.l_regionId :=
               match regionId c with
               | Some r => Some r
               | None => deviceId c
               end;
             Doc.l_mode := Doc.mode (prefSize componentConstraints) |};
        Doc.priorityOverrides := Doc.priorityOverrides component;
        Doc.c_prefSize := Doc.c_prefSize component;
        Doc.DMAppId := Some (Doc.dmapp_id app);
        Doc.c_contextId := Some (Doc.ctx_id ctx) |}.

Section RunLayout.

(** [LayoutPacker.packRegions] *)
Variable packRegions :
  list PackerRectangle -> list PackerRectangle -> bool -> outcome Packing.

(** The part of [runLayout] that follows the call of the packer. *)
Definition assemble (ctx : Doc.Context) (dmapps : list Doc.DMApp)
    (layout : ContextLayout) (groupname : string)
    (grouptype : Context.groupType) (componentlist : list PackerRectangle)
    (allIds : list string) (packed : Packing) : outcome ContextLayout :=
  let nodevice0 :=
    difference allIds (omap componentId componentlist) in
  let nodevice := union nodevice0 (p_noDevice packed) in
  let layout1 :=
    if Nat.ltb 0 (length nodevice)
    then pushNotPlaced layout groupname "incompatible" nodevice
    else layout in
  let layout2 :=
    if Nat.ltb 0 (length (p_notPlaced packed))
    then pushNotPlaced layout1 groupname "skipped" (p_notPlaced packed)
    else layout1 in
  match p_layout packed with
  | [] => Ok layout2
  | _ =>
      acc <- ofoldM
        (fun (acc : list (string * list Doc.Component) * list string) c =>
           component <- placedComponent ctx dmapps grouptype c;;
           match Doc.l_deviceId (Doc.layout component) with
           | Some dev => Ok (pushGroup dev component (fst acc), snd acc)
           | None => Ok (fst acc, snd acc ++ [Doc.componentId component])
           end)
        (p_layout packed) ([], []);;
      let layout3 :=
        {| cl_devices :=
             cl_devices layout2 ++
             map (fun kv => {| Layout.dl_deviceId := fst kv;
                               Layout.dl_components := snd kv |})
                 (fst acc);
           cl_notPlaced := cl_notPlaced layout2 |} in
      let layout4 :=
        if Nat.ltb 0 (length (snd acc))
        then pushNotPlaced layout3 groupname "skipped" (snd acc)
        else layout3 in
      postProcess ctx layout4
  end.

(** [runLayout] *)
Definition runLayout (ctx : Doc.Context) (dmapps : list Doc.DMApp)
    (layout : ContextLayout) (devicelist : list string)
    (groupname : string) (grouptype : Context.groupType)
  : outcome ContextLayout :=
  regions <- buildRegionNodeTree ctx devicelist;;
  match regions with
  | [] => Ok layout
  | _ =>
      clist <- buildComponentList ctx dmapps devicelist regions grouptype;;
      match fst clist with
      | [] =>
          if Nat.ltb 0 (length (snd clist))
          then Ok (pushNotPlaced layout groupname "incompatible" (snd clist))
          else Ok layout
      | componentlist =>
          packed <- packRegions regions componentlist
                      (Context.groupType_eqb grouptype Context.mixed);;
          assemble ctx dmapps layout groupname grouptype componentlist
            (snd clist) packed
      end
  end.

(** [computeLayout] *)
Definition computeLayout (ctx : Doc.Context) (dmapps : list Doc.DMApp)
  : outcome ContextLayout :=
  ofoldM
    (fun layout (g : string * Context.groupType) =>
       runLayout ctx dmapps layout (Context.getGroupDevices ctx (fst g))
         (fst g) (snd g))
    (Context.getDeviceGroups ctx)
    {| cl_devices := []; cl_notPlaced := [] |}.

End RunLayout.

End LayoutGenerator.

(** ** LayoutPacker (tools/LayoutPacker.ts): the store and the monad *)

Module LayoutPacker.
Import PackerUtils.

(** *** Updates of a rectangle *)

Definition setGeometry (r : PackerRectangle) (x y w h : Q) : PackerRectangle :=
  {| x0 := x; y0 := y; width := w; height := h; dpi := dpi r;
     deviceId := deviceId r; regionId := regionId r;
     boundingWidth := boundingWidth r; boundingHeight := boundingHeight r;
     maxVideo := maxVideo r; maxAudio := maxAudio r; communal := communal r;
     componentId := componentId r; DMAppId := DMAppId r;
     r_margin := r_margin r; constraints := constraints r;
     personalconstraints := personalconstraints r |}.

Definition setX0 r x := setGeometry r x (y0 r) (width r) (height r).
Definition setY0 r y := setGeometry r (x0 r) y (width r) (height r).
Definition setWidth r w := setGeometry r (x0 r) (y0 r) w (height r).
Definition setHeight r h := setGeometry r (x0 r) (y0 r) (width r) h.
Definition setPosition r x y := setGeometry r x y (width r) (height r).
Definition setSize r w h := setGeometry r (x0 r) (y0 r) w h.

Definition setComponentId (r : PackerRectangle) (c : option string)
  : PackerRectangle :=
  {| x0 := x0 r; y0 := y0 r; width := width r; height := height r;
     dpi := dpi r; deviceId := deviceId r; regionId := regionId r;
     boundingWidth := boundingWidth r; boundingHeight := boundingHeight r;
     maxVideo := maxVideo r; maxAudio := maxAudio r; communal := communal r;
     componentId := c; DMAppId := DMAppId r;
     r_margin := r_margin r; constraints := constraints r;
     personalconstraints := personalconstraints r |}.

Definition setConstraints (r : PackerRectangle)
    (c p : option ILayoutConstraint) : PackerRectangle :=
  {| x0 := x0 r; y0 := y0 r; width := width r; height := height r;
     dpi := dpi r; deviceId := deviceId r; regionId := regionId r;
     boundingWidth := boundingWidth r; boundingHeight := boundingHeight r;
     maxVideo := maxVideo r; maxAudio := maxAudio r; communal := communal r;
     componentId := componentId r; DMAppId := DMAppId r;
     r_margin := r_margin r; constraints := c;
     personalconstraints := p |}.

Definition setMargin (r : PackerRectangle) (m : option Q) : PackerRectangle :=
  {| x0 := x0 r; y0 := y0 r; width := width r; height := height r;
     dpi := dpi r; deviceId := deviceId r; regionId := regionId r;
     boundingWidth := boundingWidth r; boundingHeight := boundingHeight r;
     maxVideo := maxVideo r; maxAudio := maxAudio r; communal := communal r;
     componentId := componentId r; DMAppId := DMAppId r;
     r_margin := m; constraints := constraints r;
     personalconstraints := personalconstraints r |}.

(** The fields a placed rectangle takes from its node. *)
Definition setPlacement (r : PackerRectangle) (d : option Q)
    (dev reg : option string) (bw bh : Q) : PackerRectangle :=
  {| x0 := x0 r; y0 := y0 r; width := width r; height := height r;
     dpi := d; deviceId := dev; regionId := reg;
     boundingWidth := bw; boundingHeight := bh;
     maxVideo := maxVideo r; maxAudio := maxAudio r; communal := communal r;
     componentId := componentId r; DMAppId := DMAppId r;
     r_margin := r_margin r; constraints := constraints r;
     personalconstraints := personalconstraints r |}.

Definition setRegion (r : PackerRectangle) (dev reg : option string)
  : PackerRectangle :=
  setPlacement r (dpi r) dev reg (boundingWidth r) (boundingHeight r).

Definition setConstraintMargin (c : ILayoutConstraint) (m : Q)
  : ILayoutConstraint :=
  {| aspect := aspect c; _aspect := _aspect c; prefSize := prefSize c;
     minSize := minSize c;
     valid := valid c; priority := priority c; audio := audio c;
     video := video c; margin := m; marginInches := marginInches c;
     anchor := anchor c; dependencies := dependencies c |}.

(** *** Tree nodes and the store *)

(** [Node].  [child] holds the addresses of the children. *)
Record Node := mkNode {
  id : Z;
  rect : PackerRectangle;
  occupiedBy : option string;
  dropped : bool;
  split : option string;
  fitChild : option Z;
  child : option (list nat) }.

Definition setRect (n : Node) (r : PackerRectangle) : Node :=
  {| id := id n; rect := r; occupiedBy := occupiedBy n; dropped := dropped n;
     split := split n; fitChild := fitChild n; child := child n |}.
Definition setOccupiedBy (n : Node) (o : option string) : Node :=
  {| id := id n; rect := rect n; occupiedBy := o; dropped := dropped n;
     split := split n; fitChild := fitChild n; child := child n |}.
Definition setDropped (n : Node) (d : bool) : Node :=
  {| id := id n; rect := rect n; occupiedBy := occupiedBy n; dropped := d;
     split := split n; fitChild := fitChild n; child := child n |}.
Definition setSplit (n : Node) (s : option string) : Node :=
  {| id := id n; rect := rect n; occupiedBy := occupiedBy n;
     dropped := dropped n; split := s; fitChild := fitChild n;
     child := child n |}.
Definition setFitChild (n : Node) (f : option Z) : Node :=
  {| id := id n; rect := rect n; occupiedBy := occupiedBy n;
     dropped := dropped n; split := split n; fitChild := f;
     child := child n |}.
Definition setChild (n : Node) (c : option (list nat)) : Node :=
  {| id := id n; rect := rect n; occupiedBy := occupiedBy n;
     dropped := dropped n; split := split n; fitChild := fitChild n;
     child := c |}.
Definition setId (n : Node) (i : Z) : Node :=
  {| id := i; rect := rect n; occupiedBy := occupiedBy n;
     dropped := dropped n; split := split n; fitChild := fitChild n;
     child := child n |}.

(** The packer object and the node objects it shares between its lists.
    A node object is an address of [heap]; [_nodes], [_updates] and
    [_dropped] hold addresses, so that an update of a node is seen through
    every list that holds it, and [Util.clone] allocates fresh objects. *)
Record Packer := mkPacker {
  heap : list Node;
  _nodes : list nat;
  _updates : list nat;
  _dropped : list nat;
  uuidCtr : Z;
  _numVideoComponentsPlaced : gmap string Q;
  _numAudioComponentsPlaced : gmap string Q;
  _device : bool;
  _pass : Z;
  _shuffling : bool;
  reduceFactor : Q;
  reduceIterations : Z;
  _isMixed : bool }.

Definition M (A : Type) : Type := Packer -> outcome (A * Packer).

Definition ret {A : Type} (a : A) : M A := fun s => Ok (a, s).

Definition bind {A B : Type} (m : M A) (f : A -> M B) : M B :=
  fun s =>
    match m s with
    | Ok (a, s') => f a s'
    | TypeError => TypeError
    | NotANumber => NotANumber
    | OutOfFuel => OutOfFuel
    | Repack => Repack
    end.

Definition lift {A : Type} (o : outcome A) : M A :=
  fun s =>
    match o with
    | Ok a => Ok (a, s)
    | TypeError => TypeError
    | NotANumber => NotANumber
    | OutOfFuel => OutOfFuel
    | Repack => Repack
    end.

Definition get : M Packer := fun s => Ok (s, s).
Definition put (s : Packer) : M unit := fun _ => Ok (tt, s).
Definition modify (f : Packer -> Packer) : M unit := fun s => Ok (tt, f s).

Declare Scope packer_scope.
Delimit Scope packer_scope with packer.
Notation "x <- m ;; k" := (bind m (fun x => k))
  (at level 100, m at next level, right associativity) : packer_scope.
Notation "m ;;; k" := (bind m (fun _ => k))
  (at level 100, right associativity) : packer_scope.
Local Open Scope packer_scope.

Fixpoint mapM {A B : Type} (f : A -> M B) (l : list A) : M (list B) :=
  match l with
  | [] => ret []
  | x :: rest => y <- f x;; ys <- mapM f rest;; ret (y :: ys)
  end.

Fixpoint forEach {A : Type} (f : A -> M unit) (l : list A) : M unit :=
  match l with
  | [] => ret tt
  | x :: rest => f x;;; forEach f rest
  end.

Definition setHeap (s : Packer) (h : list Node) : Packer :=
  {| heap := h; _nodes := _nodes s; _updates := _updates s;
     _dropped := _dropped s; uuidCtr := uuidCtr s;
     _numVideoComponentsPlaced := _numVideoComponentsPlaced s;
     _numAudioComponentsPlaced := _numAudioComponentsPlaced s;
     _device := _device s; _pass := _pass s; _shuffling := _shuffling s;
     reduceFactor := reduceFactor s; reduceIterations := reduceIterations s;
     _isMixed := _isMixed s |}.
Definition setNodes (s : Packer) (l : list nat) : Packer :=
  {| heap := heap s; _nodes := l; _updates := _updates s;
     _dropped := _dropped s; uuidCtr := uuidCtr s;
     _numVideoComponentsPlaced := _numVideoComponentsPlaced s;
     _numAudioComponentsPlaced := _numAudioComponentsPlaced s;
     _device := _device s; _pass := _pass s; _shuffling := _shuffling s;
     reduceFactor := reduceFactor s; reduceIterations := reduceIterations s;
     _isMixed := _isMixed s |}.
Definition setUpdates (s : Packer) (l : list nat) : Packer :=
  {| heap := heap s; _nodes := _nodes s; _updates := l;
     _dropped := _dropped s; uuidCtr := uuidCtr s;
     _numVideoComponentsPlaced := _numVideoComponentsPlaced s;
     _numAudioComponentsPlaced := _numAudioComponentsPlaced s;
     _device := _device s; _pass := _pass s; _shuffling := _shuffling s;
     reduceFactor := reduceFactor s; reduceIterations := reduceIterations s;
     _isMixed := _isMixed s |}.
Definition setDroppedList (s : Packer) (l : list nat) : Packer :=
  {| heap := heap s; _nodes := _nodes s; _updates := _updates s;
     _dropped := l; uuidCtr := uuidCtr s;
     _numVideoComponentsPlaced := _numVideoComponentsPlaced s;
     _numAudioComponentsPlaced := _numAudioComponentsPlaced s;
     _device := _device s; _pass := _pass s; _shuffling := _shuffling s;
     reduceFactor := reduceFactor s; reduceIterations := reduceIterations s;
     _isMixed := _isMixed s |}.
Definition setUuidCtr (s : Packer) (c : Z) : Packer :=
  {| heap := heap s; _nodes := _nodes s; _updates := _updates s;
     _dropped := _dropped s; uuidCtr := c;
     _numVideoComponentsPlaced := _numVideoComponentsPlaced s;
     _numAudioComponentsPlaced := _numAudioComponentsPlaced s;
     _device := _device s; _pass := _pass s; _shuffling := _shuffling s;
     reduceFactor := reduceFactor s; reduceIterations := reduceIterations s;
     _isMixed := _isMixed s |}.
Definition setCounters (s : Packer) (v a : gmap string Q) : Packer :=
  {| heap := heap s; _nodes := _nodes s; _updates := _updates s;
     _dropped := _dropped s; uuidCtr := uuidCtr s;
     _numVideoComponentsPlaced := v;
     _numAudioComponentsPlaced := a;
     _device := _device s; _pass := _pass s; _shuffling := _shuffling s;
     reduceFactor := reduceFactor s; reduceIterations := reduceIterations s;
     _isMixed := _isMixed s |}.
Definition setDevice (s : Packer) (b : bool) : Packer :=
  {| heap := heap s; _nodes := _nodes s; _updates := _updates s;
     _dropped := _dropped s; uuidCtr := uuidCtr s;
     _numVideoComponentsPlaced := _numVideoComponentsPlaced s;
     _numAudioComponentsPlaced := _numAudioComponentsPlaced s;
     _device := b; _pass := _pass s; _shuffling := _shuffling s;
     reduceFactor := reduceFactor s; reduceIterations := reduceIterations s;
     _isMixed := _isMixed s |}.
Definition setPass (s : Packer) (p : Z) : Packer :=
  {| heap := heap s; _nodes := _nodes s; _updates := _updates s;
     _dropped := _dropped s; uuidCtr := uuidCtr s;
     _numVideoComponentsPlaced := _numVideoComponentsPlaced s;
     _numAudioComponentsPlaced := _numAudioComponentsPlaced s;
     _device := _device s; _pass := p; _shuffling := _shuffling s;
     reduceFactor := reduceFactor s; reduceIterations := reduceIterations s;
     _isMixed := _isMixed s |}.

(** *** Objects *)

Definition read (a : nat) : M Node :=
  fun s => match heap s !! a with
           | Some n => Ok (n, s)
           | None => TypeError
           end.

Definition write (a : nat) (n : Node) : M unit :=
  modify (fun s => setHeap s (<[a := n]> (heap s))).

Definition update (a : nat) (f : Node -> Node) : M unit :=
  n <- read a;; write a (f n).

(** A new object. *)
Definition alloc (n : Node) : M nat :=
  fun s => Ok (length (heap s), setHeap s (heap s ++ [n])).

(** [PackerUtils.uuid] *)
Definition uuid : M Z :=
  fun s => Ok (uuidCtr s + 1, setUuidCtr s (uuidCtr s + 1)).

(** [Util.clone] of a node: a fresh object for the node and for every
    node below it.  [depth] bounds the nesting of [child]. *)
Fixpoint clone (depth : nat) (a : nat) : M nat :=
  match depth with
  | O => fun _ => OutOfFuel
  | S d =>
      n <- read a;;
      ch <- match child n with
            | None => ret None
            | Some l => l' <- mapM (clone d) l;; ret (Some l')
            end;;
      alloc (setChild n ch)
  end.

Definition cloneDepth : nat := 32.

(** [_.reject(list, node)]: the matcher built from a node compares the
    properties with [===], and the [rect] object of a node belongs to that
    node alone; the list loses exactly that object. *)
Definition reject (l : list nat) (a : nat) : list nat :=
  filter (fun b => negb (Nat.eqb a b)) l.

Definition rejectAll (l drop : list nat) : list nat :=
  fold_left reject drop l.

Definition nodes : M (list nat) := s <- get;; ret (_nodes s).

Definition pushNode (a : nat) : M unit :=
  modify (fun s => setNodes s (_nodes s ++ [a])).

Definition pushUpdate (a : nat) : M unit :=
  modify (fun s => setUpdates s (_updates s ++ [a])).

Definition pushDropped (a : nat) : M unit :=
  modify (fun s => setDroppedList s (_dropped s ++ [a])).

(** [this._dropped.forEach(d => this._nodes = _.reject(this._nodes, d));
    this._dropped = []] *)
Definition purgeDropped : M unit :=
  modify (fun s =>
            setDroppedList (setNodes s (rejectAll (_nodes s) (_dropped s))) []).

(** [this._nodes.find((t) => t.id === id)] *)
Fixpoint findById (i : Z) (l : list nat) : M (option nat) :=
  match l with
  | [] => ret None
  | a :: rest =>
      n <- read a;;
      if Z.eqb (id n) i then ret (Some a) else findById i rest
  end.

(** *** Splitting a node *)

(** [getDivide] *)
Definition getDivide (nodeW nodeH sizeW sizeH : Q) : string :=
  let dw := (nodeW - sizeW)%Q in
  let dh := (nodeH - sizeH)%Q in
  if (dw <? Globals.MinDimension)%Q && (dh <? Globals.MinDimension)%Q
  then "none"
  else if (dw >=? dh)%Q && (dw >? Globals.MinDimension)%Q then "width"
  else if (dh >? Globals.MinDimension)%Q then "height"
  else "none".

Definition below (c : PackerRectangle) (m : ISize) : bool :=
  (width c <? wd m)%Q || (height c <? ht m)%Q.

Definition freshNode (i : Z) (r : PackerRectangle) (o : option string) : Node :=
  {| id := i; rect := r; occupiedBy := o; dropped := false;
     split := None; fitChild := None; child := None |}.

(** [nodeDivide]: the node at [a] is [nodeToSplit], which the source
    returns.  On success the node has two children, [child1] of the size
    asked for and [child2] with the remainder. *)
Definition nodeDivide (splitdir : string) (a : nat)
    (rectToSplit : PackerRectangle) (splitW splitH : Q)
    (incomingRect : PackerRectangle) (primary : bool) : M unit :=
  n0 <- read a;;
  s <- get;;
  let nrect := rect n0 in
  let child1 :=
    setComponentId (setSize nrect (width rectToSplit) (height rectToSplit))
      (occupiedBy n0) in
  let child2 := setComponentId nrect None in
  write a (setFitChild n0 (Some (-1)));;;
  let personal := _isMixed s && negb (communal nrect) in
  let _incomingConstraints :=
    if personal then personalconstraints incomingRect
    else constraints incomingRect in
  let _nodeToSplitConstraints :=
    if personal then personalconstraints nrect else constraints nrect in
  let isIncoming :=
    Js.isSet (occupiedBy n0)
    && Js.ostr_eqb (occupiedBy n0) (componentId incomingRect) in
  let tenantElse :=
    Js.isSet (occupiedBy n0)
    && negb (Js.ostr_eqb (componentId incomingRect) (occupiedBy n0)) in
  let widthSplit := String.eqb splitdir "width" in
  let edge := if widthSplit then "right" else "bottom" in
  let incomingAnchored := anchored _incomingConstraints edge in
  let tenantAnchored := anchored _nodeToSplitConstraints edge && tenantElse in
  if incomingAnchored && tenantAnchored then ret tt
  else
    let flipdir := tenantAnchored || incomingAnchored in
    let first :=
      negb flipdir
      || (negb (Js.isSet (occupiedBy n0)) && primary) || isIncoming in
    (* [first]: child1 takes the size asked for, else child2 takes it *)
    let '(c1, c2, fit) :=
      if widthSplit then
        if first then
          let c1 := setWidth child1 splitW in
          let c2 := setWidth child2 (width rectToSplit - width c1) in
          if flipdir
          then (setX0 c1 (x0 rectToSplit + width c2), c2, Some (-1))
          else (c1, setX0 c2 (x0 rectToSplit + width c1), Some (-1))
        else
          let c2 := setWidth child2 splitW in
          let c1 := setWidth child1 (width rectToSplit - width c2) in
          (c1, setX0 c2 (x0 rectToSplit + width c1), Some (-1))
      else
        if first then
          let c1 := setHeight child1 splitH in
          let c2 := setHeight child2 (height rectToSplit - height c1) in
          if flipdir
          then (setY0 c1 (y0 rectToSplit + height c2), c2, Some 0)
          else (c1, setY0 c2 (y0 rectToSplit + height c1), Some 0)
        else
          let c2 := setHeight child2 splitH in
          let c1 := setHeight child1 (height rectToSplit - height c2) in
          (c1, setY0 c2 (y0 rectToSplit + height c1), Some 1) in
    update a (fun n => setFitChild n fit);;;
    inc <- lift (defined _incomingConstraints);;
    incomingMin <- lift (numeric (toPixelResolution (minSize inc) minRect
                                    (boundsOfRect nrect) noAspect));;
    ok <-
      (if Js.isSet (occupiedBy n0) then
         c1c <- lift (defined (if flipdir then _incomingConstraints
                               else _nodeToSplitConstraints));;
         child1Min <- lift (numeric (toPixelResolution (minSize c1c) minRect
                                       (boundsOfRect nrect) noAspect));;
         ret (negb (Js.isSet (componentId c1) && below c1 child1Min)
              && negb (Js.isSet (componentId c2) && below c2 incomingMin))
       else if flipdir && negb primary then
         if below c2 incomingMin then ret false
         else update a (fun n => setFitChild n (Some 1));;; ret true
       else
         if below c1 incomingMin then ret false
         else update a (fun n => setFitChild n (Some 0));;; ret true);;
    if ok then
      i1 <- uuid;;
      a1 <- alloc (freshNode i1 c1 (occupiedBy n0));;
      i2 <- uuid;;
      a2 <- alloc (freshNode i2 c2 None);;
      update a (fun n => setChild n (Some [a1; a2]));;;
      (if Js.isSet (occupiedBy n0)
       then u <- clone cloneDepth a1;; pushUpdate u
       else ret tt);;;
      update a (fun n => setOccupiedBy n None)
    else ret tt.

(** [centerNodeDivide]: the three-way split for a vertically centred
    rectangle, with a fourth node for the space left on the right. *)
Definition centerNodeDivide (a : nat) (r : PackerRectangle)
    (direction : string) (force : bool) : M unit :=
  update a (fun n => setFitChild n (Some (-1)));;;
  node <- read a;;
  if Js.isSet (occupiedBy node) && negb force then ret tt
  else if String.eqb direction "horizontal" then ret tt
  else
    let nr := rect node in
    let dw := (width nr - width r)%Q in
    let w := if (dw >? Globals.MinDimension)%Q then dw else width nr in
    let slice (x y w h : Q) : M nat :=
      c <- clone cloneDepth a;;
      i <- uuid;;
      update c (fun n => setId (setRect n (setGeometry (rect n) x y w h)) i);;;
      ret c in
    let h0 := ((height nr - height r) / 2)%Q in
    c0 <- slice (x0 nr) (y0 nr) w h0;;
    let h1 := height r in
    c1 <- slice (x0 nr) (y0 nr + h0)%Q w h1;;
    c2 <- slice (x0 nr) (y0 nr + h0 + h1)%Q w (height nr - h0 - h1)%Q;;
    children <-
      (if (dw >? Globals.MinDimension)%Q then
         c3 <- slice (width r) (y0 nr) dw (height nr);;
         update a (fun n => setFitChild n (Some 0));;;
         ret [c0; c1; c2; c3]
       else ret [c0; c1; c2]);;
    update a (fun n =>
                setFitChild (setChild n (Some children))
                  (option_map (Z.add 3) (fitChild n))).

(** [updateNodelistAfterSplit] *)
Definition updateNodelistAfterSplit (children : list nat) (originalNode : nat)
  : M unit :=
  c0 <- lift (defined (children !! 0%nat));;
  c1 <- lift (defined (children !! 1%nat));;
  pushNode c0;;;
  pushNode c1;;;
  modify (fun s => setNodes s (reject (_nodes s) originalNode)).

Definition splitIs (n : Node) (s : string) : bool :=
  Js.ostr_eqb (split n) (Some s).

(** [aspect_adjust_with_split].  The node at [a] is [splitnode], which the
    source returns; the result is [splitrect] after the call. *)
Definition aspect_adjust_with_split (a : nat) (splitrect : PackerRectangle)
    (primaryDir : string) (primary : bool) (minsize : ISize)
  : M PackerRectangle :=
  splitnode <- read a;;
  s <- get;;
  c <- lift (defined (resolveConstraints (rect splitnode) (_isMixed s)
                        splitrect));;
  if (_aspect c =? noAspect)%Q then
    update a (fun n => setSplit n (Some "none"));;; ret splitrect
  else
    m <- match marginInches c with
         | Some mi =>
             d <- lift (numeric (dpi (rect splitnode)));; ret (mi * d)%Q
         | None => ret (margin c)
         end;;
    let size :=
      directed_aspect_correct_ (width splitrect) (height splitrect)
        (_aspect c) m primaryDir minsize in
    let vcenter := anchored (Some c) "vcenter" in
    if vcenter && (ht size <? height (rect splitnode))%Q then
      let splitrect' := setSize splitrect (wd size) (ht size) in
      centerNodeDivide a splitrect' "vertical" true;;;
      divnode <- read a;;
      update a (fun n =>
                  setSplit n
                    (Some (if match fitChild divnode with
                              | Some f => Z.ltb (-1) f
                              | None => false
                              end
                           then "vcenter" else "failed")));;;
      ret splitrect'
    else
      let splitdir :=
        getDivide (width splitrect) (height splitrect) (wd size) (ht size) in
      let leftover :=
        if String.eqb splitdir "width"
        then (width (rect splitnode) - wd size)%Q
        else (height (rect splitnode) - ht size)%Q in
      if String.eqb splitdir "none" || (leftover <? Globals.MinDimension)%Q
      then
        update a (fun n =>
                    setSplit (setRect n (setSize (rect n) (wd size) (ht size)))
                      (Some "none"));;;
        ret (setSize splitrect (wd size) (ht size))
      else
        let splitrect' :=
          match occupiedBy splitnode with
          | Some o => setComponentId splitrect (Some o)
          | None => splitrect
          end in
        nodeDivide splitdir a splitrect' (wd size) (ht size) splitrect' primary;;;
        n' <- read a;;
        update a (fun n =>
                    setSplit n (Some (if Js.isSet (child n') then splitdir
                                      else "failed")));;;
        ret splitrect'.

(** [aspect_adjust_nofail]: the node that holds the rectangle after the
    correction, and the rectangle. *)
Definition aspect_adjust_nofail (a : nat) (splitrect : PackerRectangle)
    (primaryDir : string) (minsize : ISize) : M (nat * PackerRectangle) :=
  splitrect' <- aspect_adjust_with_split a splitrect primaryDir true minsize;;
  adjusted <- read a;;
  if negb (splitIs adjusted "none") && negb (splitIs adjusted "failed") then
    children <- lift (defined (child adjusted));;
    updateNodelistAfterSplit children a;;;
    c0 <- lift (defined (children !! 0%nat));;
    ret (c0, splitrect')
  else
    s <- get;;
    rc <- lift (defined (resolveConstraints (rect adjusted) (_isMixed s)
                           splitrect'));;
    let corrected :=
      getAspectCorrectedComponentSize (width splitrect') (height splitrect')
        (margin rc) (_aspect rc) (width splitrect') (height splitrect') in
    update a (fun n =>
                setSplit
                  (setRect n (setSize (rect n) (wd corrected) (ht corrected)))
                  (Some "failed"));;;
    ret (a, splitrect').

(** [aspectSplit] *)
Definition aspectSplit (a : nat) (r : PackerRectangle) (dir : string)
    (minsize : ISize) : M (option nat * PackerRectangle) :=
  rect' <- aspect_adjust_with_split a r dir true minsize;;
  adj <- read a;;
  if splitIs adj "failed" then ret (None, rect')
  else if splitIs adj "none" then ret (Some a, rect')
  else if splitIs adj "width" || splitIs adj "height" then
    children <- lift (defined (child adj));;
    updateNodelistAfterSplit children a;;;
    c0 <- lift (defined (children !! 0%nat));;
    ret (Some c0, rect')
  else ret (None, rect').

(** *** Joining unoccupied neighbours *)

(** [neighboring] *)
Definition neighboring (n1 n2 : PackerRectangle) : string :=
  if (y0 n1 =? y0 n2)%Q && (x0 n1 + width n1 =? x0 n2)%Q
     && (height n1 =? height n2)%Q then "right"
  else if (x0 n1 =? x0 n2)%Q && (y0 n1 + height n1 =? y0 n2)%Q
          && (width n1 =? width n2)%Q then "bottom"
  else if (y0 n1 =? y0 n2)%Q && (x0 n1 =? x0 n2 + width n2)%Q
          && (height n1 =? height n2)%Q then "left"
  else if (x0 n1 =? x0 n2)%Q && (y0 n1 =? y0 n2 + height n2)%Q
          && (width n1 =? width n2)%Q then "top"
  else "none".

(** The body of the loop of [_consolidate] for one neighbour; the result
    tells whether the neighbour was absorbed. *)
Definition absorb (a b : nat) : M bool :=
  node <- read a;;
  neighbor <- read b;;
  if Js.isSet (occupiedBy neighbor) || dropped neighbor then ret false
  else if Z.eqb (id neighbor) (id node) then ret false
  else if negb (Js.ostr_eqb (deviceId (rect neighbor)) (deviceId (rect node)))
          || negb (Js.ostr_eqb (regionId (rect neighbor))
                     (regionId (rect node)))
  then ret false
  else if (width (rect node) =? boundingWidth (rect node))%Q
          && (height (rect node) =? boundingHeight (rect node))%Q
  then ret false
  else
    let nr := rect node in
    let br := rect neighbor in
    let side := neighboring nr br in
    if String.eqb side "none" then ret false
    else
      let nr' :=
        if String.eqb side "left" then
          setWidth (setX0 nr (x0 br)) (width nr + width br)
        else if String.eqb side "right" then
          setWidth nr (width nr + width br)
        else if String.eqb side "top" then
          setHeight (setY0 nr (y0 br)) (height nr + height br)
        else setHeight nr (height nr + height br) in
      update a (fun n => setRect n nr');;;
      update b (fun n => setDropped n true);;;
      ret true.

(** [_consolidate]: the flag it returns and the neighbours it dropped. *)
Fixpoint consolidateOver (a : nat) (l : list nat) : M (bool * list nat) :=
  match l with
  | [] => ret (false, [])
  | b :: rest =>
      hit <- absorb a b;;
      r <- consolidateOver a rest;;
      ret (hit || fst r, if hit then b :: snd r else snd r)
  end.

Definition _consolidate (a : nat) : M (bool * list nat) :=
  l <- nodes;; consolidateOver a l.

(** [while (this._consolidate(node, toDrop)) continue]: a round that
    returns true has dropped a node, so the rounds are bounded by the
    number of nodes. *)
Fixpoint consolidateWhile (fuel : nat) (a : nat) : M (list nat) :=
  match fuel with
  | O => fun _ => OutOfFuel
  | S f =>
      r <- _consolidate a;;
      if fst r then
        more <- consolidateWhile f a;; ret (snd r ++ more)
      else ret (snd r)
  end.

Definition clearDropped : M unit :=
  l <- nodes;; forEach (fun a => update a (fun n => setDropped n false)) l.

(** [consolidateSingleNode] *)
Definition consolidateSingleNode (a : nat) : M unit :=
  clearDropped;;;
  l <- nodes;;
  toDrop <- consolidateWhile (S (length l)) a;;
  modify (fun s => setNodes s (rejectAll (_nodes s) toDrop)).

(** [this._nodes.sort(cmp)] with a comparison of the rectangles. *)
Definition sortNodes (cmp : PackerRectangle -> PackerRectangle -> Z)
  : M unit :=
  l <- nodes;;
  vals <- mapM (fun a => n <- read a;; ret (a, rect n)) l;;
  modify (fun s =>
            setNodes s
              (map fst (jsSort (fun x y => cmp (snd x) (snd y)) vals))).

(** The exchange of the first node with the first node of another region
    than [lastPlacedRegion]; both places receive clones. *)
Fixpoint alternate (first : nat) (lastPlacedRegion : option string)
    (i : nat) (l : list nat) : M unit :=
  match l with
  | [] => ret tt
  | b :: rest =>
      nb <- read b;;
      if negb (Js.ostr_eqb (regionId (rect nb)) lastPlacedRegion) then
        swap <- clone cloneDepth first;;
        other <- clone cloneDepth b;;
        modify (fun s => setNodes s (<[0%nat := other]> (<[i := swap]> (_nodes s))))
      else alternate first lastPlacedRegion (S i) rest
  end.

(** [consolidateWhiteNodes] *)
Definition consolidateWhiteNodes (lastPlacedRegion : option string) : M unit :=
  l <- nodes;;
  s <- get;;
  if Nat.ltb (length l) 2 then ret tt
  else if negb (_shuffling s) then
    clearDropped;;;
    toDrop <- mapM
      (fun a =>
         node <- read a;;
         if negb (Js.isSet (occupiedBy node)) && negb (dropped node)
         then consolidateWhile (S (length l)) a
         else ret [])
      l;;
    modify (fun s => setNodes s (rejectAll (_nodes s) (concat toDrop)));;;
    sortNodes larger_first;;;
    l' <- nodes;;
    match l' with
    | [] => fun _ => TypeError
    | first :: rest =>
        n0 <- read first;;
        if Js.ostr_eqb (regionId (rect n0)) lastPlacedRegion
        then alternate first lastPlacedRegion 1 rest
        else ret tt
    end
  else sortNodes larger_tl.

(** *** Choosing an occupied node to split *)

(** [SplitOption]: the node (its address and its state when the option
    was found) and the direction of the split. *)
Record SplitOption := mkSplitOption {
  o_addr : nat;
  o_node : Node;
  o_split : string }.

Definition asSize (s : ISize) : Doc.PackingSize :=
  {| Doc.width := wd s; Doc.height := ht s; Doc.mode := None;
     Doc.widthInches := None; Doc.heightInches := None |}.

(** [hasPreferredSize] (a constraint set of the packer always has a
    [prefSize]). *)
Definition hasPreferredSize (c : ILayoutConstraint) : bool :=
  negb (Doc.width (prefSize c) =? -1)%Q
  && negb (Doc.height (prefSize c) =? -1)%Q.

(** The body of the loop of [findSplitNodeTraversal] for one node. *)
Definition splitOption (isMixed : bool) (r : PackerRectangle)
    (reduction : Q) (a : nat) (node : Node) : outcome (option SplitOption) :=
  let nr := rect node in
  let option (dir : string) :=
    Ok (Some {| o_addr := a; o_node := node; o_split := dir |}) in
  (_rectConstraints <- defined (resolveConstraints nr isMixed r);;
   let _nodeConstraints := resolveConstraints nr isMixed nr in
   if negb (validRegion (valid _rectConstraints) nr) then Ok None
   else if negb (fitsIn r nr) then Ok None
   else
     plainMin <- numeric (toPixelResolution (minSize _rectConstraints)
                            minRect (boundsOfRect nr) noAspect);;
     if negb (meetsMinReq nr plainMin) then Ok None
     else
       let isAnchored := Js.isSet (anchor _rectConstraints) in
       let bBox := computeBounds nr isAnchored reduction _rectConstraints in
       let has (x : string) := isAnchored && hasAnchor _rectConstraints x in
       let anchoredLeft := has "left" in
       let anchoredRight := has "right" in
       let anchoredTop := has "top" in
       let anchoredBottom := has "bottom" in
       let anchoredVCenter := has "vcenter" in
       let spansWidth := anchoredRight && anchoredLeft in
       let spansHeight := anchoredTop && anchoredBottom in
       let tenantAnchoredLeft := anchored _nodeConstraints "left" in
       let tenantAnchoredRight := anchored _nodeConstraints "right" in
       let tenantAnchoredTop := anchored _nodeConstraints "top" in
       let tenantAnchoredBottom := anchored _nodeConstraints "bottom" in
       let tenantAnchoredVCenter := anchored _nodeConstraints "vcenter" in
       if isAnchored
          && ((anchoredLeft && (x0 nr >? 0)%Q)
              || (anchoredRight
                  && (x0 nr + width nr <? bb_boundingWidth bBox)%Q)
              || (anchoredTop && (y0 nr >? 0)%Q)
              || (anchoredBottom
                  && (y0 nr + height nr <? bb_boundingHeight bBox)%Q)
              || (spansWidth && spansHeight)
              || (anchoredVCenter && negb (centered nr "vertical")))
       then Ok None
       else
         minsize <- numeric (toPixelResolution (minSize _rectConstraints)
                               minRect (boundsOfRect nr)
                               (_aspect _rectConstraints));;
         minsize' <- numeric (toPixelResolution (asSize minsize) minRect
                                (boundsOfRect nr) noAspect);;
         if negb (meetsMinReq nr minsize') then Ok None
         else if negb (Js.isSet (occupiedBy node)) then
           if anchoredVCenter then
             let h := ((boundingHeight nr / 2 - y0 nr) * 2)%Q in
             if (h <? ht minsize)%Q then Ok None
             else if negb (_aspect _rectConstraints =? noAspect)%Q
                     && (h / _aspect _rectConstraints <? wd minsize)%Q
             then Ok None
             else option "vcenter"
           else option "none"
         else
           let affixedVerticalEdge :=
             (anchoredTop && tenantAnchoredTop)
             || (anchoredBottom && tenantAnchoredBottom) in
           let affixedHorizontalEdge :=
             (anchoredLeft && tenantAnchoredLeft)
             || (anchoredRight && tenantAnchoredRight) in
           let nodeSpansWidth := tenantAnchoredLeft && tenantAnchoredRight in
           let nodeSpansHeight := tenantAnchoredTop && tenantAnchoredBottom in
           nodeC <- defined _nodeConstraints;;
           tenantMinsize <- numeric (toPixelResolution (minSize nodeC) minRect
                                       (boundsOfRect nr) (_aspect nodeC));;
           let canSplitWidth :=
             negb nodeSpansWidth && negb spansWidth
             && negb affixedHorizontalEdge
             && negb (wd tenantMinsize >=? width nr)%Q in
           let canSplitHeight :=
             negb nodeSpansHeight && negb spansHeight
             && negb affixedVerticalEdge && negb tenantAnchoredVCenter
             && negb (ht tenantMinsize >=? height nr)%Q in
           if negb (canSplitHeight || canSplitWidth) then Ok None
           else if affixedHorizontalEdge && affixedVerticalEdge then Ok None
           else if nodeSpansWidth && nodeSpansHeight then Ok None
           else
             let prefW := Doc.width (prefSize nodeC) in
             let prefH := Doc.height (prefSize nodeC) in
             if (prefW =? -1)%Q && (prefH =? -1)%Q then
               if affixedVerticalEdge && canSplitWidth then option "width"
               else if affixedHorizontalEdge && canSplitHeight
               then option "height"
               else if (width nr >=? height nr)%Q && canSplitWidth
               then option "width"
               else if canSplitHeight then option "height"
               else Ok None
             else if (prefW =? -1)%Q && canSplitWidth then option "width"
             else if (prefH =? -1)%Q
                     && (negb anchoredTop || negb tenantAnchoredTop)
                     && (negb anchoredBottom || negb tenantAnchoredBottom)
                     && canSplitHeight
             then option "height"
             else
               pixels <- numeric (toPixelResolution (prefSize nodeC) minsize
                                    (boundsOfBBox bBox) noAspect);;
               if (width nr >? height nr)%Q && (wd pixels <=? width nr)%Q
                  && canSplitWidth
               then option "width"
               else if canSplitHeight then option "height"
               else Ok None)%outcome.

(** [findSplitNodeTraversal] *)
Definition findSplitNodeTraversal (r : PackerRectangle) (reduction : Q)
  : M (list SplitOption) :=
  l <- nodes;;
  s <- get;;
  found <- mapM (fun a =>
                   node <- read a;;
                   lift (splitOption (_isMixed s) r reduction a node)) l;;
  ret (omap (fun x => x) found).

(** The comparison function of [findSplitNodeOptions]. *)
Definition optionCompare (isMixed : bool) (a b : SplitOption) : outcome Z :=
  let na := o_node a in
  let nb := o_node b in
  match occupiedBy na, occupiedBy nb with
  | None, None => Ok (larger_first (rect na) (rect nb))
  | None, Some _ => Ok (-1)
  | Some _, None => Ok 1
  | Some _, Some _ =>
      (aConstraints <- defined (resolveConstraints (rect na) isMixed (rect na));;
       bConstraints <- defined (resolveConstraints (rect nb) isMixed (rect nb));;
       let prefA := hasPreferredSize aConstraints in
       let prefB := hasPreferredSize bConstraints in
       if negb prefA && prefB then Ok (-1)
       else if prefA && negb prefB then Ok 1
       else if Z.ltb (priority bConstraints) (priority aConstraints) then Ok 1
       else if Z.ltb (priority aConstraints) (priority bConstraints)
       then Ok (-1)
       else Ok (larger_first (rect na) (rect nb)))%outcome
  end.

(** [findSplitNodeOptions] *)
Definition findSplitNodeOptions (r : PackerRectangle) (reduction : Q)
  : M (list SplitOption) :=
  options <- findSplitNodeTraversal r reduction;;
  s <- get;;
  lift (jsSortM (optionCompare (_isMixed s)) options).

(** *** Splitting an occupied node *)

(** [computeSplitDimensions]: the widths and heights of the two children.
    [bboxW] and [bboxH] are the reduced bounding box of [splitNode]. *)
Definition computeSplitDimensions (node : PackerRectangle) (bboxW bboxH : Q)
    (dim : string) (minsize minRect : ISize)
    (_nodeConstraints _rectConstraints : ILayoutConstraint)
  : outcome (ISize * ISize) :=
  if String.eqb dim "vcenter" then
    let midpt := (boundingHeight node / 2)%Q in
    let h1 := ((y0 node - midpt) * 2)%Q in
    Ok ({| wd := width node; ht := h1 |},
        {| wd := width node; ht := (height node - h1)%Q |})
  else
    let isW := String.eqb dim "width" in
    if negb isW && negb (String.eqb dim "height") then NotANumber
    else
      let leg := if isW then width node else height node in
      let result (c1 c2 : Q) : outcome (ISize * ISize) :=
        if isW
        then Ok ({| wd := c1; ht := height node |},
                 {| wd := c2; ht := height node |})
        else Ok ({| wd := width node; ht := c1 |},
                 {| wd := width node; ht := c2 |}) in
      let half1 := (leg / 2)%Q in
      let half2 := (leg - half1)%Q in
      let minDim := if isW then wd minsize else ht minsize in
      let minRectDim := if isW then wd minRect else ht minRect in
      let legOf (p : Doc.PackingSize) :=
        if isW then Doc.width p else Doc.height p in
      let nodePref := legOf (prefSize _nodeConstraints) in
      let rectPref := legOf (prefSize _rectConstraints) in
      if (nodePref =? -1)%Q && (rectPref =? -1)%Q then
        if (half1 >=? minDim)%Q && (half2 >=? minRectDim)%Q
        then result half1 half2
        else if Z.leb (priority _rectConstraints) (priority _nodeConstraints)
        then
          if (half1 <? minDim)%Q then result minDim (leg - minDim)%Q
          else result (leg - minRectDim)%Q minRectDim
        else if (half2 <? minDim)%Q then result (leg - minDim)%Q minDim
        else result minRectDim (leg - minRectDim)%Q
      else if (rectPref =? -1)%Q then
        if (half1 >? minDim)%Q && (half2 >? minRectDim)%Q
        then result half1 half2
        else
          let c2 := Js.min minRectDim (leg - minDim)%Q in
          result (leg - c2)%Q c2
      else
        (preferredRectLeg <-
           (if modeIs (prefSize _rectConstraints) "percent" then
              Ok ((if isW then bboxW else bboxH) * rectPref / 100)%Q
            else if modeIs (prefSize _rectConstraints) "inches" then
              inches <- numeric
                (if isW then Doc.widthInches (prefSize _nodeConstraints)
                 else Doc.heightInches (prefSize _nodeConstraints));;
              d <- numeric (dpi node);;
              Ok (inches * d)%Q
            else Ok rectPref);;
         if (nodePref =? -1)%Q
            || Z.ltb (priority _nodeConstraints) (priority _rectConstraints)
         then
           if (leg - preferredRectLeg >? minDim)%Q
           then result (leg - preferredRectLeg)%Q preferredRectLeg
           else if (half1 >? minDim)%Q && (half2 >? minRectDim)%Q
           then result half1 half2
           else
             let c2 := Js.max minRectDim (leg - minDim)%Q in
             result (leg - c2)%Q c2
         else if (half1 >? minDim)%Q && (half2 >? minRectDim)%Q
         then result half1 half2
         else
           let c1 := Js.max minDim (leg - minRectDim)%Q in
           result c1 (leg - c1)%Q)%outcome.

Definition nth_child (n : Node) (i : nat) : M nat :=
  children <- lift (defined (child n));;
  lift (defined (children !! i)).

Definition occupy (a : nat) (o : option string) : M unit :=
  update a (fun n => setOccupiedBy n o).

(** The second half of [splitNode] for one of the two new nodes: the
    nodes that enter [_nodes] and [_updates] after the aspect correction
    of the node at [c], and the node that holds the occupant [o].
    [three] selects the treatment of a three-way split. *)
Definition settle (c : nat) (o : option string) (three : bool) : M nat :=
  n <- read c;;
  if splitIs n "none" then
    pushUpdate c;;; pushNode c;;; ret c
  else if three then
    k0 <- nth_child n 0;;
    k1 <- nth_child n 1;;
    occupy k1 o;;;
    occupy c None;;;
    occupy k0 None;;;
    k2 <- nth_child n 2;;
    occupy k2 None;;;
    pushUpdate k1;;;
    pushNode k0;;; pushNode k1;;; pushNode k2;;;
    ret k1
  else
    k0 <- nth_child n 0;;
    occupy k0 o;;;
    occupy c None;;;
    k1 <- nth_child n 1;;
    occupy k1 None;;;
    pushUpdate k0;;;
    pushNode k0;;; pushNode k1;;;
    ret k0.

(** [splitNode]: the node that holds the incoming rectangle, if the split
    succeeded, and the rectangle. *)
Definition splitNode (a : nat) (splitdir : string) (r : PackerRectangle)
    (reduceFactor : Q) : M (option nat * PackerRectangle) :=
  node <- read a;;
  s <- get;;
  let nr := rect node in
  _rectConstraints <- lift (defined (resolveConstraints nr (_isMixed s) r));;
  _nodeConstraints <- lift (defined (resolveConstraints nr (_isMixed s) nr));;
  let bboxW := (boundingWidth nr * reduceFactor)%Q in
  let bboxH := (boundingHeight nr * reduceFactor)%Q in
  let bbox :=
    {| b_boundingWidth := boundingWidth nr;
       b_boundingHeight := boundingHeight nr; b_dpi := None |} in
  min <- lift (numeric (toPixelResolution (minSize _nodeConstraints) minRect
                          bbox noAspect));;
  minR <- lift (numeric (toPixelResolution (minSize _rectConstraints) minRect
                           bbox noAspect));;
  d <- lift (computeSplitDimensions nr bboxW bboxH splitdir min minR
               _nodeConstraints _rectConstraints);;
  let child1 := setSize nr (wd (fst d)) (ht (fst d)) in
  let child2 := setSize nr (wd (snd d)) (ht (snd d)) in
  if (width child2 <=? 0)%Q || (height child2 <=? 0)%Q then ret (None, r)
  else
    let '(child1, child2) :=
      if (width child1 <? wd min)%Q
      then (setWidth child1 (wd min),
            setWidth child2 (width nr - wd min))
      else (child1, child2) in
    let '(child1, child2) :=
      if (height child1 <? ht min)%Q
      then (setHeight child1 (ht min),
            setHeight child2 (height nr - ht min))
      else (child1, child2) in
    if below child2 minR then ret (None, r)
    else
      let corrected : option (PackerRectangle * PackerRectangle) :=
        if negb (_aspect _rectConstraints =? noAspect)%Q then
          let size :=
            directed_aspect_correct (width child2) (height child2)
              (_aspect _rectConstraints) (margin _rectConstraints) splitdir in
          if String.eqb splitdir "height" && (wd size <? wd minR)%Q then
            let size :=
              directed_aspect_correct_no_check (wd minR) (height child2)
                (_aspect _rectConstraints) (margin _rectConstraints) "width" in
            if (ht size <? ht minR)%Q then None
            else
              let child2 := setHeight child2 (ht size) in
              let child1 := setHeight child1 (height nr - height child2) in
              if below child1 min then None else Some (child1, child2)
          else Some (child1, child2)
        else Some (child1, child2) in
      match corrected with
      | None => ret (None, r)
      | Some (child1, child2) =>
          let '(child1, child2) :=
            if String.eqb splitdir "width" then
              if (anchored (Some _rectConstraints) "left"
                  && negb (anchored (Some _nodeConstraints) "left"))
                 || anchored (Some _nodeConstraints) "right"
              then (setX0 child1 (x0 nr + width child2), child2)
              else (child1, setX0 child2 (x0 nr + width child1))
            else if String.eqb splitdir "height" then
              if (anchored (Some _rectConstraints) "top"
                  && negb (anchored (Some _nodeConstraints) "top"))
                 || anchored (Some _nodeConstraints) "bottom"
              then (setY0 child1 (y0 nr + height child2), child2)
              else (child1, setY0 child2 (y0 nr + height child1))
            else (child1, child2) in
          let child2 :=
            if _isMixed s
            then setConstraints child2 (constraints r) (personalconstraints r)
            else setConstraints child2 (Some _rectConstraints)
                   (personalconstraints child2) in
          i1 <- uuid;;
          c1 <- alloc (freshNode i1 child1 (occupiedBy node));;
          i2 <- uuid;;
          c2 <- alloc (freshNode i2 child2 (componentId r));;
          aspect_adjust_with_split c1 child1 splitdir false min;;;
          n2 <- read c2;;
          aspect_adjust_with_split c2 (rect n2) splitdir false minR;;;
          n1 <- read c1;;
          n2 <- read c2;;
          if splitIs n1 "failed" || splitIs n2 "failed" then ret (None, r)
          else
            settle c1 (occupiedBy node) (splitIs n1 "vcenter");;;
            placed <- settle c2 (componentId r) (splitIs n1 "vcenter");;
            p <- read placed;;
            modify (fun s => setNodes s (reject (_nodes s) a));;;
            ret (Some placed,
                 setGeometry r (x0 (rect p)) (y0 (rect p)) (width (rect p))
                   (height (rect p)))
      end.

(** *** Finding a node for a rectangle *)

Definition keyOf (dev : option string) : string := default "null" dev.

(** [count >= max] for a counter of placed components and a capacity;
    a missing counter or capacity makes the comparison false. *)
Definition atCapacity (counters : gmap string Q) (nr : PackerRectangle)
    (capacity : option Q) : bool :=
  match counters !! keyOf (deviceId nr), capacity with
  | Some count, Some cap => (count >=? cap)%Q
  | _, _ => false
  end.

(** What the body of the loop of [packRect] does with one node: go on
    with the next node ([again] asks for another round of the enclosing
    loop, [found] replaces [retNode]), or return. *)
Inductive step :=
| Next (r : PackerRectangle) (again : bool) (found : option nat)
| Return (node : option nat) (r : PackerRectangle).

Definition withResolved (isPersonal : bool) (r : PackerRectangle)
    (c : ILayoutConstraint) : PackerRectangle :=
  if isPersonal then setConstraints r (constraints r) (Some c)
  else setConstraints r (Some c) (personalconstraints r).

(** The size [packRect] asks for, [w] and [h], from the preferred size of
    the constraints; the flag tells a size in inch mode, whose margin the
    source writes back into the constraints. *)
Definition requestedSize (c : ILayoutConstraint) (r nr : PackerRectangle)
    (enclosingRect : BBox) (_minSize : ISize) (pass : Z)
    (reduction factor : Q) : outcome (Q * Q * ILayoutConstraint) :=
  let margin2 := (2 * margin c)%Q in
  let pw := Doc.width (prefSize c) in
  let ph := Doc.height (prefSize c) in
  let boundingW := (width nr * reduction)%Q in
  let boundingH := (height nr * reduction)%Q in
  let minW := (wd _minSize >? Globals.MinDimension)%Q in
  let minH := (ht _minSize >? Globals.MinDimension)%Q in
  let leg (f : Q) (which : string) :=
    setUndefinedLegLength nr enclosingRect f which _minSize (margin c) in
  if modeIs (prefSize c) "percent" then
    let w := (bb_width enclosingRect * pw / 100 * reduction + margin2)%Q in
    let h := (bb_height enclosingRect * ph / 100 * reduction + margin2)%Q in
    if (pw =? -1)%Q && (ph =? -1)%Q then
      if (width nr >=? height nr)%Q then
        let w :=
          if Z.ltb 1 pass && minW then (wd _minSize + margin2)%Q
          else leg reduction "width" in
        let h :=
          if Z.ltb 1 pass && minH then
            if (_aspect c =? noAspect)%Q then (ht _minSize + margin2)%Q
            else ht (correctedSize w (height nr) (margin c) (_aspect c)
                       boundingW boundingH)
          else height nr in
        Ok (w, h, c)
      else Ok (width nr, leg reduction "height", c)
    else
      let w :=
        if (pw =? -1)%Q then
          if negb (_aspect c =? noAspect)%Q then ((h - margin2) / _aspect c)%Q
          else if Z.leb 2 pass && minW then (wd _minSize + margin2)%Q
          else leg reduction "width"
        else w in
      let h :=
        if (ph =? -1)%Q then
          if negb (_aspect c =? noAspect)%Q then ((w - margin2) * _aspect c)%Q
          else if Z.leb 2 pass && minH then (ht _minSize + margin2)%Q
          else leg reduction "height"
        else h in
      Ok (w, h, c)
  else if modeIs (prefSize c) "inches" then
    (mi <- numeric (marginInches c);;
     d <- numeric (dpi nr);;
     wi <- numeric (Doc.widthInches (prefSize c));;
     hi <- numeric (Doc.heightInches (prefSize c));;
     Ok ((wi * d + margin2)%Q, (hi * d + margin2)%Q,
         setConstraintMargin c (mi * d)%Q))%outcome
  else
    let w0 := (pw * reduction + margin2)%Q in
    let h0 := (ph * reduction + margin2)%Q in
    let '(w, subdivide) :=
      if Z.leb 2 pass && minW then ((wd _minSize + margin2)%Q, false)
      else if (pw =? -1)%Q then
        if negb (height r =? -1)%Q
           || ((height r =? -1)%Q && (width nr >=? height nr)%Q)
        then (leg factor "width", false)
        else ((width nr * reduction)%Q, true)
      else (w0, false) in
    let h1 := if Z.leb 2 pass && minH then (ht _minSize + margin2)%Q else h0 in
    let h :=
      if (ph =? -1)%Q then
        ((if subdivide then leg factor "height"
          else if Z.leb 2 pass && minH then
            if (_aspect c =? 0)%Q then ht _minSize
            else ht (correctedSize w (height nr) (margin c) (_aspect c)
                       boundingW boundingH)
          else (height nr * reduction)%Q) + margin2)%Q
      else h1 in
    Ok (w, h, c).

(** The body of the loop over the nodes in [packRect]. *)
Definition packRectAt (r : PackerRectangle) (reduction factor : Q) (a : nat)
  : M step :=
  node <- read a;;
  s <- get;;
  let nr := rect node in
  let isPersonal := _isMixed s && negb (communal nr) in
  c <- lift (defined (resolveConstraints nr (_isMixed s) r));;
  let isAnchored := Js.isSet (anchor c) in
  if negb (validRegion (valid c) nr) then ret (Next r false None)
  else if bool_decide (video c = Some true)
          && atCapacity (_numVideoComponentsPlaced s) nr (maxVideo nr)
  then ret (Next r false None)
  else if bool_decide (audio c = Some true)
          && atCapacity (_numAudioComponentsPlaced s) nr (maxAudio nr)
  then ret (Next r false None)
  else
    modify (fun s => setDevice s true);;;
    let enclosingRect := computeBounds nr isAnchored reduction c in
    _minSize <- lift (numeric (toPixelResolution (minSize c) minRect
                                 (boundsOfBBox enclosingRect) (_aspect c)));;
    if (wd _minSize >? bb_boundingWidth enclosingRect)%Q
       || (ht _minSize >? bb_boundingHeight enclosingRect)%Q
    then ret (Next r false None)
    else if Js.isSet (occupiedBy node) then ret (Next r false None)
    else if isAnchored
            && (((boundingX0 enclosingRect =? 0)%Q && (x0 nr >? 0)%Q)
                || ((boundingY0 enclosingRect =? 0)%Q && (y0 nr >? 0)%Q)
                || ((boundingX1 enclosingRect >? 0)%Q
                    && (x0 nr + width nr <? bb_boundingWidth enclosingRect)%Q)
                || ((boundingY1 enclosingRect >? 0)%Q
                    && (y0 nr + height nr
                        <? bb_boundingHeight enclosingRect)%Q))
    then ret (Next r false None)
    else
      let boundingW := (width nr * reduction)%Q in
      let boundingH := (height nr * reduction)%Q in
      let vcenter := isAnchored && hasAnchor c "vcenter" in
      if modeIs (prefSize c) "px" && negb vcenter
         && (((boundingX0 enclosingRect >? -1)%Q
              && (boundingX1 enclosingRect >? -1)%Q)
             || ((boundingY0 enclosingRect >? -1)%Q
                 && (boundingY1 enclosingRect >? -1)%Q))
      then
        res <- aspectSplit a r
                 (if (width r >=? height r)%Q then "width" else "height")
                 _minSize;;
        ret (Return (fst res) (snd res))
      else
        req <- lift (requestedSize c r nr enclosingRect _minSize (_pass s)
                       reduction factor);;
        let c := snd req in
        let r := withResolved isPersonal r c in
        let '(w, h) :=
          if negb (_aspect c =? noAspect)%Q then
            let size :=
              correctedSize (fst (fst req)) (snd (fst req)) (margin c)
                (_aspect c) boundingW boundingH in
            (wd size, ht size)
          else fst req in
        if (w <? wd _minSize)%Q || (h <? ht _minSize)%Q
        then ret (Next r false None)
        else
          let r := setSize r w h in
          let r :=
            if negb (_shuffling s) then
              let r :=
                if (width r >? width nr)%Q && (width nr >? wd _minSize)%Q
                then setWidth r (width nr) else r in
              if (height r >? height nr)%Q && (height nr >? ht _minSize)%Q
              then setHeight r (height nr) else r
            else r in
          if negb (fitsIn r nr) then ret (Next r false None)
          else if vcenter && negb (centered nr "vertical")
          then ret (Next r false None)
          else
            ratioOk <-
              (if modeIs (prefSize c) "px" && fitsExactly r nr then
                 if (_aspect c =? 0)%Q then ret true
                 else if (width r =? 0)%Q then fun _ => NotANumber
                 else ret (Util.isEqualwithPrecision (height r / width r)
                             (_aspect c) (1 # 1000))
               else ret false);;
            if ratioOk then ret (Return (Some a) r)
            else if _shuffling s then ret (Return (Some a) r)
            else
              let divide (r : PackerRectangle) : M step :=
                let splitdir :=
                  getDivide (width nr) (height nr) (width r) (height r) in
                if String.eqb splitdir "none" then ret (Return (Some a) r)
                else
                  nodeDivide splitdir a nr (width r) (height r) r false;;;
                  n' <- read a;;
                  match child n' with
                  | None => ret (Return (Some a) r)
                  | Some children =>
                      k0 <- lift (defined (children !! 0%nat));;
                      k1 <- lift (defined (children !! 1%nat));;
                      pushNode k0;;;
                      pushNode k1;;;
                      pushDropped a;;;
                      match fitChild n' with
                      | Some f =>
                          if Z.ltb (-1) f then
                            let retNode := if Z.eqb f 0 then k0 else k1 in
                            if (Doc.width (prefSize c) =? -1)%Q
                               || (Doc.height (prefSize c) =? -1)%Q
                            then ret (Return (Some retNode) r)
                            else ret (Next r true (Some retNode))
                          else ret (Next r true None)
                      | None => ret (Next r true None)
                      end
                  end in
              if vcenter then
                if (height r <? height nr)%Q then
                  centerNodeDivide a r "vertical" false;;;
                  divnode <- read a;;
                  match fitChild divnode, child divnode with
                  | Some f, Some children =>
                      if Z.ltb (-1) f then
                        forEach
                          (fun i =>
                             k <- lift (defined (children !! i));; pushNode k)
                          (rev (seq 0 (Z.to_nat (f + 1))));;;
                        update a (fun n => setFitChild n (Some (-1)));;;
                        pushDropped a;;;
                        k1 <- lift (defined (children !! 1%nat));;
                        ret (Return (Some k1) r)
                      else ret (Next r true None)
                  | _, _ => ret (Next r true None)
                  end
                else if (height r =? height nr)%Q then
                  let adjH := ((boundingHeight nr / 2 - y0 nr) * 2)%Q in
                  if (adjH <? ht _minSize)%Q then ret (Next r false None)
                  else
                    let r := setHeight r adjH in
                    if negb (_aspect c =? noAspect)%Q then
                      let r := setWidth r (height r / _aspect c)%Q in
                      if (width r <? wd _minSize)%Q
                      then ret (Next r false None)
                      else divide r
                    else divide r
                else divide r
              else divide r.

(** The loop over the nodes in [packRect]: the nodes of the list when the
    loop starts, in order. *)
Fixpoint packRectFor (r : PackerRectangle) (reduction factor : Q)
    (l : list nat) (again : bool) (retNode : option nat)
  : M (option (option nat) * PackerRectangle * bool * option nat) :=
  match l with
  | [] => ret (None, r, again, retNode)
  | a :: rest =>
      st <- packRectAt r reduction factor a;;
      match st with
      | Return node r' => ret (Some node, r', again, retNode)
      | Next r' again' found =>
          packRectFor r' reduction factor rest (again || again')
            (match found with
             | Some n => Some n
             | None => retNode
             end)
      end
  end.

(** The [while (!done)] loop of [packRect]. *)
Fixpoint packRectWhile (fuel : nat) (r : PackerRectangle)
    (reduction factor : Q) (retNode : option nat)
  : M (option nat * PackerRectangle) :=
  match fuel with
  | O => fun _ => OutOfFuel
  | S f =>
      l <- nodes;;
      res <- packRectFor r reduction factor l false retNode;;
      let '(returned, r', again, retNode') := res in
      match returned with
      | Some node => ret (node, r')
      | None =>
          purgeDropped;;;
          if again then packRectWhile f r' reduction factor retNode'
          else ret (retNode', r')
      end
  end.

(** [packRect]: the node for the rectangle, if one was found, and the
    rectangle. *)
Definition packRect (fuel : nat) (r : PackerRectangle) (reduction factor : Q)
  : M (option nat * PackerRectangle) :=
  modify (fun s => setDroppedList s []);;;
  packRectWhile fuel r reduction factor None.

(** *** One pass of the packer *)

(** [Packing], as [packer] returns it: the placed rectangles, the
    rectangles that did not fit, those no device could take, those whose
    dependencies were not placed, and the nodes. *)
Record PackerPass := mkPackerPass {
  rects : list PackerRectangle;
  pp_notPlaced : list PackerRectangle;
  pp_noDevice : list PackerRectangle;
  pp_noDependent : list PackerRectangle;
  tree : list Node }.

(** Where [packer] files a rectangle. *)
Inductive verdict := Packed | DoesntFit | NoDevice | NoDependent.

Definition verdict_eqb (a b : verdict) : bool :=
  match a, b with
  | Packed, Packed | DoesntFit, DoesntFit
  | NoDevice, NoDevice | NoDependent, NoDependent => true
  | _, _ => false
  end.

(** The loop over the split options in [packer]. *)
Fixpoint tryOptions (options : list SplitOption) (node : option nat)
    (r : PackerRectangle) (reduction : Q) : M (option nat * PackerRectangle) :=
  match options with
  | [] => ret (node, r)
  | option :: rest =>
      match node with
      | Some _ => tryOptions rest node r reduction
      | None =>
          l <- nodes;;
          found <- findById (id (o_node option)) l;;
          a <- lift (defined found);;
          n <- read a;;
          if Js.isSet (occupiedBy n) then
            s <- get;;
            let rConstraint := resolveConstraints (rect n) (_isMixed s) r in
            let nConstraint :=
              resolveConstraints (rect n) (_isMixed s) (rect n) in
            (if negb (isAnchored rConstraint)
                || negb (anchored nConstraint "vcenter")
             then consolidateSingleNode a else ret tt);;;
            res <- splitNode a (o_split option) r reduction;;
            tryOptions rest (fst res) (snd res) reduction
          else tryOptions rest (Some a) r reduction
      end
  end.

Definition cloneNodes : M (list nat) :=
  l <- nodes;; mapM (clone cloneDepth) l.

(** The [while] loop of [packer] for one rectangle: [left] counts the
    iterations that remain below [reduceIterations]. *)
Fixpoint placeLoop (fuel : nat) (left : nat) (iteration : Z)
    (r : PackerRectangle) (reduction factor : Q)
  : M (option nat * PackerRectangle) :=
  match left with
  | O => ret (None, r)
  | S left' =>
      s <- get;;
      let currentpass := _pass s in
      (if Z.eqb iteration (reduceIterations s - 1)
       then modify (fun s => setPass s 2) else ret tt);;;
      modify (fun s => setDevice s false);;;
      originalNodelist <- cloneNodes;;
      let originalRect := r in
      res <- packRect fuel r reduction factor;;
      match fst res with
      | Some node => purgeDropped;;; ret (Some node, snd res)
      | None =>
          modify (fun s => setNodes s originalNodelist);;;
          let r :=
            setGeometry (snd res) (x0 originalRect) (y0 originalRect)
              (width originalRect) (height originalRect) in
          s <- get;;
          if negb (_device s) then ret (None, r)
          else
            options <- findSplitNodeOptions r reduction;;
            res <- tryOptions options None r reduction;;
            match fst res with
            | Some node =>
                l <- nodes;;
                n <- read node;;
                found <- findById (id n) l;;
                ret (found, snd res)
            | None =>
                s <- get;;
                modify (fun s => setPass s currentpass);;;
                placeLoop fuel left' (iteration + 1) (snd res)
                  (reduction * reduceFactor s)%Q factor
            end
      end
  end.

Definition bump (counters : gmap string Q) (key : string)
  : outcome (gmap string Q) :=
  match counters !! key with
  | Some n => Ok (<[key := (n + 1)%Q]> counters)
  | None => NotANumber
  end.

(** The branch of [packer] that takes a rectangle for which a node was
    found: the verdict, the rectangle and its region. *)
Definition accept (node : nat) (r : PackerRectangle)
  : M (verdict * PackerRectangle) :=
  n <- read node;;
  s <- get;;
  c <- lift (defined (resolveConstraints (rect n) (_isMixed s) r));;
  let r := setPosition r (x0 (rect n)) (y0 (rect n)) in
  off <-
    (if (_aspect c =? 0)%Q then ret false
     else if (width (rect n) =? 0)%Q then fun _ => NotANumber
     else ret (negb (Util.isEqualwithPrecision
                       (height (rect n) / width (rect n)) (_aspect c)
                       (1 # 1000))));;
  adjusted <-
    (if off then
       let r := setSize r (width (rect n)) (height (rect n)) in
       minsize <- lift (numeric (toPixelResolution (minSize c) minRect
                                   (boundsOfRect (rect n)) noAspect));;
       res <- aspect_adjust_nofail node r
                (if (width (rect n) >=? height (rect n))%Q
                 then "width" else "height")
                minsize;;
       n' <- read (fst res);;
       ret (fst res, setPosition (snd res) (x0 (rect n')) (y0 (rect n')))
     else ret (node, r));;
  let node := fst adjusted in
  let r := snd adjusted in
  n <- read node;;
  minsize <- lift (numeric (toPixelResolution (minSize c) minRect
                              (boundsOfRect (rect n)) (_aspect c)));;
  if below (rect n) minsize
  then ret (DoesntFit, setGeometry r (-1) (-1) (-1) (-1))
  else
    r <-
      (if modeIs (prefSize c) "inches" then
         d <- lift (numeric (dpi (rect n)));;
         let m := (match marginInches c with
                   | Some mi => mi * d
                   | None => margin c * d
                   end)%Q in
         update node (fun n => setRect n (setMargin (rect n) (Some m)));;;
         ret (setPosition (setMargin r (Some m)) (x0 (rect n)) (y0 (rect n)))
       else ret r);;
    let r :=
      setPlacement (setSize r (width (rect n)) (height (rect n)))
        (dpi (rect n)) (deviceId (rect n)) (regionId (rect n))
        (boundingWidth (rect n)) (boundingHeight (rect n)) in
    update node (fun n => setOccupiedBy n (componentId r));;;
    pushUpdate node;;;
    update node (fun n =>
                   setRect n (setConstraints (rect n) (constraints r)
                                (personalconstraints r)));;;
    s <- get;;
    v <- (if bool_decide (video c = Some true)
          then lift (bump (_numVideoComponentsPlaced s)
                       (keyOf (deviceId (rect n))))
          else ret (_numVideoComponentsPlaced s));;
    au <- (if bool_decide (audio c = Some true)
           then lift (bump (_numAudioComponentsPlaced s)
                        (keyOf (deviceId (rect n))))
           else ret (_numAudioComponentsPlaced s));;
    modify (fun s => setCounters s v au);;;
    ret (Packed, r).

(** The body of [rects.forEach] in [packer].  [packed] is the list of the
    ids placed so far. *)
Definition place (fuel : nat) (originalReduction factor : Q)
    (acc : list (verdict * PackerRectangle) * list string * option string)
    (r : PackerRectangle)
  : M (list (verdict * PackerRectangle) * list string * option string) :=
  let '(done, packed, lastPlacedRegion) := acc in
  let original := r in
  ok <- lift (packedDependencies r packed);;
  if ok then
    s <- get;;
    res <- placeLoop fuel (Z.to_nat (reduceIterations s)) 0 r
             originalReduction factor;;
    match fst res with
    | None =>
        let r :=
          setGeometry (snd res) (-1) (-1) (width original) (height original) in
        s <- get;;
        ret (done ++ [(if _device s then DoesntFit else NoDevice, r)],
             packed, lastPlacedRegion)
    | Some node =>
        res <- accept node (snd res);;
        let '(v, r) := res in
        let lastPlacedRegion :=
          if verdict_eqb v Packed then regionId r else lastPlacedRegion in
        consolidateWhiteNodes lastPlacedRegion;;;
        ret (done ++ [(v, r)],
             if verdict_eqb v Packed
             then packed ++ [keyOf (componentId r)] else packed,
             lastPlacedRegion)
    end
  else ret (done ++ [(NoDependent, r)], packed, lastPlacedRegion).

(** [PackerUtils.updateRect]: the first rectangle of the occupant of the
    node takes the node's place and size. *)
Fixpoint updateFirst (o : option string) (nr : PackerRectangle)
    (l : list (verdict * PackerRectangle)) : list (verdict * PackerRectangle) :=
  match l with
  | [] => []
  | (v, r) :: rest =>
      if Js.ostr_eqb (componentId r) o && Js.isSet o then
        (v, setRegion (setGeometry r (x0 nr) (y0 nr) (width nr) (height nr))
              (deviceId nr) (regionId nr)) :: rest
      else (v, r) :: updateFirst o nr rest
  end.

Definition updateRect (item : nat) (l : list (verdict * PackerRectangle))
  : M (list (verdict * PackerRectangle)) :=
  n <- read item;;
  orig <- (if Js.isSet (occupiedBy n) then ret n
           else k <- nth_child n 0;; read k);;
  ret (updateFirst (occupiedBy orig) (rect orig) l).

Fixpoint updateRects (items : list nat) (l : list (verdict * PackerRectangle))
  : M (list (verdict * PackerRectangle)) :=
  match items with
  | [] => ret l
  | item :: rest => l' <- updateRect item l;; updateRects rest l'
  end.

Definition filed (v : verdict) (l : list (verdict * PackerRectangle))
  : list PackerRectangle :=
  map snd (filter (fun x => verdict_eqb (fst x) v) l).

(** [packer]: [trees] are the addresses of the nodes to pack into. *)
Definition packer (fuel : nat) (trees : list nat)
    (rectangles : list PackerRectangle) (originalReduction : Q)
  : M PackerPass :=
  let factor := 1%Q in
  modify (fun s => setUpdates s []);;;
  modify (fun s => setNodes s trees);;;
  vals <- mapM read trees;;
  let zero :=
    fold_left (fun m n => <[keyOf (deviceId (rect n)) := 0%Q]> m) vals ∅ in
  modify (fun s => setCounters s zero zero);;;
  res <- (fix loop (l : list PackerRectangle) acc :=
            match l with
            | [] => ret acc
            | r :: rest =>
                acc' <- place fuel originalReduction factor acc r;;
                loop rest acc'
            end) rectangles ([], [], None);;
  s <- get;;
  final <- updateRects (_updates s) (fst (fst res));;
  s <- get;;
  t <- mapM read (_nodes s);;
  ret {| rects := filed Packed final;
         pp_notPlaced := filed DoesntFit final;
         pp_noDevice := filed NoDevice final;
         pp_noDependent := filed NoDependent final;
         tree := t |}.

(** [PackerUtils.buildtreelist]: one fresh unoccupied node per region. *)
Definition buildtreelist (regions : list PackerRectangle) : M (list nat) :=
  mapM (fun reg => i <- uuid;; alloc (freshNode i reg None)) regions.

(** A packer object as its constructor leaves it, with the counter of
    [PackerUtils.uuid] at [ctr]. *)
Definition newPacker (ctr : Z) (isMixed : bool) : Packer :=
  {| heap := []; _nodes := []; _updates := []; _dropped := [];
     uuidCtr := ctr;
     _numVideoComponentsPlaced := ∅; _numAudioComponentsPlaced := ∅;
     _device := false; _pass := 1; _shuffling := false;
     reduceFactor := Globals.ReductionRate;
     reduceIterations := Z.of_nat Globals.MaxIterations;
     _isMixed := isMixed |}.
(** *** The driver of the packer *)

Definition setReduceFactor (s : Packer) (f : Q) : Packer :=
  {| heap := heap s; _nodes := _nodes s; _updates := _updates s;
     _dropped := _dropped s; uuidCtr := uuidCtr s;
     _numVideoComponentsPlaced := _numVideoComponentsPlaced s;
     _numAudioComponentsPlaced := _numAudioComponentsPlaced s;
     _device := _device s; _pass := _pass s; _shuffling := _shuffling s;
     reduceFactor := f; reduceIterations := reduceIterations s;
     _isMixed := _isMixed s |}.
Definition setIsMixed (s : Packer) (b : bool) : Packer :=
  {| heap := heap s; _nodes := _nodes s; _updates := _updates s;
     _dropped := _dropped s; uuidCtr := uuidCtr s;
     _numVideoComponentsPlaced := _numVideoComponentsPlaced s;
     _numAudioComponentsPlaced := _numAudioComponentsPlaced s;
     _device := _device s; _pass := _pass s; _shuffling := _shuffling s;
     reduceFactor := reduceFactor s; reduceIterations := reduceIterations s;
     _isMixed := b |}.

(** What [init] and [prepareRects] do to a size that is present: a missing
    mode becomes ["px"], a size in inches gets its inch fields. *)
Definition withInches (s : Doc.PackingSize) : Doc.PackingSize :=
  if modeIs s "inches" then
    {| Doc.width := Doc.width s; Doc.height := Doc.height s;
       Doc.mode := Doc.mode s;
       Doc.widthInches := Some (Doc.width s);
       Doc.heightInches := Some (Doc.height s) |}
  else s.

Definition initSize (s : Doc.PackingSize) : Doc.PackingSize :=
  match Doc.mode s with
  | None =>
      {| Doc.width := Doc.width s; Doc.height := Doc.height s;
         Doc.mode := Some "px";
         Doc.widthInches := Doc.widthInches s;
         Doc.heightInches := Doc.heightInches s |}
  | Some _ => withInches s
  end.

Definition setSizes (c : ILayoutConstraint) (a : Q) (pref minS : Doc.PackingSize)
    (mi : option Q) : ILayoutConstraint :=
  {| aspect := aspect c; _aspect := a; prefSize := pref; minSize := minS;
     valid := valid c; priority := priority c; audio := audio c;
     video := video c; margin := margin c; marginInches := mi;
     anchor := anchor c; dependencies := dependencies c |}.

(** The preferred size of a constraint set after [init]; the margin in
    inches is the margin when the preferred size is in inches. *)
Definition initPrefSize (c : ILayoutConstraint) : ILayoutConstraint :=
  setSizes c (_aspect c) (initSize (prefSize c)) (minSize c)
    (if modeIs (prefSize c) "inches" then Some (margin c)
     else marginInches c).

Definition initMinSize (c : ILayoutConstraint) : ILayoutConstraint :=
  setSizes c (_aspect c) (prefSize c) (initSize (minSize c)) (marginInches c).

(** The body of [rects.forEach] in [init].  A constraint set that reaches
    the packer has [prefSize] and [minSize], so the two defaults of the
    source for a missing size are not taken. *)
Definition init (r : PackerRectangle) : outcome PackerRectangle :=
  (c <- defined (constraints r);;
   let c := initPrefSize c in
   size <- numeric (rectSize c None);;
   let w := if (Doc.width (prefSize c) =? -1)%Q then (-1)%Q else wd size in
   let h := if (Doc.height (prefSize c) =? -1)%Q then (-1)%Q else ht size in
   let c :=
     if Js.isSet (aspect c) then c
     else setSizes c noAspect (prefSize c) (minSize c) (marginInches c) in
   let c := initMinSize c in
   let personal :=
     option_map (fun p => initMinSize (initPrefSize p))
                (personalconstraints r) in
   Ok (setConstraints (setGeometry r (-1) (-1) w h) (Some c) personal))%outcome.

(** Lists of rectangle objects: an object is known by the place it had in
    the list it came from. *)
Definition tagged {A : Type} (l : list A) : list (nat * A) :=
  combine (seq 0 (length l)) l.

Definition hasTag {A : Type} (l : list (nat * A)) (i : nat) : bool :=
  existsb (fun x => Nat.eqb (fst x) i) l.

(** [_.union] and [_.difference] on objects. *)
Definition unionBy {A : Type} (a b : list (nat * A)) : list (nat * A) :=
  fold_left (fun acc x => if hasTag acc (fst x) then acc else acc ++ [x])
            (a ++ b) [].

Definition differenceBy {A : Type} (a b : list (nat * A)) : list (nat * A) :=
  filter (fun x => negb (hasTag b (fst x))) a.

(** [boxes[item].push(r)]: the dictionary of [prepareRects] keeps its keys
    in insertion order (region ids are not array indices). *)
Fixpoint pushBox (name : string) (r : nat * PackerRectangle)
    (boxes : list (string * list (nat * PackerRectangle)))
  : list (string * list (nat * PackerRectangle)) :=
  match boxes with
  | [] => [(name, [r])]
  | (k, l) :: rest =>
      if String.eqb k name then (k, l ++ [r]) :: rest
      else (k, l) :: pushBox name r rest
  end.

(** The rectangles of a box, in order, as long as their sizes add up to
    no more than the real estate of the region. *)
Fixpoint withinRealEstate (t : Bounds) (totalRealEstate usedRealEstate : Q)
    (l : list (nat * PackerRectangle)) : outcome (list (nat * PackerRectangle)) :=
  (match l with
   | [] => Ok []
   | box :: rest =>
       c <- defined (constraints (snd box));;
       rsize <- numeric (rectSize c (Some t));;
       let used := (usedRealEstate + wd rsize * ht rsize)%Q in
       if (used >? totalRealEstate)%Q then Ok []
       else
         more <- withinRealEstate t totalRealEstate used rest;;
         Ok (box :: more)
   end)%outcome.

Definition boxCompare (t : Bounds) (areaFirst : bool)
    (a b : nat * PackerRectangle) : outcome Z :=
  (ca <- defined (constraints (snd a));;
   cb <- defined (constraints (snd b));;
   rsizeA <- numeric (rectSize ca (Some t));;
   rsizeB <- numeric (rectSize cb (Some t));;
   Ok (if areaFirst
       then larger (wd rsizeA) (ht rsizeA) (wd rsizeB) (ht rsizeB)
       else largerDimArea (wd rsizeA) (ht rsizeA) (wd rsizeB) (ht rsizeB)))%outcome.

(** [PackerUtils.prepareRects]; [trees] are the packing regions. *)
Definition prepareRects (rects : list (nat * PackerRectangle))
    (trees : list PackerRectangle) (areaFirst : bool)
  : outcome (list (nat * PackerRectangle)) :=
  (boxes <- ofoldM
     (fun boxes r =>
        c <- defined (constraints (snd r));;
        Ok (fold_left (fun boxes item => pushBox item r boxes) (valid c) boxes))
     rects [];;
   ofoldM
     (fun toBePacked (box : string * list (nat * PackerRectangle)) =>
        let name := fst box in
        let t :=
          match find (fun t => Js.ostr_eqb (regionId t) (Some name)) trees with
          | Some t => Some t
          | None => find (fun t => Js.ostr_eqb (deviceId t) (Some name)) trees
          end in
        match t with
        | None => Ok toBePacked
        | Some t =>
            let totalRealEstate := (width t * height t)%Q in
            boxRects <- withinRealEstate (boundsOfRect t) totalRealEstate 0
                          (snd box);;
            sorted <- jsSortM (boxCompare (boundsOfRect t) areaFirst) boxRects;;
            Ok (unionBy toBePacked sorted)
        end)
     boxes [])%outcome.

Definition sortCompare (region0 : Bounds) (a b : PackerRectangle) : outcome Z :=
  (ca <- defined (constraints a);;
   cb <- defined (constraints b);;
   let pa := priority ca in
   let pb := priority cb in
   if Z.ltb pa pb then Ok 1
   else if Z.ltb pb pa then Ok (-1)
   else
     sa <- numeric (rectSize ca (Some region0));;
     sb <- numeric (rectSize cb (Some region0));;
     Ok (larger (wd sa) (ht sa) (wd sb) (ht sb)))%outcome.

(** The inch fields [prepareRects] writes on every rectangle it is given. *)
Definition inchFields (r : PackerRectangle) : outcome PackerRectangle :=
  (c <- defined (constraints r);;
   Ok (setConstraints r
         (Some (setSizes c (_aspect c) (withInches (prefSize c))
                  (withInches (minSize c))
                  (if modeIs (prefSize c) "inches" then Some (margin c)
                   else marginInches c)))
         (personalconstraints r)))%outcome.

(** [PackerUtils.sortRects] *)
Definition sortRects (rects packingRegions : list PackerRectangle)
    (byArea : bool) : outcome (list PackerRectangle) :=
  (region0 <- defined (head packingRegions);;
   rects <- jsSortM (sortCompare (boundsOfRect region0)) rects;;
   rects <- omapM inchFields rects;;
   let packedRects := tagged rects in
   toBePacked <- prepareRects packedRects packingRegions byArea;;
   let dontFit := differenceBy packedRects toBePacked in
   Ok (map (fun r =>
              match constraints r with
              | None => r
              | Some c =>
                  let r :=
                    if (Doc.width (prefSize c) =? -1)%Q
                    then setWidth r (-1) else r in
                  if (Doc.height (prefSize c) =? -1)%Q
                  then setHeight r (-1) else r
              end)
           (map snd (unionBy toBePacked dontFit))))%outcome.

(** [PackerUtils.computeFillSpace] and [PackerUtils.computeWhiteSpace] *)
Definition computeFillSpace (nodelist : list PackerRectangle) : Q :=
  fold_left (fun fillspace node => (fillspace + area node)%Q) nodelist 0%Q.

Definition computeWhiteSpace (nodelist regionlist : list PackerRectangle) : Q :=
  let fillspace := computeFillSpace nodelist in
  let availableRE :=
    fold_left (fun acc r => (acc + boundingWidth r * boundingHeight r)%Q)
              regionlist 0%Q in
  (availableRE - fillspace)%Q.

(** [Pruner]: node addresses and rectangle objects. *)
Record Pruner := mkPruner {
  pr_trees : list nat;
  pr_rects : list (nat * PackerRectangle);
  prunedTrees : list nat;
  prunedRects : list (nat * PackerRectangle) }.

Definition sameRegion (nr r : PackerRectangle) : bool :=
  Js.ostr_eqb (regionId nr) (regionId r)
  && Js.ostr_eqb (deviceId nr) (deviceId r).

Definition uniqNodes (l : list nat) : list nat :=
  fold_left (fun acc a => if existsb (Nat.eqb a) acc then acc else acc ++ [a])
            l [].

(** [PackerUtils.prunePrefRegions] *)
Definition prunePrefRegions (data : Pruner) (reallyPrune : bool) : M Pruner :=
  if negb reallyPrune then ret data
  else
    vals <- mapM (fun a => n <- read a;; ret (a, rect n)) (pr_trees data);;
    marked <- lift (ofoldM
      (fun (acc : list nat * list (nat * PackerRectangle)) r =>
         obind (defined (constraints (snd r))) (fun c =>
           if (Doc.width (prefSize c) >? -1)%Q
              || (Doc.height (prefSize c) >? -1)%Q
           then
             let node := find (fun an => sameRegion (snd an) (snd r)) vals in
             Ok (match node with
                 | Some an => fst acc ++ [fst an]
                 | None => fst acc
                 end, snd acc ++ [r])
           else Ok acc))
      (pr_rects data) (prunedTrees data, prunedRects data));;
    let pTrees := uniqNodes (fst marked) in
    let pRects := snd marked in
    if Nat.ltb 0 (length pTrees) then
      let rects1 := differenceBy (pr_rects data) pRects in
      let rrects :=
        filter (fun r =>
                  existsb (fun an => existsb (Nat.eqb (fst an)) pTrees
                                     && sameRegion (snd an) (snd r)) vals)
               rects1 in
      ret {| pr_trees := rejectAll (pr_trees data) pTrees;
             pr_rects := differenceBy rects1 rrects;
             prunedTrees := pTrees;
             prunedRects := unionBy pRects rrects |}
    else
      ret {| pr_trees := pr_trees data; pr_rects := pr_rects data;
             prunedTrees := pTrees; prunedRects := pRects |}.

(** [__beautify], up to the test that guards the shuffle.  Of the two
    properties the early exit writes, [packed.trees] is not one [_pack]
    reads. *)
Definition __beautify (packed : PackerPass) (reduction : Q) : M PackerPass :=
  _ <- cloneNodes;;
  let firstPass := rects packed in
  l <- nodes;;
  pruner <- prunePrefRegions
              {| pr_trees := l; pr_rects := tagged (rects packed);
                 prunedTrees := []; prunedRects := [] |} true;;
  if Nat.ltb (length (pr_trees pruner)) 1
     || Nat.ltb (length (pr_rects pruner)) 2
  then ret {| rects := firstPass; pp_notPlaced := pp_notPlaced packed;
              pp_noDevice := pp_noDevice packed;
              pp_noDependent := pp_noDependent packed;
              tree := tree packed |}
  else fun _ => Repack.

(** [_.pluck(list, "componentId")]; every rectangle of a component
    carries its id. *)
Definition pluck (l : list PackerRectangle) : list string :=
  omap componentId l.

(** The last statements of [_pack]: the rectangles that did not fit and
    those whose dependencies were not placed go into one list of ids.  No
    rectangle object is in both lists, so [_.union] of the two is their
    concatenation. *)
Definition packedResult (notPlaced0 : list string) (packerPass : PackerPass)
  : LayoutGenerator.Packing :=
  {| LayoutGenerator.p_layout := rects packerPass;
     LayoutGenerator.p_notPlaced :=
       LayoutGenerator.union notPlaced0
         (pluck (pp_notPlaced packerPass ++ pp_noDependent packerPass));
     LayoutGenerator.p_noDevice := pluck (pp_noDevice packerPass) |}.

(** [_pack].  The fields [_beautify], [_beautifyPrefsize] and
    [singleReductionRate] keep the values of their declarations ([true],
    [false] and [Globals.packer.SingleReductionRate]): the service never
    calls their setters.  The rectangle of a root node is the region
    object itself; of the properties a pass writes on it, none is read
    again on the paths followed here. *)
Definition _pack (fuel : nat) (packingregions rectangles : list PackerRectangle)
    (isMixed : bool) : M LayoutGenerator.Packing :=
  modify (fun s => setIsMixed s isMixed);;;
  if Nat.ltb (length packingregions) 1 || Nat.ltb (length rectangles) 1 then
    ret {| LayoutGenerator.p_layout := [];
           LayoutGenerator.p_notPlaced := [];
           LayoutGenerator.p_noDevice := [] |}
  else
    initializedRects <- lift (omapM init rectangles);;
    sorted <- lift (sortRects initializedRects packingregions false);;
    let notPlaced0 :=
      LayoutGenerator.difference (pluck rectangles) (pluck sorted) in
    s <- get;;
    let reduceFactor0 := reduceFactor s in
    modify (fun s => setReduceFactor s Globals.SingleReductionRate);;;
    modify (fun s => setPass s 1);;;
    trees <- buildtreelist packingregions;;
    packerPass <- packer fuel trees sorted 1;;
    modify (fun s => setReduceFactor s reduceFactor0);;;
    modify (fun s => setPass s 2);;;
    let reduction := 1%Q in
    if Nat.ltb 0 (length (pp_notPlaced packerPass)) then fun _ => Repack
    else
      let ws := computeWhiteSpace (rects packerPass) packingregions in
      (if (ws >? 0)%Q then
         _ <- cloneNodes;;
         modify (fun s => setPass s 3);;;
         fresh <- buildtreelist packingregions;;
         pruner <- prunePrefRegions
                     {| pr_trees := fresh;
                        pr_rects := tagged (rects packerPass);
                        prunedTrees := []; prunedRects := [] |} true;;
         if Nat.ltb 0 (length (pr_trees pruner))
            && Nat.ltb 1 (length (pr_rects pruner))
         then fun _ => Repack
         else ret tt
       else ret tt);;;
      packerPass <-
        (if (ws >? 0)%Q then __beautify packerPass reduction
         else ret packerPass);;
      ret (packedResult notPlaced0 packerPass).

(** [packRegions] on a packer as its constructor leaves it. *)
Definition packRegions (fuel : nat) (regions rects : list PackerRectangle)
    (isMixed : bool) : outcome LayoutGenerator.Packing :=
  match _pack fuel regions rects isMixed (newPacker 0 isMixed) with
  | Ok (packed, _) => Ok packed
  | TypeError => TypeError
  | NotANumber => NotANumber
  | OutOfFuel => OutOfFuel
  | Repack => Repack
  end.

End LayoutPacker.
(** * Inputs and notions used in the statements *)

Module Fixtures.

(** A communal display of 100 by 100 pixels that plays one video and one
    audio stream at a time and declares no logical region. *)
Definition tvCaps : Doc.Caps :=
  {| Doc.displayWidth := 100; Doc.displayHeight := 100;
     Doc.displayResolution := Some 96%Q;
     Doc.concurrentAudio := Some 1%Q; Doc.concurrentVideo := Some 1%Q;
     Doc.caps_touchInteraction := None; Doc.communalDevice := true |}.

Definition tv (name : string) : Doc.Device :=
  {| Doc.deviceId := name; Doc.caps := tvCaps; Doc.regions := None;
     Doc.group := "lounge" |}.

(** A context with one display, and one with two displays in one group. *)
Definition oneScreen : Doc.Context :=
  {| Doc.ctx_id := "ctx"; Doc.devices := [tv "tv1"];
     Doc.percentCoords := None |}.

Definition twoScreens : Doc.Context :=
  {| Doc.ctx_id := "ctx"; Doc.devices := [tv "tv1"; tv "tv2"];
     Doc.percentCoords := None |}.

(** A personal device in the same group, and the context of a display and
    that device. *)
Definition tablet (name : string) : Doc.Device :=
  {| Doc.deviceId := name;
     Doc.caps :=
       {| Doc.displayWidth := 100; Doc.displayHeight := 100;
          Doc.displayResolution := Some 96%Q;
          Doc.concurrentAudio := Some 1%Q; Doc.concurrentVideo := Some 1%Q;
          Doc.caps_touchInteraction := Some true;
          Doc.communalDevice := false |};
     Doc.regions := None; Doc.group := "lounge" |}.

Definition screenAndTablet : Doc.Context :=
  {| Doc.ctx_id := "ctx"; Doc.devices := [tv "tv1"; tablet "pad1"];
     Doc.percentCoords := None |}.

(** A constraint set with a minimum size of one pixel and no preferred
    size. *)
Definition constraint (p : Z) (v : option bool) (a : option (Q * Q))
    (dep anch : option (list string)) : Doc.ConstraintDoc :=
  {| Doc.aspect := a; Doc.prefSize := None; Doc.minSize := Some (Doc.px 1 1);
     Doc.targetRegions := None; Doc.priority := p;
     Doc.audio := None; Doc.video := v; Doc.touchInteraction := None;
     Doc.margin := None; Doc.anchor := anch;
     Doc.componentDependency := dep |}.

Definition plain (p : Z) : Doc.ConstraintDoc := constraint p None None None None.

Definition both (name : string) (c : Doc.ConstraintDoc) : Doc.ConstraintPair :=
  {| Doc.constraintId := name; Doc.personal := c; Doc.communal := c |}.

Definition noLayout : Doc.CLayout :=
  {| Doc.position := None; Doc.size := None; Doc.zDepth := None;
     Doc.instanceId := None; Doc.l_priority := None; Doc.visible := None;
     Doc.l_deviceId := None; Doc.l_regionId := None; Doc.l_mode := None |}.

(** A component that names the constraint of its own id. *)
Definition component (name : string) : Doc.Component :=
  {| Doc.componentId := name; Doc.c_constraintId := Some name;
     Doc.startTime := None; Doc.stopTime := None; Doc.layout := noLayout;
     Doc.priorityOverrides := None; Doc.c_prefSize := None;
     Doc.DMAppId := None; Doc.c_contextId := None |}.

Definition dmapp (cs : list (string * Doc.ConstraintDoc)) : Doc.DMApp :=
  {| Doc.dmapp_id := "app";
     Doc.components := map (fun c => component (fst c)) cs;
     Doc.constraints := map (fun c => both (fst c) (snd c)) cs |}.

(** The record [runLayout] emits for a component placed on a display. *)
Definition placed (name dev : string) (x y w h : Q) (p : Z) : Doc.Component :=
  {| Doc.componentId := name; Doc.c_constraintId := Some name;
     Doc.startTime := None; Doc.stopTime := None;
     Doc.layout :=
       {| Doc.position := Some {| Doc.p_x := Doc.Pixels x; Doc.p_y := Doc.Pixels y |};
          Doc.size := Some {| Doc.s_width := Doc.Pixels w;
                              Doc.s_height := Doc.Pixels h |};
          Doc.zDepth := None;
          Doc.instanceId :=
            Some (Util.componentInstanceId "ctx" "app" dev name);
          Doc.l_priority := Some p; Doc.visible := None;
          Doc.l_deviceId := Some dev; Doc.l_regionId := None;
          Doc.l_mode := Some "px" |};
     Doc.priorityOverrides := None; Doc.c_prefSize := None;
     Doc.DMAppId := Some "app"; Doc.c_contextId := Some "ctx" |}.


Definition reported (st : string) (ids : list string) : Layout.Skipped :=
  {| Layout.sk_group := "lounge"; Layout.status := st;
     Layout.sk_components := ids |}.

(** The bound given to the loops of the packer. *)
Definition fuel : nat := 20.

(** [LayoutGenerator.computeLayout] with the generator's packer. *)
Definition computeLayout (ctx : Doc.Context) (dmapps : list Doc.DMApp)
  : outcome LayoutGenerator.ContextLayout :=
  LayoutGenerator.computeLayout (LayoutPacker.packRegions fuel) ctx dmapps.

(** One component of priority 0. *)
Definition hiddenApp : Doc.DMApp := dmapp [("banner", plain 0)].

(** One component with aspect 16:9. *)
Definition videoApp : Doc.DMApp :=
  dmapp [("video", constraint 1 None (Some (16, 9)%Q) None None)].

(** A menu and two videos, in falling priority. *)
Definition threeApp : Doc.DMApp :=
  dmapp [("menu", plain 10);
         ("video1", constraint 9 (Some true) None None None);
         ("video2", constraint 8 (Some true) None None None)].

(** A component of priority 0 and one that depends on it. *)
Definition dependentApp : Doc.DMApp :=
  dmapp [("main", plain 0);
         ("subtitles", constraint 1 None None (Some ["main"]) None)].

(** The entry of [componentlist] for the component of [videoApp] on the
    context with one display. *)
Definition videoEntry : PackerUtils.PackerRectangle :=
  LayoutGenerator.entry videoApp (component "video")
    {| PackerUtils.aspect := Some (16, 9)%Q; PackerUtils._aspect := 9 # 16;
       PackerUtils.prefSize := PackerUtils.defaultPrefSize;
       PackerUtils.minSize := Doc.px 1 1;
       PackerUtils.valid := ["tv1"]; PackerUtils.priority := 1;
       PackerUtils.audio := None; PackerUtils.video := None;
       PackerUtils.margin := 0; PackerUtils.marginInches := None;
       PackerUtils.anchor := None; PackerUtils.dependencies := [] |}
    None.


Definition onDevice (dev : string) (cs : list Doc.Component)
  : Layout.DeviceLayout :=
  {| Layout.dl_deviceId := dev; Layout.dl_components := cs |}.

(** The layouts the generator computes for these DMApps. *)
Definition videoLayout : LayoutGenerator.ContextLayout :=
  {| LayoutGenerator.cl_devices :=
       [onDevice "tv1" [placed "video" "tv1" 0 0 99 56 1]];
     LayoutGenerator.cl_notPlaced := [] |}.


Definition threeLayout : LayoutGenerator.ContextLayout :=
  {| LayoutGenerator.cl_devices :=
       [onDevice "tv1" [placed "menu" "tv1" 0 0 100 100 10];
        onDevice "tv2" [placed "video1" "tv2" 0 0 50 100 9;
                        placed "video2" "tv2" 50 0 50 100 8]];
     LayoutGenerator.cl_notPlaced := [] |}.

Definition dependentLayout : LayoutGenerator.ContextLayout :=
  {| LayoutGenerator.cl_devices := [];
     LayoutGenerator.cl_notPlaced :=
       [reported "incompatible" ["main"]; reported "skipped" ["subtitles"]] |}.





(** The components a device layout lists whose constraints ask for video. *)
Definition videosOn (app : Doc.DMApp) (dev : string)
    (layout : LayoutGenerator.ContextLayout) : list string :=
  match Layout.findDevice dev (LayoutGenerator.cl_devices layout) with
  | None => []
  | Some d =>
      map Doc.componentId
        (filter (fun c =>
                   bool_decide
                     (Doc.video (DMApp.getComponentConstraints app
                                   (Doc.c_constraintId c) true) = Some true))
                (Layout.dl_components d))
  end.

(** The aspect-ratio error [|height / width - aspect|] of an emitted size
    in pixels. *)
Definition aspectError (c : Doc.Component) (aspect : Q) : option Q :=
  match Doc.size (Doc.layout c) with
  | Some {| Doc.s_width := Doc.Pixels w; Doc.s_height := Doc.Pixels h |} =>
      Some (Qabs (h / w - aspect))
  | _ => None
  end.

(** The order of resolution as the specification words it: the override of
    the device, then that of its group, then that of the context, then the
    priority of the constraint. *)
Definition cascadePriority (app : Doc.DMApp) (c : Doc.Component)
    (device : Doc.Device) (devtype : string) : Z :=
  let fallback :=
    Doc.priority (DMApp.getComponentConstraints app (Doc.c_constraintId c)
                    (String.eqb devtype "communal")) in
  match Doc.priorityOverrides c with
  | Some ovs =>
      match ovs !! devtype with
      | Some o =>
          match Doc.priorities o !! Doc.deviceId device,
                Doc.priorities o !! Doc.group device,
                Doc.priorities o !! "context" with
          | Some p, _, _ => p
          | None, Some p, _ => p
          | None, None, Some p => p
          | None, None, None => fallback
          end
      | None => fallback
      end
  | None => fallback
  end.

(** One component of priority 3. *)
Definition bannerApp : Doc.DMApp := dmapp [("banner", plain 3)].

Definition override (devType sc id : string) (p : Z)
  : ComponentController.OverrideItem :=
  {| ComponentController.devtype := devType;
     ComponentController.i_scope := sc;
     ComponentController.overrides :=
       [{| ComponentController.e_id := id;
           ComponentController.e_priority := p |}] |}.

(** A request that overrides the priority for the display, then one that
    overrides it for the group of the display. *)
Definition deviceThenGroup : list ComponentController.OverrideItem :=
  [override "communal" "device" "tv1" 5;
   override "communal" "group" "lounge" 7].

Definition withOverrides (c : Doc.Component) (ovs : gmap string Doc.Override)
  : Doc.Component :=
  {| Doc.componentId := Doc.componentId c;
     Doc.c_constraintId := Doc.c_constraintId c;
     Doc.startTime := Doc.startTime c; Doc.stopTime := Doc.stopTime c;
     Doc.layout := Doc.layout c;
     Doc.priorityOverrides := Some ovs;
     Doc.c_prefSize := Doc.c_prefSize c;
     Doc.DMAppId := Doc.DMAppId c; Doc.c_contextId := Doc.c_contextId c |}.

(** The key [setPriority] writes an override under. *)
Definition writtenKey (sc id : string) : string :=
  if String.eqb sc "context" then "context" else id.

(** The key [getPriority] reads for a device under a scope. *)
Definition readKey (sc : string) (device : Doc.Device) : string :=
  DMApp.overrideKey {| Doc.scope := sc; Doc.priorities := ∅ |} device.






(** The record a layout lists for a component on a device: the first
    record of that component on the first entry of that device. *)
Definition recordOn (dev name : string) (l : Layout.GeneratedLayout)
  : option Doc.Component :=
  match Layout.findDevice dev (Layout.gl_devices l) with
  | Some entry => Layout.findComponent name (Layout.dl_components entry)
  | None => None
  end.

(** What a list of device entries shows at a place: the device id of the
    entry at index [i], and the record at index [j] of that entry. *)
Definition deviceAt (i : nat) (ds : list Layout.DeviceLayout)
  : option string :=
  match ds !! i with
  | Some d => Some (Layout.dl_deviceId d)
  | None => None
  end.

Definition componentAt (i j : nat) (ds : list Layout.DeviceLayout)
  : option Doc.Component :=
  match ds !! i with
  | Some d => Layout.dl_components d !! j
  | None => None
  end.

(** The place of the record [recordOn] finds: the first entry of the
    device, and the first record of the component on it. *)
Definition firstPlace (dev name : string) (ds : list Layout.DeviceLayout)
    (i j : nat) : Prop :=
  deviceAt i ds = Some dev
  /\ (forall i', (i' < i)%nat -> deviceAt i' ds <> Some dev)
  /\ (exists r, componentAt i j ds = Some r /\ Doc.componentId r = name)
  /\ forall j' r', (j' < j)%nat -> componentAt i j' ds = Some r' ->
                   Doc.componentId r' <> name.

(** Every place held under a component id shows a record of that id. *)
Definition wellHeld (c : LayoutManager.Carried) : Prop :=
  forall id i j,
    LayoutManager.holds (LayoutManager.held c) id i j = true ->
    exists r,
      componentAt i j (Layout.gl_devices (LayoutManager.shown c)) = Some r
      /\ Doc.componentId r = id.

(** The test [manageHiddenComps] makes of an entry of the previous layout
    for a component id: the object of the DMApp when the entry passes. *)
Definition carried (ctx : Doc.Context) (app : Doc.DMApp) (compId : string)
    (dev : Layout.DeviceLayout) : option Doc.Component :=
  match Layout.findComponent compId (Layout.dl_components dev) with
  | Some comp =>
      if Context.hasDevice ctx (Layout.dl_deviceId dev) then
        match DMApp.getComponent app (Doc.componentId comp) with
        | Some latestComp =>
            if String.eqb (Doc.componentId comp) compId
               && negb (Js.isSet (Doc.stopTime latestComp))
               && Js.isSet (Doc.startTime comp)
               && Js.isSet (Doc.size (Doc.layout comp))
            then Some latestComp
            else None
        | None => None
        end
      else None
  | None => None
  end.

(** The device of the last entry of the previous layout that passes the
    test for a component id, [d] when none does. *)
Definition lastCarriedFrom (ctx : Doc.Context) (app : Doc.DMApp)
    (name : string) (entries : list Layout.DeviceLayout) (d : option string)
  : option string :=
  fold_left
    (fun acc e =>
       match carried ctx app name e with
       | Some _ => Some (Layout.dl_deviceId e)
       | None => acc
       end)
    entries d.

Definition lastCarried (ctx : Doc.Context) (app : Doc.DMApp)
    (name : string) (prev : Layout.GeneratedLayout) : option string :=
  lastCarriedFrom ctx app name (Layout.gl_devices prev) None.

(** What a step of [manageHiddenComps] that carries the object [nc] of the
    component [name'] to the device [dev'] does to the layout: the places
    that hold the object show [nc], the other places are as they were,
    and [pushed] is the place the object is pushed at, when the device
    did not list the component. *)
Definition carries (name' dev' : string) (nc : Doc.Component)
    (pushed : option (nat * nat)) (c c' : LayoutManager.Carried) : Prop :=
  let ds := Layout.gl_devices (LayoutManager.shown c) in
  let ds' := Layout.gl_devices (LayoutManager.shown c') in
  Layout.notPlaced (LayoutManager.shown c')
  = Layout.notPlaced (LayoutManager.shown c)
  /\ Layout.gl_contextId (LayoutManager.shown c')
     = Layout.gl_contextId (LayoutManager.shown c)
  /\ Layout.timestamp (LayoutManager.shown c')
     = Layout.timestamp (LayoutManager.shown c)
  /\ LayoutManager.held c'
     = LayoutManager.held c
       ++ match pushed with Some p => [(name', p)] | None => [] end
  /\ (forall i, (i < length ds)%nat -> deviceAt i ds' = deviceAt i ds)
  /\ (forall i j r0,
        componentAt i j ds = Some r0 ->
        componentAt i j ds'
        = Some (if LayoutManager.holds (LayoutManager.held c) name' i j
                then nc else r0))
  /\ (forall i j r,
        componentAt i j ds' = Some r ->
        pushed = Some (i, j) \/ exists r0, componentAt i j ds = Some r0)
  /\ match pushed with
     | Some (i, j) =>
         componentAt i j ds = None
         /\ componentAt i j ds' = Some nc
         /\ firstPlace dev' name' ds' i j
     | None =>
         exists i j, firstPlace dev' name' ds' i j
                     /\ componentAt i j ds <> None
     end.

(** The layout lists the component on the device at a place that holds
    the object of the DMApp, and shows the object as it is after it was
    carried to the device [d]. *)
Definition listedHidden (ctx : Doc.Context) (app : Doc.DMApp)
    (dev name : string) (latest : Doc.Component) (d : string)
    (c : LayoutManager.Carried) : Prop :=
  exists i j,
    firstPlace dev name (Layout.gl_devices (LayoutManager.shown c)) i j
    /\ componentAt i j (Layout.gl_devices (LayoutManager.shown c))
       = Some (LayoutManager.hiddenComponent ctx app d name latest)
    /\ LayoutManager.holds (LayoutManager.held c) name i j = true.

(** What the type of a group says of the devices of the group: all of
    them communal, all of them personal, or some of each. *)
Definition groupKind (ds : list Doc.Device) (g : string)
    (t : Context.groupType) : Prop :=
  match t with
  | Context.communal =>
      forall d, In d ds -> Doc.group d = g ->
                Doc.communalDevice (Doc.caps d) = true
  | Context.personal =>
      forall d, In d ds -> Doc.group d = g ->
                Doc.communalDevice (Doc.caps d) = false
  | Context.mixed =>
      (exists d, In d ds /\ Doc.group d = g
                 /\ Doc.communalDevice (Doc.caps d) = true)
      /\ (exists d, In d ds /\ Doc.group d = g
                    /\ Doc.communalDevice (Doc.caps d) = false)
  end.

Definition generated (ds : list Layout.DeviceLayout) (np : list Layout.Skipped)
  : Layout.GeneratedLayout :=
  {| Layout.gl_contextId := "ctx"; Layout.gl_devices := ds;
     Layout.notPlaced := np; Layout.timestamp := 0 |}.

(** A component that was initialised and not started, as the simulator
    persists it: no start time, and a layout that holds the instance id
    only. *)
Definition inited (name dev : string) : Doc.Component :=
  {| Doc.componentId := name; Doc.c_constraintId := Some name;
     Doc.startTime := None; Doc.stopTime := None;
     Doc.layout :=
       {| Doc.position := None; Doc.size := None; Doc.zDepth := None;
          Doc.instanceId :=
            Some (Util.componentInstanceId "ctx" "app" dev name);
          Doc.l_priority := None; Doc.visible := None;
          Doc.l_deviceId := None; Doc.l_regionId := None;
          Doc.l_mode := None |};
     Doc.priorityOverrides := None; Doc.c_prefSize := None;
     Doc.DMAppId := None; Doc.c_contextId := None |}.

(** A component that was started at time 10. *)
Definition started (c : Doc.Component) : Doc.Component :=
  {| Doc.componentId := Doc.componentId c;
     Doc.c_constraintId := Doc.c_constraintId c;
     Doc.startTime := Some 10%Q; Doc.stopTime := Doc.stopTime c;
     Doc.layout := Doc.layout c;
     Doc.priorityOverrides := Doc.priorityOverrides c;
     Doc.c_prefSize := Doc.c_prefSize c;
     Doc.DMAppId := Doc.DMAppId c; Doc.c_contextId := Doc.c_contextId c |}.

(** The DMApp whose component [banner], of priority 0, is running. *)
Definition runningApp : Doc.DMApp :=
  {| Doc.dmapp_id := "app";
     Doc.components := [started (component "banner")];
     Doc.constraints := [both "banner" (plain 0)] |}.

(** The previous layout lists [banner] on [tv1] as initialised; the new
    one reports it and places nothing. *)
Definition initedLayout : Layout.GeneratedLayout :=
  generated [onDevice "tv1" [inited "banner" "tv1"]] [].

Definition reportedLayout : Layout.GeneratedLayout :=
  generated [] [reported "incompatible" ["banner"]].

(** The previous layout lists [banner] on [tv1] as running and laid out. *)
Definition runningLayout : Layout.GeneratedLayout :=
  generated [onDevice "tv1" [started (placed "banner" "tv1" 0 0 100 100 3)]] [].

(** The previous layout lists [banner] on [tv1] and on [tv2] as running
    and laid out. *)
Definition runningOnTwo : Layout.GeneratedLayout :=
  generated [onDevice "tv1" [started (placed "banner" "tv1" 0 0 100 100 3)];
             onDevice "tv2" [started (placed "banner" "tv2" 0 0 100 100 3)]]
    [].

(** The region list of the two displays, the rectangles of [threeApp] for
    it as [_pack] hands them to its first pass, and that pass on a packer
    as [_pack] has set it. *)
Definition twoRegions : list PackerUtils.PackerRectangle :=
  LayoutGenerator.deviceRegions (tv "tv1") "tv1"
  ++ LayoutGenerator.deviceRegions (tv "tv2") "tv2".

Definition threeRects : list PackerUtils.PackerRectangle :=
  match
    obind (LayoutGenerator.buildComponentList twoScreens [threeApp]
             ["tv1"; "tv2"] twoRegions Context.communal)
      (fun clist =>
         obind (omapM LayoutPacker.init (fst clist))
           (fun l => LayoutPacker.sortRects l twoRegions false))
  with
  | Ok l => l
  | _ => []
  end.

Definition readyPacker : list nat * LayoutPacker.Packer :=
  match
    LayoutPacker.buildtreelist twoRegions
      (LayoutPacker.setReduceFactor (LayoutPacker.newPacker 0 false)
         Globals.SingleReductionRate)
  with
  | Ok r => r
  | _ => ([], LayoutPacker.newPacker 0 false)
  end.

Definition threePass : LayoutPacker.PackerPass * LayoutPacker.Packer :=
  match
    LayoutPacker.packer fuel (fst readyPacker) threeRects 1 (snd readyPacker)
  with
  | Ok r => r
  | _ => ({| LayoutPacker.rects := []; LayoutPacker.pp_notPlaced := [];
             LayoutPacker.pp_noDevice := [];
             LayoutPacker.pp_noDependent := []; LayoutPacker.tree := [] |},
          snd readyPacker)
  end.

(** A root rectangle that [buildRegionNodeTree] may make for a device
    listed under the id [dev]. *)
Definition regionOf (device : Doc.Device) (dev : string)
    (r : PackerUtils.PackerRectangle) : Prop :=
  PackerUtils.deviceId r = Some dev
  /\ PackerUtils.x0 r = 0%Q /\ PackerUtils.y0 r = 0%Q
  /\ PackerUtils.boundingWidth r = PackerUtils.width r
  /\ PackerUtils.boundingHeight r = PackerUtils.height r
  /\ PackerUtils.dpi r = Doc.displayResolution (Doc.caps device)
  /\ PackerUtils.maxVideo r = Doc.concurrentVideo (Doc.caps device)
  /\ PackerUtils.maxAudio r = Doc.concurrentAudio (Doc.caps device)
  /\ PackerUtils.communal r = Doc.communalDevice (Doc.caps device)
  /\ ((PackerUtils.regionId r = Some dev
       /\ PackerUtils.width r = Doc.displayWidth (Doc.caps device)
       /\ PackerUtils.height r = Doc.displayHeight (Doc.caps device)
       /\ forall l, Doc.regions device = Some l -> l = [])
      \/ exists l reg,
           Doc.regions device = Some l /\ In reg l
           /\ PackerUtils.regionId r = Some (Doc.r_regionId reg)
           /\ PackerUtils.width r = Doc.r_displayWidth reg
           /\ PackerUtils.height r = Doc.r_displayHeight reg).

(** A packer whose store holds the two unoccupied halves of the display
    [tv1], side by side, and the packer after the left half took in the
    right one. *)
Definition half (i : Z) (x : Q) : LayoutPacker.Node :=
  LayoutPacker.freshNode i
    (LayoutPacker.setGeometry
       (LayoutGenerator.rootRect (tv "tv1") "tv1" 100 100 "tv1") x 0 50 100)
    None.

Definition twoHalves : LayoutPacker.Packer :=
  LayoutPacker.setHeap (LayoutPacker.newPacker 2 false) [half 0 0; half 1 50].

Definition joinedHalves : LayoutPacker.Packer :=
  match LayoutPacker.absorb 0 1 twoHalves with
  | Ok (_, s) => s
  | _ => twoHalves
  end.

(** Two rectangles that tile a third, side by side for a split of the
    width and one above the other for a split of the height. *)
Definition tiles (splitdir : string)
    (whole c1 c2 : PackerUtils.PackerRectangle) : Prop :=
  (PackerUtils.area c1 + PackerUtils.area c2 == PackerUtils.area whole)%Q
  /\ if String.eqb splitdir "width" then
       PackerUtils.y0 c1 = PackerUtils.y0 whole
       /\ PackerUtils.y0 c2 = PackerUtils.y0 whole
       /\ PackerUtils.height c1 = PackerUtils.height whole
       /\ PackerUtils.height c2 = PackerUtils.height whole
       /\ (PackerUtils.width c1 + PackerUtils.width c2
           == PackerUtils.width whole)%Q
       /\ ((PackerUtils.x0 c1 = PackerUtils.x0 whole
            /\ (PackerUtils.x0 c2
                == PackerUtils.x0 whole + PackerUtils.width c1)%Q)
           \/ (PackerUtils.x0 c2 = PackerUtils.x0 whole
               /\ (PackerUtils.x0 c1
                   == PackerUtils.x0 whole + PackerUtils.width c2)%Q))
     else
       PackerUtils.x0 c1 = PackerUtils.x0 whole
       /\ PackerUtils.x0 c2 = PackerUtils.x0 whole
       /\ PackerUtils.width c1 = PackerUtils.width whole
       /\ PackerUtils.width c2 = PackerUtils.width whole
       /\ (PackerUtils.height c1 + PackerUtils.height c2
           == PackerUtils.height whole)%Q
       /\ ((PackerUtils.y0 c1 = PackerUtils.y0 whole
            /\ (PackerUtils.y0 c2
                == PackerUtils.y0 whole + PackerUtils.height c1)%Q)
           \/ (PackerUtils.y0 c2 = PackerUtils.y0 whole
               /\ (PackerUtils.y0 c1
                   == PackerUtils.y0 whole + PackerUtils.height c2)%Q)).

(** The priority a rectangle of the component list carries. *)
Definition priorityOf (r : PackerUtils.PackerRectangle) : Z :=
  match PackerUtils.constraints r with
  | Some k => PackerUtils.priority k
  | None => 0
  end.

(** The reports [runLayout] adds for a list of ids: none for an empty
    list. *)
Definition report (groupname st : string) (l : list string)
  : list Layout.Skipped :=
  match l with
  | [] => []
  | _ => [{| Layout.sk_group := groupname; Layout.status := st;
             Layout.sk_components := l |}]
  end.

(** A component that is marked invisible, or whose priority resolves to
    zero or less for the first device of the list. *)
Definition suppressed (ctx : Doc.Context) (devicelist : list string)
    (grouptype : Context.groupType) (app : Doc.DMApp) (c : Doc.Component)
  : Prop :=
  Doc.visible (Doc.layout c) = Some false
  \/ forall dev0 device,
       head devicelist = Some dev0 ->
       Context.getDevice ctx dev0 = Some device ->
       (DMApp.resolvePriority app c device
          (if Context.groupType_eqb grouptype Context.mixed then true
           else Doc.communalDevice (Doc.caps device)) <= 0)%Z.

(** The component ids of a DMApp, in the order of its list. *)
Definition ids (app : Doc.DMApp) : list string :=
  map Doc.componentId (Doc.components app).

(** A layout that has the reports, the context and the time stamp of
    another and, on entries of the same devices, all of its records. *)
Definition keeps (l l' : Layout.GeneratedLayout) : Prop :=
  Layout.notPlaced l' = Layout.notPlaced l
  /\ Layout.gl_contextId l' = Layout.gl_contextId l
  /\ Layout.timestamp l' = Layout.timestamp l
  /\ forall d c,
       In d (Layout.gl_devices l) -> In c (Layout.dl_components d) ->
       exists d',
         In d' (Layout.gl_devices l')
         /\ Layout.dl_deviceId d' = Layout.dl_deviceId d
         /\ In c (Layout.dl_components d').

(** The layout under construction keeps the reports, the context id and
    the time stamp of [l], and shows every record of [l] on an entry of
    its device, at a place that holds no object of the DMApp. *)
Definition keptApart (l : Layout.GeneratedLayout)
    (c : LayoutManager.Carried) : Prop :=
  Layout.notPlaced (LayoutManager.shown c) = Layout.notPlaced l
  /\ Layout.gl_contextId (LayoutManager.shown c) = Layout.gl_contextId l
  /\ Layout.timestamp (LayoutManager.shown c) = Layout.timestamp l
  /\ forall d r,
       In d (Layout.gl_devices l) -> In r (Layout.dl_components d) ->
       exists i j,
         deviceAt i (Layout.gl_devices (LayoutManager.shown c))
         = Some (Layout.dl_deviceId d)
         /\ componentAt i j (Layout.gl_devices (LayoutManager.shown c))
            = Some r
         /\ forall id,
              LayoutManager.holds (LayoutManager.held c) id i j = false.

(** A record on the entry of a device that is an unstarted record of the
    previous layout on that device, given the id of the DMApp. *)
Definition carriedInited (prev : Layout.GeneratedLayout) (app : Doc.DMApp)
    (dev : string) (c' : Doc.Component) : Prop :=
  exists pd comp,
    In pd (Layout.gl_devices prev)
    /\ Layout.dl_deviceId pd = dev
    /\ In comp (Layout.dl_components pd)
    /\ Doc.startTime comp = None
    /\ c' = LayoutManager.withDMAppId comp (Doc.dmapp_id app).

(** A record on the entry of a device that hides a component: the
    component is reported in the new layout as incompatible or skipped,
    the previous layout had a started record of it with a size on that
    device, which the context still has, and the DMApp knows the component
    and has not stopped it. *)
Definition carriedHidden (ctx : Doc.Context)
    (prev new : Layout.GeneratedLayout) (app : Doc.DMApp)
    (dev : string) (c' : Doc.Component) : Prop :=
  exists pd comp latest np,
    In pd (Layout.gl_devices prev)
    /\ Layout.dl_deviceId pd = dev
    /\ In comp (Layout.dl_components pd)
    /\ Doc.startTime comp <> None
    /\ Doc.size (Doc.layout comp) <> None
    /\ Context.hasDevice ctx dev = true
    /\ DMApp.getComponent app (Doc.componentId comp) = Some latest
    /\ Doc.stopTime latest = None
    /\ In np (Layout.notPlaced new)
    /\ (Layout.status np = "incompatible" \/ Layout.status np = "skipped")
    /\ In (Doc.componentId comp) (Layout.sk_components np)
    /\ Doc.componentId c' = Doc.componentId comp
    /\ Doc.DMAppId c' = Some (Doc.dmapp_id app)
    /\ Doc.c_contextId c' = Some (Doc.ctx_id ctx)
    /\ Doc.position (Doc.layout c')
       = Some {| Doc.p_x := Doc.Pixels 0; Doc.p_y := Doc.Pixels 0 |}
    /\ Doc.size (Doc.layout c')
       = Some {| Doc.s_width := Doc.Pixels (-1);
                 Doc.s_height := Doc.Pixels (-1) |}.

(** The records of a layout are records of the new layout or records that
    were carried over, and the reports are those of the new layout. *)
Definition accounted (ctx : Doc.Context) (prev new : Layout.GeneratedLayout)
    (app : Doc.DMApp) (l : Layout.GeneratedLayout) : Prop :=
  Layout.notPlaced l = Layout.notPlaced new
  /\ forall d' c',
       In d' (Layout.gl_devices l) -> In c' (Layout.dl_components d') ->
       (exists d, In d (Layout.gl_devices new)
                  /\ Layout.dl_deviceId d = Layout.dl_deviceId d'
                  /\ In c' (Layout.dl_components d))
       \/ carriedInited prev app (Layout.dl_deviceId d') c'
       \/ carriedHidden ctx prev new app (Layout.dl_deviceId d') c'.

(** The records the layout under construction shows are records of the
    new layout or records that were carried over, and a place that holds
    an object of the DMApp shows a record that hides a component. *)
Definition accountedApart (ctx : Doc.Context)
    (prev new : Layout.GeneratedLayout) (app : Doc.DMApp)
    (c : LayoutManager.Carried) : Prop :=
  Layout.notPlaced (LayoutManager.shown c) = Layout.notPlaced new
  /\ forall i j x r,
       deviceAt i (Layout.gl_devices (LayoutManager.shown c)) = Some x ->
       componentAt i j (Layout.gl_devices (LayoutManager.shown c)) = Some r ->
       ((exists d, In d (Layout.gl_devices new)
                   /\ Layout.dl_deviceId d = x
                   /\ In r (Layout.dl_components d))
        \/ carriedInited prev app x r
        \/ carriedHidden ctx prev new app x r)
       /\ forall id,
            LayoutManager.holds (LayoutManager.held c) id i j = true ->
            carriedHidden ctx prev new app x r.

(** A layout whose position and size are numbers of pixels, and one where
    they are whole numbers. *)
Definition pixels (l : Doc.CLayout) : Prop :=
  exists x y w h : Q,
    Doc.position l
    = Some {| Doc.p_x := Doc.Pixels x; Doc.p_y := Doc.Pixels y |}
    /\ Doc.size l
       = Some {| Doc.s_width := Doc.Pixels w; Doc.s_height := Doc.Pixels h |}.

Definition wholePixels (l : Doc.CLayout) : Prop :=
  exists x y w h : Z,
    Doc.position l
    = Some {| Doc.p_x := Doc.Pixels (inject_Z x);
              Doc.p_y := Doc.Pixels (inject_Z y) |}
    /\ Doc.size l
       = Some {| Doc.s_width := Doc.Pixels (inject_Z w);
                 Doc.s_height := Doc.Pixels (inject_Z h) |}.

(** A record of a device entry that names the entry's device, a component
    of one of the DMApps and the context, and carries the instance id
    made of these names. *)
Definition stamped (ctx : Doc.Context) (dmapps : list Doc.DMApp)
    (d : Layout.DeviceLayout) (c : Doc.Component) : Prop :=
  Doc.l_deviceId (Doc.layout c) = Some (Layout.dl_deviceId d)
  /\ Doc.c_contextId c = Some (Doc.ctx_id ctx)
  /\ (exists device,
        Context.getDevice ctx (Layout.dl_deviceId d) = Some device)
  /\ exists app,
       In app dmapps
       /\ Doc.DMAppId c = Some (Doc.dmapp_id app)
       /\ In (Doc.componentId c) (ids app)
       /\ Doc.instanceId (Doc.layout c)
          = Some (Util.componentInstanceId (Doc.ctx_id ctx) (Doc.dmapp_id app)
                    (Layout.dl_deviceId d) (Doc.componentId c)).

(** A region id of the region list that [buildComponentList] may offer to
    a constraint set: the device of the region meets the constraints, and
    the region is one of the target regions when the set names any. *)
Definition offered (ctx : Doc.Context)
    (regions : list PackerUtils.PackerRectangle) (doc : Doc.ConstraintDoc)
    (reg : string) : Prop :=
  exists rect devId device,
    In rect regions
    /\ PackerUtils.regionId rect = Some reg
    /\ PackerUtils.deviceId rect = Some devId
    /\ Context.getDevice ctx devId = Some device
    /\ Device.meetConstraints device doc = true
    /\ forall targets, Doc.targetRegions doc = Some targets -> In reg targets.

(** [componentlist] and [allIds] for the devices of a list, or two empty
    lists when [buildComponentList] does not return. *)
Definition packerInput (ctx : Doc.Context) (dmapps : list Doc.DMApp)
    (devicelist : list string) (grouptype : Context.groupType)
  : list PackerUtils.PackerRectangle * list string :=
  match LayoutGenerator.buildRegionNodeTree ctx devicelist with
  | Ok regions =>
      match LayoutGenerator.buildComponentList ctx dmapps devicelist regions
              grouptype with
      | Ok r => r
      | _ => ([], [])
      end
  | _ => ([], [])
  end.

(** The store only grows: [grows s s'] when every object of [s] is in
    [s'] at its address. *)
Definition grows (s s' : LayoutPacker.Packer) : Prop :=
  exists more, LayoutPacker.heap s' = LayoutPacker.heap s ++ more.

(** A step that leaves the store as it is but for the fit of the node at
    [a]. *)
Definition touched (a : nat) (s s' : LayoutPacker.Packer) : Prop :=
  length (LayoutPacker.heap s') = length (LayoutPacker.heap s)
  /\ (forall c, c <> a ->
        LayoutPacker.heap s' !! c = LayoutPacker.heap s !! c)
  /\ forall n, LayoutPacker.heap s !! a = Some n ->
       exists n', LayoutPacker.heap s' !! a = Some n'
                  /\ LayoutPacker.child n' = LayoutPacker.child n
                  /\ LayoutPacker.occupiedBy n' = LayoutPacker.occupiedBy n
                  /\ LayoutPacker.rect n' = LayoutPacker.rect n.

(** A display of one node, and the display after a split of its width
    for the first rectangle of [threeRects]. *)
Definition display : PackerUtils.PackerRectangle :=
  LayoutGenerator.rootRect (tv "tv1") "tv1" 100 100 "tv1".

Definition wholeDisplay : LayoutPacker.Packer :=
  LayoutPacker.setHeap (LayoutPacker.newPacker 1 false)
    [LayoutPacker.freshNode 0 display None].

Definition splitDisplay : LayoutPacker.Packer :=
  match
    LayoutPacker.nodeDivide "width" 0 display 40 100 (hd display threeRects)
      true wholeDisplay
  with
  | Ok (_, s) => s
  | _ => wholeDisplay
  end.

End Fixtures.

(** * Properties of the engine *)

Import Fixtures.

(** ** Lists of ids *)

Lemma contains_In (l : list string) (x : string) :
  Js.contains l x = true <-> In x l.
Proof.
  unfold Js.contains. rewrite existsb_exists. split.
  - intros (y & Hy & E). apply String.eqb_eq in E. now subst.
  - intros H. exists x. split; [assumption | apply String.eqb_refl].
Qed.

Lemma uniq_step_In (acc l : list string) (x : string) :
  In x (fold_left
          (fun acc x => if Js.contains acc x then acc else acc ++ [x]) l acc)
  <-> In x acc \/ In x l.
Proof.
  revert acc. induction l as [|y l IH]; intros acc; cbn [fold_left].
  - cbn. tauto.
  - rewrite IH. destruct (Js.contains acc y) eqn:C.
    + apply contains_In in C. cbn. split; [tauto|].
      intros [H|[<-|H]]; tauto.
    + rewrite in_app_iff. cbn. tauto.
Qed.

Lemma uniq_In (l : list string) (x : string) :
  In x (LayoutGenerator.uniq l) <-> In x l.
Proof.
  unfold LayoutGenerator.uniq. rewrite uniq_step_In. cbn. tauto.
Qed.

Lemma union_In (a b : list string) (x : string) :
  In x (LayoutGenerator.union a b) <-> In x a \/ In x b.
Proof.
  unfold LayoutGenerator.union. rewrite uniq_In. apply in_app_iff.
Qed.


(** ** Post-processing keeps the report of the components left out *)

Lemma mapDevices_notPlaced ctx f layout out :
  LayoutGenerator.mapDevices ctx f layout = Ok out ->
  LayoutGenerator.cl_notPlaced out = LayoutGenerator.cl_notPlaced layout.
Proof.
  unfold LayoutGenerator.mapDevices.
  destruct (omapM _ _); cbn [obind]; try discriminate.
  intros [= <-]. reflexivity.
Qed.

Lemma postProcess_notPlaced ctx layout out :
  LayoutGenerator.postProcess ctx layout = Ok out ->
  LayoutGenerator.cl_notPlaced out = LayoutGenerator.cl_notPlaced layout.
Proof.
  unfold LayoutGenerator.postProcess,
    LayoutGenerator.convertLayoutToPercentages,
    LayoutGenerator.truncateLayoutSizes.
  destruct (bool_decide _); intros H; apply mapDevices_notPlaced in H;
    exact H.
Qed.

(** ** Priority 0 (claim C1) *)

(** C1.  A component whose priority is 0 is left out of the packer's input
    and is placed on no device, but the generator reports it with status
    ["incompatible"], not ["skipped"]: so it is for the context with one
    display and the DMApp whose only component has priority 0, whatever
    the packer does. *)
Theorem priority_zero_reported_incompatible :
  forall packRegions,
    LayoutGenerator.computeLayout packRegions oneScreen [hiddenApp]
    = Ok {| LayoutGenerator.cl_devices := [];
            LayoutGenerator.cl_notPlaced :=
              [reported "incompatible" ["banner"]] |}.
Proof.
  intros packRegions. vm_compute. reflexivity.
Qed.

(** ** Aspect ratio (claim C2) *)

(** [Math.trunc] moves a number by less than one. *)
Lemma trunc_close (q : Q) : (Qabs (Js.trunc q - q) < 1)%Q.
Proof.
  destruct q as [n d].
  unfold Js.trunc, Qlt, Qabs, Qminus, Qplus, Qopp, inject_Z.
  cbn [Qnum Qden].
  pose proof (Z.quot_rem' n (Z.pos d)) as E.
  pose proof (Z.rem_bound_abs n (Z.pos d) ltac:(lia)) as B.
  rewrite Z.mul_1_r, Z.mul_1_l, Pos.mul_1_l.
  lia.
Qed.

(** Truncating both sides of a size of exact aspect leaves the height
    within [1 + aspect] of [aspect] times the width. *)
Lemma truncated_pair_error (aspect W H : Q) :
  (0 < aspect)%Q -> (H == aspect * W)%Q ->
  (Qabs (Js.trunc H - aspect * Js.trunc W) < 1 + aspect)%Q.
Proof.
  intros Ha E.
  assert (D : forall tH tW : Q,
             (tH - aspect * tW == (tH - H) + aspect * (W - tW))%Q).
  { intros tH tW. rewrite E. ring. }
  rewrite (D (Js.trunc H) (Js.trunc W)).
  eapply Qle_lt_trans; [apply Qabs_triangle|].
  rewrite Qabs_Qmult, (Qabs_pos aspect) by lra.
  pose proof (trunc_close H) as BH.
  pose proof (trunc_close W) as BW.
  assert (S : (Qabs (W - Js.trunc W) == Qabs (Js.trunc W - W))%Q).
  { rewrite <- Qabs_opp. apply Qabs_wd. ring. }
  rewrite S.
  assert (aspect * Qabs (Js.trunc W - W) < aspect * 1)%Q
    by (apply Qmult_lt_l; assumption).
  lra.
Qed.

(** C2, the claim as stated fails.  The 16:9 component alone on the display
    of 100 by 100 pixels is laid out 99 by 56 pixels, and
    [|56/99 - 9/16|] is above a thousandth. *)
Lemma aspect_error_above_tolerance :
  computeLayout oneScreen [videoApp] = Ok videoLayout
  /\ exists e,
       aspectError (placed "video" "tv1" 0 0 99 56 1) (9 # 16) = Some e
       /\ (1 # 1000 < e)%Q.
Proof.
  split.
  - vm_compute. reflexivity.
  - eexists. split; [reflexivity|]. vm_compute. reflexivity.
Qed.

(** C2, amended.  [getAspectCorrectedComponentSize] returns the whole-pixel
    truncation of a size that has the requested aspect exactly: the height
    it returns is within [1 + aspect] pixels of [aspect] times the width.
    The error of the ratio itself is not bounded by a constant. *)
Theorem aspect_corrected_size_within_truncation
    (width height margin aspect boundingW boundingH : Q) :
  (0 < aspect)%Q ->
  let size := PackerUtils.getAspectCorrectedComponentSize width height margin
                aspect boundingW boundingH in
  (Qabs (PackerUtils.ht size - aspect * PackerUtils.wd size) < 1 + aspect)%Q.
Proof.
  intros Ha size. subst size. unfold PackerUtils.getAspectCorrectedComponentSize.
  assert (N : (aspect =? PackerUtils.noAspect)%Q = false).
  { unfold Js.eqb, PackerUtils.noAspect. apply not_true_is_false. intros E.
    apply Qeq_bool_iff in E. lra. }
  rewrite N.
  repeat match goal with |- context [if ?b then _ else _] => destruct b end;
    cbn [PackerUtils.wd PackerUtils.ht];
    apply truncated_pair_error; try assumption; field; lra.
Qed.

Lemma aspect_corrected_size_within_truncation_on_the_display :
  (Qabs (PackerUtils.ht
           (PackerUtils.getAspectCorrectedComponentSize 100 100 0 (9 # 16)
              100 100)
         - (9 # 16)
           * PackerUtils.wd
               (PackerUtils.getAspectCorrectedComponentSize 100 100 0 (9 # 16)
                  100 100))
   < 1 + (9 # 16))%Q.
Proof.
  apply (aspect_corrected_size_within_truncation 100 100 0 (9 # 16) 100 100).
  reflexivity.
Defined.

(** ** Video capacity (claim C3) *)

(** C3.  Two displays that each play one video at a time, a menu and two
    videos.  The menu fills the first display and the first video the
    second.  The second video passes the capacity test of [packRect] on the
    first display, which has no room, and the packer then splits the node
    of the second display, a path with no capacity test: both videos end
    on the display that plays one. *)
Theorem two_videos_on_a_single_video_display :
  computeLayout twoScreens [threeApp] = Ok threeLayout
  /\ videosOn threeApp "tv2" threeLayout = ["video1"; "video2"]
  /\ Doc.concurrentVideo (Doc.caps (tv "tv2")) = Some 1%Q.
Proof.
  split; [vm_compute; reflexivity|].
  split; reflexivity.
Qed.

(** ** Dependencies that were not placed (claim C4) *)




(** ** Priority overrides (claim C5) *)

(** C5, the claim as stated fails.  After an override for the display [tv1]
    and then one for its group, the priority resolved for [tv1] is the
    group's, where the order of the specification gives the display's.
    And the backwards-compatible form of the request installs -1 as an
    override. *)
Lemma group_override_shadows_device_override :
  (exists c,
     ComponentController.setPriorityList (component "banner") deviceThenGroup
     = Some c
     /\ DMApp.getPriority bannerApp c (tv "tv1") "communal" = 7
     /\ cascadePriority bannerApp c (tv "tv1") "communal" = 5)
  /\ DMApp.getPriority bannerApp
       (withOverrides (component "banner")
          (ComponentController.storeLegacy ∅ true "tv1" (-1) 0))
       (tv "tv1") "communal" = -1.
Proof.
  split.
  - eexists. split; [reflexivity|]. split; vm_compute; reflexivity.
  - vm_compute. reflexivity.
Qed.

(** C5, amended.  One override record is kept per device type, with the
    scope of the last override installed; [getPriority] reads the single
    key that scope selects for the device.  After a request with one
    override: a priority other than -1 is what [getPriority] returns for
    every device whose key under the request's scope is the key written;
    a priority of -1 deletes the entry under the key written, so that a
    device whose key under the scope of the record is that key gets the
    priority of the constraint. *)
Theorem stored_override_resolves
    (app : Doc.DMApp) (c c' : Doc.Component) (device : Doc.Device)
    (devType sc id : string) (p : Z) :
  ComponentController.setPriorityList c [override devType sc id p] = Some c' ->
  (p <> -1 -> readKey sc device = writtenKey sc id ->
   DMApp.getPriority app c' device devType = p)
  /\ (p = -1 ->
      forall o,
        default ∅ (Doc.priorityOverrides c) !! devType = Some o ->
        readKey (Doc.scope o) device = writtenKey sc id ->
        DMApp.getPriority app c' device devType
        = Doc.priority (DMApp.getComponentConstraints app
                          (Doc.c_constraintId c)
                          (String.eqb devType "communal"))).
Proof.
  unfold ComponentController.setPriorityList, override.
  cbn [ComponentController.storeItems ComponentController.storeEntries
       ComponentController.devtype ComponentController.i_scope
       ComponentController.overrides].
  unfold ComponentController.storeOverride.
  cbn [ComponentController.e_id ComponentController.e_priority].
  fold (writtenKey sc id).
  intros H. split.
  - intros Hp Hkey.
    destruct (Z.eqb p (-1)) eqn:E; [apply Z.eqb_eq in E; contradiction|].
    injection H as <-.
    unfold DMApp.getPriority. cbn [Doc.priorityOverrides].
    rewrite lookup_insert_eq.
    unfold readKey in Hkey. unfold DMApp.overrideKey in *.
    cbn [Doc.scope Doc.priorities] in *. rewrite Hkey.
    rewrite lookup_insert_eq. reflexivity.
  - intros -> o Ho Hkey. cbn [Z.eqb Pos.eqb] in H. rewrite Ho in H.
    injection H as <-.
    unfold DMApp.getPriority. cbn [Doc.priorityOverrides Doc.c_constraintId].
    rewrite lookup_insert_eq.
    unfold readKey in Hkey. unfold DMApp.overrideKey in *.
    cbn [Doc.scope Doc.priorities] in *. rewrite Hkey.
    rewrite lookup_delete_eq. reflexivity.
Qed.

Lemma stored_override_resolves_for_the_group :
  DMApp.getPriority bannerApp
    (withOverrides (component "banner")
       (<["communal" :=
            {| Doc.scope := "group";
               Doc.priorities := <["lounge" := 7]> ∅ |}]> ∅))
    (tv "tv1") "communal" = 7.
Proof.
  apply (stored_override_resolves bannerApp (component "banner") _
           (tv "tv1") "communal" "group" "lounge" 7).
  - reflexivity.
  - lia.
  - reflexivity.
Defined.

(** ** The order of the component list (claim C6) *)

(** [largerEqual] is 0 on two boxes of one width and one height. *)
Lemma largerEqual_same (w1 h1 w2 h2 : Q) :
  (w1 == w2)%Q -> (h1 == h2)%Q -> PackerUtils.largerEqual w1 h1 w2 h2 = 0.
Proof.
  intros Ew Eh. unfold PackerUtils.largerEqual, Js.gtb, Js.ltb, Js.eqb.
  assert (A1 : Qle_bool (w2 * h2) (w1 * h1) = true)
    by (apply Qle_bool_iff; rewrite Ew, Eh; apply Qle_refl).
  assert (A2 : Qle_bool (w1 * h1) (w2 * h2) = true)
    by (apply Qle_bool_iff; rewrite Ew, Eh; apply Qle_refl).
  assert (W1 : Qle_bool w2 w1 = true)
    by (apply Qle_bool_iff; rewrite Ew; apply Qle_refl).
  assert (W2 : Qle_bool w1 w2 = true)
    by (apply Qle_bool_iff; rewrite Ew; apply Qle_refl).
  assert (H1 : Qle_bool h2 h1 = true)
    by (apply Qle_bool_iff; rewrite Eh; apply Qle_refl).
  assert (H2 : Qeq_bool h1 h2 = true) by (apply Qeq_bool_iff; exact Eh).
  rewrite A1, A2, W1, W2, H1, H2. reflexivity.
Qed.





(** ** Carrying over hidden components (claim C7) *)

Lemma fold_left_preserve {S A : Type} (f : S -> A -> S) (P : S -> Prop)
    (l : list A) (s : S) :
  (forall s a, P s -> P (f s a)) -> P s -> P (fold_left f l s).
Proof.
  intros Hf. revert s. induction l as [|a l IH]; intros s Hs; cbn; auto.
Qed.

(** A loop whose steps all keep [P] and [Q], and one of whose steps turns
    [P] into [Q], turns [P] into [Q]. *)
Lemma fold_left_establish {S A : Type} (f : S -> A -> S) (P Q : S -> Prop)
    (l : list A) (x : A) (s : S) :
  (forall s a, P s -> P (f s a)) ->
  (forall s a, Q s -> Q (f s a)) ->
  (forall s, P s -> Q (f s x)) ->
  In x l -> P s -> Q (fold_left f l s).
Proof.
  intros HP HQ Hx. revert s. induction l as [|a l IH]; intros s Hin Hs.
  - contradiction.
  - cbn [fold_left]. destruct Hin as [->|Hin].
    + apply fold_left_preserve; [exact HQ | apply Hx, Hs].
    + apply IH; [exact Hin | apply HP, Hs].
Qed.

Lemma findComponent_id name cs comp :
  Layout.findComponent name cs = Some comp -> Doc.componentId comp = name.
Proof.
  unfold Layout.findComponent. intros H. apply find_some in H.
  destruct H as [_ H]. now apply String.eqb_eq in H.
Qed.

Lemma getComponent_id app name comp :
  DMApp.getComponent app name = Some comp -> Doc.componentId comp = name.
Proof.
  unfold DMApp.getComponent. intros H.
  destruct (filter _ _) as [|c l] eqn:E; [discriminate|].
  injection H as ->.
  assert (I : comp ∈ filter (fun c => String.eqb (Doc.componentId c) name)
                        (Doc.components app))
    by (rewrite E; apply list_elem_of_here).
  apply list_elem_of_filter in I. destruct I as [I _].
  apply Is_true_true in I. now apply String.eqb_eq in I.
Qed.

(** ** Places of a layout and the objects they hold *)

Lemma holds_app places id' p id i j :
  LayoutManager.holds (places ++ [(id', p)]) id i j
  = LayoutManager.holds places id i j
    || (String.eqb id' id && Nat.eqb (fst p) i && Nat.eqb (snd p) j).
Proof.
  unfold LayoutManager.holds. rewrite existsb_app. cbn [existsb fst snd].
  now rewrite orb_false_r.
Qed.

Lemma deviceAt_lt i ds x : deviceAt i ds = Some x -> (i < length ds)%nat.
Proof.
  unfold deviceAt. destruct (ds !! i) eqn:E; [|discriminate].
  intros _. now apply lookup_lt_Some in E.
Qed.

Lemma componentAt_lt i j ds r :
  componentAt i j ds = Some r -> (i < length ds)%nat.
Proof.
  unfold componentAt. destruct (ds !! i) eqn:E; [|discriminate].
  intros _. now apply lookup_lt_Some in E.
Qed.

Lemma componentAt_below i j j' ds r :
  componentAt i j ds = Some r -> (j' < j)%nat ->
  exists r', componentAt i j' ds = Some r'.
Proof.
  unfold componentAt. destruct (ds !! i) as [d|]; [|discriminate].
  intros H L. apply lookup_lt_Some in H.
  destruct (Layout.dl_components d !! j') as [r'|] eqn:E; [now exists r'|].
  apply lookup_ge_None in E. lia.
Qed.

Lemma length_assign id nc places ds :
  length (LayoutManager.assign id nc places ds) = length ds.
Proof. unfold LayoutManager.assign. apply length_imap. Qed.

Lemma deviceAt_assign id nc places ds i :
  deviceAt i (LayoutManager.assign id nc places ds) = deviceAt i ds.
Proof.
  unfold deviceAt, LayoutManager.assign. rewrite list_lookup_imap.
  now destruct (ds !! i).
Qed.

Lemma componentAt_assign id nc places ds i j :
  componentAt i j (LayoutManager.assign id nc places ds)
  = option_map (fun r => if LayoutManager.holds places id i j then nc else r)
      (componentAt i j ds).
Proof.
  unfold componentAt, LayoutManager.assign. rewrite list_lookup_imap.
  destruct (ds !! i) as [d|]; [|reflexivity].
  cbn [fmap option_fmap option_map Layout.dl_components].
  rewrite list_lookup_imap. now destruct (Layout.dl_components d !! j).
Qed.

(** *** The first element that passes a test *)

Lemma find_firstIndex {A : Type} (f : A -> bool) (l : list A) :
  find f l = l !! Layout.firstIndex f l.
Proof.
  induction l as [|x l IH]; [reflexivity|].
  cbn [find Layout.firstIndex]. destruct (f x); [reflexivity | exact IH].
Qed.

Lemma firstIndex_before {A : Type} (f : A -> bool) (l : list A) i x :
  (i < Layout.firstIndex f l)%nat -> l !! i = Some x -> f x = false.
Proof.
  revert i. induction l as [|y l IH]; intros i; [discriminate 2|].
  cbn [Layout.firstIndex]. destruct (f y) eqn:E; [lia|].
  destruct i as [|i]; cbn [lookup list_lookup].
  - now intros _ [= <-].
  - intros L. apply IH. lia.
Qed.

Lemma find_all_before {A : Type} (f : A -> bool) (l : list A) :
  find f l = None -> forall i x, l !! i = Some x -> f x = false.
Proof.
  intros H i x Hx. eapply (find_none f l H).
  apply list_elem_of_In. eapply list_elem_of_lookup_2. exact Hx.
Qed.

Lemma find_at {A : Type} (f : A -> bool) (l : list A) i x :
  l !! i = Some x -> f x = true ->
  (forall i' y, (i' < i)%nat -> l !! i' = Some y -> f y = false) ->
  find f l = Some x.
Proof.
  revert i. induction l as [|y l IH]; intros i; [discriminate 1|].
  destruct i as [|i]; cbn [lookup list_lookup find].
  - intros [= ->] -> _. reflexivity.
  - intros Hx Hf Hb. rewrite (Hb 0%nat y) by (reflexivity || lia).
    apply (IH i); [exact Hx | exact Hf|].
    intros i' z L. apply (Hb (S i')). lia.
Qed.

Lemma findDevice_place dev ds t :
  Layout.findDevice dev ds = Some t ->
  ds !! Layout.deviceIndex dev ds = Some t
  /\ Layout.dl_deviceId t = dev
  /\ forall i', (i' < Layout.deviceIndex dev ds)%nat ->
                deviceAt i' ds <> Some dev.
Proof.
  unfold Layout.findDevice, Layout.deviceIndex. intros H.
  pose proof (find_some _ _ H) as [_ E]. apply String.eqb_eq in E.
  rewrite find_firstIndex in H. split; [exact H|]. split; [exact E|].
  intros i' L. unfold deviceAt. destruct (ds !! i') as [d|] eqn:Hd;
    [|discriminate].
  pose proof (firstIndex_before _ _ _ _ L Hd) as F. cbn beta in F.
  apply String.eqb_neq in F. congruence.
Qed.

Lemma findDevice_nowhere dev ds :
  Layout.findDevice dev ds = None -> forall i, deviceAt i ds <> Some dev.
Proof.
  unfold Layout.findDevice. intros H i. unfold deviceAt.
  destruct (ds !! i) as [d|] eqn:Hd; [|discriminate].
  pose proof (find_all_before _ _ H _ _ Hd) as F. cbn beta in F.
  apply String.eqb_neq in F. congruence.
Qed.

Lemma findComponent_place name cs r :
  Layout.findComponent name cs = Some r ->
  exists j, cs !! j = Some r /\ Doc.componentId r = name
            /\ forall j' r', (j' < j)%nat -> cs !! j' = Some r' ->
                             Doc.componentId r' <> name.
Proof.
  unfold Layout.findComponent. intros H.
  pose proof (find_some _ _ H) as [_ E]. apply String.eqb_eq in E.
  rewrite find_firstIndex in H. eexists. split; [exact H|].
  split; [exact E|]. intros j' r' L Hr.
  pose proof (firstIndex_before _ _ _ _ L Hr) as F. cbn beta in F.
  now apply String.eqb_neq in F.
Qed.

Lemma findComponent_nowhere name cs :
  Layout.findComponent name cs = None ->
  forall j r, cs !! j = Some r -> Doc.componentId r <> name.
Proof.
  unfold Layout.findComponent. intros H j r Hr.
  pose proof (find_all_before _ _ H _ _ Hr) as F. cbn beta in F.
  now apply String.eqb_neq in F.
Qed.

Lemma recordOn_firstPlace dev name l r :
  recordOn dev name l = Some r
  <-> exists i j, firstPlace dev name (Layout.gl_devices l) i j
                  /\ componentAt i j (Layout.gl_devices l) = Some r.
Proof.
  unfold recordOn. split.
  - destruct (Layout.findDevice dev (Layout.gl_devices l)) as [t|] eqn:Ht;
      [|discriminate].
    intros Hr. apply findDevice_place in Ht. destruct Ht as (Ht & Ed & Bd).
    apply findComponent_place in Hr. destruct Hr as (j & Hj & Ej & Bj).
    exists (Layout.deviceIndex dev (Layout.gl_devices l)), j.
    unfold firstPlace, deviceAt, componentAt. rewrite Ht.
    split; [|exact Hj]. split; [now rewrite Ed|]. split; [exact Bd|].
    split; [now exists r|]. exact Bj.
  - intros (i & j & (D & B & (r0 & R0 & I) & C) & R).
    rewrite R in R0. injection R0 as <-.
    unfold deviceAt, componentAt in *.
    destruct (Layout.gl_devices l !! i) as [d|] eqn:Hd; [|discriminate].
    injection D as D.
    assert (F : Layout.findDevice dev (Layout.gl_devices l) = Some d).
    { apply (find_at _ _ i); [exact Hd | now apply String.eqb_eq|].
      intros i' y L Hy. apply String.eqb_neq. intros E.
      apply (B i' L). unfold deviceAt. now rewrite Hy, E. }
    rewrite F.
    apply (find_at _ _ j); [exact R | now apply String.eqb_eq|].
    intros j' y L Hy. apply String.eqb_neq. now apply (C j' y).
Qed.

Lemma recordOn_nowhere dev name l :
  recordOn dev name l = None
  <-> forall i j, ~ firstPlace dev name (Layout.gl_devices l) i j.
Proof.
  split.
  - intros H i j F. pose proof F as (_ & _ & (r & R & _) & _).
    assert (E : recordOn dev name l = Some r)
      by (apply recordOn_firstPlace; eauto).
    congruence.
  - intros H. destruct (recordOn dev name l) as [r|] eqn:E; [|reflexivity].
    apply recordOn_firstPlace in E. destruct E as (i & j & F & _).
    now destruct (H i j).
Qed.

Lemma pushOnDevice_insert dev x ds t :
  Layout.findDevice dev ds = Some t ->
  Layout.pushOnDevice dev x ds
  = <[Layout.deviceIndex dev ds :=
        {| Layout.dl_deviceId := Layout.dl_deviceId t;
           Layout.dl_components := Layout.dl_components t ++ [x] |}]> ds.
Proof.
  unfold Layout.findDevice, Layout.deviceIndex.
  induction ds as [|d ds IH]; [discriminate|].
  cbn [find Layout.pushOnDevice Layout.firstIndex].
  destruct (String.eqb (Layout.dl_deviceId d) dev).
  - now intros [= <-].
  - intros H. rewrite (IH H). reflexivity.
Qed.

Lemma carried_Some ctx app name e latest :
  carried ctx app name e = Some latest ->
  DMApp.getComponent app name = Some latest
  /\ Doc.stopTime latest = None
  /\ Context.hasDevice ctx (Layout.dl_deviceId e) = true
  /\ exists comp,
       Layout.findComponent name (Layout.dl_components e) = Some comp
       /\ Doc.startTime comp <> None
       /\ Doc.size (Doc.layout comp) <> None.
Proof.
  unfold carried.
  destruct (Layout.findComponent name (Layout.dl_components e))
    as [comp|] eqn:Hc; [|discriminate].
  destruct (Context.hasDevice ctx (Layout.dl_deviceId e)); [|discriminate].
  destruct (DMApp.getComponent app (Doc.componentId comp)) as [l|] eqn:Hl;
    [|discriminate].
  destruct (_ && _) eqn:Hcond; [|discriminate].
  intros [= ->].
  apply andb_true_iff in Hcond. destruct Hcond as [Hcond Hsize].
  apply andb_true_iff in Hcond. destruct Hcond as [Hcond Hstart].
  apply andb_true_iff in Hcond. destruct Hcond as [Hid Hstop].
  apply String.eqb_eq in Hid. rewrite Hid in Hl.
  split; [exact Hl|].
  split; [destruct (Doc.stopTime latest); [discriminate Hstop|reflexivity]|].
  split; [reflexivity|]. exists comp. split; [reflexivity|].
  split.
  - destruct (Doc.startTime comp); [discriminate|discriminate Hstart].
  - destruct (Doc.size (Doc.layout comp)); [discriminate|discriminate Hsize].
Qed.
Lemma carryHidden_skips ctx app name e c :
  carried ctx app name e = None ->
  LayoutManager.carryHidden ctx app name e c = c.
Proof.
  unfold carried, LayoutManager.carryHidden.
  destruct (Layout.findComponent name (Layout.dl_components e)) as [comp|];
    [|reflexivity].
  destruct (Context.hasDevice ctx (Layout.dl_deviceId e)); [|reflexivity].
  destruct (DMApp.getComponent app (Doc.componentId comp)); [|reflexivity].
  destruct (_ && _); [discriminate | reflexivity].
Qed.

Lemma hiddenComponent_id ctx app dev name latest :
  DMApp.getComponent app name = Some latest ->
  Doc.componentId (LayoutManager.hiddenComponent ctx app dev name latest)
  = name.
Proof. intros H. now apply getComponent_id in H. Qed.

Lemma carryHidden_carries ctx app name e c latest :
  carried ctx app name e = Some latest ->
  exists pushed,
    carries name (Layout.dl_deviceId e)
      (LayoutManager.hiddenComponent ctx app (Layout.dl_deviceId e) name
         latest)
      pushed c (LayoutManager.carryHidden ctx app name e c).
Proof.
  intros Hcar. pose proof (carried_Some _ _ _ _ _ Hcar) as (Hget & _).
  pose proof (hiddenComponent_id ctx app (Layout.dl_deviceId e) _ _ Hget)
    as Hid.
  unfold carried in Hcar. unfold LayoutManager.carryHidden.
  destruct (Layout.findComponent name (Layout.dl_components e)) as [comp|];
    [|discriminate].
  destruct (Context.hasDevice ctx (Layout.dl_deviceId e)); [|discriminate].
  destruct (DMApp.getComponent app (Doc.componentId comp)) as [l|];
    [|discriminate].
  destruct (_ && _); [|discriminate]. injection Hcar as ->.
  cbv zeta.
  set (nc := LayoutManager.hiddenComponent ctx app (Layout.dl_deviceId e)
               name latest) in *.
  set (ds := Layout.gl_devices (LayoutManager.shown c)).
  set (ds1 := LayoutManager.assign name nc (LayoutManager.held c) ds).
  assert (A1 : forall i, deviceAt i ds1 = deviceAt i ds)
    by (intros i; apply deviceAt_assign).
  assert (A2 : forall i j,
             componentAt i j ds1
             = option_map
                 (fun r => if LayoutManager.holds (LayoutManager.held c)
                                name i j then nc else r)
                 (componentAt i j ds))
    by (intros i j; apply componentAt_assign).
  assert (A3 : length ds1 = length ds) by apply length_assign.
  destruct (Layout.findDevice (Layout.dl_deviceId e) ds1) as [t|] eqn:Ht.
  - pose proof (findDevice_place _ _ _ Ht) as (Hi0 & Ed & Bd).
    set (i0 := Layout.deviceIndex (Layout.dl_deviceId e) ds1) in *.
    destruct (Layout.findComponent name (Layout.dl_components t))
      as [r|] eqn:Hr.
    + (* the device lists the component already *)
      exists None. unfold carries.
      cbn [LayoutManager.shown LayoutManager.held Layout.withDevices
           Layout.gl_devices Layout.notPlaced Layout.gl_contextId
           Layout.timestamp].
      fold ds. fold ds1.
      split; [reflexivity|]. split; [reflexivity|]. split; [reflexivity|].
      split; [now rewrite app_nil_r|].
      split; [intros i _; apply A1|].
      split; [intros i j r0 H0; now rewrite A2, H0|].
      split.
      { intros i j r1 H1. right. rewrite A2 in H1.
        destruct (componentAt i j ds) as [r0|]; [now exists r0|discriminate]. }
      apply findComponent_place in Hr. destruct Hr as (j & Hj & Ej & Bj).
      exists i0, j. split.
      * unfold firstPlace, deviceAt, componentAt. rewrite Hi0.
        split; [now rewrite Ed|]. split; [exact Bd|].
        split; [now exists r | exact Bj].
      * assert (H1 : componentAt i0 j ds1 = Some r)
          by (unfold componentAt; now rewrite Hi0).
        rewrite A2 in H1. now destruct (componentAt i0 j ds).
    + (* the object is pushed on the entry of the device *)
      exists (Some (i0, length (Layout.dl_components t))). unfold carries.
      cbn [LayoutManager.shown LayoutManager.held Layout.withDevices
           Layout.gl_devices Layout.notPlaced Layout.gl_contextId
           Layout.timestamp].
      fold ds. fold ds1. rewrite (pushOnDevice_insert _ _ _ _ Ht). fold i0.
      set (t' := {| Layout.dl_deviceId := Layout.dl_deviceId t;
                    Layout.dl_components := Layout.dl_components t ++ [nc] |}).
      assert (L0 : (i0 < length ds1)%nat) by (now apply lookup_lt_Some in Hi0).
      assert (D : forall i, deviceAt i (<[i0 := t']> ds1) = deviceAt i ds1).
      { intros i. unfold deviceAt. destruct (Nat.eq_dec i i0) as [->|N].
        - rewrite list_lookup_insert_eq by exact L0. now rewrite Hi0.
        - now rewrite list_lookup_insert_ne by congruence. }
      assert (C : forall i j,
                 componentAt i j (<[i0 := t']> ds1)
                 = if Nat.eq_dec i i0
                   then (Layout.dl_components t ++ [nc]) !! j
                   else componentAt i j ds1).
      { intros i j. unfold componentAt. destruct (Nat.eq_dec i i0) as [->|N].
        - now rewrite list_lookup_insert_eq by exact L0.
        - now rewrite list_lookup_insert_ne by congruence. }
      assert (C0 : forall j, componentAt i0 j ds1 = Layout.dl_components t !! j)
        by (intros j; unfold componentAt; now rewrite Hi0).
      split; [reflexivity|]. split; [reflexivity|]. split; [reflexivity|].
      split; [reflexivity|].
      split; [intros i _; now rewrite D, A1|].
      split.
      { intros i j r0 H0. rewrite C.
        assert (H1 := A2 i j). rewrite H0 in H1. cbn [option_map] in H1.
        destruct (Nat.eq_dec i i0) as [->|N]; [|exact H1].
        rewrite C0 in H1. now apply lookup_app_l_Some. }
      split.
      { intros i j r1 H1. rewrite C in H1.
        destruct (Nat.eq_dec i i0) as [->|N].
        - apply lookup_app_Some in H1.
          destruct H1 as [H1|[L1 H1]].
          + right. rewrite <- C0, A2 in H1.
            destruct (componentAt i0 j ds) as [r0|]; [now exists r0|discriminate].
          + left. destruct (j - length (Layout.dl_components t))%nat
              as [|k] eqn:Ek; [|destruct k; discriminate H1].
            f_equal. f_equal. lia.
        - right. rewrite A2 in H1.
          destruct (componentAt i j ds) as [r0|]; [now exists r0|discriminate]. }
      split.
      { assert (H1 := A2 i0 (length (Layout.dl_components t))).
        rewrite C0 in H1.
        rewrite (proj2 (lookup_ge_None _ _)) in H1 by lia.
        now destruct (componentAt i0 _ ds). }
      assert (Cn : componentAt i0 (length (Layout.dl_components t))
                     (<[i0 := t']> ds1) = Some nc).
      { rewrite C. destruct (Nat.eq_dec i0 i0); [|contradiction].
        now apply list_lookup_middle. }
      split; [exact Cn|].
      unfold firstPlace. rewrite D. unfold deviceAt at 1. rewrite Hi0.
      split; [now rewrite Ed|].
      split; [intros i' L; rewrite D; now apply Bd|].
      split; [exists nc; split; [exact Cn | exact Hid]|].
      intros j' r' L H1. rewrite C in H1.
      destruct (Nat.eq_dec i0 i0); [|contradiction].
      rewrite lookup_app_l in H1 by exact L.
      now apply (findComponent_nowhere _ _ Hr j').
  - (* the object is pushed on a new entry *)
    exists (Some (length ds1, 0%nat)). unfold carries.
    cbn [LayoutManager.shown LayoutManager.held Layout.withDevices
         Layout.gl_devices Layout.notPlaced Layout.gl_contextId
         Layout.timestamp].
    fold ds. fold ds1.
    set (t' := {| Layout.dl_deviceId := Layout.dl_deviceId e;
                  Layout.dl_components := [nc] |}).
    assert (D : forall i, (i < length ds1)%nat ->
                          deviceAt i (ds1 ++ [t']) = deviceAt i ds1).
    { intros i L. unfold deviceAt. now rewrite lookup_app_l by exact L. }
    assert (C : forall i j, (i < length ds1)%nat ->
                 componentAt i j (ds1 ++ [t']) = componentAt i j ds1).
    { intros i j L. unfold componentAt. now rewrite lookup_app_l by exact L. }
    assert (Cn : forall j, componentAt (length ds1) j (ds1 ++ [t'])
                           = [nc] !! j).
    { intros j. unfold componentAt.
      now rewrite list_lookup_middle by reflexivity. }
    split; [reflexivity|]. split; [reflexivity|]. split; [reflexivity|].
    split; [reflexivity|].
    split; [intros i L; rewrite D by lia; apply A1|].
    split.
    { intros i j r0 H0. rewrite C by (apply componentAt_lt in H0; lia).
      now rewrite A2, H0. }
    split.
    { intros i j r1 H1.
      destruct (Nat.lt_ge_cases i (length ds1)) as [L|L].
      - right. rewrite C, A2 in H1 by exact L.
        destruct (componentAt i j ds) as [r0|]; [now exists r0|discriminate].
      - left. pose proof (componentAt_lt _ _ _ _ H1) as L'.
        rewrite length_app in L'. cbn [length] in L'.
        assert (i = length ds1) as -> by lia.
        rewrite Cn in H1. destruct j as [|j]; [reflexivity|discriminate H1]. }
    split.
    { unfold componentAt. now rewrite (proj2 (lookup_ge_None _ _)) by lia. }
    split; [now rewrite Cn|].
    unfold firstPlace.
    split; [unfold deviceAt; now rewrite list_lookup_middle by reflexivity|].
    split.
    { intros i' L. rewrite D by exact L.
      now apply (findDevice_nowhere _ _ Ht). }
    split; [exists nc; split; [now rewrite Cn | exact Hid]|].
    intros j' r' L. lia.
Qed.
Section Carries.
Variables (name' dev' : string) (nc : Doc.Component).
Variables (pushed : option (nat * nat)) (c c' : LayoutManager.Carried).
Hypothesis Hc : carries name' dev' nc pushed c c'.
Hypothesis Hid : Doc.componentId nc = name'.
Hypothesis Hwell : wellHeld c.

Local Abbreviation ds := (Layout.gl_devices (LayoutManager.shown c)).
Local Abbreviation ds' := (Layout.gl_devices (LayoutManager.shown c')).

Lemma carries_old i j r0 :
  componentAt i j ds = Some r0 -> pushed <> Some (i, j).
Proof.
  destruct Hc as (_ & _ & _ & _ & _ & _ & _ & P4).
  intros H0 ->. destruct P4 as (N & _). congruence.
Qed.

Lemma carries_id i j r0 :
  componentAt i j ds = Some r0 ->
  Doc.componentId
    (if LayoutManager.holds (LayoutManager.held c) name' i j then nc else r0)
  = Doc.componentId r0.
Proof.
  intros H0.
  destruct (LayoutManager.holds (LayoutManager.held c) name' i j) eqn:E;
    [|reflexivity].
  destruct (Hwell _ _ _ E) as (r & Hr & Er). congruence.
Qed.

Lemma carries_holds id i j :
  LayoutManager.holds (LayoutManager.held c') id i j
  = LayoutManager.holds (LayoutManager.held c) id i j
    || match pushed with
       | Some p => String.eqb name' id && Nat.eqb (fst p) i && Nat.eqb (snd p) j
       | None => false
       end.
Proof.
  destruct Hc as (_ & _ & _ & -> & _). destruct pushed as [p|].
  - apply holds_app.
  - now rewrite app_nil_r, orb_false_r.
Qed.

Lemma carries_holds_old id i j r0 :
  componentAt i j ds = Some r0 ->
  LayoutManager.holds (LayoutManager.held c') id i j
  = LayoutManager.holds (LayoutManager.held c) id i j.
Proof.
  intros H0. rewrite carries_holds. pose proof (carries_old _ _ _ H0) as N.
  destruct pushed as [[pi pj]|]; [|apply orb_false_r].
  cbn [fst snd].
  destruct (Nat.eqb_spec pi i) as [->|]; [|now rewrite andb_false_r, orb_false_r].
  destruct (Nat.eqb_spec pj j) as [->|]; [|now rewrite andb_false_r, orb_false_r].
  now destruct N.
Qed.

Lemma carries_wellHeld : wellHeld c'.
Proof.
  pose proof Hc as (_ & _ & _ & _ & _ & P2 & _ & P4).
  intros id i j H. rewrite carries_holds in H.
  apply orb_true_iff in H. destruct H as [H|H].
  - destruct (Hwell _ _ _ H) as (r0 & H0 & E0).
    eexists. split; [apply P2, H0|]. now rewrite carries_id.
  - destruct pushed as [[pi pj]|]; [|discriminate]. cbn [fst snd] in H.
    apply andb_true_iff in H. destruct H as [H Ej].
    apply andb_true_iff in H. destruct H as [En Ei].
    apply String.eqb_eq in En. apply Nat.eqb_eq in Ei, Ej. subst i j id.
    exists nc. split; [apply P4 | exact Hid].
Qed.

Lemma carries_firstPlace dev name i j :
  firstPlace dev name ds i j -> firstPlace dev name ds' i j.
Proof.
  pose proof Hc as (_ & _ & _ & _ & P3 & P2 & P1 & _).
  intros (D & B & (r & R & I) & C). unfold firstPlace.
  pose proof (deviceAt_lt _ _ _ D) as L.
  split; [now rewrite P3|].
  split; [intros i' L'; rewrite P3 by lia; now apply B|].
  split.
  { eexists. split; [apply P2, R|]. now rewrite carries_id. }
  intros j' r' L' H'.
  destruct (componentAt_below _ _ j' _ _ R L') as (r0 & H0).
  rewrite (P2 _ _ _ H0) in H'. injection H' as <-.
  rewrite carries_id by exact H0. now apply (C j').
Qed.

Lemma carries_firstPlace_back dev name i j :
  firstPlace dev name ds' i j -> pushed <> Some (i, j) ->
  firstPlace dev name ds i j.
Proof.
  pose proof Hc as (_ & _ & _ & _ & P3 & P2 & P1 & _).
  intros (D & B & (r & R & I) & C) N. unfold firstPlace.
  destruct (P1 _ _ _ R) as [E|(r0 & H0)]; [contradiction|].
  pose proof (componentAt_lt _ _ _ _ H0) as L.
  split; [now rewrite <- P3|].
  split; [intros i' L'; rewrite <- P3 by lia; now apply B|].
  split.
  { exists r0. split; [exact H0|].
    rewrite (P2 _ _ _ H0) in R. injection R as <-.
    now rewrite carries_id in I. }
  intros j' r' L' H'. rewrite <- (carries_id _ _ _ H').
  apply (C j'); [exact L' | apply P2, H'].
Qed.

Lemma carries_pushed_first dev name i j :
  pushed = Some (i, j) -> firstPlace dev name ds' i j ->
  dev = dev' /\ name = name'.
Proof.
  pose proof Hc as (_ & _ & _ & _ & _ & _ & _ & P4).
  intros -> (D & _ & (r & R & I) & _).
  destruct P4 as (_ & Hn & (D' & _)).
  split; [congruence|]. rewrite Hn in R. congruence.
Qed.

End Carries.

Lemma carryHidden_wellHeld ctx app name' e c :
  wellHeld c -> wellHeld (LayoutManager.carryHidden ctx app name' e c).
Proof.
  intros W. destruct (carried ctx app name' e) as [latest'|] eqn:Hcar.
  - destruct (carryHidden_carries ctx app name' e c latest' Hcar)
      as (pushed & Hc).
    apply (carries_wellHeld _ _ _ _ _ _ Hc); [|exact W].
    apply hiddenComponent_id. now apply carried_Some in Hcar.
  - now rewrite carryHidden_skips.
Qed.

Lemma lastCarriedFrom_Some ctx app name l d :
  exists d', lastCarriedFrom ctx app name l (Some d) = Some d'.
Proof.
  revert d. induction l as [|e l IH]; intros d; [now exists d|].
  unfold lastCarriedFrom. cbn [fold_left].
  destruct (carried ctx app name e); apply IH.
Qed.

Lemma lastCarriedFrom_any ctx app name l entry acc acc' :
  In entry l -> carried ctx app name entry <> None ->
  lastCarriedFrom ctx app name l acc = lastCarriedFrom ctx app name l acc'.
Proof.
  revert acc acc'. induction l as [|e l IH]; intros acc acc'; [intros []|].
  unfold lastCarriedFrom. cbn [fold_left]. intros [->|Hin] Hcar.
  - destruct (carried ctx app name entry); [reflexivity|contradiction].
  - destruct (carried ctx app name e); [reflexivity|].
    now apply IH.
Qed.

Lemma lastCarriedFrom_In ctx app name l entry acc :
  In entry l -> carried ctx app name entry <> None ->
  exists d, lastCarriedFrom ctx app name l acc = Some d.
Proof.
  revert acc. induction l as [|e l IH]; intros acc; [intros []|].
  unfold lastCarriedFrom. cbn [fold_left]. intros [->|Hin] Hcar.
  - destruct (carried ctx app name entry); [|contradiction].
    apply lastCarriedFrom_Some.
  - now apply IH.
Qed.

Section Hidden.
Variables (ctx : Doc.Context) (app : Doc.DMApp).
Variables (dev name : string) (latest : Doc.Component).
Hypothesis Hlatest : DMApp.getComponent app name = Some latest.

Local Abbreviation listed := (listedHidden ctx app dev name latest).
Local Abbreviation step := (LayoutManager.carryHidden ctx app).

(** A step for another component leaves the record of [name] on [dev] as
    it is. *)
Lemma carryHidden_other_listed name' e c d :
  name' <> name -> wellHeld c -> listed d c -> listed d (step name' e c).
Proof.
  intros N W (i & j & F & R & H).
  destruct (carried ctx app name' e) as [latest'|] eqn:Hcar;
    [|rewrite carryHidden_skips by exact Hcar; now exists i, j].
  destruct (carryHidden_carries ctx app name' e c latest' Hcar)
    as (pushed & Hc).
  assert (Hid : Doc.componentId
                  (LayoutManager.hiddenComponent ctx app
                     (Layout.dl_deviceId e) name' latest') = name')
    by (apply hiddenComponent_id; now apply carried_Some in Hcar).
  exists i, j.
  split; [now apply (carries_firstPlace _ _ _ _ _ _ Hc Hid W)|].
  split.
  - pose proof Hc as (_ & _ & _ & _ & _ & P2 & _).
    rewrite (P2 _ _ _ R).
    destruct (LayoutManager.holds (LayoutManager.held c) name' i j) eqn:E;
      [|reflexivity].
    destruct (W _ _ _ E) as (r & Hr & Er). rewrite R in Hr.
    injection Hr as <-.
    rewrite (hiddenComponent_id _ _ _ _ _ Hlatest) in Er. congruence.
  - now rewrite (carries_holds_old _ _ _ _ _ _ Hc _ _ _ _ R).
Qed.

Lemma carryHidden_other_absent name' e c :
  name' <> name -> wellHeld c ->
  recordOn dev name (LayoutManager.shown c) = None ->
  recordOn dev name (LayoutManager.shown (step name' e c)) = None.
Proof.
  intros N W A.
  destruct (carried ctx app name' e) as [latest'|] eqn:Hcar;
    [|now rewrite carryHidden_skips by exact Hcar].
  destruct (carryHidden_carries ctx app name' e c latest' Hcar)
    as (pushed & Hc).
  assert (Hid : Doc.componentId
                  (LayoutManager.hiddenComponent ctx app
                     (Layout.dl_deviceId e) name' latest') = name')
    by (apply hiddenComponent_id; now apply carried_Some in Hcar).
  apply recordOn_nowhere. intros i j F.
  destruct (option_eq_dec pushed (Some (i, j))) as [E|E].
  - destruct (carries_pushed_first _ _ _ _ _ _ Hc Hid _ _ _ _ E F) as [_ E'].
    congruence.
  - apply (carries_firstPlace_back _ _ _ _ _ _ Hc Hid W) in F; [|exact E].
    rewrite recordOn_nowhere in A. now apply (A i j).
Qed.

(** A step that carries [name] shows in the record on [dev]. *)
Lemma carryHidden_same_listed e c d :
  carried ctx app name e <> None -> wellHeld c -> listed d c ->
  listed (Layout.dl_deviceId e) (step name e c).
Proof.
  intros Hcar W (i & j & F & R & H).
  destruct (carried ctx app name e) as [latest'|] eqn:Hcar';
    [|contradiction].
  assert (latest' = latest) as ->.
  { apply carried_Some in Hcar'. destruct Hcar' as [Hg _]. congruence. }
  destruct (carryHidden_carries ctx app name e c latest Hcar')
    as (pushed & Hc).
  pose proof (hiddenComponent_id ctx app (Layout.dl_deviceId e) _ _ Hlatest)
    as Hid.
  exists i, j.
  split; [now apply (carries_firstPlace _ _ _ _ _ _ Hc Hid W)|].
  split.
  - pose proof Hc as (_ & _ & _ & _ & _ & P2 & _).
    now rewrite (P2 _ _ _ R), H.
  - now rewrite (carries_holds_old _ _ _ _ _ _ Hc _ _ _ _ R).
Qed.

Lemma carryHidden_same_absent e c :
  carried ctx app name e <> None -> wellHeld c ->
  recordOn dev name (LayoutManager.shown c) = None ->
  if String.eqb (Layout.dl_deviceId e) dev
  then listed dev (step name e c)
  else recordOn dev name (LayoutManager.shown (step name e c)) = None.
Proof.
  intros Hcar W A.
  destruct (carried ctx app name e) as [latest'|] eqn:Hcar';
    [|contradiction].
  assert (latest' = latest) as ->.
  { apply carried_Some in Hcar'. destruct Hcar' as [Hg _]. congruence. }
  destruct (carryHidden_carries ctx app name e c latest Hcar')
    as (pushed & Hc).
  pose proof (hiddenComponent_id ctx app (Layout.dl_deviceId e) _ _ Hlatest)
    as Hid.
  rewrite recordOn_nowhere in A.
  destruct (String.eqb_spec (Layout.dl_deviceId e) dev) as [Ed|Nd].
  - pose proof Hc as (_ & _ & _ & _ & _ & _ & _ & P4).
    destruct pushed as [[pi pj]|].
    + destruct P4 as (_ & Hn & F). exists pi, pj. rewrite <- Ed.
      split; [exact F|]. split; [exact Hn|].
      rewrite (carries_holds _ _ _ _ _ _ Hc). cbn [fst snd].
      now rewrite String.eqb_refl, !Nat.eqb_refl, orb_true_r.
    + destruct P4 as (i & j & F & Hn). exfalso.
      apply (carries_firstPlace_back _ _ _ _ _ _ Hc Hid W) in F;
        [|discriminate].
      rewrite Ed in F. now apply (A i j).
  - apply recordOn_nowhere. intros i j F.
    destruct (option_eq_dec pushed (Some (i, j))) as [E|E].
    + destruct (carries_pushed_first _ _ _ _ _ _ Hc Hid _ _ _ _ E F) as [E' _].
      congruence.
    + apply (carries_firstPlace_back _ _ _ _ _ _ Hc Hid W) in F; [|exact E].
      now apply (A i j).
Qed.

Local Abbreviation devicesLoop name' l c :=
  (fold_left (fun c'' dev0 => step name' dev0 c'') l c).

Lemma devicesLoop_wellHeld name' l c :
  wellHeld c -> wellHeld (devicesLoop name' l c).
Proof.
  intros W. apply fold_left_preserve; [|exact W].
  intros s a. apply carryHidden_wellHeld.
Qed.

Lemma devicesLoop_other_listed name' l c d :
  name' <> name -> wellHeld c -> listed d c ->
  listed d (devicesLoop name' l c).
Proof.
  intros N W H.
  apply (fold_left_preserve _ (fun c => wellHeld c /\ listed d c));
    [|now split].
  intros s a [Ws Hs]. split; [now apply carryHidden_wellHeld|].
  now apply carryHidden_other_listed.
Qed.

Lemma devicesLoop_other_absent name' l c :
  name' <> name -> wellHeld c ->
  recordOn dev name (LayoutManager.shown c) = None ->
  recordOn dev name (LayoutManager.shown (devicesLoop name' l c)) = None.
Proof.
  intros N W H.
  apply (fold_left_preserve _
           (fun c => wellHeld c
                     /\ recordOn dev name (LayoutManager.shown c) = None));
    [|now split].
  intros s a [Ws Hs]. split; [now apply carryHidden_wellHeld|].
  now apply carryHidden_other_absent.
Qed.

(** The loop over the devices for [name]: the record on [dev] shows the
    object as the last step that carried it left it. *)
Lemma devicesLoop_same_listed l :
  forall c d, wellHeld c -> listed d c ->
    exists d', lastCarriedFrom ctx app name l (Some d) = Some d'
               /\ listed d' (devicesLoop name l c).
Proof.
  induction l as [|e l IH]; intros c d W H; [now exists d|].
  unfold lastCarriedFrom. cbn [fold_left].
  destruct (carried ctx app name e) as [latest'|] eqn:Hcar.
  - apply IH; [now apply carryHidden_wellHeld|].
    apply (carryHidden_same_listed e c d); [congruence | exact W | exact H].
  - rewrite carryHidden_skips by exact Hcar. now apply IH.
Qed.

Lemma devicesLoop_same_absent l :
  forall c acc entry,
    wellHeld c -> recordOn dev name (LayoutManager.shown c) = None ->
    In entry l -> carried ctx app name entry <> None ->
    Layout.dl_deviceId entry = dev ->
    exists d', lastCarriedFrom ctx app name l acc = Some d'
               /\ listed d' (devicesLoop name l c).
Proof.
  induction l as [|e l IH]; intros c acc entry W A Hin Hcar Ed;
    [destruct Hin|].
  unfold lastCarriedFrom. cbn [fold_left].
  destruct (carried ctx app name e) as [latest'|] eqn:Hcar'.
  - assert (Hne : carried ctx app name e <> None) by congruence.
    pose proof (carryHidden_same_absent e c Hne W A) as S.
    destruct (String.eqb_spec (Layout.dl_deviceId e) dev) as [E|N].
    + assert (S' : listed (Layout.dl_deviceId e) (step name e c))
        by (rewrite E; exact S).
      apply (devicesLoop_same_listed l _ _
               (carryHidden_wellHeld _ _ _ _ _ W) S').
    + destruct Hin as [->|Hin]; [contradiction|].
      apply (IH _ _ entry); auto using carryHidden_wellHeld.
  - rewrite carryHidden_skips by exact Hcar'.
    destruct Hin as [->|Hin]; [contradiction|].
    now apply (IH _ _ entry).
Qed.

(** C7, amended.  A component reported with status "incompatible" or
    "skipped" is listed on a device of the previous layout with the
    hidden layout (size -1 by -1) when: the record of the previous layout
    has a start time and a size, the context still has the device, the
    DMApp has the component with no stop time, and the new layout does
    not list the component on that device already.  The record is the
    component object of the DMApp itself, the same object on every device
    it is carried to: the device id and the instance id of its layout are
    those of the last device of the previous layout it was carried to. *)
Theorem hidden_component_carried_over
    (prev new : Layout.GeneratedLayout) (np : Layout.Skipped)
    (entry : Layout.DeviceLayout) (comp : Doc.Component) :
  In np (Layout.notPlaced new) ->
  LayoutManager.hiddenStatus (Layout.status np) = true ->
  In name (Layout.sk_components np) ->
  In entry (Layout.gl_devices prev) ->
  Layout.dl_deviceId entry = dev ->
  Layout.findComponent name (Layout.dl_components entry) = Some comp ->
  Js.isSet (Doc.startTime comp) = true ->
  Js.isSet (Doc.size (Doc.layout comp)) = true ->
  Context.hasDevice ctx dev = true ->
  Doc.stopTime latest = None ->
  recordOn dev name new = None ->
  exists last,
    lastCarried ctx app name prev = Some last
    /\ recordOn dev name
         (LayoutManager.manageHiddenComps ctx (Some prev) new app)
       = Some (LayoutManager.hiddenComponent ctx app last name latest).
Proof.
  intros Hnp Hstatus Hname Hentry Ed Hcomp Hstart Hsize Hdev Hstop Hnew.
  assert (Hcar : carried ctx app name entry <> None).
  { unfold carried.
    rewrite Hcomp, Ed, Hdev, (findComponent_id _ _ _ Hcomp), Hlatest,
      String.eqb_refl, Hstop, Hstart, Hsize.
    discriminate. }
  destruct (lastCarriedFrom_In ctx app name _ entry None Hentry Hcar)
    as (last & Hlast).
  exists last. split; [exact Hlast|].
  assert (Hany : forall d d',
             lastCarriedFrom ctx app name (Layout.gl_devices prev) (Some d)
             = Some d' -> d' = last).
  { intros d d' H.
    rewrite (lastCarriedFrom_any _ _ _ _ entry (Some d) None Hentry Hcar)
      in H.
    congruence. }
  set (P := fun c => wellHeld c
                     /\ (recordOn dev name (LayoutManager.shown c) = None
                         \/ listed last c)).
  set (Q := fun c => wellHeld c /\ listed last c).
  assert (D2 : forall name' c,
             Q c -> Q (devicesLoop name' (Layout.gl_devices prev) c)).
  { intros name' c [W H]. split; [now apply devicesLoop_wellHeld|].
    destruct (String.eqb_spec name' name) as [->|N].
    - destruct (devicesLoop_same_listed (Layout.gl_devices prev) c last W H)
        as (d' & E & H').
      now rewrite (Hany _ _ E) in H'.
    - now apply devicesLoop_other_listed. }
  assert (D3 : forall c,
             P c -> Q (devicesLoop name (Layout.gl_devices prev) c)).
  { intros c [W [A|H]]; [|now apply D2].
    split; [now apply devicesLoop_wellHeld|].
    destruct (devicesLoop_same_absent (Layout.gl_devices prev) c None entry
                W A Hentry Hcar Ed) as (d' & E & H').
    unfold lastCarried in Hlast. now replace last with d' by congruence. }
  assert (D1 : forall name' c,
             P c -> P (devicesLoop name' (Layout.gl_devices prev) c)).
  { intros name' c H.
    destruct (String.eqb_spec name' name) as [->|N].
    - destruct (D3 c H) as [W' H']. split; [exact W' | now right].
    - destruct H as [W [A|H]].
      + split; [now apply devicesLoop_wellHeld|]. left.
        now apply devicesLoop_other_absent.
      + destruct (D2 name' c (conj W H)) as [W' H'].
        split; [exact W' | now right]. }
  assert (Final : Q (fold_left
    (fun c np0 =>
       if LayoutManager.hiddenStatus (Layout.status np0) then
         fold_left
           (fun c' compId => devicesLoop compId (Layout.gl_devices prev) c')
           (Layout.sk_components np0) c
       else c)
    (Layout.notPlaced new)
    {| LayoutManager.shown := new; LayoutManager.held := [] |})).
  { apply (fold_left_establish _ P Q _ np).
    - intros s a H.
      destruct (LayoutManager.hiddenStatus (Layout.status a)); [|exact H].
      apply fold_left_preserve; [|exact H]. intros s' a'. apply D1.
    - intros s a H.
      destruct (LayoutManager.hiddenStatus (Layout.status a)); [|exact H].
      apply fold_left_preserve; [|exact H]. intros s' a'. apply D2.
    - intros s H. rewrite Hstatus.
      apply (fold_left_establish _ P Q _ name).
      + intros s' a. apply D1.
      + intros s' a. apply D2.
      + intros s'. apply D3.
      + exact Hname.
      + exact H.
    - exact Hnp.
    - split; [intros id i j H; discriminate H | now left]. }
  destruct Final as [_ (i & j & F & R & _)].
  unfold LayoutManager.manageHiddenComps.
  apply recordOn_firstPlace. now exists i, j.
Qed.

End Hidden.

Lemma hidden_component_carried_over_for_the_banner :
  exists last,
    lastCarried oneScreen runningApp "banner" runningLayout = Some last
    /\ recordOn "tv1" "banner"
         (LayoutManager.manageHiddenComps oneScreen (Some runningLayout)
            reportedLayout runningApp)
       = Some (LayoutManager.hiddenComponent oneScreen runningApp last
                 "banner" (started (component "banner"))).
Proof.
  apply (hidden_component_carried_over oneScreen runningApp "tv1" "banner"
           (started (component "banner")) eq_refl
           runningLayout reportedLayout (reported "incompatible" ["banner"])
           (onDevice "tv1" [started (placed "banner" "tv1" 0 0 100 100 3)])
           (started (placed "banner" "tv1" 0 0 100 100 3))).
  - left. reflexivity.
  - reflexivity.
  - left. reflexivity.
  - left. reflexivity.
  - reflexivity.
  - reflexivity.
  - reflexivity.
  - reflexivity.
  - reflexivity.
  - reflexivity.
  - reflexivity.
Defined.

(** The two displays of the previous layout both list the running
    component [banner], and the new layout reports it: both entries of
    the result hold the one object of the DMApp, which names the display
    it was carried to last. *)
Lemma hidden_component_on_two_displays :
  let result :=
    LayoutManager.manageHiddenComps twoScreens (Some runningOnTwo)
      reportedLayout runningApp in
  let shared :=
    LayoutManager.hiddenComponent twoScreens runningApp "tv2" "banner"
      (started (component "banner")) in
  Layout.gl_devices result
  = [onDevice "tv1" [shared]; onDevice "tv2" [shared]]
  /\ Doc.l_deviceId (Doc.layout shared) = Some "tv2"
  /\ Doc.size (Doc.layout shared)
     = Some {| Doc.s_width := Doc.Pixels (-1);
               Doc.s_height := Doc.Pixels (-1) |}
  /\ lastCarried twoScreens runningApp "banner" runningOnTwo = Some "tv2".
Proof. cbv zeta. repeat split; reflexivity. Qed.

(** C7, the claim as stated fails.  The component [banner] is running (the
    DMApp has its start time and no stop time), the previous layout lists
    it on [tv1], with the record the simulator persisted when it was
    initialised, and the new layout reports it as incompatible: the
    carry-over rules leave the new layout without any record of it. *)
Lemma running_component_not_carried_over :
  (exists c,
     DMApp.getComponent runningApp "banner" = Some c
     /\ Doc.startTime c = Some 10%Q /\ Doc.stopTime c = None)
  /\ recordOn "tv1" "banner" initedLayout = Some (inited "banner" "tv1")
  /\ LayoutManager.manageHiddenComps oneScreen (Some initedLayout)
       reportedLayout runningApp = reportedLayout
  /\ LayoutManager.carryOver oneScreen (Some initedLayout) reportedLayout
       runningApp = reportedLayout
  /\ Layout.gl_devices reportedLayout = [].
Proof.
  split; [eexists; repeat split; reflexivity|].
  repeat split; reflexivity.
Qed.

(** ** Carrying over initialised components (claim C8) *)

(** C8.  [manageInitedComps] attaches a component only to an entry the new
    layout already has for the device: when the new layout has no entry
    for any device of the previous layout, it is returned as it is, and
    the initialised components of the previous layout are lost. *)
Theorem inited_components_lost_without_device_entry
    (ctx : Doc.Context) (prev new : Layout.GeneratedLayout) (app : Doc.DMApp) :
  (forall entry, In entry (Layout.gl_devices prev) ->
     Layout.findDevice (Layout.dl_deviceId entry) (Layout.gl_devices new)
     = None) ->
  LayoutManager.manageInitedComps ctx (Some prev) new app = new.
Proof.
  intros H. unfold LayoutManager.manageInitedComps.
  induction (Layout.gl_devices prev) as [|entry entries IH];
    [reflexivity|].
  cbn [fold_left].
  assert (E : fold_left
                (fun nl' comp =>
                   LayoutManager.carryInited app (Layout.dl_deviceId entry)
                     comp nl')
                (filter (fun c => negb (Js.isSet (Doc.startTime c)))
                        (Layout.dl_components entry)) new = new).
  { apply fold_left_preserve with (P := fun l => l = new); [|reflexivity].
    intros s comp ->. unfold LayoutManager.carryInited.
    rewrite (H entry) by (now left). reflexivity. }
  rewrite E. apply IH. intros e He. apply H. now right.
Qed.

Lemma inited_components_lost_without_device_entry_for_the_banner :
  LayoutManager.manageInitedComps oneScreen (Some initedLayout)
    reportedLayout bannerApp = reportedLayout.
Proof.
  apply (inited_components_lost_without_device_entry oneScreen initedLayout
           reportedLayout bannerApp).
  intros entry [<-|[]]. reflexivity.
Defined.

(** ** Region ids that equal the device id (claim C10) *)






(** ** Lists under the outcome of a run *)

Lemma omapM_In_inv {A B : Type} (f : A -> outcome B) (l : list A)
    (l' : list B) (y : B) :
  omapM f l = Ok l' -> In y l' -> exists x, In x l /\ f x = Ok y.
Proof.
  revert l'. induction l as [|a l IH]; intros l' H Hy; cbn [omapM] in H.
  - injection H as <-. contradiction.
  - destruct (f a) as [b| | | |] eqn:Ea; cbn [obind] in H; try discriminate.
    destruct (omapM f l) as [bs| | | |] eqn:El; cbn [obind] in H;
      try discriminate.
    injection H as <-. destruct Hy as [<-|Hy].
    + exists a. split; [now left | assumption].
    + destruct (IH bs eq_refl Hy) as (x & Hx & Hf).
      exists x. split; [now right | assumption].
Qed.

Lemma omapM_In {A B : Type} (f : A -> outcome B) (l : list A)
    (l' : list B) (x : A) :
  omapM f l = Ok l' -> In x l -> exists y, In y l' /\ f x = Ok y.
Proof.
  revert l'. induction l as [|a l IH]; intros l' H Hx; [contradiction|].
  cbn [omapM] in H.
  destruct (f a) as [b| | | |] eqn:Ea; cbn [obind] in H; try discriminate.
  destruct (omapM f l) as [bs| | | |] eqn:El; cbn [obind] in H;
    try discriminate.
  injection H as <-. destruct Hx as [<-|Hx].
  - exists b. split; [now left | assumption].
  - destruct (IH bs eq_refl Hx) as (y & Hy & Hf).
    exists y. split; [now right | assumption].
Qed.

(** The sort moves elements and does nothing else. *)
Lemma sortInsertM_Permutation {A : Type} (comparefn : A -> A -> outcome Z)
    (x : A) (l l' : list A) :
  PackerUtils.sortInsertM comparefn x l = Ok l' -> Permutation (x :: l) l'.
Proof.
  revert l'. induction l as [|a l IH]; intros l' H;
    cbn [PackerUtils.sortInsertM] in H.
  - injection H as <-. reflexivity.
  - destruct (comparefn a x) as [order| | | |]; cbn [obind] in H;
      try discriminate.
    destruct (Z.ltb 0 order).
    + destruct (PackerUtils.sortInsertM comparefn x l) as [r| | | |];
        cbn [obind] in H; try discriminate.
      injection H as <-. rewrite perm_swap. constructor. now apply IH.
    + injection H as <-. reflexivity.
Qed.

Lemma jsSortM_Permutation {A : Type} (comparefn : A -> A -> outcome Z)
    (l l' : list A) :
  PackerUtils.jsSortM comparefn l = Ok l' -> Permutation l l'.
Proof.
  unfold PackerUtils.jsSortM.
  assert (G : forall l acc r,
             ofoldM (fun acc x => PackerUtils.sortInsertM comparefn x acc)
               l acc = Ok r ->
             Permutation (l ++ acc) r).
  { clear. induction l as [|a l IH]; intros acc r H; cbn [ofoldM] in H.
    - injection H as <-. reflexivity.
    - destruct (PackerUtils.sortInsertM comparefn a acc) as [acc'| | | |]
        eqn:E; cbn [obind] in H; try discriminate.
      apply IH in H. apply sortInsertM_Permutation in E.
      rewrite <- H. cbn [app]. rewrite <- E.
      apply Permutation_middle. }
  destruct (ofoldM _ l []) as [r| | | |] eqn:E; cbn [obind];
    try discriminate.
  intros [= <-]. apply G in E. rewrite app_nil_r in E.
  rewrite E. apply Permutation_rev.
Qed.

Lemma jsSortM_In {A : Type} (comparefn : A -> A -> outcome Z)
    (l l' : list A) (x : A) :
  PackerUtils.jsSortM comparefn l = Ok l' -> In x l' <-> In x l.
Proof.
  intros H. apply jsSortM_Permutation in H. split; intros Hx.
  - eapply Permutation_in; [symmetry; exact H | exact Hx].
  - eapply Permutation_in; [exact H | exact Hx].
Qed.

(** ** Device groups (Context.ts) *)

(** What [getDeviceGroups] does with one device. *)
Lemma addToGroups_None d gs :
  Context.addToGroups d gs = None -> ~ In (Doc.group d) (map fst gs).
Proof.
  induction gs as [|[g t] gs IH]; cbn [Context.addToGroups map In fst].
  - tauto.
  - destruct (String.eqb_spec g (Doc.group d)) as [E|N]; [discriminate|].
    destruct (Context.addToGroups d gs); cbn [option_map]; [discriminate|].
    intros _ [H|H]; [contradiction | now apply IH].
Qed.

Lemma addToGroups_Some d gs gs' :
  Context.addToGroups d gs = Some gs' ->
  exists l1 t l2,
    gs = l1 ++ (Doc.group d, t) :: l2
    /\ gs' = l1 ++ (Doc.group d,
                    match t, Doc.communalDevice (Doc.caps d) with
                    | Context.personal, true => Context.mixed
                    | Context.communal, false => Context.mixed
                    | _, _ => t
                    end) :: l2
    /\ ~ In (Doc.group d) (map fst l1).
Proof.
  revert gs'. induction gs as [|[g t] gs IH]; intros gs';
    cbn [Context.addToGroups]; [discriminate|].
  destruct (String.eqb_spec g (Doc.group d)) as [E|N].
  - intros [= <-]. subst g. exists [], t, gs. cbn. tauto.
  - destruct (Context.addToGroups d gs) as [gs0|]; cbn [option_map];
      [|discriminate].
    intros [= <-]. destruct (IH gs0 eq_refl) as (l1 & t0 & l2 & E1 & E2 & H).
    exists ((g, t) :: l1), t0, l2. subst gs gs0. cbn [app map fst In].
    repeat split; try reflexivity. tauto.
Qed.

(** The groups of a list of devices, one device after the other. *)
Lemma getDeviceGroups_snoc ctx_id0 pc ds d :
  Context.getDeviceGroups
    {| Doc.ctx_id := ctx_id0; Doc.devices := ds ++ [d];
       Doc.percentCoords := pc |}
  = let gs := Context.getDeviceGroups
                {| Doc.ctx_id := ctx_id0; Doc.devices := ds;
                   Doc.percentCoords := pc |} in
    match Context.addToGroups d gs with
    | Some gs' => gs'
    | None =>
        gs ++ [(Doc.group d,
                if Doc.communalDevice (Doc.caps d)
                then Context.communal else Context.personal)]
    end.
Proof.
  unfold Context.getDeviceGroups. cbn [Doc.devices].
  rewrite fold_left_app. reflexivity.
Qed.

(** The invariant of [getDeviceGroups]: the group ids are those of the
    devices, each once, and the type of a group tells the kinds of its
    devices. *)
Lemma getDeviceGroups_invariant ctx_id0 pc ds :
  let gs := Context.getDeviceGroups
              {| Doc.ctx_id := ctx_id0; Doc.devices := ds;
                 Doc.percentCoords := pc |} in
  List.NoDup (map fst gs)
  /\ (forall g, In g (map fst gs) <-> exists d, In d ds /\ Doc.group d = g)
  /\ (forall g t, In (g, t) gs -> groupKind ds g t).
Proof.
  induction ds as [|d ds IH] using rev_ind.
  - cbn. split; [constructor|]. split; [|tauto].
    intros g. split; [tauto|]. intros (d & [] & _).
  - rewrite getDeviceGroups_snoc. cbv zeta.
    set (gs := Context.getDeviceGroups _) in *. cbv zeta in IH.
    destruct IH as (ND & IDS & KIND).
    assert (Kext : forall g t,
               g <> Doc.group d -> groupKind ds g t ->
               groupKind (ds ++ [d]) g t).
    { intros g t N K. unfold groupKind in *.
      destruct t.
      - intros x Hx Hg. apply in_app_iff in Hx.
        destruct Hx as [Hx|[<-|[]]]; [now apply K | congruence].
      - intros x Hx Hg. apply in_app_iff in Hx.
        destruct Hx as [Hx|[<-|[]]]; [now apply K | congruence].
      - destruct K as ((x & Hx & Hg & Hc) & (y & Hy & Hg' & Hc')).
        split; [exists x | exists y]; rewrite in_app_iff; tauto. }
    destruct (Context.addToGroups d gs) as [gs'|] eqn:E.
    + destruct (addToGroups_Some _ _ _ E) as (l1 & t & l2 & E1 & E2 & Hl1).
      assert (Eids : map fst gs' = map fst gs).
      { subst gs'. rewrite E1, !map_app. reflexivity. }
      split; [now rewrite Eids|]. split.
      * intros g. rewrite Eids, IDS. split.
        -- intros (x & Hx & Hg). exists x. rewrite in_app_iff. tauto.
        -- intros (x & Hx & Hg). apply in_app_iff in Hx.
           destruct Hx as [Hx|[<-|[]]]; [now exists x|].
           apply IDS. rewrite E1, map_app, in_app_iff. right. left.
           now subst g.
      * intros g t' Hin. rewrite E2 in Hin. apply in_app_iff in Hin.
        assert (Hfirst : In (Doc.group d, t) gs)
          by (rewrite E1, in_app_iff; right; now left).
        assert (Other : forall t0, In (g, t0) l1 \/ In (g, t0) l2 ->
                         g <> Doc.group d /\ In (g, t0) gs).
        { intros t0 H0. split.
          - intros ->. rewrite E1, map_app in ND.
            cbn [map fst] in ND. apply List.NoDup_remove_2 in ND.
            apply ND. rewrite in_app_iff.
            destruct H0 as [H0|H0];
              [left | right]; apply (in_map fst) in H0; exact H0.
          - rewrite E1, in_app_iff. cbn [In]. tauto. }
        destruct Hin as [Hin|[Hin|Hin]].
        -- destruct (Other t' (or_introl Hin)) as [N I].
           apply Kext; [exact N | now apply KIND].
        -- injection Hin as <- <-.
           pose proof (KIND _ _ Hfirst) as K. unfold groupKind in *.
           destruct t, (Doc.communalDevice (Doc.caps d)) eqn:C.
           ++ intros x Hx Hg. apply in_app_iff in Hx.
              destruct Hx as [Hx|[<-|[]]]; [now apply K | exact C].
           ++ assert (Hex : exists x, In x ds /\ Doc.group x = Doc.group d)
                by (apply IDS; apply (in_map fst) in Hfirst; exact Hfirst).
              destruct Hex as (x & Hx & Hg).
              split; [exists x | exists d]; rewrite in_app_iff;
                cbn [In]; repeat split; auto.
           ++ assert (Hex : exists x, In x ds /\ Doc.group x = Doc.group d)
                by (apply IDS; apply (in_map fst) in Hfirst; exact Hfirst).
              destruct Hex as (x & Hx & Hg).
              split; [exists d | exists x]; rewrite in_app_iff;
                cbn [In]; repeat split; auto.
           ++ intros x Hx Hg. apply in_app_iff in Hx.
              destruct Hx as [Hx|[<-|[]]]; [now apply K | exact C].
           ++ destruct K as ((x & Hx & Hg & Hc) & (y & Hy & Hg' & Hc')).
              split; [exists x | exists y]; rewrite in_app_iff; tauto.
           ++ destruct K as ((x & Hx & Hg & Hc) & (y & Hy & Hg' & Hc')).
              split; [exists x | exists y]; rewrite in_app_iff; tauto.
        -- destruct (Other t' (or_intror Hin)) as [N I].
           apply Kext; [exact N | now apply KIND].
    + pose proof (addToGroups_None _ _ E) as Hnew.
      split; [|split].
      * rewrite map_app. cbn [map fst]. apply List.NoDup_app; [exact ND| |].
        -- repeat constructor. intros [].
        -- intros g Hg [<-|[]]. contradiction.
      * intros g. rewrite map_app, in_app_iff, IDS. cbn [map fst In]. split.
        -- intros [(x & Hx & Hg)|[<-|[]]].
           ++ exists x. rewrite in_app_iff. tauto.
           ++ exists d. rewrite in_app_iff. cbn. tauto.
        -- intros (x & Hx & Hg). apply in_app_iff in Hx.
           destruct Hx as [Hx|[<-|[]]]; [left; now exists x | tauto].
      * intros g t Hin. apply in_app_iff in Hin.
        destruct Hin as [Hin|[Hin|[]]].
        -- apply Kext; [|now apply KIND].
           intros ->. apply Hnew. apply (in_map fst) in Hin. exact Hin.
        -- injection Hin as <- <-.
           assert (Alone : forall x, In x (ds ++ [d]) ->
                              Doc.group x = Doc.group d -> x = d).
           { intros x Hx Hg. apply in_app_iff in Hx.
             destruct Hx as [Hx|[<-|[]]]; [|reflexivity].
             exfalso. apply Hnew, IDS. now exists x. }
           unfold groupKind.
           destruct (Doc.communalDevice (Doc.caps d)) eqn:C;
             intros x Hx Hg; rewrite (Alone x Hx Hg); exact C.
Qed.

(** X1.  [getDeviceGroups] lists the group of every device of the context,
    and no other, each once. *)
Theorem device_groups_are_the_groups_of_the_devices (ctx : Doc.Context) :
  List.NoDup (map fst (Context.getDeviceGroups ctx))
  /\ forall g,
       In g (map fst (Context.getDeviceGroups ctx))
       <-> exists d, In d (Doc.devices ctx) /\ Doc.group d = g.
Proof.
  destruct ctx as [i ds pc].
  destruct (getDeviceGroups_invariant i pc ds) as (ND & IDS & _).
  split; assumption.
Qed.

(** X2.  The type [getDeviceGroups] gives a group is [communal] when all
    the devices of the group are communal, [personal] when all are
    personal, and [mixed] when the group has a device of each kind. *)
Theorem device_group_type_tells_the_kinds (ctx : Doc.Context) (g : string)
    (t : Context.groupType) :
  In (g, t) (Context.getDeviceGroups ctx) ->
  groupKind (Doc.devices ctx) g t.
Proof.
  destruct ctx as [i ds pc].
  destruct (getDeviceGroups_invariant i pc ds) as (_ & _ & K).
  apply K.
Qed.

Lemma device_group_type_tells_the_kinds_of_the_lounge :
  groupKind (Doc.devices screenAndTablet) "lounge" Context.mixed.
Proof.
  apply (device_group_type_tells_the_kinds screenAndTablet "lounge"
           Context.mixed).
  left. reflexivity.
Defined.

(** ** The components of a DMApp (DMApp.ts) *)

Lemma getComponent_cons app c cs name :
  DMApp.getComponent (DMApp.withComponents app (c :: cs)) name
  = if String.eqb (Doc.componentId c) name then Some c
    else DMApp.getComponent (DMApp.withComponents app cs) name.
Proof.
  unfold DMApp.getComponent. cbn [DMApp.withComponents Doc.components].
  rewrite filter_cons.
  destruct (String.eqb (Doc.componentId c) name) eqn:E;
    destruct (decide _) as [H|H]; cbn in H; try contradiction;
    try reflexivity.
Qed.

Lemma getComponent_nil app name :
  DMApp.getComponent (DMApp.withComponents app []) name = None.
Proof. reflexivity. Qed.

Lemma withComponents_same app :
  DMApp.withComponents app (Doc.components app) = app.
Proof. destruct app. reflexivity. Qed.

Lemma withComponents_twice app cs cs' :
  DMApp.withComponents (DMApp.withComponents app cs) cs'
  = DMApp.withComponents app cs'.
Proof. reflexivity. Qed.

Lemma getComponent_app app cs c name :
  DMApp.getComponent (DMApp.withComponents app (cs ++ [c])) name
  = match DMApp.getComponent (DMApp.withComponents app cs) name with
    | Some r => Some r
    | None => if String.eqb (Doc.componentId c) name then Some c else None
    end.
Proof.
  induction cs as [|a cs IH]; cbn [List.app].
  - rewrite getComponent_cons, !getComponent_nil. reflexivity.
  - rewrite !getComponent_cons.
    destruct (String.eqb (Doc.componentId a) name); [reflexivity|exact IH].
Qed.

Lemma getComponent_In app name c :
  DMApp.getComponent app name = Some c ->
  In c (Doc.components app) /\ Doc.componentId c = name.
Proof.
  rewrite <- (withComponents_same app) at 1.
  induction (Doc.components app) as [|a cs IH].
  - rewrite getComponent_nil. discriminate.
  - rewrite getComponent_cons.
    destruct (String.eqb_spec (Doc.componentId a) name) as [E|N].
    + intros [= <-]. split; [now left | exact E].
    + intros H. destruct (IH H). split; [now right | assumption].
Qed.

Lemma getComponent_None app name :
  DMApp.getComponent app name = None <->
  ~ In name (map Doc.componentId (Doc.components app)).
Proof.
  rewrite <- (withComponents_same app) at 1.
  induction (Doc.components app) as [|a cs IH].
  - rewrite getComponent_nil. cbn. tauto.
  - rewrite getComponent_cons. cbn [map In].
    destruct (String.eqb_spec (Doc.componentId a) name) as [E|N].
    + split; [discriminate | tauto].
    + rewrite IH. tauto.
Qed.

(** X3.  [initComponent] returns the component that [getComponent] then
    finds under the id; it leaves every other id as it was; and a second
    call for the id changes nothing and returns the same component. *)
Theorem initComponent_then_getComponent (app : Doc.DMApp) (name : string)
    (cid cid' : option string) :
  let app' := fst (DMApp.initComponent app name cid) in
  let c := snd (DMApp.initComponent app name cid) in
  DMApp.getComponent app' name = Some c
  /\ Doc.componentId c = name
  /\ (forall other, other <> name ->
        DMApp.getComponent app' other = DMApp.getComponent app other)
  /\ DMApp.initComponent app' name cid' = (app', c).
Proof.
  cbv zeta.
  destruct (DMApp.getComponent app name) as [c|] eqn:E.
  - assert (I : forall k, DMApp.initComponent app name k = (app, c))
      by (intros k; unfold DMApp.initComponent; now rewrite E).
    rewrite !I. cbn [fst snd]. repeat split; auto.
    now apply getComponent_In in E.
  - destruct (DMApp.initComponent app name cid) as [app' c] eqn:I.
    unfold DMApp.initComponent in I. rewrite E in I.
    injection I as <- <-. cbn [fst snd].
    set (c := {| Doc.componentId := name |}).
    assert (G : DMApp.getComponent
                  (DMApp.withComponents app (Doc.components app ++ [c])) name
                = Some c).
    { rewrite getComponent_app, withComponents_same, E.
      cbn [c Doc.componentId]. rewrite String.eqb_refl. reflexivity. }
    repeat split; auto.
    + intros other N. rewrite getComponent_app, withComponents_same.
      destruct (DMApp.getComponent app other); [reflexivity|].
      cbn [c Doc.componentId].
      destruct (String.eqb_spec name other); [congruence|reflexivity].
    + unfold DMApp.initComponent. rewrite G. reflexivity.
Qed.

(** ** The component list handed to the packer (LayoutGenerator.ts) *)

Lemma getPrioritizedComponentList_In app device grouptype l c :
  LayoutGenerator.getPrioritizedComponentList app device grouptype = Ok l ->
  In c l -> In (LayoutGenerator.pc_component c) (Doc.components app).
Proof.
  unfold LayoutGenerator.getPrioritizedComponentList.
  set (cs := map _ (Doc.components app)).
  assert (G : In c cs ->
              In (LayoutGenerator.pc_component c) (Doc.components app)).
  { unfold cs. intros H. apply in_map_iff in H.
    destruct H as (x & <- & Hx).
    destruct (Context.groupType_eqb grouptype Context.mixed); exact Hx. }
  destruct (Nat.ltb (length cs) 2).
  - intros [= <-]. exact G.
  - intros H Hc. apply G. now apply (jsSortM_In _ _ _ c H).
Qed.

(** What [buildComponentList] requires of a component before it makes an
    entry for it. *)
Lemma buildEntry_Some ctx app device regions grouptype c r :
  LayoutGenerator.buildEntry ctx app device regions grouptype c = Ok (Some r) ->
  PackerUtils.componentId r
  = Some (Doc.componentId (LayoutGenerator.pc_component c))
  /\ PackerUtils.DMAppId r = Some (Doc.dmapp_id app)
  /\ Doc.visible (Doc.layout (LayoutGenerator.pc_component c)) <> Some false
  /\ exists k,
       PackerUtils.constraints r = Some k
       /\ 0 < PackerUtils.priority k
       /\ PackerUtils.valid k <> []
       /\ PackerUtils.priority k
          = DMApp.resolvePriority app (LayoutGenerator.pc_component c) device
              (if Context.groupType_eqb grouptype Context.mixed then true
               else Doc.communalDevice (Doc.caps device)).
Proof.
  unfold LayoutGenerator.buildEntry.
  destruct (ofoldM _ regions []) as [validregions| | | |]; cbn [obind];
    try discriminate.
  match goal with
  | |- obind ?p _ = _ -> _ => destruct p as [personal| | | |]
  end; cbn [obind]; try discriminate.
  destruct (LayoutGenerator.resolved _ _ _ validregions) as [com| | | |]
    eqn:Hcom; cbn [obind]; try discriminate.
  destruct (Nat.ltb 0 (length validregions)) eqn:Hv; cbn [andb];
    [|discriminate].
  assert (Hvalid : PackerUtils.valid com <> []
                   /\ PackerUtils.priority com
                      = DMApp.resolvePriority app
                          (LayoutGenerator.pc_component c) device
                          (if Context.groupType_eqb grouptype Context.mixed
                           then true
                           else Doc.communalDevice (Doc.caps device))).
  { unfold LayoutGenerator.resolved in Hcom.
    destruct (LayoutGenerator.getAspect _) in Hcom; cbn [obind] in Hcom;
      try discriminate.
    destruct (defined _) in Hcom; cbn [obind] in Hcom; try discriminate.
    injection Hcom as <-. cbn [PackerUtils.valid PackerUtils.priority].
    split; [|reflexivity].
    destruct validregions; [discriminate Hv | discriminate]. }
  destruct Hvalid as [Hvalid Hprio].
  destruct (Z.ltb 0 (PackerUtils.priority com)) eqn:Hp;
    [|rewrite andb_false_r; discriminate].
  apply Z.ltb_lt in Hp.
  destruct (Doc.visible _) as [[|]|] eqn:Hvis; cbn [andb];
    try discriminate; intros [= <-];
    cbn [LayoutGenerator.entry PackerUtils.componentId
         PackerUtils.DMAppId PackerUtils.constraints];
    (split; [reflexivity|]); (split; [reflexivity|]);
    (split; [discriminate|]); exists com; auto.
Qed.

Lemma omap_id_In {A : Type} (l : list (option A)) (x : A) :
  In x (omap id l) <-> In (Some x) l.
Proof.
  rewrite <- !list_elem_of_In, list_elem_of_omap. split.
  - intros (o & Ho & E). unfold id in E. now subst o.
  - intros H. exists (Some x). split; [exact H | reflexivity].
Qed.

Lemma buildComponentList_origin ctx dmapps devicelist regions grouptype
    clist allids r :
  LayoutGenerator.buildComponentList ctx dmapps devicelist regions grouptype
  = Ok (clist, allids) ->
  In r clist ->
  exists app comp dev0 device,
    In app dmapps /\ In comp (Doc.components app)
    /\ head devicelist = Some dev0
    /\ Context.getDevice ctx dev0 = Some device
    /\ PackerUtils.componentId r = Some (Doc.componentId comp)
    /\ PackerUtils.DMAppId r = Some (Doc.dmapp_id app)
    /\ Doc.visible (Doc.layout comp) <> Some false
    /\ exists k,
         PackerUtils.constraints r = Some k
         /\ 0 < PackerUtils.priority k
         /\ PackerUtils.valid k <> []
         /\ PackerUtils.priority k
            = DMApp.resolvePriority app comp device
                (if Context.groupType_eqb grouptype Context.mixed then true
                 else Doc.communalDevice (Doc.caps device)).
Proof.
  unfold LayoutGenerator.buildComponentList.
  destruct (head devicelist) as [dev0|]; cbn [defined obind];
    try discriminate.
  destruct (Context.getDevice ctx dev0) as [device|] eqn:Hdev;
    cbn [defined obind]; try discriminate.
  destruct (defined (head regions)) as [region0| | | |]; cbn [obind];
    try discriminate.
  destruct (omapM _ dmapps) as [perApp| | | |] eqn:Hper; cbn [obind];
    try discriminate.
  destruct (PackerUtils.jsSortM _ _) as [sorted| | | |] eqn:Hsort;
    cbn [obind]; try discriminate.
  intros [= <- <-] Hr.
  apply (jsSortM_In _ _ _ r Hsort) in Hr.
  apply in_concat in Hr. destruct Hr as (entries & Hentries & Hr).
  apply in_map_iff in Hentries. destruct Hentries as (pa & <- & Hpa).
  destruct (omapM_In_inv _ _ _ _ Hper Hpa) as (app & Happ & Hf).
  destruct (LayoutGenerator.getPrioritizedComponentList app device grouptype)
    as [components| | | |] eqn:Hcs; cbn [obind] in Hf; try discriminate.
  destruct (omapM _ components) as [es| | | |] eqn:Hes; cbn [obind] in Hf;
    try discriminate.
  injection Hf as <-. cbn [fst] in Hr.
  apply omap_id_In in Hr.
  destruct (omapM_In_inv _ _ _ _ Hes Hr) as (c & Hc & Hb).
  apply buildEntry_Some in Hb.
  exists app, (LayoutGenerator.pc_component c), dev0, device.
  split; [exact Happ|].
  split; [eapply getPrioritizedComponentList_In; eassumption|].
  split; [reflexivity|]. split; [exact Hdev|]. exact Hb.
Qed.

(** X4.  Every rectangle [buildComponentList] hands to the packer belongs
    to a component of one of the DMApps whose layout is not marked
    invisible, and carries constraints with a positive priority and at
    least one valid region. *)
Theorem packer_input_is_visible_and_prioritised
    (ctx : Doc.Context) (dmapps : list Doc.DMApp) (devicelist : list string)
    (regions clist : list PackerUtils.PackerRectangle)
    (grouptype : Context.groupType) (allids : list string)
    (r : PackerUtils.PackerRectangle) :
  LayoutGenerator.buildComponentList ctx dmapps devicelist regions grouptype
  = Ok (clist, allids) ->
  In r clist ->
  exists app comp,
    In app dmapps /\ In comp (Doc.components app)
    /\ PackerUtils.componentId r = Some (Doc.componentId comp)
    /\ PackerUtils.DMAppId r = Some (Doc.dmapp_id app)
    /\ Doc.visible (Doc.layout comp) <> Some false
    /\ exists k,
         PackerUtils.constraints r = Some k
         /\ 0 < PackerUtils.priority k
         /\ PackerUtils.valid k <> [].
Proof.
  intros H Hr.
  destruct (buildComponentList_origin _ _ _ _ _ _ _ _ H Hr)
    as (app & comp & _ & _ & Ha & Hc & _ & _ & Hid & Hd & Hv & k & Hk & Hp
        & Hval & _).
  exists app, comp. repeat split; try assumption.
  exists k. repeat split; assumption.
Qed.

Lemma packer_input_is_visible_and_prioritised_for_the_video :
  exists app comp,
    In app [videoApp] /\ In comp (Doc.components app)
    /\ PackerUtils.componentId videoEntry = Some (Doc.componentId comp)
    /\ PackerUtils.DMAppId videoEntry = Some (Doc.dmapp_id app)
    /\ Doc.visible (Doc.layout comp) <> Some false
    /\ exists k,
         PackerUtils.constraints videoEntry = Some k
         /\ 0 < PackerUtils.priority k
         /\ PackerUtils.valid k <> [].
Proof.
  apply (packer_input_is_visible_and_prioritised oneScreen [videoApp] ["tv1"]
           (LayoutGenerator.deviceRegions (tv "tv1") "tv1") [videoEntry]
           Context.communal ["video"] videoEntry).
  - vm_compute. reflexivity.
  - left. reflexivity.
Defined.

(** ** The life cycle of a component (DMApp.ts) *)

Lemma onFirst_ids name f cs :
  (forall c, Doc.componentId (f c) = Doc.componentId c) ->
  map Doc.componentId (DMApp.onFirst name f cs) = map Doc.componentId cs.
Proof.
  intros Hf. induction cs as [|a cs IH]; [reflexivity|].
  cbn [DMApp.onFirst].
  destruct (String.eqb (Doc.componentId a) name); cbn [map].
  - now rewrite Hf.
  - now rewrite IH.
Qed.

Lemma getComponent_onFirst app name f cs k :
  (forall c, Doc.componentId (f c) = Doc.componentId c) ->
  DMApp.getComponent (DMApp.withComponents app (DMApp.onFirst name f cs)) k
  = if String.eqb k name
    then option_map f (DMApp.getComponent (DMApp.withComponents app cs) name)
    else DMApp.getComponent (DMApp.withComponents app cs) k.
Proof.
  intros Hf. induction cs as [|a cs IH]; cbn [DMApp.onFirst].
  - rewrite !getComponent_nil. now destruct (String.eqb k name).
  - destruct (String.eqb_spec (Doc.componentId a) name) as [Ea|Na].
    + rewrite !getComponent_cons, Hf, Ea, String.eqb_refl.
      destruct (String.eqb_spec k name) as [->|Nk].
      * rewrite String.eqb_refl. reflexivity.
      * destruct (String.eqb_spec name k); [congruence|reflexivity].
    + rewrite !getComponent_cons, IH.
      destruct (String.eqb_spec k name) as [->|Nk].
      * destruct (String.eqb_spec (Doc.componentId a) name);
          [contradiction|reflexivity].
      * reflexivity.
Qed.

Lemma getComponent_withoutFirst_other app name cs k :
  k <> name ->
  DMApp.getComponent (DMApp.withComponents app (DMApp.withoutFirst name cs)) k
  = DMApp.getComponent (DMApp.withComponents app cs) k.
Proof.
  intros Nk. induction cs as [|a cs IH]; cbn [DMApp.withoutFirst];
    [reflexivity|].
  destruct (String.eqb_spec (Doc.componentId a) name) as [Ea|Na].
  - rewrite getComponent_cons, Ea.
    destruct (String.eqb_spec name k); [congruence|reflexivity].
  - rewrite !getComponent_cons, IH. reflexivity.
Qed.

Lemma withoutFirst_In name cs x :
  In x (map Doc.componentId (DMApp.withoutFirst name cs)) ->
  In x (map Doc.componentId cs).
Proof.
  induction cs as [|a cs IH]; cbn [DMApp.withoutFirst]; [tauto|].
  destruct (String.eqb (Doc.componentId a) name); cbn [map In]; tauto.
Qed.

Lemma withoutFirst_NoDup name cs :
  List.NoDup (map Doc.componentId cs) ->
  List.NoDup (map Doc.componentId (DMApp.withoutFirst name cs))
  /\ ~ In name (map Doc.componentId (DMApp.withoutFirst name cs)).
Proof.
  induction cs as [|a cs IH]; cbn [DMApp.withoutFirst map]; intros H.
  - split; [constructor | intros []].
  - apply List.NoDup_cons_iff in H. destruct H as [Ha Hcs].
    destruct (String.eqb_spec (Doc.componentId a) name) as [Ea|Na].
    + split; [exact Hcs | now rewrite <- Ea].
    + destruct (IH Hcs) as [IH1 IH2]. cbn [map]. split.
      * constructor; [|exact IH1].
        intros Hin. apply Ha. eapply withoutFirst_In. exact Hin.
      * cbn [In]. tauto.
Qed.

Lemma started_id t c : Doc.componentId (DMApp.started t c) = Doc.componentId c.
Proof. reflexivity. Qed.

Lemma stopped_id t c : Doc.componentId (DMApp.stopped t c) = Doc.componentId c.
Proof. reflexivity. Qed.

Lemma getComponent_stopComponent app name t k :
  DMApp.getComponent (DMApp.stopComponent app name t) k
  = if String.eqb k name
    then option_map (DMApp.stopped t) (DMApp.getComponent app name)
    else DMApp.getComponent app k.
Proof.
  unfold DMApp.stopComponent.
  rewrite getComponent_onFirst by apply stopped_id.
  now rewrite withComponents_same.
Qed.

Lemma getComponent_startComponent app name t k :
  DMApp.getComponent (DMApp.startComponent app name t) k
  = if String.eqb k name
    then option_map (DMApp.started t) (DMApp.getComponent app name)
    else DMApp.getComponent app k.
Proof.
  unfold DMApp.startComponent.
  rewrite getComponent_onFirst by apply started_id.
  now rewrite withComponents_same.
Qed.

(** X5.  After [startComponent] and then [stopComponent] on an id the
    DMApp knows, [getComponent] finds the component with both times
    recorded and marked invisible, its id and constraint unchanged; every
    other id reads as before; and on an id the DMApp does not know both
    calls leave the DMApp as it was. *)
Theorem start_then_stop_then_getComponent (app : Doc.DMApp)
    (name : string) (t1 t2 : Q) :
  let app' :=
    DMApp.stopComponent (DMApp.startComponent app name t1) name t2 in
  (forall c, DMApp.getComponent app name = Some c ->
     exists c',
       DMApp.getComponent app' name = Some c'
       /\ Doc.startTime c' = Some t1 /\ Doc.stopTime c' = Some t2
       /\ Doc.visible (Doc.layout c') = Some false
       /\ Doc.componentId c' = name
       /\ Doc.c_constraintId c' = Doc.c_constraintId c)
  /\ (forall other, other <> name ->
        DMApp.getComponent app' other = DMApp.getComponent app other)
  /\ (DMApp.getComponent app name = None -> app' = app).
Proof.
  cbv zeta. split; [|split].
  - intros c Hc. exists (DMApp.stopped t2 (DMApp.started t1 c)).
    rewrite getComponent_stopComponent, String.eqb_refl.
    rewrite getComponent_startComponent, String.eqb_refl, Hc.
    repeat split. now apply getComponent_In in Hc.
  - intros other N.
    rewrite getComponent_stopComponent.
    destruct (String.eqb_spec other name); [contradiction|].
    rewrite getComponent_startComponent.
    destruct (String.eqb_spec other name); [contradiction|reflexivity].
  - intros Hn. apply getComponent_None in Hn.
    assert (G : forall f cs,
               ~ In name (map Doc.componentId cs) ->
               DMApp.onFirst name f cs = cs).
    { intros f cs. induction cs as [|a cs IH]; [reflexivity|].
      cbn [map In DMApp.onFirst]. intros H.
      destruct (String.eqb_spec (Doc.componentId a) name); [tauto|].
      rewrite IH by tauto. reflexivity. }
    unfold DMApp.stopComponent, DMApp.startComponent.
    cbn [DMApp.withComponents Doc.components].
    rewrite (G _ _ Hn), (G _ _ Hn). destruct app. reflexivity.
Qed.

(** X6.  The four operations on the components of a DMApp keep the
    component ids distinct. *)
Theorem component_ids_stay_distinct (app : Doc.DMApp) (name : string)
    (cid : option string) (t : Q) :
  List.NoDup (ids app) ->
  List.NoDup (ids (fst (DMApp.initComponent app name cid)))
  /\ List.NoDup (ids (DMApp.startComponent app name t))
  /\ List.NoDup (ids (DMApp.stopComponent app name t))
  /\ List.NoDup (ids (DMApp.removeComponent app name)).
Proof.
  unfold ids. intros H. repeat split.
  - unfold DMApp.initComponent.
    destruct (DMApp.getComponent app name) eqn:E; cbn [fst]; [exact H|].
    apply getComponent_None in E.
    cbn [DMApp.withComponents Doc.components].
    rewrite map_app. cbn [map Doc.componentId].
    apply List.NoDup_app; [exact H| |].
    + repeat constructor. intros [].
    + intros x Hx [<-|[]]. contradiction.
  - cbn [DMApp.startComponent DMApp.withComponents Doc.components].
    now rewrite onFirst_ids by apply started_id.
  - cbn [DMApp.stopComponent DMApp.withComponents Doc.components].
    now rewrite onFirst_ids by apply stopped_id.
  - cbn [DMApp.removeComponent DMApp.withComponents Doc.components].
    now apply withoutFirst_NoDup.
Qed.

Lemma component_ids_stay_distinct_in_the_three :
  List.NoDup (ids (fst (DMApp.initComponent threeApp "menu" None)))
  /\ List.NoDup (ids (DMApp.startComponent threeApp "menu" 10))
  /\ List.NoDup (ids (DMApp.stopComponent threeApp "menu" 10))
  /\ List.NoDup (ids (DMApp.removeComponent threeApp "menu")).
Proof.
  apply (component_ids_stay_distinct threeApp).
  repeat constructor; cbn; intuition discriminate.
Defined.

(** X7.  On a DMApp with distinct component ids, [removeComponent] makes
    the id unknown and leaves every other id as it was. *)
Theorem removeComponent_then_getComponent (app : Doc.DMApp)
    (name other : string) :
  List.NoDup (ids app) ->
  other <> name ->
  DMApp.getComponent (DMApp.removeComponent app name) name = None
  /\ DMApp.getComponent (DMApp.removeComponent app name) other
     = DMApp.getComponent app other.
Proof.
  intros H N. split.
  - apply getComponent_None.
    cbn [DMApp.removeComponent DMApp.withComponents Doc.components].
    now apply withoutFirst_NoDup.
  - unfold DMApp.removeComponent.
    rewrite getComponent_withoutFirst_other by exact N.
    now rewrite withComponents_same.
Qed.

Lemma removeComponent_then_getComponent_of_the_menu :
  DMApp.getComponent (DMApp.removeComponent threeApp "menu") "menu" = None
  /\ DMApp.getComponent (DMApp.removeComponent threeApp "menu") "video1"
     = DMApp.getComponent threeApp "video1".
Proof.
  apply (removeComponent_then_getComponent threeApp "menu" "video1").
  - repeat constructor; cbn; intuition discriminate.
  - discriminate.
Defined.

(** ** What reaches the packer, and what is reported (LayoutGenerator.ts) *)

Lemma getComponent_unique app cs c :
  List.NoDup (map Doc.componentId cs) -> In c cs ->
  DMApp.getComponent (DMApp.withComponents app cs) (Doc.componentId c)
  = Some c.
Proof.
  induction cs as [|a cs IH]; [intros _ []|].
  cbn [map]. intros ND Hc. apply List.NoDup_cons_iff in ND.
  destruct ND as [Ha ND]. rewrite getComponent_cons.
  destruct Hc as [->|Hc]; [now rewrite String.eqb_refl|].
  destruct (String.eqb_spec (Doc.componentId a) (Doc.componentId c)) as [E|N].
  - exfalso. apply Ha. rewrite E. now apply in_map.
  - now apply IH.
Qed.

Lemma In_componentId (clist : list PackerUtils.PackerRectangle) name :
  In (Some name) (map PackerUtils.componentId clist)
  <-> In name (omap PackerUtils.componentId clist).
Proof.
  rewrite in_map_iff. split.
  - intros (r & H1 & H2). apply list_elem_of_In, list_elem_of_omap.
    exists r. split; [now apply list_elem_of_In | exact H1].
  - intros H. apply list_elem_of_In, list_elem_of_omap in H.
    destruct H as (r & H1 & H2). exists r.
    split; [exact H2 | now apply list_elem_of_In].
Qed.

(** X8.  A component that [stopComponent] has stopped is not in the list
    [buildComponentList] hands to the packer, whatever its priority. *)
Theorem stopped_component_is_not_packed
    (ctx : Doc.Context) (app : Doc.DMApp) (name : string) (t : Q)
    (devicelist : list string) (regions clist : list PackerUtils.PackerRectangle)
    (grouptype : Context.groupType) (allids : list string) :
  List.NoDup (ids app) ->
  LayoutGenerator.buildComponentList ctx [DMApp.stopComponent app name t]
    devicelist regions grouptype = Ok (clist, allids) ->
  ~ In (Some name) (map PackerUtils.componentId clist).
Proof.
  intros ND H Hin. apply in_map_iff in Hin. destruct Hin as (r & Hid & Hr).
  destruct (buildComponentList_origin _ _ _ _ _ _ _ _ H Hr)
    as (app' & comp & _ & _ & Ha & Hc & _ & _ & Hid' & _ & Hv & _).
  destruct Ha as [<-|[]].
  rewrite Hid in Hid'. injection Hid' as Hname.
  pose proof (getComponent_unique (DMApp.stopComponent app name t)
                (Doc.components (DMApp.stopComponent app name t)) comp) as G.
  rewrite withComponents_same, <- Hname in G.
  rewrite getComponent_stopComponent, String.eqb_refl in G.
  assert (ND' : List.NoDup
                  (map Doc.componentId
                     (Doc.components (DMApp.stopComponent app name t)))).
  { cbn [DMApp.stopComponent DMApp.withComponents Doc.components].
    rewrite onFirst_ids by apply stopped_id. exact ND. }
  specialize (G ND' Hc).
  destruct (DMApp.getComponent app name) as [c0|]; [|discriminate].
  injection G as <-. apply Hv. reflexivity.
Qed.

Lemma stopped_component_is_not_packed_for_the_menu :
  ~ In (Some "menu")
      (map PackerUtils.componentId
         (fst (packerInput oneScreen [DMApp.stopComponent threeApp "menu" 10]
                 ["tv1"] Context.communal))).
Proof.
  apply (stopped_component_is_not_packed oneScreen threeApp "menu" 10 ["tv1"]
           (LayoutGenerator.deviceRegions (tv "tv1") "tv1") _
           Context.communal
           (snd (packerInput oneScreen
                   [DMApp.stopComponent threeApp "menu" 10]
                   ["tv1"] Context.communal))).
  - repeat constructor; cbn; intuition discriminate.
  - vm_compute. reflexivity.
Defined.

(** *** The reports of [runLayout] *)

Lemma ofoldM_invariant {A S : Type} (f : S -> A -> outcome S)
    (P : S -> Prop) (l : list A) (s out : S) :
  ofoldM f l s = Ok out -> P s ->
  (forall s a s', In a l -> P s -> f s a = Ok s' -> P s') -> P out.
Proof.
  revert s. induction l as [|b l IH]; intros s H Hs Hstep; cbn [ofoldM] in H.
  - now injection H as <-.
  - destruct (f s b) as [s1| | | |] eqn:E; cbn [obind] in H;
      try discriminate.
    apply (IH s1 H).
    + apply (Hstep s b s1); [now left | assumption | assumption].
    + intros s0 a s' Ha. apply Hstep. now right.
Qed.

Lemma ofoldM_after {A S : Type} (f : S -> A -> outcome S)
    (P : S -> Prop) (l : list A) (s out : S) (a : A) :
  ofoldM f l s = Ok out -> In a l ->
  (forall s s', f s a = Ok s' -> P s') ->
  (forall s b s', In b l -> P s -> f s b = Ok s' -> P s') -> P out.
Proof.
  revert s. induction l as [|b l IH]; intros s H Ha Hat Hstep; [destruct Ha|].
  cbn [ofoldM] in H.
  destruct (f s b) as [s1| | | |] eqn:E; cbn [obind] in H; try discriminate.
  destruct Ha as [->|Ha].
  - apply (ofoldM_invariant f P l s1 out H).
    + now apply (Hat s).
    + intros s0 c s' Hc. apply Hstep. now right.
  - apply (IH s1 H Ha Hat). intros s0 c s' Hc. apply Hstep. now right.
Qed.

Lemma difference_In (a b : list string) (x : string) :
  In x (LayoutGenerator.difference a b) <-> In x a /\ ~ In x b.
Proof.
  unfold LayoutGenerator.difference.
  rewrite <- list_elem_of_In, list_elem_of_filter, list_elem_of_In.
  rewrite <- (contains_In b x). destruct (Js.contains b x); cbn.
  - split; [intros [[] _] | intros [_ H]; now destruct H].
  - split; [intros [_ H]; split; [exact H | discriminate]
           | intros [H _]; split; [exact I | exact H]].
Qed.

Lemma pushIf_notPlaced layout g st l :
  LayoutGenerator.cl_notPlaced
    (if Nat.ltb 0 (length l)
     then LayoutGenerator.pushNotPlaced layout g st l else layout)
  = LayoutGenerator.cl_notPlaced layout ++ report g st l.
Proof.
  destruct l; cbn; [now rewrite app_nil_r | reflexivity].
Qed.

Lemma pushIf_devices layout g st l :
  LayoutGenerator.cl_devices
    (if Nat.ltb 0 (length l)
     then LayoutGenerator.pushNotPlaced layout g st l else layout)
  = LayoutGenerator.cl_devices layout.
Proof.
  destruct l; reflexivity.
Qed.

Lemma report_In g st l sk :
  In sk (report g st l) ->
  Layout.sk_group sk = g /\ Layout.status sk = st
  /\ Layout.sk_components sk = l /\ l <> [].
Proof.
  destruct l; [intros []|]. intros [<-|[]]. cbn. repeat split. discriminate.
Qed.

Lemma In_report g st l x :
  In x l ->
  exists sk, In sk (report g st l) /\ Layout.status sk = st
             /\ In x (Layout.sk_components sk).
Proof.
  destruct l; [intros []|]. intros H. eexists. split; [now left|].
  split; [reflexivity | exact H].
Qed.

(** The reports [assemble] adds to those of the layout it is given. *)
Lemma assemble_notPlaced ctx dmapps layout g grouptype componentlist allIds
    packed out :
  LayoutGenerator.assemble ctx dmapps layout g grouptype componentlist allIds
    packed = Ok out ->
  exists unknown,
    LayoutGenerator.cl_notPlaced out
    = LayoutGenerator.cl_notPlaced layout
      ++ report g "incompatible"
           (LayoutGenerator.union
              (LayoutGenerator.difference allIds
                 (omap PackerUtils.componentId componentlist))
              (LayoutGenerator.p_noDevice packed))
      ++ report g "skipped" (LayoutGenerator.p_notPlaced packed)
      ++ report g "skipped" unknown.
Proof.
  unfold LayoutGenerator.assemble.
  set (nodevice := LayoutGenerator.union _ _).
  set (layout1 := if Nat.ltb 0 (length nodevice) then _ else layout).
  set (layout2 := if Nat.ltb 0 _ then _ else layout1).
  assert (E2 : LayoutGenerator.cl_notPlaced layout2
               = LayoutGenerator.cl_notPlaced layout
                 ++ report g "incompatible" nodevice
                 ++ report g "skipped" (LayoutGenerator.p_notPlaced packed)).
  { unfold layout2, layout1. rewrite !pushIf_notPlaced.
    now rewrite <- app_assoc. }
  destruct (LayoutGenerator.p_layout packed).
  - intros [= <-]. exists []. rewrite E2. cbn [report].
    now rewrite !app_nil_r.
  - destruct (ofoldM _ _ _) as [acc| | | |]; cbn [obind]; try discriminate.
    intros H. apply postProcess_notPlaced in H. exists (snd acc).
    rewrite H, pushIf_notPlaced. cbn [LayoutGenerator.cl_notPlaced].
    rewrite E2, <- !app_assoc. reflexivity.
Qed.

(** What [runLayout] adds to the reports of the layout it is given. *)
Lemma runLayout_reports packRegions ctx dmapps layout devicelist g grouptype
    out :
  LayoutGenerator.runLayout packRegions ctx dmapps layout devicelist g
    grouptype = Ok out ->
  (LayoutGenerator.buildRegionNodeTree ctx devicelist = Ok [] /\ out = layout)
  \/ exists regions clist allids rs,
       LayoutGenerator.buildRegionNodeTree ctx devicelist = Ok regions
       /\ regions <> []
       /\ LayoutGenerator.buildComponentList ctx dmapps devicelist regions
            grouptype = Ok (clist, allids)
       /\ LayoutGenerator.cl_notPlaced out
          = LayoutGenerator.cl_notPlaced layout ++ rs
       /\ (forall sk, In sk rs ->
             Layout.sk_group sk = g
             /\ (Layout.status sk = "incompatible"
                 \/ Layout.status sk = "skipped")
             /\ Layout.sk_components sk <> [])
       /\ (forall x, In x allids ->
             ~ In (Some x) (map PackerUtils.componentId clist) ->
             exists sk, In sk rs /\ Layout.status sk = "incompatible"
                        /\ In x (Layout.sk_components sk)).
Proof.
  unfold LayoutGenerator.runLayout.
  destruct (LayoutGenerator.buildRegionNodeTree ctx devicelist)
    as [regions| | | |]; cbn [obind]; try discriminate.
  destruct regions as [|region0 regions]; [intros [= <-]; now left|].
  destruct (LayoutGenerator.buildComponentList _ _ _ _ _)
    as [[clist allids]| | | |] eqn:Hcl; cbn [obind fst snd];
    try discriminate.
  intros H. right. exists (region0 :: regions), clist, allids.
  assert (R : forall st l sk,
             st = "incompatible" \/ st = "skipped" ->
             In sk (report g st l) ->
             Layout.sk_group sk = g
             /\ (Layout.status sk = "incompatible"
                 \/ Layout.status sk = "skipped")
             /\ Layout.sk_components sk <> []).
  { intros st l sk Hst Hsk. apply report_In in Hsk.
    destruct Hsk as (-> & -> & -> & Hl). auto. }
  destruct clist as [|c clist].
  - exists (report g "incompatible" allids).
    split; [reflexivity|]. split; [discriminate|]. split; [exact Hcl|].
    split; [|split].
    + pose proof (pushIf_notPlaced layout g "incompatible" allids) as E.
      destruct (Nat.ltb 0 (length allids)); injection H as <-; exact E.
    + intros sk. apply R. now left.
    + intros x Hx _. now apply In_report.
  - destruct (packRegions _ _ _) as [packed| | | |]; cbn [obind] in H;
      try discriminate.
    apply assemble_notPlaced in H. destruct H as (unknown & H).
    eexists. split; [reflexivity|]. split; [discriminate|].
    split; [exact Hcl|]. split; [exact H|]. split.
    + intros sk. rewrite !in_app_iff. intros [Hsk|[Hsk|Hsk]];
        revert Hsk; apply R; auto.
    + intros x Hx Hn.
      destruct (In_report g "incompatible"
                  (LayoutGenerator.union
                     (LayoutGenerator.difference allids
                        (omap PackerUtils.componentId (c :: clist)))
                     (LayoutGenerator.p_noDevice packed)) x)
        as (sk & Hsk & Hst & Hin).
      { apply union_In. left. apply difference_In. split; [exact Hx|].
        intros Hc. apply Hn. now apply In_componentId. }
      exists sk. rewrite in_app_iff. auto.
Qed.

Lemma getPrioritizedComponentList_all app device grouptype l comp :
  LayoutGenerator.getPrioritizedComponentList app device grouptype = Ok l ->
  In comp (Doc.components app) ->
  In (Doc.componentId comp)
     (map (fun c => Doc.componentId (LayoutGenerator.pc_component c)) l).
Proof.
  unfold LayoutGenerator.getPrioritizedComponentList.
  set (cs := map _ (Doc.components app)).
  intros H Hcomp.
  assert (G : exists c, In c cs /\ LayoutGenerator.pc_component c = comp).
  { unfold cs.
    destruct (Context.groupType_eqb grouptype Context.mixed);
      eexists; (split; [apply in_map; exact Hcomp | reflexivity]). }
  destruct G as (c & Hc & <-).
  apply (in_map (fun c => Doc.componentId (LayoutGenerator.pc_component c))).
  destruct (Nat.ltb (length cs) 2).
  - now injection H as <-.
  - now apply (jsSortM_In _ _ _ c H).
Qed.

Lemma buildComponentList_allids ctx dmapps devicelist regions grouptype
    clist allids app comp :
  LayoutGenerator.buildComponentList ctx dmapps devicelist regions grouptype
  = Ok (clist, allids) ->
  In app dmapps -> In comp (Doc.components app) ->
  In (Doc.componentId comp) allids.
Proof.
  unfold LayoutGenerator.buildComponentList.
  destruct (defined (head devicelist)) as [dev0| | | |]; cbn [obind];
    try discriminate.
  destruct (defined (Context.getDevice ctx dev0)) as [device| | | |];
    cbn [obind]; try discriminate.
  destruct (defined (head regions)) as [region0| | | |]; cbn [obind];
    try discriminate.
  destruct (omapM _ dmapps) as [perApp| | | |] eqn:Hper; cbn [obind];
    try discriminate.
  destruct (PackerUtils.jsSortM _ _) as [sorted| | | |]; cbn [obind];
    try discriminate.
  intros [= <- <-] Happ Hcomp.
  destruct (omapM_In _ _ _ _ Hper Happ) as (pa & Hpa & Hf).
  destruct (LayoutGenerator.getPrioritizedComponentList app device grouptype)
    as [components| | | |] eqn:Hcs; cbn [obind] in Hf; try discriminate.
  destruct (omapM _ components) as [es| | | |]; cbn [obind] in Hf;
    try discriminate.
  injection Hf as <-.
  apply in_concat. eexists. split; [apply in_map; exact Hpa|].
  cbn [snd]. eapply getPrioritizedComponentList_all; eassumption.
Qed.

Lemma buildRegionNodeTree_nonempty ctx devicelist regions :
  devicelist <> [] ->
  LayoutGenerator.buildRegionNodeTree ctx devicelist = Ok regions ->
  regions <> [].
Proof.
  unfold LayoutGenerator.buildRegionNodeTree.
  destruct devicelist as [|dev rest]; [contradiction|]. intros _.
  cbn [omapM].
  destruct (defined (Context.getDevice ctx dev)) as [device| | | |];
    cbn [obind]; try discriminate.
  destruct (omapM _ rest) as [l| | | |]; cbn [obind]; try discriminate.
  intros [= <-]. cbn [concat]. unfold LayoutGenerator.deviceRegions.
  destruct (Doc.regions device) as [[|r rs]|]; discriminate.
Qed.

Lemma getGroupDevices_nonempty ctx g :
  In g (map fst (Context.getDeviceGroups ctx)) ->
  Context.getGroupDevices ctx g <> [].
Proof.
  destruct ctx as [i ds pc]. intros H.
  destruct (getDeviceGroups_invariant i pc ds) as (_ & IDS & _).
  apply IDS in H. destruct H as (d & Hd & Hg).
  unfold Context.getGroupDevices. cbn [Doc.devices].
  assert (G : In (Doc.deviceId d)
                (map Doc.deviceId
                   (filter (fun d => String.eqb (Doc.group d) g) ds))).
  { apply in_map, list_elem_of_In, list_elem_of_filter.
    split; [|now apply list_elem_of_In].
    rewrite Hg, String.eqb_refl. exact I. }
  intros E. rewrite E in G. destruct G.
Qed.

(** X9.  Every entry of [notPlaced] that [computeLayout] returns names a
    group of the context, has the status ["incompatible"] or ["skipped"],
    and lists at least one component. *)
Theorem reports_name_a_group_and_a_reason
    (packRegions : list PackerUtils.PackerRectangle ->
                   list PackerUtils.PackerRectangle -> bool ->
                   outcome LayoutGenerator.Packing)
    (ctx : Doc.Context) (dmapps : list Doc.DMApp)
    (out : LayoutGenerator.ContextLayout) (sk : Layout.Skipped) :
  LayoutGenerator.computeLayout packRegions ctx dmapps = Ok out ->
  In sk (LayoutGenerator.cl_notPlaced out) ->
  In (Layout.sk_group sk) (map fst (Context.getDeviceGroups ctx))
  /\ (Layout.status sk = "incompatible" \/ Layout.status sk = "skipped")
  /\ Layout.sk_components sk <> [].
Proof.
  unfold LayoutGenerator.computeLayout. intros H. revert sk.
  apply (ofoldM_invariant _
           (fun layout =>
              forall sk, In sk (LayoutGenerator.cl_notPlaced layout) ->
                In (Layout.sk_group sk)
                   (map fst (Context.getDeviceGroups ctx))
                /\ (Layout.status sk = "incompatible"
                    \/ Layout.status sk = "skipped")
                /\ Layout.sk_components sk <> [])
           _ _ _ H).
  - intros sk [].
  - intros s [g t] s' Hg Hs Hrun sk Hsk. cbn [fst snd] in Hrun.
    apply runLayout_reports in Hrun.
    destruct Hrun as [[_ ->]|(regions & clist & allids & rs & _ & _ & _ & E
                              & Hrs & _)]; [now apply Hs|].
    rewrite E, in_app_iff in Hsk. destruct Hsk as [Hsk|Hsk]; [now apply Hs|].
    destruct (Hrs sk Hsk) as (-> & Hst & Hne).
    split; [|split; assumption].
    apply (in_map fst) in Hg. exact Hg.
Qed.

Lemma reports_name_a_group_and_a_reason_for_subtitles :
  In (Layout.sk_group (reported "skipped" ["subtitles"]))
     (map fst (Context.getDeviceGroups oneScreen))
  /\ (Layout.status (reported "skipped" ["subtitles"]) = "incompatible"
      \/ Layout.status (reported "skipped" ["subtitles"]) = "skipped")
  /\ Layout.sk_components (reported "skipped" ["subtitles"]) <> [].
Proof.
  apply (reports_name_a_group_and_a_reason (LayoutPacker.packRegions fuel)
           oneScreen [dependentApp] dependentLayout).
  - vm_compute. reflexivity.
  - right. left. reflexivity.
Defined.

(** X10.  A component of a DMApp all of whose namesakes are marked
    invisible, or have a priority of zero or less for the first device of
    a group, is listed for that group in an entry of [notPlaced] with the
    status ["incompatible"]. *)
Theorem suppressed_components_are_reported_incompatible
    (packRegions : list PackerUtils.PackerRectangle ->
                   list PackerUtils.PackerRectangle -> bool ->
                   outcome LayoutGenerator.Packing)
    (ctx : Doc.Context) (dmapps : list Doc.DMApp)
    (out : LayoutGenerator.ContextLayout) (g : string)
    (t : Context.groupType) (app : Doc.DMApp) (comp : Doc.Component) :
  LayoutGenerator.computeLayout packRegions ctx dmapps = Ok out ->
  In (g, t) (Context.getDeviceGroups ctx) ->
  In app dmapps -> In comp (Doc.components app) ->
  (forall app' c',
     In app' dmapps -> In c' (Doc.components app') ->
     Doc.componentId c' = Doc.componentId comp ->
     suppressed ctx (Context.getGroupDevices ctx g) t app' c') ->
  exists sk,
    In sk (LayoutGenerator.cl_notPlaced out)
    /\ Layout.sk_group sk = g
    /\ Layout.status sk = "incompatible"
    /\ In (Doc.componentId comp) (Layout.sk_components sk).
Proof.
  unfold LayoutGenerator.computeLayout. intros H Hg Happ Hcomp Hsup.
  apply (ofoldM_after _
           (fun layout =>
              exists sk,
                In sk (LayoutGenerator.cl_notPlaced layout)
                /\ Layout.sk_group sk = g
                /\ Layout.status sk = "incompatible"
                /\ In (Doc.componentId comp) (Layout.sk_components sk))
           _ _ _ (g, t) H Hg).
  - intros s s' Hrun. cbn [fst snd] in Hrun.
    apply runLayout_reports in Hrun.
    destruct Hrun as [[E _]|(regions & clist & allids & rs & _ & _ & Hcl & E
                             & Hrs & Hinc)].
    + exfalso.
      apply (buildRegionNodeTree_nonempty ctx (Context.getGroupDevices ctx g)
               []); [|exact E|reflexivity].
      apply getGroupDevices_nonempty. apply (in_map fst) in Hg. exact Hg.
    + destruct (Hinc (Doc.componentId comp)) as (sk & Hsk & Hst & Hin).
      * eapply buildComponentList_allids; eassumption.
      * intros Hc. apply in_map_iff in Hc. destruct Hc as (r & Hid & Hr).
        destruct (buildComponentList_origin _ _ _ _ _ _ _ _ Hcl Hr)
          as (app' & c' & dev0 & device & Ha & Hc & Hd0 & Hdev & Hid' & _
              & Hv & k & _ & Hp & _ & Hk).
        rewrite Hid in Hid'. injection Hid' as Hname.
        destruct (Hsup app' c' Ha Hc (eq_sym Hname)) as [Hs|Hs];
          [contradiction|].
        specialize (Hs dev0 device Hd0 Hdev). rewrite <- Hk in Hs. lia.
      * exists sk. rewrite E, in_app_iff.
        destruct (Hrs sk Hsk) as (Hgr & _). auto.
  - intros s [g' t'] s' _ (sk & Hsk & Hrest) Hrun. cbn [fst snd] in Hrun.
    apply runLayout_reports in Hrun.
    destruct Hrun as [[_ ->]|(regions & clist & allids & rs & _ & _ & _ & E
                              & _)]; exists sk; [auto|].
    rewrite E, in_app_iff. auto.
Qed.

Lemma suppressed_components_are_reported_incompatible_for_main :
  exists sk,
    In sk (LayoutGenerator.cl_notPlaced dependentLayout)
    /\ Layout.sk_group sk = "lounge"
    /\ Layout.status sk = "incompatible"
    /\ In (Doc.componentId (component "main")) (Layout.sk_components sk).
Proof.
  apply (suppressed_components_are_reported_incompatible
           (LayoutPacker.packRegions fuel) oneScreen [dependentApp]
           dependentLayout "lounge" Context.communal dependentApp
           (component "main")).
  - vm_compute. reflexivity.
  - left. reflexivity.
  - left. reflexivity.
  - left. reflexivity.
  - intros app' c' [<-|[]] [<-|[<-|[]]] E; [|discriminate E].
    right. intros dev0 device [= <-] [= <-]. vm_compute. discriminate.
Defined.

(** *** The regions a component may be placed in *)

Lemma pushRegion_offered ctx doc seen regions acc out reg :
  ofoldM (LayoutGenerator.pushRegion ctx doc seen) regions acc = Ok out ->
  In reg out -> In reg acc \/ offered ctx regions doc reg.
Proof.
  revert acc. induction regions as [|rect regions IH]; intros acc H Hreg;
    cbn [ofoldM] in H.
  - injection H as <-. now left.
  - destruct (LayoutGenerator.pushRegion ctx doc seen acc rect)
      as [acc1| | | |] eqn:E; cbn [obind] in H; try discriminate.
    assert (Hweak : offered ctx regions doc reg ->
                    offered ctx (rect :: regions) doc reg).
    { intros (r & d & dv & Hr & Hrest). exists r, d, dv.
      split; [now right | exact Hrest]. }
    destruct (IH acc1 H Hreg) as [Hacc|Hoff]; [|right; auto].
    unfold LayoutGenerator.pushRegion in E.
    destruct (PackerUtils.deviceId rect) as [devId|] eqn:Ed;
      cbn [defined obind] in E; try discriminate.
    destruct (PackerUtils.regionId rect) as [regId|] eqn:Er;
      cbn [defined obind] in E; try discriminate.
    destruct (Context.getDevice ctx devId) as [device|] eqn:Eg;
      cbn [defined obind] in E; try discriminate.
    destruct (Device.meetConstraints device doc) eqn:Em;
      [|injection E as <-; now left].
    assert (Hnew : forall targets0,
               (forall targets, Doc.targetRegions doc = Some targets ->
                                In regId targets0 /\ targets = targets0) ->
               In reg (acc ++ [regId]) ->
               In reg acc \/ offered ctx (rect :: regions) doc reg).
    { intros targets0 Ht Hin. apply in_app_iff in Hin.
      destruct Hin as [Hin|[<-|[]]]; [now left|]. right.
      exists rect, devId, device. split; [now left|].
      repeat split; try assumption.
      intros targets Etg. destruct (Ht targets Etg) as [Hin ->]. exact Hin. }
    destruct (Doc.targetRegions doc) as [targets|] eqn:Et.
    + destruct (Js.contains targets regId) eqn:Ec; injection E as <-;
        [|now left].
      apply (Hnew targets); [|exact Hacc].
      intros ? [= <-]. split; [now apply contains_In | reflexivity].
    + destruct (negb _); injection E as <-; [|now left].
      apply (Hnew []); [intros ? [=] | exact Hacc].
Qed.

Lemma resolved_valid comp doc prio validregions k :
  LayoutGenerator.resolved comp doc prio validregions = Ok k ->
  PackerUtils.valid k = validregions.
Proof.
  unfold LayoutGenerator.resolved.
  destruct (LayoutGenerator.getAspect doc); cbn [obind]; try discriminate.
  destruct (defined (Doc.minSize doc)); cbn [obind]; try discriminate.
  now intros [= <-].
Qed.

Lemma buildEntry_offered ctx app device regions grouptype c r :
  LayoutGenerator.buildEntry ctx app device regions grouptype c = Ok (Some r) ->
  (forall k reg,
     PackerUtils.constraints r = Some k -> In reg (PackerUtils.valid k) ->
     offered ctx regions (LayoutGenerator.pc_constraints c) reg)
  /\ (forall k reg,
        PackerUtils.personalconstraints r = Some k ->
        In reg (PackerUtils.valid k) ->
        exists p,
          LayoutGenerator.pc_personalconstraints c = Some p
          /\ offered ctx regions (LayoutGenerator.withMargin p) reg).
Proof.
  unfold LayoutGenerator.buildEntry.
  destruct (ofoldM _ regions []) as [validregions| | | |] eqn:Hv;
    cbn [obind]; try discriminate.
  match goal with
  | |- obind ?p _ = _ -> _ => destruct p as [personal| | | |] eqn:Hp
  end; cbn [obind]; try discriminate.
  destruct (LayoutGenerator.resolved _ _ _ validregions) as [com| | | |]
    eqn:Hcom; cbn [obind]; try discriminate.
  destruct (_ && _); [|discriminate]. intros [= <-].
  cbn [LayoutGenerator.entry PackerUtils.constraints
       PackerUtils.personalconstraints].
  split.
  - intros k reg [= <-] Hreg. apply resolved_valid in Hcom.
    rewrite Hcom in Hreg.
    destruct (pushRegion_offered _ _ _ _ _ _ _ Hv Hreg) as [[]|H]. exact H.
  - intros k reg -> Hreg.
    destruct (Context.groupType_eqb grouptype Context.mixed);
      [|discriminate].
    destruct (LayoutGenerator.pc_personalconstraints c) as [p|];
      cbn [defined obind] in Hp; try discriminate.
    destruct (ofoldM _ regions []) as [pvalid| | | |] eqn:Hpv in Hp;
      cbn [obind] in Hp; try discriminate.
    destruct (LayoutGenerator.resolved _ p _ pvalid) as [k'| | | |] eqn:Hk
      in Hp; cbn [obind] in Hp; try discriminate.
    injection Hp as ->. apply resolved_valid in Hk. rewrite Hk in Hreg.
    exists p. split; [reflexivity|].
    destruct (pushRegion_offered _ _ _ _ _ _ _ Hpv Hreg) as [[]|H]. exact H.
Qed.

Lemma getPrioritizedComponentList_constraints app device grouptype l c :
  LayoutGenerator.getPrioritizedComponentList app device grouptype = Ok l ->
  In c l ->
  (exists wantCommunal,
     LayoutGenerator.pc_constraints c
     = DMApp.getComponentConstraints app
         (Doc.c_constraintId (LayoutGenerator.pc_component c)) wantCommunal)
  /\ forall p, LayoutGenerator.pc_personalconstraints c = Some p ->
       p = DMApp.getComponentConstraints app
             (Doc.c_constraintId (LayoutGenerator.pc_component c)) false.
Proof.
  unfold LayoutGenerator.getPrioritizedComponentList.
  set (cs := map _ (Doc.components app)).
  assert (G : In c cs ->
              (exists wantCommunal,
                 LayoutGenerator.pc_constraints c
                 = DMApp.getComponentConstraints app
                     (Doc.c_constraintId (LayoutGenerator.pc_component c))
                     wantCommunal)
              /\ forall p, LayoutGenerator.pc_personalconstraints c = Some p ->
                   p = DMApp.getComponentConstraints app
                         (Doc.c_constraintId (LayoutGenerator.pc_component c))
                         false).
  { unfold cs. intros H. apply in_map_iff in H.
    destruct H as (x & <- & Hx).
    destruct (Context.groupType_eqb grouptype Context.mixed);
      cbn [LayoutGenerator.pc_constraints LayoutGenerator.pc_component
           LayoutGenerator.pc_personalconstraints];
      (split; [eexists; reflexivity|]); intros p [=]. now subst p. }
  destruct (Nat.ltb (length cs) 2).
  - intros [= <-]. exact G.
  - intros H Hc. apply G. now apply (jsSortM_In _ _ _ c H).
Qed.

(** X11.  The regions [buildComponentList] lists as valid for a component
    are regions of the region list whose device meets the component's
    constraints, and target regions of the constraints when they name
    any; this holds for the constraint set of the rectangle and for the
    personal set it carries in a mixed group. *)
Theorem valid_regions_are_on_capable_devices
    (ctx : Doc.Context) (dmapps : list Doc.DMApp) (devicelist : list string)
    (regions clist : list PackerUtils.PackerRectangle)
    (grouptype : Context.groupType) (allids : list string)
    (r : PackerUtils.PackerRectangle) :
  LayoutGenerator.buildComponentList ctx dmapps devicelist regions grouptype
  = Ok (clist, allids) ->
  In r clist ->
  exists app comp,
    In app dmapps /\ In comp (Doc.components app)
    /\ PackerUtils.componentId r = Some (Doc.componentId comp)
    /\ (forall k reg,
          PackerUtils.constraints r = Some k -> In reg (PackerUtils.valid k) ->
          exists wantCommunal,
            offered ctx regions
              (DMApp.getComponentConstraints app (Doc.c_constraintId comp)
                 wantCommunal) reg)
    /\ (forall k reg,
          PackerUtils.personalconstraints r = Some k ->
          In reg (PackerUtils.valid k) ->
          offered ctx regions
            (LayoutGenerator.withMargin
               (DMApp.getComponentConstraints app (Doc.c_constraintId comp)
                  false)) reg).
Proof.
  unfold LayoutGenerator.buildComponentList.
  destruct (defined (head devicelist)) as [dev0| | | |]; cbn [obind];
    try discriminate.
  destruct (defined (Context.getDevice ctx dev0)) as [device| | | |];
    cbn [obind]; try discriminate.
  destruct (defined (head regions)) as [region0| | | |]; cbn [obind];
    try discriminate.
  destruct (omapM _ dmapps) as [perApp| | | |] eqn:Hper; cbn [obind];
    try discriminate.
  destruct (PackerUtils.jsSortM _ _) as [sorted| | | |] eqn:Hsort;
    cbn [obind]; try discriminate.
  intros [= <- <-] Hr.
  apply (jsSortM_In _ _ _ r Hsort) in Hr.
  apply in_concat in Hr. destruct Hr as (entries & Hentries & Hr).
  apply in_map_iff in Hentries. destruct Hentries as (pa & <- & Hpa).
  destruct (omapM_In_inv _ _ _ _ Hper Hpa) as (app & Happ & Hf).
  destruct (LayoutGenerator.getPrioritizedComponentList app device grouptype)
    as [components| | | |] eqn:Hcs; cbn [obind] in Hf; try discriminate.
  destruct (omapM _ components) as [es| | | |] eqn:Hes; cbn [obind] in Hf;
    try discriminate.
  injection Hf as <-. cbn [fst] in Hr.
  apply omap_id_In in Hr.
  destruct (omapM_In_inv _ _ _ _ Hes Hr) as (c & Hc & Hb).
  destruct (getPrioritizedComponentList_constraints _ _ _ _ _ Hcs Hc)
    as ((flag & Hcom) & Hpers).
  destruct (buildEntry_offered _ _ _ _ _ _ _ Hb) as (O1 & O2).
  apply buildEntry_Some in Hb. destruct Hb as (Hid & _).
  exists app, (LayoutGenerator.pc_component c).
  split; [exact Happ|].
  split; [eapply getPrioritizedComponentList_In; eassumption|].
  split; [exact Hid|]. split.
  - intros k reg Hk Hreg. exists flag. rewrite <- Hcom. eapply O1; eassumption.
  - intros k reg Hk Hreg. destruct (O2 k reg Hk Hreg) as (p & Hp & Hoff).
    rewrite <- (Hpers p Hp). exact Hoff.
Qed.

Lemma valid_regions_are_on_capable_devices_for_the_video :
  exists app comp,
    In app [videoApp] /\ In comp (Doc.components app)
    /\ PackerUtils.componentId videoEntry = Some (Doc.componentId comp)
    /\ (forall k reg,
          PackerUtils.constraints videoEntry = Some k ->
          In reg (PackerUtils.valid k) ->
          exists wantCommunal,
            offered oneScreen (LayoutGenerator.deviceRegions (tv "tv1") "tv1")
              (DMApp.getComponentConstraints app (Doc.c_constraintId comp)
                 wantCommunal) reg)
    /\ (forall k reg,
          PackerUtils.personalconstraints videoEntry = Some k ->
          In reg (PackerUtils.valid k) ->
          offered oneScreen (LayoutGenerator.deviceRegions (tv "tv1") "tv1")
            (LayoutGenerator.withMargin
               (DMApp.getComponentConstraints app (Doc.c_constraintId comp)
                  false)) reg).
Proof.
  apply (valid_regions_are_on_capable_devices oneScreen [videoApp] ["tv1"]
           (LayoutGenerator.deviceRegions (tv "tv1") "tv1") [videoEntry]
           Context.communal ["video"] videoEntry).
  - vm_compute. reflexivity.
  - left. reflexivity.
Defined.

(** ** The records of the components that were placed (LayoutGenerator.ts) *)

Lemma mapDevices_components ctx f layout out d' c' :
  LayoutGenerator.mapDevices ctx f layout = Ok out ->
  In d' (LayoutGenerator.cl_devices out) -> In c' (Layout.dl_components d') ->
  exists d c device,
    In d (LayoutGenerator.cl_devices layout)
    /\ In c (Layout.dl_components d)
    /\ Layout.dl_deviceId d' = Layout.dl_deviceId d
    /\ Context.getDevice ctx (Layout.dl_deviceId d) = Some device
    /\ f device c = Ok c'.
Proof.
  unfold LayoutGenerator.mapDevices.
  destruct (omapM _ _) as [devs| | | |] eqn:E; cbn [obind]; try discriminate.
  intros [= <-] Hd Hc. cbn [LayoutGenerator.cl_devices] in Hd.
  destruct (omapM_In_inv _ _ _ _ E Hd) as (d & Hd0 & Hf).
  destruct (Context.getDevice ctx (Layout.dl_deviceId d)) as [device|] eqn:G;
    cbn [defined obind] in Hf; try discriminate.
  destruct (omapM (f device) _) as [comps| | | |] eqn:Ec; cbn [obind] in Hf;
    try discriminate.
  injection Hf as <-. cbn [Layout.dl_components Layout.dl_deviceId] in *.
  destruct (omapM_In_inv _ _ _ _ Ec Hc) as (c & Hc0 & Hfc).
  exists d, c, device. auto.
Qed.

(** What [postProcess] makes of the records of a layout. *)
Lemma postProcess_components ctx layout out d' c' :
  LayoutGenerator.postProcess ctx layout = Ok out ->
  In d' (LayoutGenerator.cl_devices out) -> In c' (Layout.dl_components d') ->
  exists d c fw fh,
    In d (LayoutGenerator.cl_devices layout)
    /\ In c (Layout.dl_components d)
    /\ Layout.dl_deviceId d' = Layout.dl_deviceId d
    /\ (exists device,
          Context.getDevice ctx (Layout.dl_deviceId d) = Some device)
    /\ c' = LayoutGenerator.mapGeometry fw fh (LayoutGenerator.stamp ctx c)
    /\ (Doc.percentCoords ctx <> Some true ->
        fw = (fun q => Doc.Pixels (Js.round q)) /\ fh = fw).
Proof.
  unfold LayoutGenerator.postProcess,
    LayoutGenerator.convertLayoutToPercentages,
    LayoutGenerator.truncateLayoutSizes.
  intros H Hd Hc.
  assert (G : forall f,
             LayoutGenerator.mapDevices ctx f
               {| LayoutGenerator.cl_devices :=
                    map (fun dev =>
                           {| Layout.dl_deviceId := Layout.dl_deviceId dev;
                              Layout.dl_components :=
                                map (LayoutGenerator.stamp ctx)
                                    (Layout.dl_components dev) |})
                        (LayoutGenerator.cl_devices layout);
                  LayoutGenerator.cl_notPlaced :=
                    LayoutGenerator.cl_notPlaced layout |} = Ok out ->
             exists d c device,
               In d (LayoutGenerator.cl_devices layout)
               /\ In c (Layout.dl_components d)
               /\ Layout.dl_deviceId d' = Layout.dl_deviceId d
               /\ Context.getDevice ctx (Layout.dl_deviceId d) = Some device
               /\ f device (LayoutGenerator.stamp ctx c) = Ok c').
  { intros f Hf.
    destruct (mapDevices_components _ _ _ _ _ _ Hf Hd Hc)
      as (d & c & device & Hd0 & Hc0 & Eid & Hdev & Hfc).
    cbn [LayoutGenerator.cl_devices] in Hd0. apply in_map_iff in Hd0.
    destruct Hd0 as (d0 & <- & Hd0).
    cbn [Layout.dl_components Layout.dl_deviceId] in *.
    apply in_map_iff in Hc0. destruct Hc0 as (c0 & <- & Hc0).
    exists d0, c0, device. auto. }
  destruct (bool_decide (Doc.percentCoords ctx = Some true)) eqn:B.
  - apply bool_decide_eq_true in B.
    destruct (G _ H) as (d & c & device & Hd0 & Hc0 & Eid & Hdev & Hf).
    destruct (LayoutGenerator.referenceSize device _) as [wh| | | |];
      cbn [obind] in Hf; try discriminate.
    injection Hf as <-. do 4 eexists.
    split; [exact Hd0|]. split; [exact Hc0|]. split; [exact Eid|].
    split; [eauto|]. split; [reflexivity|]. intros N. contradiction.
  - destruct (G _ H) as (d & c & device & Hd0 & Hc0 & Eid & Hdev & Hf).
    destruct (LayoutGenerator.referenceSize device _) as [wh| | | |];
      cbn [obind] in Hf; try discriminate.
    injection Hf as <-. do 4 eexists.
    split; [exact Hd0|]. split; [exact Hc0|]. split; [exact Eid|].
    split; [eauto|]. split; [reflexivity|]. intros _. split; reflexivity.
Qed.

Lemma pushGroup_In dev comp g d cs c :
  In (d, cs) (LayoutGenerator.pushGroup dev comp g) -> In c cs ->
  (d = dev /\ c = comp) \/ exists cs0, In (d, cs0) g /\ In c cs0.
Proof.
  induction g as [|[d0 cs0] g IH]; cbn [LayoutGenerator.pushGroup].
  - intros [E|[]] Hc. injection E as <- <-. destruct Hc as [<-|[]].
    now left.
  - destruct (String.eqb_spec d0 dev) as [->|N].
    + intros [E|H] Hc.
      * injection E as <- <-. apply in_app_iff in Hc.
        destruct Hc as [Hc|[<-|[]]].
        -- right. exists cs0. split; [now left | exact Hc].
        -- now left.
      * right. exists cs. split; [now right | exact Hc].
    + intros [E|H] Hc.
      * injection E as <- <-. right. exists cs0.
        split; [now left | exact Hc].
      * destruct (IH H Hc) as [?|(cs1 & H1 & H2)]; [now left|].
        right. exists cs1. split; [now right | exact H2].
Qed.

(** What [placedComponent] puts in the record of a rectangle. *)
Lemma placedComponent_record ctx dmapps grouptype rect c :
  LayoutGenerator.placedComponent ctx dmapps grouptype rect = Ok c ->
  Doc.l_deviceId (Doc.layout c) = PackerUtils.deviceId rect
  /\ Doc.c_contextId c = Some (Doc.ctx_id ctx)
  /\ pixels (Doc.layout c)
  /\ exists app,
       In app dmapps /\ Doc.DMAppId c = Some (Doc.dmapp_id app)
       /\ In (Doc.componentId c) (ids app).
Proof.
  unfold LayoutGenerator.placedComponent.
  destruct (find _ dmapps) as [app|] eqn:Hfind; cbn [defined obind];
    try discriminate.
  destruct (PackerUtils.componentId rect) as [cid|]; cbn [defined obind];
    try discriminate.
  destruct (DMApp.getComponent app cid) as [component|] eqn:Hget;
    cbn [defined obind]; try discriminate.
  match goal with
  | |- obind ?p _ = _ -> _ => destruct p as [usePersonal| | | |]
  end; cbn [obind]; try discriminate.
  destruct (defined _) as [k| | | |]; cbn [obind]; try discriminate.
  intros [= <-].
  cbn [Doc.layout Doc.l_deviceId Doc.c_contextId Doc.DMAppId
       Doc.componentId].
  split; [reflexivity|]. split; [reflexivity|]. split.
  - do 4 eexists. split; reflexivity.
  - exists app. apply find_some in Hfind. destruct Hfind as [Happ _].
    split; [exact Happ|]. split; [reflexivity|].
    apply getComponent_In in Hget. destruct Hget as [Hin _].
    unfold ids. now apply in_map.
Qed.

(** The records of a layout [assemble] returns: those of the layout it was
    given, and one per rectangle of the packer on the entry of the device
    the rectangle names, all of them post-processed when the packer placed
    anything. *)
Lemma assemble_components ctx dmapps layout g grouptype componentlist allIds
    packed out d' c' :
  LayoutGenerator.assemble ctx dmapps layout g grouptype componentlist allIds
    packed = Ok out ->
  In d' (LayoutGenerator.cl_devices out) -> In c' (Layout.dl_components d') ->
  In d' (LayoutGenerator.cl_devices layout)
  \/ exists d c fw fh,
       Layout.dl_deviceId d' = Layout.dl_deviceId d
       /\ (exists device,
             Context.getDevice ctx (Layout.dl_deviceId d) = Some device)
       /\ c' = LayoutGenerator.mapGeometry fw fh (LayoutGenerator.stamp ctx c)
       /\ (Doc.percentCoords ctx <> Some true ->
           fw = (fun q => Doc.Pixels (Js.round q)) /\ fh = fw)
       /\ ((In d (LayoutGenerator.cl_devices layout)
            /\ In c (Layout.dl_components d))
           \/ (Doc.l_deviceId (Doc.layout c) = Some (Layout.dl_deviceId d)
               /\ exists rect,
                    In rect (LayoutGenerator.p_layout packed)
                    /\ LayoutGenerator.placedComponent ctx dmapps grouptype
                         rect = Ok c)).
Proof.
  unfold LayoutGenerator.assemble.
  set (nodevice := LayoutGenerator.union _ _).
  set (layout1 := if Nat.ltb 0 (length nodevice) then _ else layout).
  set (layout2 := if Nat.ltb 0 _ then _ else layout1).
  assert (E2 : LayoutGenerator.cl_devices layout2
               = LayoutGenerator.cl_devices layout).
  { unfold layout2, layout1. now rewrite !pushIf_devices. }
  destruct (LayoutGenerator.p_layout packed) as [|rect0 rects] eqn:Hl.
  - intros [= <-] Hd _. left. now rewrite <- E2.
  - set (rs := rect0 :: rects).
    destruct (ofoldM _ rs _) as [acc| | | |] eqn:Hfold; cbn [obind];
      try discriminate.
    intros H Hd Hc. right.
    destruct (postProcess_components _ _ _ _ _ H Hd Hc)
      as (d & c & fw & fh & Hd0 & Hc0 & Eid & Hdev & Ec & Hmode).
    exists d, c, fw, fh. repeat (split; [assumption|]).
    rewrite pushIf_devices in Hd0. cbn [LayoutGenerator.cl_devices] in Hd0.
    rewrite E2 in Hd0. apply in_app_iff in Hd0.
    destruct Hd0 as [Hd0|Hd0]; [now left|]. right.
    apply in_map_iff in Hd0. destruct Hd0 as ([dev cs] & <- & Hkv).
    cbn [fst snd Layout.dl_deviceId Layout.dl_components] in *.
    clear Eid Hdev. revert dev cs Hkv Hc0.
    apply (ofoldM_invariant _
             (fun acc =>
                forall dev cs,
                  In (dev, cs) (fst acc) -> In c cs ->
                  Doc.l_deviceId (Doc.layout c) = Some dev
                  /\ exists rect,
                       In rect rs
                       /\ LayoutGenerator.placedComponent ctx dmapps
                            grouptype rect = Ok c)
             _ _ _ Hfold).
    + intros dev cs [].
    + intros s rect s' Hrect Hs Hstep dev cs Hkv Hc0.
      destruct (LayoutGenerator.placedComponent ctx dmapps grouptype rect)
        as [component| | | |] eqn:Hp; cbn [obind] in Hstep;
        try discriminate.
      destruct (Doc.l_deviceId (Doc.layout component)) as [dv|] eqn:Edv;
        injection Hstep as <-; cbn [fst] in Hkv; [|now apply (Hs dev cs)].
      destruct (pushGroup_In _ _ _ _ _ _ Hkv Hc0) as [[-> ->]|(cs0 & H1 & H2)].
      * split; [exact Edv|]. exists rect. auto.
      * now apply (Hs dev cs0).
Qed.

Lemma runLayout_components packRegions ctx dmapps layout devicelist g
    grouptype out d' c' :
  LayoutGenerator.runLayout packRegions ctx dmapps layout devicelist g
    grouptype = Ok out ->
  In d' (LayoutGenerator.cl_devices out) -> In c' (Layout.dl_components d') ->
  In d' (LayoutGenerator.cl_devices layout)
  \/ exists d c fw fh,
       Layout.dl_deviceId d' = Layout.dl_deviceId d
       /\ (exists device,
             Context.getDevice ctx (Layout.dl_deviceId d) = Some device)
       /\ c' = LayoutGenerator.mapGeometry fw fh (LayoutGenerator.stamp ctx c)
       /\ (Doc.percentCoords ctx <> Some true ->
           fw = (fun q => Doc.Pixels (Js.round q)) /\ fh = fw)
       /\ ((In d (LayoutGenerator.cl_devices layout)
            /\ In c (Layout.dl_components d))
           \/ (Doc.l_deviceId (Doc.layout c) = Some (Layout.dl_deviceId d)
               /\ exists rect,
                    LayoutGenerator.placedComponent ctx dmapps grouptype
                      rect = Ok c)).
Proof.
  unfold LayoutGenerator.runLayout.
  destruct (LayoutGenerator.buildRegionNodeTree ctx devicelist)
    as [regions| | | |]; cbn [obind]; try discriminate.
  destruct regions as [|region0 regions]; [intros [= <-]; now left|].
  destruct (LayoutGenerator.buildComponentList _ _ _ _ _)
    as [[clist allids]| | | |]; cbn [obind fst snd]; try discriminate.
  destruct clist as [|c0 clist].
  - intros H Hd _. left.
    destruct (Nat.ltb 0 (length allids)); injection H as <-; exact Hd.
  - destruct (packRegions _ _ _) as [packed| | | |]; cbn [obind];
      try discriminate.
    intros H Hd Hc.
    destruct (assemble_components _ _ _ _ _ _ _ _ _ _ _ H Hd Hc)
      as [?|(d & c & fw & fh & H1 & H2 & H3 & H4 & H5)]; [now left|].
    right. exists d, c, fw, fh. repeat (split; [assumption|]).
    destruct H5 as [?|(H5 & rect & _ & H6)]; [now left|].
    right. split; [exact H5|]. now exists rect.
Qed.

Lemma mapGeometry_whole c :
  pixels (Doc.layout c) ->
  wholePixels
    (Doc.layout
       (LayoutGenerator.mapGeometry (fun q => Doc.Pixels (Js.round q))
          (fun q => Doc.Pixels (Js.round q)) c)).
Proof.
  intros (x & y & w & h & Ep & Es).
  unfold LayoutGenerator.mapGeometry, LayoutGenerator.withLayout,
    LayoutGenerator.withGeometry, wholePixels.
  cbn [Doc.layout Doc.position Doc.size]. rewrite Ep, Es.
  cbn [option_map LayoutGenerator.mapCoord Doc.p_x Doc.p_y Doc.s_width
       Doc.s_height]. unfold Js.round.
  do 4 eexists. split; reflexivity.
Qed.

Lemma wholePixels_pixels l : wholePixels l -> pixels l.
Proof.
  intros (x & y & w & h & Ep & Es). do 4 eexists. split; eassumption.
Qed.

(** The invariant of the layout [computeLayout] builds group by group. *)
Lemma computeLayout_records packRegions ctx dmapps out d c :
  LayoutGenerator.computeLayout packRegions ctx dmapps = Ok out ->
  In d (LayoutGenerator.cl_devices out) -> In c (Layout.dl_components d) ->
  stamped ctx dmapps d c
  /\ (Doc.percentCoords ctx <> Some true -> wholePixels (Doc.layout c)).
Proof.
  unfold LayoutGenerator.computeLayout. intros H. revert d c.
  apply (ofoldM_invariant _
           (fun layout =>
              forall d c,
                In d (LayoutGenerator.cl_devices layout) ->
                In c (Layout.dl_components d) ->
                stamped ctx dmapps d c
                /\ (Doc.percentCoords ctx <> Some true ->
                    wholePixels (Doc.layout c)))
           _ _ _ H).
  - intros d c [].
  - intros s [g t] s' _ Hs Hrun d' c' Hd Hc. cbn [fst snd] in Hrun.
    destruct (runLayout_components _ _ _ _ _ _ _ _ _ _ Hrun Hd Hc)
      as [Hold|(d & c & fw & fh & Eid & Hdev & -> & Hmode & Hfrom)];
      [now apply Hs|].
    assert (G : Doc.l_deviceId (Doc.layout c) = Some (Layout.dl_deviceId d)
                /\ Doc.c_contextId c = Some (Doc.ctx_id ctx)
                /\ (Doc.percentCoords ctx <> Some true -> pixels (Doc.layout c))
                /\ exists app,
                     In app dmapps /\ Doc.DMAppId c = Some (Doc.dmapp_id app)
                     /\ In (Doc.componentId c) (ids app)).
    { destruct Hfrom as [[Hd0 Hc0]|(Edev & rect & Hp)].
      - destruct (Hs d c Hd0 Hc0) as ((S1 & S2 & _ & app & S4 & S5 & S6 & _)
                                      & W).
        split; [exact S1|]. split; [exact S2|]. split.
        + intros N. apply wholePixels_pixels. now apply W.
        + exists app. auto.
      - apply placedComponent_record in Hp.
        destruct Hp as (_ & P2 & P3 & P4).
        split; [exact Edev|]. split; [exact P2|]. split; [|exact P4].
        intros _. exact P3. }
    destruct G as (G1 & G2 & G3 & app & G4 & G5 & G6). split.
    + unfold stamped. rewrite Eid.
      cbn [LayoutGenerator.mapGeometry LayoutGenerator.withLayout
           LayoutGenerator.withGeometry LayoutGenerator.stamp Doc.layout
           Doc.l_deviceId Doc.c_contextId Doc.DMAppId Doc.componentId
           Doc.instanceId].
      split; [exact G1|]. split; [exact G2|]. split; [exact Hdev|].
      exists app. split; [exact G4|]. split; [exact G5|].
      split; [exact G6|]. rewrite G5, G1. reflexivity.
    + intros N. destruct (Hmode N) as [-> ->].
      apply mapGeometry_whole.
      destruct (G3 N) as (x & y & w & h & Ep & Es).
      exists x, y, w, h. split; [exact Ep | exact Es].
Qed.

(** X12.  Every record in a device entry of the layout [computeLayout]
    returns names that device, which is a device of the context, names
    the context and a component of one of the DMApps, and carries the
    instance id made of the context, the DMApp, the device and the
    component. *)
Theorem placed_records_name_their_device
    (packRegions : list PackerUtils.PackerRectangle ->
                   list PackerUtils.PackerRectangle -> bool ->
                   outcome LayoutGenerator.Packing)
    (ctx : Doc.Context) (dmapps : list Doc.DMApp)
    (out : LayoutGenerator.ContextLayout) (d : Layout.DeviceLayout)
    (c : Doc.Component) :
  LayoutGenerator.computeLayout packRegions ctx dmapps = Ok out ->
  In d (LayoutGenerator.cl_devices out) -> In c (Layout.dl_components d) ->
  stamped ctx dmapps d c.
Proof.
  intros H Hd Hc.
  exact (proj1 (computeLayout_records _ _ _ _ _ _ H Hd Hc)).
Qed.

Lemma placed_records_name_their_device_for_the_video :
  stamped oneScreen [videoApp]
    (onDevice "tv1" [placed "video" "tv1" 0 0 99 56 1])
    (placed "video" "tv1" 0 0 99 56 1).
Proof.
  apply (placed_records_name_their_device (LayoutPacker.packRegions fuel)
           oneScreen [videoApp] videoLayout).
  - vm_compute. reflexivity.
  - left. reflexivity.
  - left. reflexivity.
Defined.

(** X13.  Unless the context asks for percentages, the position and the
    size of every record of the layout [computeLayout] returns are whole
    numbers of pixels. *)
Theorem placed_records_have_whole_pixels
    (packRegions : list PackerUtils.PackerRectangle ->
                   list PackerUtils.PackerRectangle -> bool ->
                   outcome LayoutGenerator.Packing)
    (ctx : Doc.Context) (dmapps : list Doc.DMApp)
    (out : LayoutGenerator.ContextLayout) (d : Layout.DeviceLayout)
    (c : Doc.Component) :
  Doc.percentCoords ctx <> Some true ->
  LayoutGenerator.computeLayout packRegions ctx dmapps = Ok out ->
  In d (LayoutGenerator.cl_devices out) -> In c (Layout.dl_components d) ->
  wholePixels (Doc.layout c).
Proof.
  intros N H Hd Hc.
  exact (proj2 (computeLayout_records _ _ _ _ _ _ H Hd Hc) N).
Qed.

Lemma placed_records_have_whole_pixels_for_the_video :
  wholePixels (Doc.layout (placed "video" "tv1" 0 0 99 56 1)).
Proof.
  apply (placed_records_have_whole_pixels (LayoutPacker.packRegions fuel)
           oneScreen [videoApp] videoLayout
           (onDevice "tv1" [placed "video" "tv1" 0 0 99 56 1])).
  - discriminate.
  - vm_compute. reflexivity.
  - left. reflexivity.
  - left. reflexivity.
Defined.

(** ** Priority overrides (ComponentController.ts, DMApp.ts) *)

Lemma storeOverride_other ovs devType sc p ovs' t :
  ComponentController.storeOverride ovs devType sc p = Some ovs' ->
  t <> devType -> ovs' !! t = ovs !! t.
Proof.
  unfold ComponentController.storeOverride. intros H N.
  destruct (Z.eqb _ _).
  - destruct (ovs !! devType); [|discriminate]. injection H as <-.
    now rewrite lookup_insert_ne by congruence.
  - injection H as <-. now rewrite lookup_insert_ne by congruence.
Qed.

Lemma storeOverride_record ovs devType sc p ovs' :
  ComponentController.storeOverride ovs devType sc p = Some ovs' ->
  ovs' !! devType <> None.
Proof.
  unfold ComponentController.storeOverride. intros H.
  destruct (Z.eqb _ _).
  - destruct (ovs !! devType); [|discriminate]. injection H as <-.
    now rewrite lookup_insert_eq.
  - injection H as <-. now rewrite lookup_insert_eq.
Qed.

Lemma storeEntries_other ovs devType sc ps ovs' t :
  ComponentController.storeEntries ovs devType sc ps = Some ovs' ->
  t <> devType -> ovs' !! t = ovs !! t.
Proof.
  revert ovs. induction ps as [|p ps IH]; intros ovs H N;
    cbn [ComponentController.storeEntries] in H.
  - now injection H as <-.
  - destruct (ComponentController.storeOverride ovs devType sc p) as [ovs1|]
      eqn:E; [|discriminate].
    rewrite (IH ovs1 H N). eapply storeOverride_other; eassumption.
Qed.

Lemma storeItems_other ovs items ovs' t :
  ComponentController.storeItems ovs items = Some ovs' ->
  (forall it, In it items -> ComponentController.devtype it <> t) ->
  ovs' !! t = ovs !! t.
Proof.
  revert ovs. induction items as [|it items IH]; intros ovs H N;
    cbn [ComponentController.storeItems] in H.
  - now injection H as <-.
  - destruct (ComponentController.storeEntries ovs _ _ _) as [ovs1|] eqn:E;
      [|discriminate].
    rewrite (IH ovs1 H) by (intros it' Hit; apply N; now right).
    eapply storeEntries_other; [exact E|].
    intros ->. now apply (N it); [left|].
Qed.

(** X14.  A [setPriority] request whose items all name other device types
    leaves the priority that [getPriority] resolves for a device type as
    it was, for every device. *)
Theorem overrides_leave_the_other_device_type
    (app : Doc.DMApp) (c c' : Doc.Component)
    (items : list ComponentController.OverrideItem) (device : Doc.Device)
    (t : string) :
  ComponentController.setPriorityList c items = Some c' ->
  (forall it, In it items -> ComponentController.devtype it <> t) ->
  DMApp.getPriority app c' device t = DMApp.getPriority app c device t.
Proof.
  unfold ComponentController.setPriorityList. intros H N.
  destruct (ComponentController.storeItems _ items) as [ovs'|] eqn:E;
    [|discriminate].
  injection H as <-. apply storeItems_other with (t := t) in E; [|exact N].
  unfold DMApp.getPriority. cbn [Doc.priorityOverrides Doc.c_constraintId].
  rewrite E. destruct (Doc.priorityOverrides c) as [ovs|]; cbn [default];
    [reflexivity|].
  now rewrite lookup_empty.
Qed.

Lemma overrides_leave_the_other_device_type_for_the_tablet :
  DMApp.getPriority bannerApp
    (withOverrides (component "banner")
       (<["communal" :=
            {| Doc.scope := "group";
               Doc.priorities := <["lounge" := 7%Z]> ∅ |}]> ∅))
    (tablet "pad1") "personal"
  = DMApp.getPriority bannerApp (component "banner") (tablet "pad1")
      "personal".
Proof.
  apply (overrides_leave_the_other_device_type bannerApp (component "banner")
           _ [override "communal" "group" "lounge" 7] (tablet "pad1")
           "personal").
  - reflexivity.
  - intros it [<-|[]]. discriminate.
Defined.

(** X15.  The overrides of one item are all stored unless the first of
    them removes an override (priority -1) from a component that has no
    record for the device type; that is the one case in which the request
    raises an error. *)
Theorem storing_fails_only_on_a_first_removal
    (ovs : gmap string Doc.Override) (devType sc : string)
    (ps : list ComponentController.OverrideEntry) :
  ComponentController.storeEntries ovs devType sc ps = None
  <-> ovs !! devType = None
      /\ exists p rest,
           ps = p :: rest /\ ComponentController.e_priority p = (-1)%Z.
Proof.
  assert (G : forall ps ovs,
             ovs !! devType <> None ->
             ComponentController.storeEntries ovs devType sc ps <> None).
  { intros l. induction l as [|p l IH]; intros o Ho;
      cbn [ComponentController.storeEntries]; [discriminate|].
    destruct (ComponentController.storeOverride o devType sc p) as [o1|]
      eqn:E.
    - apply IH. eapply storeOverride_record. exact E.
    - unfold ComponentController.storeOverride in E.
      destruct (Z.eqb _ _); [|discriminate].
      destruct (o !! devType); [discriminate | contradiction]. }
  destruct ps as [|p rest]; cbn [ComponentController.storeEntries].
  - split; [discriminate | intros (_ & p & rest & [=] & _)].
  - destruct (ComponentController.storeOverride ovs devType sc p) as [o1|]
      eqn:E.
    + split.
      * intros H. exfalso. revert H. apply G.
        eapply storeOverride_record. exact E.
      * intros (Ho & p' & rest' & [= <- <-] & Hp).
        unfold ComponentController.storeOverride in E.
        rewrite Hp, Ho in E. discriminate.
    + split; [|reflexivity]. intros _.
      unfold ComponentController.storeOverride in E.
      destruct (Z.eqb_spec (ComponentController.e_priority p) (-1))
        as [Hp|Hp]; [|discriminate].
      destruct (ovs !! devType); [discriminate|].
      split; [reflexivity|]. exists p, rest. auto.
Qed.

(** X16.  The backwards-compatible form of the request makes its communal
    priority the communal priority of every device and, sent by a
    personal device, makes its personal priority the personal priority of
    that device; sent by a communal device it leaves the personal
    priorities as they were. *)
Theorem legacy_priorities_resolve
    (app : Doc.DMApp) (c : Doc.Component) (ovs : gmap string Doc.Override)
    (isCommunal : bool) (reqDeviceId : string)
    (communalPriority personalPriority : Z) (device : Doc.Device) :
  DMApp.getPriority app
    (withOverrides c
       (ComponentController.storeLegacy ovs isCommunal reqDeviceId
          communalPriority personalPriority))
    device "communal" = communalPriority
  /\ DMApp.getPriority app
       (withOverrides c
          (ComponentController.storeLegacy ovs false (Doc.deviceId device)
             communalPriority personalPriority))
       device "personal" = personalPriority
  /\ DMApp.getPriority app
       (withOverrides c
          (ComponentController.storeLegacy ovs true reqDeviceId
             communalPriority personalPriority))
       device "personal"
     = DMApp.getPriority app (withOverrides c ovs) device "personal".
Proof.
  unfold DMApp.getPriority, withOverrides, ComponentController.storeLegacy.
  cbn [Doc.priorityOverrides Doc.c_constraintId].
  split; [|split].
  - destruct isCommunal.
    + rewrite lookup_insert_eq. unfold DMApp.overrideKey.
      cbn [Doc.scope Doc.priorities String.eqb Ascii.eqb Bool.eqb].
      now rewrite lookup_insert_eq.
    + rewrite lookup_insert_ne by discriminate.
      rewrite lookup_insert_eq. unfold DMApp.overrideKey.
      cbn [Doc.scope Doc.priorities String.eqb Ascii.eqb Bool.eqb].
      now rewrite lookup_insert_eq.
  - rewrite lookup_insert_eq. unfold DMApp.overrideKey.
    cbn [Doc.scope Doc.priorities String.eqb Ascii.eqb Bool.eqb].
    now rewrite lookup_insert_eq.
  - now rewrite lookup_insert_ne by discriminate.
Qed.

(** ** Sizes and orderings of boxes (PackerUtils.ts) *)

Lemma ltb_cases (a b : Q) :
  (Js.ltb a b = true /\ (a < b)%Q) \/ (Js.ltb a b = false /\ (b <= a)%Q).
Proof.
  unfold Js.ltb. destruct (Qle_bool b a) eqn:E; cbn [negb].
  - right. split; [reflexivity | now apply Qle_bool_iff].
  - left. split; [reflexivity|]. apply Qnot_le_lt. intros H.
    apply Qle_bool_iff in H. congruence.
Qed.

Lemma leb_cases (a b : Q) :
  (Js.leb a b = true /\ (a <= b)%Q) \/ (Js.leb a b = false /\ (b < a)%Q).
Proof.
  unfold Js.leb. destruct (Qle_bool a b) eqn:E.
  - left. split; [reflexivity | now apply Qle_bool_iff].
  - right. split; [reflexivity|]. apply Qnot_le_lt. intros H.
    apply Qle_bool_iff in H. congruence.
Qed.

Lemma eqb_cases (a b : Q) :
  (Js.eqb a b = true /\ (a == b)%Q) \/ (Js.eqb a b = false /\ ~ (a == b)%Q).
Proof.
  unfold Js.eqb. destruct (Qeq_bool a b) eqn:E.
  - left. split; [reflexivity | now apply Qeq_bool_iff].
  - right. split; [reflexivity|]. intros H. apply Qeq_bool_iff in H.
    congruence.
Qed.

Ltac compare_numbers :=
  unfold Js.gtb, Js.geb in *;
  repeat match goal with
         | |- context [Js.ltb ?a ?b] =>
             destruct (ltb_cases a b) as [[-> ?]|[-> ?]]
         | |- context [Js.leb ?a ?b] =>
             destruct (leb_cases a b) as [[-> ?]|[-> ?]]
         | |- context [Js.eqb ?a ?b] =>
             destruct (eqb_cases a b) as [[-> ?]|[-> ?]]
         end.

(** [largerEqual] on the areas, widths and heights of two boxes. *)
Lemma largerEqual_swap (a1 w1 h1 a2 w2 h2 : Q) :
  (if (a2 <? a1)%Q then 1
   else if (a2 >? a1)%Q then -1
   else if (w2 <? w1)%Q then 1
   else if (w2 >? w1)%Q then -1
   else if (h2 <? h1)%Q then 1
   else if (h2 =? h1)%Q then 0
   else -1)%Z
  = (- (if (a1 <? a2)%Q then 1
        else if (a1 >? a2)%Q then -1
        else if (w1 <? w2)%Q then 1
        else if (w1 >? w2)%Q then -1
        else if (h1 <? h2)%Q then 1
        else if (h1 =? h2)%Q then 0
        else -1))%Z.
Proof.
  compare_numbers; try reflexivity; exfalso; lra.
Qed.

Lemma largerEqual_chain (a1 w1 h1 a2 w2 h2 a3 w3 h3 : Q) :
  ((if (a1 <? a2)%Q then 1
    else if (a1 >? a2)%Q then -1
    else if (w1 <? w2)%Q then 1
    else if (w1 >? w2)%Q then -1
    else if (h1 <? h2)%Q then 1
    else if (h1 =? h2)%Q then 0
    else -1) <= 0)%Z ->
  ((if (a2 <? a3)%Q then 1
    else if (a2 >? a3)%Q then -1
    else if (w2 <? w3)%Q then 1
    else if (w2 >? w3)%Q then -1
    else if (h2 <? h3)%Q then 1
    else if (h2 =? h3)%Q then 0
    else -1) <= 0)%Z ->
  ((if (a1 <? a3)%Q then 1
    else if (a1 >? a3)%Q then -1
    else if (w1 <? w3)%Q then 1
    else if (w1 >? w3)%Q then -1
    else if (h1 <? h3)%Q then 1
    else if (h1 =? h3)%Q then 0
    else -1) <= 0)%Z.
Proof.
  unfold Js.gtb.
  destruct (ltb_cases a1 a2) as [[-> ?]|[-> ?]]; [lia|].
  destruct (ltb_cases a2 a1) as [[-> ?]|[-> ?]].
  - intros _.
    destruct (ltb_cases a2 a3) as [[-> ?]|[-> ?]]; [lia|]. intros _.
    destruct (ltb_cases a1 a3) as [[-> ?]|[-> ?]]; [exfalso; lra|].
    destruct (ltb_cases a3 a1) as [[-> ?]|[-> ?]]; [lia | exfalso; lra].
  - destruct (ltb_cases w1 w2) as [[-> ?]|[-> ?]]; [lia|].
    destruct (ltb_cases a2 a3) as [[-> ?]|[-> ?]]; [lia|].
    destruct (ltb_cases a3 a2) as [[-> ?]|[-> ?]].
    + intros _ _.
      destruct (ltb_cases a1 a3) as [[-> ?]|[-> ?]]; [exfalso; lra|].
      destruct (ltb_cases a3 a1) as [[-> ?]|[-> ?]]; [lia | exfalso; lra].
    + destruct (ltb_cases a1 a3) as [[-> ?]|[-> ?]]; [exfalso; lra|].
      destruct (ltb_cases a3 a1) as [[-> ?]|[-> ?]]; [lia|].
      destruct (ltb_cases w2 w3) as [[-> ?]|[-> ?]]; [lia|].
      destruct (ltb_cases w2 w1) as [[-> ?]|[-> ?]].
      * intros _ _.
        destruct (ltb_cases w1 w3) as [[-> ?]|[-> ?]]; [exfalso; lra|].
        destruct (ltb_cases w3 w1) as [[-> ?]|[-> ?]];
          [lia | exfalso; lra].
      * destruct (ltb_cases w3 w2) as [[-> ?]|[-> ?]].
        -- intros _ _.
           destruct (ltb_cases w1 w3) as [[-> ?]|[-> ?]]; [exfalso; lra|].
           destruct (ltb_cases w3 w1) as [[-> ?]|[-> ?]];
             [lia | exfalso; lra].
        -- destruct (ltb_cases w1 w3) as [[-> ?]|[-> ?]]; [exfalso; lra|].
           destruct (ltb_cases w3 w1) as [[-> ?]|[-> ?]]; [lia|].
           destruct (ltb_cases h1 h2) as [[-> ?]|[-> ?]]; [lia|].
           destruct (ltb_cases h2 h3) as [[-> ?]|[-> ?]]; [lia|].
           intros _ _.
           destruct (ltb_cases h1 h3) as [[-> ?]|[-> ?]]; [exfalso; lra|].
           destruct (Js.eqb h1 h3); lia.
Qed.

(** X17.  [largerEqual] is a consistent comparison of boxes, larger area
    first, then larger width, then larger height: exchanging the boxes
    negates the result, the result is 0 exactly for boxes of one width and
    one height, and the order is transitive. *)
Theorem largerEqual_is_an_order (w1 h1 w2 h2 w3 h3 : Q) :
  PackerUtils.largerEqual w2 h2 w1 h1
  = (- PackerUtils.largerEqual w1 h1 w2 h2)%Z
  /\ (PackerUtils.largerEqual w1 h1 w2 h2 = 0%Z
      <-> (w1 == w2)%Q /\ (h1 == h2)%Q)
  /\ ((PackerUtils.largerEqual w1 h1 w2 h2 <= 0)%Z ->
      (PackerUtils.largerEqual w2 h2 w3 h3 <= 0)%Z ->
      (PackerUtils.largerEqual w1 h1 w3 h3 <= 0)%Z).
Proof.
  split; [|split].
  - unfold PackerUtils.largerEqual. cbv zeta. apply largerEqual_swap.
  - split.
    + unfold PackerUtils.largerEqual. cbv zeta.
      generalize (w1 * h1)%Q (w2 * h2)%Q. intros a1 a2.
      compare_numbers; intros E; try discriminate E; split; lra.
    + intros [Ew Eh]. now apply largerEqual_same.
  - unfold PackerUtils.largerEqual. cbv zeta. apply largerEqual_chain.
Qed.

(** [Math.trunc] does not move a number past a bound that is not
    negative. *)
Lemma trunc_below (q b : Q) :
  (0 <= b)%Q -> (q <= b)%Q -> (Js.trunc q <= b)%Q.
Proof.
  intros Hb Hq. destruct (Qlt_le_dec q 0) as [Hneg|Hpos].
  - apply Qle_trans with 0%Q; [|exact Hb].
    destruct q as [n d]. unfold Js.trunc, Qle, Qlt, inject_Z in *.
    cbn [Qnum Qden] in *.
    pose proof (Z.mul_quot_ge n (Z.pos d)) as B.
    nia.
  - apply Qle_trans with q; [|exact Hq].
    destruct q as [n d]. unfold Js.trunc, Qle, Qlt, inject_Z in *.
    cbn [Qnum Qden] in *.
    pose proof (Z.quot_rem' n (Z.pos d)) as E.
    pose proof (Z.rem_bound_pos n (Z.pos d)) as B.
    nia.
Qed.

(** X18.  For a positive aspect ratio, the size [directed_aspect_correct]
    returns for a box fits in the box, whichever direction is primary and
    whatever the margin. *)
Theorem directed_aspect_correct_fits_the_box
    (width height aspect margin : Q) (primaryDir : string) :
  (0 < aspect)%Q -> (0 <= width)%Q -> (0 <= height)%Q ->
  (PackerUtils.wd
     (PackerUtils.directed_aspect_correct width height aspect margin
        primaryDir) <= width)%Q
  /\ (PackerUtils.ht
        (PackerUtils.directed_aspect_correct width height aspect margin
           primaryDir) <= height)%Q.
Proof.
  intros Ha Hw Hh. unfold PackerUtils.directed_aspect_correct. cbv zeta.
  set (m := (2 * margin)%Q).
  assert (D : forall x y : Q, (x <= y * aspect)%Q -> (x / aspect <= y)%Q).
  { intros x y H. apply Qle_shift_div_r; assumption. }
  assert (M : forall x y : Q, (y <= x / aspect)%Q -> (y * aspect <= x)%Q).
  { intros x y H.
    assert (E : (x == x / aspect * aspect)%Q) by (field; lra).
    rewrite E. apply Qmult_le_compat_r; lra. }
  destruct (String.eqb primaryDir "width").
  - destruct (ltb_cases height ((width - m) * aspect + m)) as [[E H]|[E H]];
      unfold Js.gtb; rewrite E; cbn [PackerUtils.wd PackerUtils.ht];
      split; apply trunc_below; try assumption; try lra.
    assert ((height - m) / aspect <= width - m)%Q by (apply D; lra). lra.
  - destruct (ltb_cases width ((height - m) / aspect + m)) as [[E H]|[E H]];
      unfold Js.gtb; rewrite E; cbn [PackerUtils.wd PackerUtils.ht];
      split; apply trunc_below; try assumption; try lra.
    assert ((width - m) * aspect <= height - m)%Q by (apply M; lra). lra.
Qed.

Lemma directed_aspect_correct_fits_the_box_of_the_display :
  (PackerUtils.wd
     (PackerUtils.directed_aspect_correct 100 100 (9 # 16) 0 "width")
   <= 100)%Q
  /\ (PackerUtils.ht
        (PackerUtils.directed_aspect_correct 100 100 (9 # 16) 0 "width")
      <= 100)%Q.
Proof.
  apply (directed_aspect_correct_fits_the_box 100 100 (9 # 16) 0 "width");
    reflexivity || discriminate.
Defined.

(** ** What the carry-over adds to a new layout (LayoutManager.ts) *)

Lemma fold_left_preserve_In {S A : Type} (f : S -> A -> S) (P : S -> Prop)
    (l : list A) (s : S) :
  (forall s a, In a l -> P s -> P (f s a)) -> P s -> P (fold_left f l s).
Proof.
  revert s. induction l as [|a l IH]; intros s Hf Hs; cbn [fold_left];
    [exact Hs|].
  apply IH.
  - intros s' b Hb. apply Hf. now right.
  - apply Hf; [now left | exact Hs].
Qed.

Lemma pushOnDevice_keeps dev x ds d c :
  In d ds -> In c (Layout.dl_components d) ->
  exists d',
    In d' (Layout.pushOnDevice dev x ds)
    /\ Layout.dl_deviceId d' = Layout.dl_deviceId d
    /\ In c (Layout.dl_components d').
Proof.
  induction ds as [|a ds IH]; [intros []|].
  cbn [Layout.pushOnDevice]. intros [->|Hd] Hc.
  - destruct (String.eqb (Layout.dl_deviceId d) dev).
    + eexists. split; [now left|]. split; [reflexivity|].
      cbn [Layout.dl_components]. apply in_app_iff. now left.
    + exists d. split; [now left | auto].
  - destruct (String.eqb (Layout.dl_deviceId a) dev).
    + exists d. split; [now right | auto].
    + destruct (IH Hd Hc) as (d' & H1 & H2). exists d'.
      split; [now right | exact H2].
Qed.

Lemma pushOnDevice_In dev x ds d' c' :
  In d' (Layout.pushOnDevice dev x ds) -> In c' (Layout.dl_components d') ->
  (exists d, In d ds /\ Layout.dl_deviceId d = Layout.dl_deviceId d'
             /\ In c' (Layout.dl_components d))
  \/ (Layout.dl_deviceId d' = dev /\ c' = x).
Proof.
  induction ds as [|a ds IH]; [intros []|].
  cbn [Layout.pushOnDevice].
  destruct (String.eqb_spec (Layout.dl_deviceId a) dev) as [E|N].
  - intros [<-|Hd] Hc; cbn [Layout.dl_components Layout.dl_deviceId] in *.
    + apply in_app_iff in Hc. destruct Hc as [Hc|[<-|[]]].
      * left. exists a. split; [now left | auto].
      * right. auto.
    + left. exists d'. split; [now right | auto].
  - intros [<-|Hd] Hc.
    + left. exists a. split; [now left | auto].
    + destruct (IH Hd Hc) as [(d & H1 & H2)|H]; [|now right].
      left. exists d. split; [now right | exact H2].
Qed.

Lemma keeps_refl l : keeps l l.
Proof.
  repeat split. intros d c Hd Hc. exists d. auto.
Qed.

Lemma keeps_devices l l' ds :
  keeps l l' ->
  (forall d c, In d (Layout.gl_devices l') -> In c (Layout.dl_components d) ->
     exists d', In d' ds /\ Layout.dl_deviceId d' = Layout.dl_deviceId d
                /\ In c (Layout.dl_components d')) ->
  keeps l (Layout.withDevices l' ds).
Proof.
  intros (K1 & K2 & K3 & K4) H. unfold keeps.
  cbn [Layout.withDevices Layout.notPlaced Layout.gl_contextId
       Layout.timestamp Layout.gl_devices].
  repeat (split; [assumption|]).
  intros d c Hd Hc. destruct (K4 d c Hd Hc) as (d1 & H1 & E1 & C1).
  destruct (H d1 c H1 C1) as (d2 & H2 & E2 & C2).
  exists d2. split; [exact H2|]. split; [congruence | exact C2].
Qed.

Lemma carryInited_keeps app dev comp l l' :
  keeps l l' -> keeps l (LayoutManager.carryInited app dev comp l').
Proof.
  intros K. unfold LayoutManager.carryInited.
  destruct (Layout.findDevice dev (Layout.gl_devices l')); [|exact K].
  destruct (Layout.findComponent _ _); [exact K|].
  apply keeps_devices; [exact K|]. intros dd cc. apply pushOnDevice_keeps.
Qed.

Lemma In_places ds x r :
  (exists d, In d ds /\ Layout.dl_deviceId d = x
             /\ In r (Layout.dl_components d))
  <-> exists i j, deviceAt i ds = Some x /\ componentAt i j ds = Some r.
Proof.
  unfold deviceAt, componentAt. split.
  - intros (d & Hd & E & Hr).
    apply list_elem_of_In, list_elem_of_lookup_1 in Hd.
    apply list_elem_of_In, list_elem_of_lookup_1 in Hr.
    destruct Hd as [i Hi]. destruct Hr as [j Hj]. exists i, j.
    rewrite Hi. split; [now rewrite E | exact Hj].
  - intros (i & j & Hi & Hj).
    destruct (ds !! i) as [d|] eqn:Hd; [|discriminate].
    injection Hi as Hi. exists d.
    split; [eapply list_elem_of_In, list_elem_of_lookup_2; exact Hd|].
    split; [exact Hi|].
    eapply list_elem_of_In, list_elem_of_lookup_2. exact Hj.
Qed.

(** The records of [l] are at places of the layout under construction
    that hold no object of the DMApp. *)
Lemma carryHidden_keeps ctx app name e l c :
  keptApart l c -> keptApart l (LayoutManager.carryHidden ctx app name e c).
Proof.
  intros K. destruct (carried ctx app name e) as [latest|] eqn:Hcar;
    [|now rewrite carryHidden_skips].
  destruct (carryHidden_carries ctx app name e c latest Hcar)
    as (pushed & Hc).
  pose proof Hc as (N1 & N2 & N3 & _ & P3 & P2 & _).
  destruct K as (K1 & K2 & K3 & K4).
  split; [congruence|]. split; [congruence|]. split; [congruence|].
  intros d r Hd Hr. destruct (K4 d r Hd Hr) as (i & j & Di & Ri & Hi).
  exists i, j.
  split; [rewrite P3; [exact Di | now apply deviceAt_lt in Di]|].
  split; [now rewrite (P2 _ _ _ Ri), Hi|].
  intros id. rewrite (carries_holds_old _ _ _ _ _ _ Hc _ _ _ _ Ri).
  apply Hi.
Qed.

(** X19.  The carry-over from the previous layout leaves the reports, the
    context id and the time stamp of the new layout as they are, and
    every record of the new layout stays on an entry of its device. *)
Theorem carryOver_keeps_the_new_layout
    (ctx : Doc.Context) (prevLayout : option Layout.GeneratedLayout)
    (newLayout : Layout.GeneratedLayout) (app : Doc.DMApp) :
  keeps newLayout (LayoutManager.carryOver ctx prevLayout newLayout app).
Proof.
  unfold LayoutManager.carryOver, LayoutManager.manageHiddenComps,
    LayoutManager.manageInitedComps.
  destruct prevLayout as [prev|]; [|apply keeps_refl].
  set (inited := fold_left _ (Layout.gl_devices prev) newLayout).
  assert (K : keeps newLayout inited).
  { unfold inited. apply fold_left_preserve; [|apply keeps_refl].
    intros s dev Hs. apply fold_left_preserve; [|exact Hs].
    intros s' comp. apply carryInited_keeps. }
  assert (K0 : keptApart newLayout
                 {| LayoutManager.shown := inited; LayoutManager.held := [] |}).
  { destruct K as (K1 & K2 & K3 & K4).
    split; [exact K1|]. split; [exact K2|]. split; [exact K3|].
    intros d r Hd Hr. cbn [LayoutManager.shown LayoutManager.held].
    destruct (proj1 (In_places _ _ _) (K4 d r Hd Hr)) as (i & j & Di & Ri).
    exists i, j. split; [exact Di|]. split; [exact Ri|]. reflexivity. }
  match goal with
  | |- keeps _ (LayoutManager.shown ?final) =>
      assert (Kf : keptApart newLayout final)
  end.
  { apply fold_left_preserve; [|exact K0].
    intros s np Hs. destruct (LayoutManager.hiddenStatus _); [|exact Hs].
    apply fold_left_preserve; [|exact Hs].
    intros s1 name Hs1. apply fold_left_preserve; [|exact Hs1].
    intros s2 dev. apply carryHidden_keeps. }
  destruct Kf as (K1 & K2 & K3 & K4).
  split; [exact K1|]. split; [exact K2|]. split; [exact K3|].
  intros d r Hd Hr. destruct (K4 d r Hd Hr) as (i & j & Di & Ri & _).
  apply In_places. now exists i, j.
Qed.

Lemma accounted_devices ctx prev new app l ds :
  accounted ctx prev new app l ->
  (forall d' c',
     In d' ds -> In c' (Layout.dl_components d') ->
     (exists d, In d (Layout.gl_devices l)
                /\ Layout.dl_deviceId d = Layout.dl_deviceId d'
                /\ In c' (Layout.dl_components d))
     \/ carriedInited prev app (Layout.dl_deviceId d') c'
     \/ carriedHidden ctx prev new app (Layout.dl_deviceId d') c') ->
  accounted ctx prev new app (Layout.withDevices l ds).
Proof.
  intros [A1 A2] H. split; [exact A1|].
  cbn [Layout.withDevices Layout.gl_devices]. intros d' c' Hd Hc.
  destruct (H d' c' Hd Hc) as [(d & H1 & E & H2)|H']; [|now right].
  rewrite <- E. now apply A2.
Qed.

Lemma carryInited_accounted ctx prev new app pd comp l :
  In pd (Layout.gl_devices prev) -> In comp (Layout.dl_components pd) ->
  Doc.startTime comp = None ->
  accounted ctx prev new app l ->
  accounted ctx prev new app
    (LayoutManager.carryInited app (Layout.dl_deviceId pd) comp l).
Proof.
  intros Hpd Hcomp Hstart A. unfold LayoutManager.carryInited.
  destruct (Layout.findDevice _ (Layout.gl_devices l)); [|exact A].
  destruct (Layout.findComponent _ _); [exact A|].
  apply accounted_devices; [exact A|]. intros d' c' Hd Hc.
  destruct (pushOnDevice_In _ _ _ _ _ Hd Hc) as [H|[E ->]]; [now left|].
  right. left. exists pd, comp. auto.
Qed.

Lemma carriedHidden_reassigned ctx prev new app x r latest d :
  carriedHidden ctx prev new app x r ->
  DMApp.getComponent app (Doc.componentId r) = Some latest ->
  carriedHidden ctx prev new app x
    (LayoutManager.hiddenComponent ctx app d (Doc.componentId r) latest).
Proof.
  intros (pd & comp & latest0 & np & H1 & H2 & H3 & H4 & H5 & H6 & H7 & H8
          & H9 & H10 & H11 & H12 & _) Hget.
  exists pd, comp, latest0, np.
  repeat (split; [assumption|]).
  split.
  { rewrite (hiddenComponent_id _ _ _ _ _ Hget). exact H12. }
  repeat split.
Qed.

Lemma carried_carriedHidden ctx prev new app np name e latest :
  In np (Layout.notPlaced new) ->
  LayoutManager.hiddenStatus (Layout.status np) = true ->
  In name (Layout.sk_components np) ->
  In e (Layout.gl_devices prev) ->
  carried ctx app name e = Some latest ->
  carriedHidden ctx prev new app (Layout.dl_deviceId e)
    (LayoutManager.hiddenComponent ctx app (Layout.dl_deviceId e) name
       latest).
Proof.
  intros Hnp Hst Hname He Hcar.
  destruct (carried_Some _ _ _ _ _ Hcar)
    as (Hget & Hstop & Hhas & comp & Hfind & Hstart & Hsize).
  pose proof (findComponent_id _ _ _ Hfind) as Eid.
  exists e, comp, latest, np.
  split; [exact He|]. split; [reflexivity|].
  split; [unfold Layout.findComponent in Hfind;
          now apply find_some in Hfind|].
  split; [exact Hstart|]. split; [exact Hsize|]. split; [exact Hhas|].
  split; [now rewrite Eid|]. split; [exact Hstop|].
  split; [exact Hnp|]. split.
  { unfold LayoutManager.hiddenStatus in Hst. apply orb_true_iff in Hst.
    destruct Hst as [H|H]; apply String.eqb_eq in H; auto. }
  split; [now rewrite Eid|].
  split; [rewrite Eid; now apply hiddenComponent_id|].
  repeat split.
Qed.

Lemma carryHidden_accounted ctx prev new app np name e c :
  In np (Layout.notPlaced new) ->
  LayoutManager.hiddenStatus (Layout.status np) = true ->
  In name (Layout.sk_components np) ->
  In e (Layout.gl_devices prev) ->
  wellHeld c ->
  accountedApart ctx prev new app c ->
  accountedApart ctx prev new app
    (LayoutManager.carryHidden ctx app name e c).
Proof.
  intros Hnp Hst Hname He W A.
  destruct (carried ctx app name e) as [latest|] eqn:Hcar;
    [|now rewrite carryHidden_skips].
  pose proof (carried_carriedHidden _ _ _ _ _ _ _ _ Hnp Hst Hname He Hcar)
    as C.
  pose proof (carried_Some _ _ _ _ _ Hcar) as (Hget & _).
  destruct (carryHidden_carries ctx app name e c latest Hcar)
    as (pushed & Hc).
  pose proof Hc as (N1 & _ & _ & _ & P3 & P2 & P1 & P4).
  destruct A as (A1 & A2). split; [congruence|].
  intros i j x r Di Ri.
  destruct (P1 _ _ _ Ri) as [->|(r0 & R0)].
  - destruct P4 as (_ & Rn & (Dn & _)).
    rewrite Rn in Ri. injection Ri as <-.
    rewrite Dn in Di. injection Di as <-.
    split; [right; right; exact C | intros id _; exact C].
  - pose proof (componentAt_lt _ _ _ _ R0) as L.
    rewrite P3 in Di by exact L.
    rewrite (P2 _ _ _ R0) in Ri. injection Ri as <-.
    destruct (A2 _ _ _ _ Di R0) as (B1 & B2).
    destruct (LayoutManager.holds (LayoutManager.held c) name i j) eqn:E.
    + destruct (W _ _ _ E) as (r1 & R1 & E1). rewrite R0 in R1.
      injection R1 as <-. subst name.
      pose proof (carriedHidden_reassigned _ _ _ _ _ _ latest
                    (Layout.dl_deviceId e) (B2 _ E) Hget) as C'.
      split; [right; right; exact C' | intros id _; exact C'].
    + split; [exact B1|]. intros id.
      rewrite (carries_holds_old _ _ _ _ _ _ Hc _ _ _ _ R0). apply B2.
Qed.

(** X20.  Every record of the layout after the carry-over is a record of
    the new layout on the same device, an unstarted record of the
    previous layout on that device, or a record of no size that hides a
    component which the new layout reports as incompatible or skipped,
    which had a started record with a size on that device in the previous
    layout, and which the DMApp knows and has not stopped. *)
Theorem carryOver_adds_only_carried_records
    (ctx : Doc.Context) (prev newLayout : Layout.GeneratedLayout)
    (app : Doc.DMApp) (d' : Layout.DeviceLayout) (c' : Doc.Component) :
  In d' (Layout.gl_devices
           (LayoutManager.carryOver ctx (Some prev) newLayout app)) ->
  In c' (Layout.dl_components d') ->
  (exists d, In d (Layout.gl_devices newLayout)
             /\ Layout.dl_deviceId d = Layout.dl_deviceId d'
             /\ In c' (Layout.dl_components d))
  \/ carriedInited prev app (Layout.dl_deviceId d') c'
  \/ carriedHidden ctx prev newLayout app (Layout.dl_deviceId d') c'.
Proof.
  unfold LayoutManager.carryOver, LayoutManager.manageHiddenComps,
    LayoutManager.manageInitedComps.
  set (inited := fold_left _ (Layout.gl_devices prev) newLayout).
  assert (K : accounted ctx prev newLayout app inited).
  { unfold inited. apply fold_left_preserve_In.
    - intros s pd Hpd Hs. apply fold_left_preserve_In; [|exact Hs].
      intros s' comp Hcomp.
      apply list_elem_of_In, list_elem_of_filter in Hcomp.
      destruct Hcomp as [Hstart Hcomp]. apply list_elem_of_In in Hcomp.
      apply carryInited_accounted; [exact Hpd | exact Hcomp |].
      destruct (Doc.startTime comp); [destruct Hstart | reflexivity].
    - split; [reflexivity|]. intros d0 c0 Hd Hc. left. exists d0. auto. }
  assert (N : Layout.notPlaced inited = Layout.notPlaced newLayout)
    by apply K.
  rewrite N.
  assert (K0 : wellHeld {| LayoutManager.shown := inited;
                           LayoutManager.held := [] |}
               /\ accountedApart ctx prev newLayout app
                    {| LayoutManager.shown := inited;
                       LayoutManager.held := [] |}).
  { split; [intros id i j H; discriminate H|].
    split; [exact N|]. cbn [LayoutManager.shown LayoutManager.held].
    intros i j x r Di Ri. split; [|intros id H; discriminate H].
    destruct (proj2 (In_places _ _ _) (ex_intro _ i (ex_intro _ j
                (conj Di Ri)))) as (d & Hd & <- & Hr).
    destruct K as [_ K]. destruct (K d r Hd Hr) as [(d0 & H0)|H0]; [|now right].
    left. now exists d0. }
  match goal with
  | |- In _ (Layout.gl_devices (LayoutManager.shown ?st)) -> _ =>
      set (final := st)
  end.
  assert (Kf : wellHeld final
               /\ accountedApart ctx prev newLayout app final).
  { apply fold_left_preserve_In; [|exact K0].
    intros s np Hnp Hs.
    destruct (LayoutManager.hiddenStatus (Layout.status np)) eqn:Hst;
      [|exact Hs].
    apply fold_left_preserve_In; [|exact Hs]. intros s1 name Hname Hs1.
    apply fold_left_preserve_In; [|exact Hs1]. intros s2 pd Hpd [W2 A2].
    split; [now apply carryHidden_wellHeld|].
    now apply (carryHidden_accounted ctx prev newLayout app np). }
  intros Hd Hc. destruct Kf as [_ [_ A]].
  assert (I : exists d, In d (Layout.gl_devices (LayoutManager.shown final))
                        /\ Layout.dl_deviceId d = Layout.dl_deviceId d'
                        /\ In c' (Layout.dl_components d))
    by (now exists d').
  apply In_places in I. destruct I as (i & j & Di & Ri).
  exact (proj1 (A _ _ _ _ Di Ri)).
Qed.

Lemma carryOver_adds_only_carried_records_for_the_banner :
  (exists d, In d (Layout.gl_devices reportedLayout)
             /\ Layout.dl_deviceId d = "tv1"
             /\ In (LayoutManager.hiddenComponent oneScreen runningApp "tv1"
                      "banner" (started (component "banner")))
                   (Layout.dl_components d))
  \/ carriedInited runningLayout runningApp "tv1"
       (LayoutManager.hiddenComponent oneScreen runningApp "tv1" "banner"
          (started (component "banner")))
  \/ carriedHidden oneScreen runningLayout reportedLayout runningApp "tv1"
       (LayoutManager.hiddenComponent oneScreen runningApp "tv1" "banner"
          (started (component "banner"))).
Proof.
  apply (carryOver_adds_only_carried_records oneScreen runningLayout
           reportedLayout runningApp
           (onDevice "tv1"
              [LayoutManager.hiddenComponent oneScreen runningApp "tv1"
                 "banner" (started (component "banner"))])).
  - vm_compute. left. reflexivity.
  - left. reflexivity.
Defined.

(** ** A pass of the packer (LayoutPacker.ts) *)

Lemma bind_Ok {A B : Type} (m : LayoutPacker.M A) (f : A -> LayoutPacker.M B)
    (s s' : LayoutPacker.Packer) (b : B) :
  LayoutPacker.bind m f s = Ok (b, s') ->
  exists a s1, m s = Ok (a, s1) /\ f a s1 = Ok (b, s').
Proof.
  unfold LayoutPacker.bind. destruct (m s) as [[a s1]| | | |];
    try discriminate.
  intros H. exists a, s1. auto.
Qed.

Lemma ret_Ok {A : Type} (a b : A) (s s' : LayoutPacker.Packer) :
  LayoutPacker.ret a s = Ok (b, s') -> b = a /\ s' = s.
Proof. unfold LayoutPacker.ret. now intros [= <- <-]. Qed.

(** [place] files the rectangle it is given, once. *)
Lemma place_files_one fuel reduction factor acc r s acc' s' :
  LayoutPacker.place fuel reduction factor acc r s = Ok (acc', s') ->
  exists v r', fst (fst acc') = fst (fst acc) ++ [(v, r')].
Proof.
  destruct acc as [[done packed] last]. unfold LayoutPacker.place.
  intros H. apply bind_Ok in H. destruct H as (ok & s1 & _ & H).
  destruct ok.
  - apply bind_Ok in H. destruct H as (s2 & s3 & _ & H).
    apply bind_Ok in H. destruct H as (res & s4 & _ & H).
    destruct (fst res).
    + apply bind_Ok in H. destruct H as ([v r'] & s5 & _ & H).
      apply bind_Ok in H. destruct H as (u & s6 & _ & H).
      apply ret_Ok in H. destruct H as [-> _]. cbn [fst]. eauto.
    + apply bind_Ok in H. destruct H as (s5 & s6 & _ & H).
      apply ret_Ok in H. destruct H as [-> _]. cbn [fst]. eauto.
  - apply ret_Ok in H. destruct H as [-> _]. cbn [fst]. eauto.
Qed.

Lemma updateFirst_verdicts o nr l :
  map fst (LayoutPacker.updateFirst o nr l) = map fst l.
Proof.
  induction l as [|[v r] l IH]; cbn [LayoutPacker.updateFirst]; [reflexivity|].
  destruct (_ && _); cbn [map fst]; [reflexivity | now rewrite IH].
Qed.

Lemma updateRects_verdicts items l s l' s' :
  LayoutPacker.updateRects items l s = Ok (l', s') ->
  map fst l' = map fst l.
Proof.
  revert l s. induction items as [|item items IH]; intros l s H;
    cbn [LayoutPacker.updateRects] in H.
  - apply ret_Ok in H. now destruct H as [-> _].
  - apply bind_Ok in H. destruct H as (l1 & s1 & H1 & H).
    rewrite (IH _ _ H). unfold LayoutPacker.updateRect in H1.
    apply bind_Ok in H1. destruct H1 as (n & s2 & _ & H1).
    apply bind_Ok in H1. destruct H1 as (orig & s3 & _ & H1).
    apply ret_Ok in H1. destruct H1 as [-> _]. apply updateFirst_verdicts.
Qed.

Lemma filed_lengths (l : list (LayoutPacker.verdict * PackerUtils.PackerRectangle)) :
  (length (LayoutPacker.filed LayoutPacker.Packed l)
   + length (LayoutPacker.filed LayoutPacker.DoesntFit l)
   + length (LayoutPacker.filed LayoutPacker.NoDevice l)
   + length (LayoutPacker.filed LayoutPacker.NoDependent l))%nat
  = length (map fst l).
Proof.
  unfold LayoutPacker.filed. rewrite !length_map.
  induction l as [|[v r] l IH]; [reflexivity|].
  rewrite !filter_cons. destruct v; simpl; lia.
Qed.

Lemma packer_loop_files fuel reduction factor l :
  forall acc s res s',
    (fix loop (l : list PackerUtils.PackerRectangle)
         (acc : list (LayoutPacker.verdict * PackerUtils.PackerRectangle)
                * list string * option string) :=
       match l with
       | [] => LayoutPacker.ret acc
       | r :: rest =>
           LayoutPacker.bind (LayoutPacker.place fuel reduction factor acc r)
             (fun acc' => loop rest acc')
       end) l acc s = Ok (res, s') ->
    length (fst (fst res)) = (length (fst (fst acc)) + length l)%nat.
Proof.
  induction l as [|r l IH]; intros acc s res s' H.
  - apply ret_Ok in H. destruct H as [-> _]. cbn [length]. lia.
  - apply bind_Ok in H. destruct H as (acc1 & s1 & H1 & H).
    apply IH in H. apply place_files_one in H1.
    destruct H1 as (v & r' & E). rewrite H, E, length_app. cbn [length]. lia.
Qed.

(** X21.  A pass of the packer files every rectangle it is given under
    one of its four lists: placed, does not fit, no device, and waiting
    for a dependency; together the lists have as many rectangles as the
    pass was given. *)
Theorem packer_files_every_rectangle
    (fuel : nat) (trees : list nat)
    (rectangles : list PackerUtils.PackerRectangle) (originalReduction : Q)
    (s s' : LayoutPacker.Packer) (pass : LayoutPacker.PackerPass) :
  LayoutPacker.packer fuel trees rectangles originalReduction s
  = Ok (pass, s') ->
  (length (LayoutPacker.rects pass)
   + length (LayoutPacker.pp_notPlaced pass)
   + length (LayoutPacker.pp_noDevice pass)
   + length (LayoutPacker.pp_noDependent pass))%nat
  = length rectangles.
Proof.
  unfold LayoutPacker.packer. intros H.
  apply bind_Ok in H. destruct H as (u1 & s1 & _ & H).
  apply bind_Ok in H. destruct H as (u2 & s2 & _ & H).
  apply bind_Ok in H. destruct H as (vals & s3 & _ & H).
  apply bind_Ok in H. destruct H as (u3 & s4 & _ & H).
  apply bind_Ok in H. destruct H as (res & s5 & Hloop & H).
  apply bind_Ok in H. destruct H as (s6 & s7 & _ & H).
  apply bind_Ok in H. destruct H as (final & s8 & Hup & H).
  apply bind_Ok in H. destruct H as (s9 & s10 & _ & H).
  apply bind_Ok in H. destruct H as (t & s11 & _ & H).
  apply ret_Ok in H. destruct H as [-> _].
  cbn [LayoutPacker.rects LayoutPacker.pp_notPlaced LayoutPacker.pp_noDevice
       LayoutPacker.pp_noDependent].
  rewrite filed_lengths. apply updateRects_verdicts in Hup.
  rewrite Hup, length_map. apply packer_loop_files in Hloop.
  rewrite Hloop. reflexivity.
Qed.

Lemma packer_files_every_rectangle_of_the_three :
  (length (LayoutPacker.rects (fst threePass))
   + length (LayoutPacker.pp_notPlaced (fst threePass))
   + length (LayoutPacker.pp_noDevice (fst threePass))
   + length (LayoutPacker.pp_noDependent (fst threePass)))%nat
  = length threeRects.
Proof.
  apply (packer_files_every_rectangle fuel (fst readyPacker) threeRects 1
           (snd readyPacker) (snd threePass) (fst threePass)).
  vm_compute. reflexivity.
Defined.

(** ** The regions of a group of devices (Context.ts, LayoutGenerator.ts) *)

(** X22.  The groups [getDeviceGroups] lists cover the devices of the
    context: every device is in the device list of its group, which is
    listed, and no listed group has an empty device list. *)
Theorem groups_cover_the_devices (ctx : Doc.Context) :
  (forall d, In d (Doc.devices ctx) ->
     In (Doc.group d) (map fst (Context.getDeviceGroups ctx))
     /\ In (Doc.deviceId d) (Context.getGroupDevices ctx (Doc.group d)))
  /\ (forall g t, In (g, t) (Context.getDeviceGroups ctx) ->
        Context.getGroupDevices ctx g <> []
        /\ forall dev, In dev (Context.getGroupDevices ctx g) ->
             exists d, In d (Doc.devices ctx) /\ Doc.deviceId d = dev
                       /\ Doc.group d = g).
Proof.
  split.
  - intros d Hd. split.
    + destruct ctx as [i ds pc].
      destruct (getDeviceGroups_invariant i pc ds) as (_ & IDS & _).
      apply IDS. exists d. auto.
    + unfold Context.getGroupDevices. apply in_map.
      apply list_elem_of_In, list_elem_of_filter.
      split; [|now apply list_elem_of_In].
      rewrite String.eqb_refl. exact I.
  - intros g t Hg. split.
    + apply getGroupDevices_nonempty. apply (in_map fst) in Hg. exact Hg.
    + unfold Context.getGroupDevices. intros dev Hdev.
      apply in_map_iff in Hdev. destruct Hdev as (d & E & Hd).
      apply list_elem_of_In, list_elem_of_filter in Hd.
      destruct Hd as [Hgrp Hd]. apply list_elem_of_In in Hd.
      exists d. split; [exact Hd|]. split; [exact E|].
      apply Is_true_true in Hgrp. now apply String.eqb_eq in Hgrp.
Qed.

Lemma deviceRegions_shape device dev r :
  In r (LayoutGenerator.deviceRegions device dev) ->
  regionOf device dev r.
Proof.
  unfold LayoutGenerator.deviceRegions, regionOf.
  destruct (Doc.regions device) as [[|reg regs]|] eqn:E.
  - intros [<-|[]]. cbn. repeat split. left. repeat split.
    intros l [= <-]. reflexivity.
  - intros H. apply in_map_iff in H. destruct H as (reg0 & <- & Hreg).
    cbn. repeat split. right. exists (reg :: regs), reg0. auto.
  - intros [<-|[]]. cbn. repeat split. left. repeat split.
    intros l [=].
Qed.

(** X23.  [buildRegionNodeTree] raises an error exactly when the list
    names a device the context does not have.  Otherwise every device of
    the list has a region in the result, and every region of the result
    starts at the origin, is its own bounding box, carries the
    capabilities of its device, and is either the whole display of a
    device that declares no region, named after the device, or one of the
    regions the device declares. *)
Theorem region_list_of_a_device_list (ctx : Doc.Context)
    (devices : list string) :
  match LayoutGenerator.buildRegionNodeTree ctx devices with
  | Ok regions =>
      (forall dev, In dev devices ->
         exists r, In r regions /\ PackerUtils.deviceId r = Some dev)
      /\ (forall r, In r regions ->
            exists dev device,
              In dev devices /\ Context.getDevice ctx dev = Some device
              /\ regionOf device dev r)
  | TypeError =>
      exists dev, In dev devices /\ Context.getDevice ctx dev = None
  | _ => False
  end.
Proof.
  unfold LayoutGenerator.buildRegionNodeTree.
  induction devices as [|dev devices IH]; cbn [omapM obind concat].
  - split; [intros dev [] | intros r []].
  - destruct (Context.getDevice ctx dev) as [device|] eqn:G;
      cbn [defined obind].
    + destruct (omapM _ devices) as [l| | | |]; cbn [obind] in *;
        try contradiction.
      * destruct IH as [IH1 IH2]. cbn [concat]. split.
        -- intros dev' [<-|Hd].
           ++ assert (N : exists r,
                         In r (LayoutGenerator.deviceRegions device dev)).
              { unfold LayoutGenerator.deviceRegions.
                destruct (Doc.regions device) as [[|reg regs]|];
                  eexists; now left. }
              destruct N as (r & Hr). exists r.
              split; [apply in_app_iff; now left|].
              apply deviceRegions_shape in Hr. apply Hr.
           ++ destruct (IH1 dev' Hd) as (r & Hr & E). exists r.
              split; [apply in_app_iff; now right | exact E].
        -- intros r Hr. apply in_app_iff in Hr. destruct Hr as [Hr|Hr].
           ++ exists dev, device. split; [now left|]. split; [exact G|].
              now apply deviceRegions_shape.
           ++ destruct (IH2 r Hr) as (dev' & device' & H1 & H2).
              exists dev', device'. split; [now right | exact H2].
      * destruct IH as (dev' & H1 & H2). exists dev'.
        split; [now right | exact H2].
    + exists dev. split; [now left | exact G].
Qed.

(** ** The order of the rectangles (PackerUtils.ts) *)

Lemma hasTag_In {A : Type} (l : list (nat * A)) (i : nat) :
  LayoutPacker.hasTag l i = true <-> In i (map fst l).
Proof.
  unfold LayoutPacker.hasTag. rewrite existsb_exists, in_map_iff. split.
  - intros (x & Hx & E). apply Nat.eqb_eq in E. exists x. auto.
  - intros (x & E & Hx). exists x. split; [exact Hx | now apply Nat.eqb_eq].
Qed.

Lemma unionBy_step {A : Type} (l acc : list (nat * A)) :
  let out :=
    fold_left (fun acc x => if LayoutPacker.hasTag acc (fst x) then acc
                            else acc ++ [x]) l acc in
  (List.NoDup (map fst acc) -> List.NoDup (map fst out))
  /\ (forall x, In x out -> In x acc \/ In x l)
  /\ (forall i, In i (map fst acc) \/ In i (map fst l) -> In i (map fst out)).
Proof.
  revert acc. induction l as [|y l IH]; intros acc; cbn [fold_left].
  - cbv zeta. split; [auto|]. split; [auto|]. cbn. tauto.
  - cbv zeta. destruct (LayoutPacker.hasTag acc (fst y)) eqn:T.
    + destruct (IH acc) as (I1 & I2 & I3). split; [exact I1|]. split.
      * intros x Hx. destruct (I2 x Hx); [now left | right; now right].
      * intros i [Hi|Hi]; apply I3; [now left|].
        cbn [map In] in Hi. destruct Hi as [<-|Hi]; [|now right].
        left. now apply hasTag_In.
    + destruct (IH (acc ++ [y])) as (I1 & I2 & I3). split; [|split].
      * intros ND. apply I1. rewrite map_app. cbn [map].
        apply List.NoDup_app; [exact ND | repeat constructor; intros []|].
        intros i Hi [<-|[]]. apply hasTag_In in Hi. congruence.
      * intros x Hx. destruct (I2 x Hx) as [H|H]; [|right; now right].
        apply in_app_iff in H. destruct H as [H|[<-|[]]];
          [now left | right; now left].
      * intros i Hi. apply I3. rewrite map_app, in_app_iff. cbn [map In] in *.
        tauto.
Qed.

Lemma unionBy_spec {A : Type} (a b : list (nat * A)) :
  List.NoDup (map fst (LayoutPacker.unionBy a b))
  /\ (forall x, In x (LayoutPacker.unionBy a b) -> In x a \/ In x b)
  /\ (forall x, In x a \/ In x b ->
        In (fst x) (map fst (LayoutPacker.unionBy a b))).
Proof.
  unfold LayoutPacker.unionBy.
  destruct (unionBy_step (a ++ b) []) as (I1 & I2 & I3). cbv zeta in *.
  split; [apply I1; constructor|]. split.
  - intros x Hx. destruct (I2 x Hx) as [[]|H]. now apply in_app_iff.
  - intros x Hx. apply I3. right. apply in_map, in_app_iff. exact Hx.
Qed.

Lemma tagged_NoDup {A : Type} (l : list A) :
  List.NoDup (map fst (LayoutPacker.tagged l)).
Proof.
  unfold LayoutPacker.tagged.
  assert (E : map fst (combine (seq 0 (length l)) l) = seq 0 (length l)).
  { generalize 0%nat. induction l as [|x l IH]; intros n; [reflexivity|].
    cbn [length seq combine map fst]. now rewrite IH. }
  rewrite E. apply List.seq_NoDup.
Qed.

Lemma tagged_snd {A : Type} (l : list A) :
  map snd (LayoutPacker.tagged l) = l.
Proof.
  unfold LayoutPacker.tagged. generalize 0%nat.
  induction l as [|x l IH]; intros n; [reflexivity|].
  cbn [length seq combine map snd]. now rewrite IH.
Qed.

(** In a list whose tags are distinct, the tag tells the element. *)
Lemma tag_tells {A : Type} (l : list (nat * A)) (x y : nat * A) :
  List.NoDup (map fst l) -> In x l -> In y l -> fst x = fst y -> x = y.
Proof.
  induction l as [|a l IH]; [intros _ []|].
  cbn [map]. intros ND Hx Hy E. apply List.NoDup_cons_iff in ND.
  destruct ND as [Ha ND].
  destruct Hx as [->|Hx], Hy as [->|Hy]; auto.
  - exfalso. apply Ha. rewrite E. now apply in_map.
  - exfalso. apply Ha. rewrite <- E. now apply in_map.
Qed.

Lemma NoDup_tags {A : Type} (l : list (nat * A)) :
  List.NoDup (map fst l) -> List.NoDup l.
Proof.
  induction l as [|a l IH]; [constructor|].
  cbn [map]. intros ND. apply List.NoDup_cons_iff in ND.
  destruct ND as [Ha ND]. constructor; [|now apply IH].
  intros H. apply Ha. now apply in_map.
Qed.

Lemma pushBox_In name r boxes k l x :
  In (k, l) (LayoutPacker.pushBox name r boxes) -> In x l ->
  x = r \/ exists l0, In (k, l0) boxes /\ In x l0.
Proof.
  induction boxes as [|[k0 l0] boxes IH]; cbn [LayoutPacker.pushBox].
  - intros [E|[]] Hx. injection E as <- <-. destruct Hx as [<-|[]].
    now left.
  - destruct (String.eqb k0 name).
    + intros [E|H] Hx.
      * injection E as <- <-. apply in_app_iff in Hx.
        destruct Hx as [Hx|[<-|[]]]; [|now left].
        right. exists l0. split; [now left | exact Hx].
      * right. exists l. split; [now right | exact Hx].
    + intros [E|H] Hx.
      * injection E as <- <-. right. exists l0.
        split; [now left | exact Hx].
      * destruct (IH H Hx) as [?|(l1 & H1 & H2)]; [now left|].
        right. exists l1. split; [now right | exact H2].
Qed.

Lemma withinRealEstate_In t total used l out x :
  LayoutPacker.withinRealEstate t total used l = Ok out ->
  In x out -> In x l.
Proof.
  revert used out. induction l as [|box l IH]; intros used out H Hx;
    cbn [LayoutPacker.withinRealEstate] in H.
  - injection H as <-. destruct Hx.
  - destruct (defined _) as [c| | | |]; cbn [obind] in H; try discriminate.
    destruct (numeric _) as [rsize| | | |]; cbn [obind] in H;
      try discriminate.
    destruct (_ >? _)%Q; [injection H as <-; destruct Hx|].
    destruct (LayoutPacker.withinRealEstate _ _ _ l) as [more| | | |] eqn:E;
      cbn [obind] in H; try discriminate.
    injection H as <-. destruct Hx as [<-|Hx]; [now left|].
    right. eapply IH; eassumption.
Qed.

(** [prepareRects] returns rectangles of the list it was given, none of
    them twice. *)
Lemma prepareRects_spec rects trees areaFirst out :
  LayoutPacker.prepareRects rects trees areaFirst = Ok out ->
  List.NoDup (map fst out) /\ forall x, In x out -> In x rects.
Proof.
  unfold LayoutPacker.prepareRects.
  destruct (ofoldM _ rects []) as [boxes| | | |] eqn:Hboxes; cbn [obind];
    try discriminate.
  assert (B : forall k l x, In (k, l) boxes -> In x l -> In x rects).
  { apply (ofoldM_invariant _
             (fun boxes => forall k l x, In (k, l) boxes -> In x l ->
                                         In x rects)
             _ _ _ Hboxes).
    - intros k l x [].
    - intros s r s' Hr Hs Hstep.
      destruct (defined _) as [c| | | |]; cbn [obind] in Hstep;
        try discriminate.
      injection Hstep as <-.
      apply fold_left_preserve; [|exact Hs].
      intros bs item Hbs k l x Hkl Hx.
      destruct (pushBox_In _ _ _ _ _ _ Hkl Hx) as [->|(l0 & H1 & H2)];
        [exact Hr | now apply (Hbs k l0)]. }
  intros H.
  apply (ofoldM_invariant _
           (fun tbp => List.NoDup (map fst tbp)
                       /\ forall x, In x tbp -> In x rects)
           _ _ _ H).
  - split; [constructor | intros x []].
  - intros s [k l] s' Hbox [ND Hs] Hstep. cbn [fst snd] in Hstep.
    match type of Hstep with
    | match ?found with _ => _ end = _ => destruct found as [t|]
    end; [|injection Hstep as <-; auto].
    destruct (LayoutPacker.withinRealEstate _ _ _ l) as [boxRects| | | |]
      eqn:Hw; cbn [obind] in Hstep; try discriminate.
    destruct (PackerUtils.jsSortM _ boxRects) as [sorted| | | |] eqn:Hsort;
      cbn [obind] in Hstep; try discriminate.
    injection Hstep as <-.
    destruct (unionBy_spec s sorted) as (U1 & U2 & _).
    split; [exact U1|]. intros x Hx.
    destruct (U2 x Hx) as [Hx'|Hx']; [now apply Hs|].
    apply (jsSortM_In _ _ _ x Hsort) in Hx'.
    apply (B k l); [exact Hbox|]. eapply withinRealEstate_In; eassumption.
Qed.

Lemma differenceBy_In {A : Type} (a b : list (nat * A)) (x : nat * A) :
  In x (LayoutPacker.differenceBy a b)
  <-> In x a /\ ~ In (fst x) (map fst b).
Proof.
  unfold LayoutPacker.differenceBy.
  rewrite <- list_elem_of_In, list_elem_of_filter, list_elem_of_In.
  rewrite <- hasTag_In.
  destruct (LayoutPacker.hasTag b (fst x)); cbn.
  - split; [intros [[] _] | intros [_ H]; now destruct H].
  - split; [intros [_ H]; split; [exact H | discriminate]
           | intros [H _]; split; [exact I | exact H]].
Qed.

(** The union of a selection of tagged rectangles with the rest is a
    rearrangement of the list. *)
Lemma union_with_the_rest {A : Type} (packed tbp : list (nat * A)) :
  List.NoDup (map fst packed) ->
  List.NoDup (map fst tbp) -> (forall x, In x tbp -> In x packed) ->
  Permutation packed
    (LayoutPacker.unionBy tbp (LayoutPacker.differenceBy packed tbp)).
Proof.
  intros NDp NDt Hsub.
  set (rest := LayoutPacker.differenceBy packed tbp).
  destruct (unionBy_spec tbp rest) as (U1 & U2 & U3).
  assert (R : forall x, In x rest -> In x packed)
    by (intros x Hx; now apply differenceBy_In in Hx).
  apply Stdlib.Sorting.Permutation.NoDup_Permutation.
  - now apply NoDup_tags.
  - now apply NoDup_tags.
  - intros x. split.
    + intros Hx.
      assert (Hsrc : In x tbp \/ In x rest).
      { destruct (in_dec Nat.eq_dec (fst x) (map fst tbp)) as [Hi|Hn].
        - left. apply in_map_iff in Hi. destruct Hi as (y & E & Hy).
          assert (y = x) by (apply (tag_tells packed); auto).
          now subst y.
        - right. apply differenceBy_In. auto. }
      pose proof (U3 x Hsrc) as Hi. apply in_map_iff in Hi.
      destruct Hi as (y & E & Hy).
      assert (y = x).
      { apply (tag_tells packed); [exact NDp | | | exact E].
        - destruct (U2 y Hy); auto.
        - destruct Hsrc; auto. }
      now subst y.
    + intros Hx. destruct (U2 x Hx); auto.
Qed.

Lemma init_componentId r r' :
  LayoutPacker.init r = Ok r' ->
  PackerUtils.componentId r' = PackerUtils.componentId r.
Proof.
  unfold LayoutPacker.init.
  destruct (defined (PackerUtils.constraints r)) as [c| | | |];
    cbn [obind]; try discriminate.
  destruct (numeric _) as [size| | | |]; cbn [obind]; try discriminate.
  now intros [= <-].
Qed.

Lemma inchFields_componentId r r' :
  LayoutPacker.inchFields r = Ok r' ->
  PackerUtils.componentId r' = PackerUtils.componentId r.
Proof.
  unfold LayoutPacker.inchFields.
  destruct (defined (PackerUtils.constraints r)) as [c| | | |];
    cbn [obind]; try discriminate.
  now intros [= <-].
Qed.

Lemma omapM_componentId f (l l' : list PackerUtils.PackerRectangle) :
  (forall r r', f r = Ok r' ->
                PackerUtils.componentId r' = PackerUtils.componentId r) ->
  omapM f l = Ok l' ->
  map PackerUtils.componentId l' = map PackerUtils.componentId l.
Proof.
  intros Hf. revert l'. induction l as [|r l IH]; intros l' H;
    cbn [omapM] in H.
  - now injection H as <-.
  - destruct (f r) as [r'| | | |] eqn:E; cbn [obind] in H; try discriminate.
    destruct (omapM f l) as [rs| | | |]; cbn [obind] in H; try discriminate.
    injection H as <-. cbn [map]. rewrite (Hf _ _ E), (IH rs eq_refl).
    reflexivity.
Qed.

(** [sortRects] rearranges the rectangles it is given. *)
Lemma sortRects_Permutation rects regions byArea out :
  LayoutPacker.sortRects rects regions byArea = Ok out ->
  Permutation (map PackerUtils.componentId rects)
              (map PackerUtils.componentId out).
Proof.
  unfold LayoutPacker.sortRects.
  destruct (defined (head regions)) as [region0| | | |]; cbn [obind];
    try discriminate.
  destruct (PackerUtils.jsSortM _ rects) as [sorted| | | |] eqn:Hsort;
    cbn [obind]; try discriminate.
  destruct (omapM LayoutPacker.inchFields sorted) as [withInches| | | |]
    eqn:Hinch; cbn [obind]; try discriminate.
  destruct (LayoutPacker.prepareRects _ _ _) as [tbp| | | |] eqn:Hprep;
    cbn [obind]; try discriminate.
  intros [= <-].
  apply jsSortM_Permutation in Hsort.
  apply (omapM_componentId _ _ _ inchFields_componentId) in Hinch.
  destruct (prepareRects_spec _ _ _ _ Hprep) as [NDt Hsub].
  pose proof (union_with_the_rest (LayoutPacker.tagged withInches) tbp
                (tagged_NoDup withInches) NDt Hsub) as P.
  apply (Permutation_map snd) in P. rewrite tagged_snd in P.
  rewrite map_map.
  etransitivity; [apply Permutation_map; exact Hsort|].
  rewrite <- Hinch.
  etransitivity; [apply Permutation_map; exact P|].
  erewrite map_ext; [reflexivity|].
  intros r. cbn beta.
  destruct (PackerUtils.constraints r) as [c|]; [|reflexivity].
  destruct (_ =? _)%Q; destruct (_ =? _)%Q; reflexivity.
Qed.

(** X24.  The rectangles [_pack] hands to its first pass, initialised and
    sorted, are the rectangles it was given, each once; the list of
    components it sets aside before that pass is empty. *)
Theorem first_pass_gets_every_rectangle
    (rectangles initialized sorted regions : list PackerUtils.PackerRectangle) :
  omapM LayoutPacker.init rectangles = Ok initialized ->
  LayoutPacker.sortRects initialized regions false = Ok sorted ->
  Permutation (map PackerUtils.componentId rectangles)
              (map PackerUtils.componentId sorted)
  /\ LayoutGenerator.difference (LayoutPacker.pluck rectangles)
       (LayoutPacker.pluck sorted) = [].
Proof.
  intros Hinit Hsort.
  apply (omapM_componentId _ _ _ init_componentId) in Hinit.
  apply sortRects_Permutation in Hsort. rewrite Hinit in Hsort.
  split; [exact Hsort|].
  destruct (LayoutGenerator.difference _ _) as [|x l] eqn:E; [reflexivity|].
  exfalso.
  assert (Hx : In x (LayoutGenerator.difference
                       (LayoutPacker.pluck rectangles)
                       (LayoutPacker.pluck sorted)))
    by (rewrite E; now left).
  apply difference_In in Hx. destruct Hx as [Hin Hout]. apply Hout.
  unfold LayoutPacker.pluck in *. apply In_componentId.
  apply In_componentId in Hin.
  eapply Permutation_in; eassumption.
Qed.

Lemma first_pass_gets_every_rectangle_of_the_three :
  Permutation
    (map PackerUtils.componentId
       (fst (packerInput twoScreens [threeApp] ["tv1"; "tv2"]
               Context.communal)))
    (map PackerUtils.componentId threeRects)
  /\ LayoutGenerator.difference
       (LayoutPacker.pluck
          (fst (packerInput twoScreens [threeApp] ["tv1"; "tv2"]
                  Context.communal)))
       (LayoutPacker.pluck threeRects) = [].
Proof.
  apply (first_pass_gets_every_rectangle _
           match omapM LayoutPacker.init
                   (fst (packerInput twoScreens [threeApp] ["tv1"; "tv2"]
                           Context.communal)) with
           | Ok l => l
           | _ => []
           end
           threeRects twoRegions).
  - vm_compute. reflexivity.
  - vm_compute. reflexivity.
Defined.

(** ** Showing and hiding components (DMApp.ts) *)

Lemma withVisible_twice v w c :
  DMApp.withVisible v (DMApp.withVisible w c) = DMApp.withVisible v c.
Proof. reflexivity. Qed.

(** What the loop of [showComponents] and [hideComponents] leaves. *)
Lemma setVisibility_spec v clist :
  forall app,
    match DMApp.setVisibility v app clist with
    | Ok app' =>
        (forall name, In name clist ->
           exists c, DMApp.getComponent app name = Some c
                     /\ DMApp.getComponent app' name
                        = Some (DMApp.withVisible v c))
        /\ (forall name, ~ In name clist ->
              DMApp.getComponent app' name = DMApp.getComponent app name)
    | TypeError =>
        exists name, In name clist /\ DMApp.getComponent app name = None
    | _ => False
    end.
Proof.
  unfold DMApp.setVisibility.
  induction clist as [|x clist IH]; intros app; cbn [ofoldM].
  - split; [intros name [] | reflexivity].
  - destruct (DMApp.getComponent app x) as [cx|] eqn:Ex; cbn [obind].
    + set (app1 := DMApp.withComponents app _).
      assert (G : forall k,
                 DMApp.getComponent app1 k
                 = if String.eqb k x
                   then option_map (DMApp.withVisible v)
                          (DMApp.getComponent app x)
                   else DMApp.getComponent app k).
      { intros k. unfold app1. rewrite getComponent_onFirst by reflexivity.
        now rewrite withComponents_same. }
      specialize (IH app1).
      destruct (ofoldM _ clist app1) as [app'| | | |]; try contradiction.
      * destruct IH as [IH1 IH2]. split.
        -- intros name Hname.
           destruct (in_dec string_dec name clist) as [Hin|Hout].
           ++ destruct (IH1 name Hin) as (c & Hc & Hc'). rewrite G in Hc.
              destruct (String.eqb_spec name x) as [->|N].
              ** rewrite Ex in Hc. cbn [option_map] in Hc.
                 injection Hc as <-. exists cx. split; [exact Ex|].
                 rewrite Hc'. now rewrite withVisible_twice.
              ** exists c. auto.
           ++ destruct Hname as [<-|Hname]; [|contradiction].
              exists cx. split; [exact Ex|].
              rewrite (IH2 x Hout), G, String.eqb_refl, Ex. reflexivity.
        -- intros name Hname. cbn [In] in Hname.
           rewrite IH2 by tauto. rewrite G.
           destruct (String.eqb_spec name x) as [->|N]; [tauto|reflexivity].
      * destruct IH as (name & Hname & Hnone). exists name.
        split; [now right|]. rewrite G in Hnone.
        destruct (String.eqb name x); [|exact Hnone].
        rewrite Ex in Hnone. discriminate.
    + exists x. split; [now left | exact Ex].
Qed.

(** X25.  [hideComponents] raises an error exactly when the list names a
    component the DMApp does not have.  Otherwise every listed component
    is found afterwards marked invisible and otherwise unchanged, every
    other id reads as before, and [showComponents] on the same list then
    returns with every listed component marked visible. *)
Theorem hideComponents_hides_the_listed (app : Doc.DMApp)
    (clist : list string) :
  match DMApp.hideComponents app clist with
  | Ok app' =>
      (forall name, In name clist ->
         exists c, DMApp.getComponent app name = Some c
                   /\ DMApp.getComponent app' name
                      = Some (DMApp.withVisible false c))
      /\ (forall name, ~ In name clist ->
            DMApp.getComponent app' name = DMApp.getComponent app name)
      /\ exists app'',
           DMApp.showComponents app' clist = Ok app''
           /\ forall name, In name clist ->
                exists c, DMApp.getComponent app name = Some c
                          /\ DMApp.getComponent app'' name
                             = Some (DMApp.withVisible true c)
  | TypeError =>
      exists name, In name clist /\ DMApp.getComponent app name = None
  | _ => False
  end.
Proof.
  unfold DMApp.hideComponents, DMApp.showComponents.
  pose proof (setVisibility_spec false clist app) as H.
  destruct (DMApp.setVisibility false app clist) as [app'| | | |];
    try exact H.
  destruct H as [H1 H2]. split; [exact H1|]. split; [exact H2|].
  pose proof (setVisibility_spec true clist app') as S.
  destruct (DMApp.setVisibility true app' clist) as [app''| | | |];
    try contradiction.
  - exists app''. split; [reflexivity|]. intros name Hname.
    destruct (H1 name Hname) as (c & Hc & Hc').
    destruct S as [S1 _]. destruct (S1 name Hname) as (c1 & Hc1 & Hc1').
    rewrite Hc' in Hc1. injection Hc1 as <-. exists c. split; [exact Hc|].
    rewrite Hc1'. now rewrite withVisible_twice.
  - exfalso. destruct S as (name & Hname & Hnone).
    destruct (H1 name Hname) as (c & _ & Hc'). congruence.
Qed.

(** ** Joining unoccupied neighbours (LayoutPacker.ts) *)

Lemma neighboring_cases (n1 n2 : PackerUtils.PackerRectangle) :
  let side := LayoutPacker.neighboring n1 n2 in
  (side = "right"
   /\ (PackerUtils.y0 n1 == PackerUtils.y0 n2)%Q
   /\ (PackerUtils.x0 n1 + PackerUtils.width n1 == PackerUtils.x0 n2)%Q
   /\ (PackerUtils.height n1 == PackerUtils.height n2)%Q)
  \/ (side = "bottom"
      /\ (PackerUtils.x0 n1 == PackerUtils.x0 n2)%Q
      /\ (PackerUtils.y0 n1 + PackerUtils.height n1 == PackerUtils.y0 n2)%Q
      /\ (PackerUtils.width n1 == PackerUtils.width n2)%Q)
  \/ (side = "left"
      /\ (PackerUtils.y0 n1 == PackerUtils.y0 n2)%Q
      /\ (PackerUtils.x0 n1 == PackerUtils.x0 n2 + PackerUtils.width n2)%Q
      /\ (PackerUtils.height n1 == PackerUtils.height n2)%Q)
  \/ (side = "top"
      /\ (PackerUtils.x0 n1 == PackerUtils.x0 n2)%Q
      /\ (PackerUtils.y0 n1 == PackerUtils.y0 n2 + PackerUtils.height n2)%Q
      /\ (PackerUtils.width n1 == PackerUtils.width n2)%Q)
  \/ side = "none".
Proof.
  cbv zeta. unfold LayoutPacker.neighboring.
  repeat match goal with
         | |- context [if ?a && ?b && ?c then _ else _] =>
             let E := fresh "E" in
             destruct (a && b && c) eqn:E;
             [apply andb_true_iff in E; destruct E as [E ?];
              apply andb_true_iff in E; destruct E as [? ?];
              repeat match goal with
                     | H : Js.eqb _ _ = true |- _ =>
                         apply Qeq_bool_iff in H
                     end;
              tauto|]
         end.
  tauto.
Qed.

Lemma ostr_eqb_eq (a b : option string) : Js.ostr_eqb a b = true -> a = b.
Proof.
  destruct a, b; cbn; try discriminate; try reflexivity.
  intros H. apply String.eqb_eq in H. now subst.
Qed.

(** X26.  When [_consolidate] joins a neighbour to a node, the neighbour
    was unoccupied, not dropped, and in the region of the node; it is
    marked dropped; the node keeps its id and its occupant, and its
    rectangle has the area of the two rectangles together; no other node
    changes. *)
Theorem absorb_joins_two_rectangles (a b : nat)
    (s s' : LayoutPacker.Packer) (na nb : LayoutPacker.Node) :
  LayoutPacker.heap s !! a = Some na ->
  LayoutPacker.heap s !! b = Some nb ->
  LayoutPacker.absorb a b s = Ok (true, s') ->
  LayoutPacker.occupiedBy nb = None
  /\ LayoutPacker.dropped nb = false
  /\ PackerUtils.deviceId (LayoutPacker.rect nb)
     = PackerUtils.deviceId (LayoutPacker.rect na)
  /\ PackerUtils.regionId (LayoutPacker.rect nb)
     = PackerUtils.regionId (LayoutPacker.rect na)
  /\ LayoutPacker.heap s' !! b = Some (LayoutPacker.setDropped nb true)
  /\ (forall c, c <> a -> c <> b ->
        LayoutPacker.heap s' !! c = LayoutPacker.heap s !! c)
  /\ exists na',
       LayoutPacker.heap s' !! a = Some na'
       /\ LayoutPacker.id na' = LayoutPacker.id na
       /\ LayoutPacker.occupiedBy na' = LayoutPacker.occupiedBy na
       /\ (PackerUtils.area (LayoutPacker.rect na')
           == PackerUtils.area (LayoutPacker.rect na)
              + PackerUtils.area (LayoutPacker.rect nb))%Q.
Proof.
  intros Ha Hb H.
  assert (La : (a < length (LayoutPacker.heap s))%nat)
    by (apply lookup_lt_Some in Ha; exact Ha).
  assert (Lb : (b < length (LayoutPacker.heap s))%nat)
    by (apply lookup_lt_Some in Hb; exact Hb).
  unfold LayoutPacker.absorb in H.
  unfold LayoutPacker.bind at 1 in H. unfold LayoutPacker.read at 1 in H.
  rewrite Ha in H.
  unfold LayoutPacker.bind at 1 in H. unfold LayoutPacker.read at 1 in H.
  rewrite Hb in H.
  destruct (Js.isSet (LayoutPacker.occupiedBy nb) || LayoutPacker.dropped nb)
    eqn:Hfree; [discriminate H|].
  apply orb_false_iff in Hfree. destruct Hfree as [Hocc Hdrop].
  destruct (Z.eqb_spec (LayoutPacker.id nb) (LayoutPacker.id na)) as [Eid|Nid];
    [discriminate H|].
  assert (Nab : a <> b).
  { intros ->. rewrite Ha in Hb. injection Hb as ->. contradiction. }
  destruct (negb _ || negb _) eqn:Hreg; [discriminate H|].
  apply orb_false_iff in Hreg. destruct Hreg as [Hdev Hreg].
  apply negb_false_iff, ostr_eqb_eq in Hdev.
  apply negb_false_iff, ostr_eqb_eq in Hreg.
  destruct (_ && _) eqn:Hfull; [discriminate H|].
  pose proof (neighboring_cases (LayoutPacker.rect na) (LayoutPacker.rect nb))
    as N. cbv zeta in N.
  set (side := LayoutPacker.neighboring _ _) in *.
  destruct (String.eqb side "none") eqn:Hnone; [discriminate H|].
  set (nr' := if String.eqb side "left" then _ else _) in H.
  assert (A : (PackerUtils.area nr'
               == PackerUtils.area (LayoutPacker.rect na)
                  + PackerUtils.area (LayoutPacker.rect nb))%Q).
  { unfold nr', PackerUtils.area.
    destruct N as [(-> & E1 & E2 & E3)|[(-> & E1 & E2 & E3)|
                   [(-> & E1 & E2 & E3)|[(-> & E1 & E2 & E3)| -> ]]]];
      cbn [String.eqb Ascii.eqb Bool.eqb LayoutPacker.setWidth
           LayoutPacker.setHeight LayoutPacker.setX0 LayoutPacker.setY0
           LayoutPacker.setGeometry PackerUtils.width PackerUtils.height];
      try discriminate Hnone; rewrite ?E3; ring. }
  cbv beta delta [LayoutPacker.bind LayoutPacker.update LayoutPacker.read
                  LayoutPacker.write LayoutPacker.modify LayoutPacker.ret]
    in H.
  rewrite Ha in H. cbn [LayoutPacker.heap LayoutPacker.setHeap] in H.
  rewrite list_lookup_insert_ne in H by exact Nab.
  rewrite Hb in H. injection H as <-.
  cbn [LayoutPacker.heap LayoutPacker.setHeap].
  split; [destruct (LayoutPacker.occupiedBy nb); [discriminate Hocc|reflexivity]|].
  split; [exact Hdrop|]. split; [exact Hdev|]. split; [exact Hreg|].
  split.
  { apply list_lookup_insert_eq. now rewrite length_insert. }
  split.
  { intros c Nca Ncb. rewrite !list_lookup_insert_ne by congruence.
    reflexivity. }
  exists (LayoutPacker.setRect na nr').
  split.
  { rewrite list_lookup_insert_ne by congruence.
    now apply list_lookup_insert_eq. }
  split; [reflexivity|]. split; [reflexivity|]. exact A.
Qed.

Lemma absorb_joins_two_rectangles_of_the_display :
  LayoutPacker.occupiedBy (half 1 50) = None
  /\ LayoutPacker.dropped (half 1 50) = false
  /\ PackerUtils.deviceId (LayoutPacker.rect (half 1 50))
     = PackerUtils.deviceId (LayoutPacker.rect (half 0 0))
  /\ PackerUtils.regionId (LayoutPacker.rect (half 1 50))
     = PackerUtils.regionId (LayoutPacker.rect (half 0 0))
  /\ LayoutPacker.heap joinedHalves !! 1%nat
     = Some (LayoutPacker.setDropped (half 1 50) true)
  /\ (forall c, c <> 0%nat -> c <> 1%nat ->
        LayoutPacker.heap joinedHalves !! c
        = LayoutPacker.heap twoHalves !! c)
  /\ exists na',
       LayoutPacker.heap joinedHalves !! 0%nat = Some na'
       /\ LayoutPacker.id na' = LayoutPacker.id (half 0 0)
       /\ LayoutPacker.occupiedBy na' = LayoutPacker.occupiedBy (half 0 0)
       /\ (PackerUtils.area (LayoutPacker.rect na')
           == PackerUtils.area (LayoutPacker.rect (half 0 0))
              + PackerUtils.area (LayoutPacker.rect (half 1 50)))%Q.
Proof.
  apply (absorb_joins_two_rectangles 0 1 twoHalves joinedHalves).
  - reflexivity.
  - reflexivity.
  - vm_compute. reflexivity.
Defined.

(** ** The order of the component list (LayoutGenerator.ts) *)

Lemma StronglySorted_snoc {A : Type} (R : A -> A -> Prop) (l : list A)
    (x : A) :
  StronglySorted R l -> Forall (fun y => R y x) l ->
  StronglySorted R (l ++ [x]).
Proof.
  induction l as [|a l IH]; cbn [app]; intros S H.
  - repeat constructor.
  - apply StronglySorted_inv in S. destruct S as [S Hall].
    apply Forall_cons in H. destruct H as [Ha H].
    constructor; [now apply IH|].
    apply Forall_app. split; [exact Hall | now constructor].
Qed.

Section SortedByKey.
Context {A : Type} (key : A -> Z) (comparefn : A -> A -> outcome Z).

(** The comparison function agrees with the key wherever the keys of the
    two elements differ. *)
Hypothesis comparefn_key :
  forall a b z, comparefn a b = Ok z ->
    ((0 < z)%Z -> (key a <= key b)%Z) /\ ((z <= 0)%Z -> (key b <= key a)%Z).

Local Abbreviation rising := (StronglySorted (fun a b => (key a <= key b)%Z)).

Lemma sortInsertM_rising (x : A) (l l' : list A) :
  rising l -> PackerUtils.sortInsertM comparefn x l = Ok l' -> rising l'.
Proof.
  revert l'. induction l as [|tmp l IH]; intros l' S H;
    cbn [PackerUtils.sortInsertM] in H.
  - injection H as <-. repeat constructor.
  - destruct (comparefn tmp x) as [z| | | |] eqn:E; cbn [obind] in H;
      try discriminate.
    destruct (comparefn_key _ _ _ E) as [Hpos Hneg].
    apply StronglySorted_inv in S. destruct S as [S Hall].
    destruct (Z.ltb_spec 0 z) as [Hz|Hz].
    + destruct (PackerUtils.sortInsertM comparefn x l) as [r| | | |] eqn:Er;
        cbn [obind] in H; try discriminate.
      injection H as <-. constructor; [now apply (IH r)|].
      apply sortInsertM_Permutation in Er.
      eapply Permutation_Forall; [exact Er|].
      constructor; [now apply Hpos | exact Hall].
    + injection H as <-. constructor; [now constructor|].
      constructor; [now apply Hneg|].
      eapply Forall_impl; [exact Hall|]. intros b Hb. cbn beta in *.
      specialize (Hneg Hz). lia.
Qed.

Lemma jsSortM_falling (l l' : list A) :
  PackerUtils.jsSortM comparefn l = Ok l' ->
  StronglySorted (fun a b => (key b <= key a)%Z) l'.
Proof.
  unfold PackerUtils.jsSortM.
  destruct (ofoldM _ l []) as [r| | | |] eqn:E; cbn [obind];
    try discriminate.
  intros [= <-].
  assert (R : rising r).
  { apply (ofoldM_invariant _ rising _ _ _ E); [constructor|].
    intros s a s' _ Hs Hstep. eapply sortInsertM_rising; eassumption. }
  clear E. induction R as [|a r R IH Hall]; [constructor|].
  cbn [rev]. apply StronglySorted_snoc; [exact IH|].
  apply Forall_forall. intros y Hy. apply list_elem_of_In, in_rev in Hy.
  rewrite Forall_forall in Hall. apply Hall. now apply list_elem_of_In.
Qed.
End SortedByKey.

(** X27.  The component list [buildComponentList] hands to the packer is
    in order of falling priority: no rectangle comes before one of a
    higher priority. *)
Theorem component_list_is_in_priority_order
    (ctx : Doc.Context) (dmapps : list Doc.DMApp) (devicelist : list string)
    (regions clist : list PackerUtils.PackerRectangle)
    (grouptype : Context.groupType) (allids : list string) :
  LayoutGenerator.buildComponentList ctx dmapps devicelist regions grouptype
  = Ok (clist, allids) ->
  StronglySorted (fun a b => (priorityOf b <= priorityOf a)%Z) clist.
Proof.
  unfold LayoutGenerator.buildComponentList.
  destruct (defined (head devicelist)) as [dev0| | | |]; cbn [obind];
    try discriminate.
  destruct (defined (Context.getDevice ctx dev0)) as [device| | | |];
    cbn [obind]; try discriminate.
  destruct (defined (head regions)) as [region0| | | |]; cbn [obind];
    try discriminate.
  destruct (omapM _ dmapps) as [perApp| | | |]; cbn [obind];
    try discriminate.
  destruct (PackerUtils.jsSortM _ _) as [sorted| | | |] eqn:Hsort;
    cbn [obind]; try discriminate.
  intros [= <- <-].
  apply (jsSortM_falling priorityOf _) in Hsort; [exact Hsort|].
  intros a b z. unfold LayoutGenerator.entryCompare, priorityOf.
  destruct (PackerUtils.constraints a) as [ca|]; cbn [defined obind];
    try discriminate.
  destruct (PackerUtils.constraints b) as [cb|]; cbn [defined obind];
    try discriminate.
  unfold LayoutGenerator.clistCompare.
  destruct (Z.ltb_spec (PackerUtils.priority ca) (PackerUtils.priority cb)).
  - intros [= <-]. split; lia.
  - destruct (Z.ltb_spec (PackerUtils.priority cb) (PackerUtils.priority ca)).
    + intros [= <-]. split; lia.
    + intros _. split; lia.
Qed.

Lemma component_list_is_in_priority_order_for_the_three :
  StronglySorted (fun a b => (priorityOf b <= priorityOf a)%Z)
    (fst (packerInput twoScreens [threeApp] ["tv1"; "tv2"] Context.communal)).
Proof.
  apply (component_list_is_in_priority_order twoScreens [threeApp]
           ["tv1"; "tv2"] twoRegions _ Context.communal
           (snd (packerInput twoScreens [threeApp] ["tv1"; "tv2"]
                   Context.communal))).
  vm_compute. reflexivity.
Defined.

(** ** Splitting a node (LayoutPacker.ts) *)

Lemma grows_refl s : grows s s.
Proof. exists []. now rewrite app_nil_r. Qed.

Lemma grows_trans s1 s2 s3 : grows s1 s2 -> grows s2 s3 -> grows s1 s3.
Proof.
  intros [m1 E1] [m2 E2]. exists (m1 ++ m2). now rewrite E2, E1, app_assoc.
Qed.

Lemma grows_lookup s s' a n :
  grows s s' -> LayoutPacker.heap s !! a = Some n ->
  LayoutPacker.heap s' !! a = Some n.
Proof.
  intros [m E] H. rewrite E. now apply lookup_app_l_Some.
Qed.

Lemma clone_grows depth :
  forall a s b s', LayoutPacker.clone depth a s = Ok (b, s') -> grows s s'.
Proof.
  induction depth as [|d IH]; intros a s b s' H; [discriminate H|].
  cbn [LayoutPacker.clone] in H.
  apply bind_Ok in H. destruct H as (n & s1 & Hread & H).
  assert (s1 = s) as ->.
  { unfold LayoutPacker.read in Hread.
    destruct (LayoutPacker.heap s !! a); [|discriminate].
    now injection Hread as _ <-. }
  apply bind_Ok in H. destruct H as (ch & s2 & Hch & H).
  assert (G : grows s s2).
  { destruct (LayoutPacker.child n) as [l|].
    - apply bind_Ok in Hch. destruct Hch as (l' & s3 & Hmap & Hret).
      apply ret_Ok in Hret. destruct Hret as [_ ->].
      clear -IH Hmap. revert s l' s3 Hmap.
      induction l as [|x l IHl]; intros s l' s3 Hmap;
        cbn [LayoutPacker.mapM] in Hmap.
      + apply ret_Ok in Hmap. destruct Hmap as [_ ->]. apply grows_refl.
      + apply bind_Ok in Hmap. destruct Hmap as (y & s4 & Hx & Hmap).
        apply bind_Ok in Hmap. destruct Hmap as (ys & s5 & Hl & Hret).
        apply ret_Ok in Hret. destruct Hret as [_ ->].
        eapply grows_trans; [eapply IH; exact Hx | eapply IHl; exact Hl].
    - apply ret_Ok in Hch. destruct Hch as [_ ->]. apply grows_refl. }
  eapply grows_trans; [exact G|].
  unfold LayoutPacker.alloc in H. injection H as _ <-.
  eexists. cbn [LayoutPacker.heap LayoutPacker.setHeap]. reflexivity.
Qed.

Lemma read_Ok a s n s' :
  LayoutPacker.read a s = Ok (n, s') ->
  s' = s /\ LayoutPacker.heap s !! a = Some n.
Proof.
  unfold LayoutPacker.read. destruct (LayoutPacker.heap s !! a);
    [|discriminate].
  now intros [= <- <-].
Qed.

Lemma lift_Ok {A : Type} (o : outcome A) s x s' :
  LayoutPacker.lift o s = Ok (x, s') -> o = Ok x /\ s' = s.
Proof.
  unfold LayoutPacker.lift. destruct o; try discriminate.
  now intros [= <- <-].
Qed.

Lemma ok_inj {A : Type} (x y : A) : Ok x = Ok y -> x = y.
Proof. now intros [= ->]. Qed.

Lemma update_Ok a f s u s' :
  LayoutPacker.update a f s = Ok (u, s') ->
  exists n, LayoutPacker.heap s !! a = Some n
            /\ LayoutPacker.heap s' = <[a := f n]> (LayoutPacker.heap s).
Proof.
  unfold LayoutPacker.update. intros H.
  apply bind_Ok in H. destruct H as (n & s1 & Hr & H).
  apply read_Ok in Hr. destruct Hr as [-> Hn].
  unfold LayoutPacker.write, LayoutPacker.modify in H.
  apply ok_inj in H. injection H as _ <-.
  exists n. split; [exact Hn | reflexivity].
Qed.

Lemma touched_refl a s : touched a s s.
Proof.
  split; [reflexivity|]. split; [reflexivity|]. intros n Hn. exists n. auto.
Qed.

Lemma touched_same a s s' :
  LayoutPacker.heap s' = LayoutPacker.heap s -> touched a s s'.
Proof.
  intros E. unfold touched. rewrite E.
  split; [reflexivity|]. split; [reflexivity|]. intros n Hn. exists n. auto.
Qed.

Lemma touched_trans a s1 s2 s3 :
  touched a s1 s2 -> touched a s2 s3 -> touched a s1 s3.
Proof.
  intros (L1 & O1 & A1) (L2 & O2 & A2). split; [congruence|]. split.
  - intros c Hc. rewrite O2, O1 by exact Hc. reflexivity.
  - intros n Hn. destruct (A1 n Hn) as (n1 & H1 & C1 & P1 & R1).
    destruct (A2 n1 H1) as (n2 & H2 & C2 & P2 & R2).
    exists n2. repeat split; congruence.
Qed.

Lemma touched_fit a f s u s' :
  LayoutPacker.update a (fun n => LayoutPacker.setFitChild n f) s
  = Ok (u, s') ->
  touched a s s'.
Proof.
  intros H. apply update_Ok in H. destruct H as (n & Hn & E).
  unfold touched. rewrite E. split; [apply length_insert|]. split.
  - intros c Hc. now rewrite list_lookup_insert_ne by congruence.
  - intros n1 Hn1. rewrite Hn in Hn1. injection Hn1 as <-.
    exists (LayoutPacker.setFitChild n f). split; [|repeat split].
    apply list_lookup_insert_eq. now apply lookup_lt_Some in Hn.
Qed.

(** X28.  When [nodeDivide] splits a leaf whose rectangle is the one to
    split, the node gets exactly two children, which are new nodes; the
    node is left unoccupied, the first child takes over its occupant, the
    second is free, and the rectangles of the two children tile the
    rectangle of the node: side by side for a split of the width, one above
    the other for a split of the height. *)
Theorem nodeDivide_tiles_the_node
    (splitdir : string) (a : nat)
    (rectToSplit incomingRect : PackerUtils.PackerRectangle)
    (splitW splitH : Q) (primary : bool)
    (s s' : LayoutPacker.Packer) (n0 n' : LayoutPacker.Node)
    (children : list nat) :
  LayoutPacker.heap s !! a = Some n0 ->
  LayoutPacker.child n0 = None ->
  PackerUtils.x0 rectToSplit = PackerUtils.x0 (LayoutPacker.rect n0) ->
  PackerUtils.y0 rectToSplit = PackerUtils.y0 (LayoutPacker.rect n0) ->
  PackerUtils.width rectToSplit = PackerUtils.width (LayoutPacker.rect n0) ->
  PackerUtils.height rectToSplit
  = PackerUtils.height (LayoutPacker.rect n0) ->
  LayoutPacker.nodeDivide splitdir a rectToSplit splitW splitH incomingRect
    primary s = Ok (tt, s') ->
  LayoutPacker.heap s' !! a = Some n' ->
  LayoutPacker.child n' = Some children ->
  LayoutPacker.occupiedBy n' = None
  /\ exists a1 a2 n1 n2,
       children = [a1; a2] /\ a1 <> a /\ a2 <> a /\ a1 <> a2
       /\ LayoutPacker.heap s' !! a1 = Some n1
       /\ LayoutPacker.heap s' !! a2 = Some n2
       /\ LayoutPacker.occupiedBy n1 = LayoutPacker.occupiedBy n0
       /\ LayoutPacker.occupiedBy n2 = None
       /\ tiles splitdir (LayoutPacker.rect n0) (LayoutPacker.rect n1)
            (LayoutPacker.rect n2).
Proof.
  intros Ha Hchild Ex Ey Ew Eh H Ha' Hch'.
  unfold LayoutPacker.nodeDivide in H.
  apply bind_Ok in H. destruct H as (n0' & s0 & Hr & H).
  apply read_Ok in Hr. destruct Hr as [-> Hr]. rewrite Ha in Hr.
  injection Hr as <-.
  apply bind_Ok in H. destruct H as (sg & s0 & Hg & H).
  apply ok_inj in Hg. injection Hg as <- <-.
  apply bind_Ok in H. destruct H as (u1 & s1 & Hw & H).
  assert (T1 : touched a s s1).
  { unfold LayoutPacker.write, LayoutPacker.modify in Hw.
    apply ok_inj in Hw. injection Hw as _ <-.
    unfold touched. cbn [LayoutPacker.heap LayoutPacker.setHeap].
    split; [apply length_insert|]. split.
    - intros c Hc. now rewrite list_lookup_insert_ne by congruence.
    - intros n1 Hn1. rewrite Ha in Hn1. injection Hn1 as <-.
      exists (LayoutPacker.setFitChild n0 (Some (-1))).
      split; [|repeat split].
      apply list_lookup_insert_eq. now apply lookup_lt_Some in Ha. }
  clear Hw.
  assert (Fail1 : forall sx, touched a s sx -> sx = s' -> False).
  { intros sx (_ & _ & A) ->. destruct (A n0 Ha) as (nx & Hx & Cx & _).
    rewrite Ha' in Hx. injection Hx as <-. congruence. }
  match type of H with
  | (if ?b then _ else _) _ = _ => destruct b
  end.
  { apply ret_Ok in H. destruct H as [_ ->]. exfalso.
    now apply (Fail1 s1). }
  match type of H with
  | (match ?e with _ => _ end) _ = _ =>
      destruct e as [[c1 c2] fit] eqn:Ec
  end.
  assert (Tl : tiles splitdir (LayoutPacker.rect n0) c1 c2).
  { clear H. unfold tiles.
    destruct (String.eqb splitdir "width");
      repeat match type of Ec with
             | (if ?b then _ else _) = _ => destruct b
             end;
      injection Ec as <- <- <-; unfold PackerUtils.area;
      cbn [LayoutPacker.setX0 LayoutPacker.setY0 LayoutPacker.setWidth
           LayoutPacker.setHeight LayoutPacker.setSize
           LayoutPacker.setGeometry LayoutPacker.setComponentId
           PackerUtils.x0 PackerUtils.y0 PackerUtils.width
           PackerUtils.height];
      rewrite ?Ex, ?Ey, ?Ew, ?Eh;
      (split; [ring|]); repeat (split; [reflexivity || ring|]);
      try (left; split; [reflexivity | ring]);
      try (right; split; [reflexivity | ring]). }
  clear Ec.
  apply bind_Ok in H. destruct H as (u2 & s2 & Hu & H).
  apply touched_fit in Hu. pose proof (touched_trans _ _ _ _ T1 Hu) as T2.
  clear T1 Hu.
  apply bind_Ok in H. destruct H as (inc & s3 & Hl & H).
  apply lift_Ok in Hl. destruct Hl as [_ ->].
  apply bind_Ok in H. destruct H as (incomingMin & s3 & Hl & H).
  apply lift_Ok in Hl. destruct Hl as [_ ->].
  apply bind_Ok in H. destruct H as (ok & s4 & Hok & H).
  assert (T4 : touched a s s4).
  { apply (touched_trans _ _ _ _ T2). clear -Hok.
    destruct (Js.isSet (LayoutPacker.occupiedBy n0)).
    - apply bind_Ok in Hok. destruct Hok as (c1c & s3 & Hl & Hok).
      apply lift_Ok in Hl. destruct Hl as [_ ->].
      apply bind_Ok in Hok. destruct Hok as (m & s3 & Hl & Hok).
      apply lift_Ok in Hl. destruct Hl as [_ ->].
      apply ret_Ok in Hok. destruct Hok as [_ ->]. apply touched_refl.
    - repeat match type of Hok with
             | (if ?b then _ else _) _ = _ => destruct b
             end;
        try (apply ret_Ok in Hok; destruct Hok as [_ ->];
             apply touched_refl);
        apply bind_Ok in Hok; destruct Hok as (u & s3 & Hu & Hok);
        apply ret_Ok in Hok; destruct Hok as [_ ->];
        apply touched_fit in Hu; exact Hu. }
  clear Hok T2.
  destruct ok.
  2:{ apply ret_Ok in H. destruct H as [_ ->]. exfalso.
      now apply (Fail1 s4). }
  clear Fail1.
  destruct T4 as (L4 & _ & A4). destruct (A4 n0 Ha) as (n4 & H4 & C4 & O4 & R4).
  clear A4.
  pose proof (lookup_lt_Some _ _ _ H4) as Lt.
  apply bind_Ok in H. destruct H as (i1 & s5 & Hi & H).
  unfold LayoutPacker.uuid in Hi. apply ok_inj in Hi. injection Hi as _ <-.
  apply bind_Ok in H. destruct H as (a1 & s6 & Hal & H).
  unfold LayoutPacker.alloc in Hal. apply ok_inj in Hal.
  injection Hal as <- <-.
  apply bind_Ok in H. destruct H as (i2 & s7 & Hi & H).
  unfold LayoutPacker.uuid in Hi. apply ok_inj in Hi. injection Hi as _ <-.
  apply bind_Ok in H. destruct H as (a2 & s8 & Hal & H).
  unfold LayoutPacker.alloc in Hal. apply ok_inj in Hal.
  injection Hal as <- <-.
  cbn [LayoutPacker.heap LayoutPacker.setHeap LayoutPacker.setUuidCtr] in H.
  set (f1 := LayoutPacker.freshNode i1 c1 (LayoutPacker.occupiedBy n0)) in *.
  set (f2 := LayoutPacker.freshNode i2 c2 None) in *.
  set (h4 := LayoutPacker.heap s4) in *.
  match type of H with
  | LayoutPacker.bind _ _ ?st = _ => remember st as s8 eqn:E8
  end.
  assert (H8 : LayoutPacker.heap s8 = (h4 ++ [f1]) ++ [f2])
    by (rewrite E8; reflexivity).
  clear E8.
  apply bind_Ok in H. destruct H as (u3 & s9 & Hu & H).
  apply update_Ok in Hu. destruct Hu as (nx & Hx & E9).
  rewrite H8 in Hx, E9.
  rewrite !lookup_app_l in Hx by (rewrite ?length_app; lia).
  rewrite H4 in Hx. injection Hx as <-.
  apply bind_Ok in H. destruct H as (u4 & s10 & Hc & H).
  assert (G : grows s9 s10).
  { destruct (Js.isSet (LayoutPacker.occupiedBy n0)).
    - apply bind_Ok in Hc. destruct Hc as (b & s11 & Hc & Hp).
      apply clone_grows in Hc. eapply grows_trans; [exact Hc|].
      unfold LayoutPacker.pushUpdate, LayoutPacker.modify in Hp.
      apply ok_inj in Hp. injection Hp as _ <-. exists [].
      now rewrite app_nil_r.
    - apply ret_Ok in Hc. destruct Hc as [_ ->]. apply grows_refl. }
  clear Hc.
  assert (L9 : length (LayoutPacker.heap s9) = S (S (length h4))).
  { rewrite E9, length_insert, !length_app. cbn [length]. lia. }
  assert (K : forall c n, LayoutPacker.heap s9 !! c = Some n ->
                c <> a -> LayoutPacker.heap s' !! c = Some n).
  { intros c n Hc Nc. apply update_Ok in H. destruct H as (ny & _ & E').
    rewrite E', list_lookup_insert_ne by congruence.
    eapply grows_lookup; [exact G | exact Hc]. }
  assert (Hn' : n' = LayoutPacker.setOccupiedBy
                       (LayoutPacker.setChild n4
                          (Some [length h4; length (h4 ++ [f1])])) None).
  { apply update_Ok in H. destruct H as (ny & Hy & E').
    assert (Hy' : LayoutPacker.heap s10 !! a
                  = Some (LayoutPacker.setChild n4
                            (Some [length h4; length (h4 ++ [f1])]))).
    { eapply grows_lookup; [exact G|]. rewrite E9.
      apply list_lookup_insert_eq. rewrite !length_app. lia. }
    rewrite Hy' in Hy. injection Hy as <-.
    rewrite E', list_lookup_insert_eq in Ha'
      by (now apply lookup_lt_Some in Hy').
    now injection Ha' as <-. }
  subst n'. cbn in Hch'. injection Hch' as <-.
  split; [reflexivity|].
  exists (length h4), (length (h4 ++ [f1])), f1, f2.
  rewrite length_app. cbn [length].
  split; [reflexivity|]. split; [lia|]. split; [lia|]. split; [lia|].
  split.
  { apply K; [|lia]. rewrite E9, list_lookup_insert_ne by lia.
    rewrite lookup_app_l by (rewrite length_app; cbn [length]; lia).
    now apply list_lookup_middle. }
  split.
  { apply K; [|lia]. rewrite E9, list_lookup_insert_ne by lia.
    apply list_lookup_middle. rewrite length_app. reflexivity. }
  split; [reflexivity|]. split; [reflexivity|]. exact Tl.
Qed.

Lemma nodeDivide_tiles_the_node_of_the_display :
  exists n' children,
    LayoutPacker.heap splitDisplay !! 0%nat = Some n'
    /\ LayoutPacker.child n' = Some children
    /\ LayoutPacker.occupiedBy n' = None
    /\ exists a1 a2 n1 n2,
         children = [a1; a2] /\ a1 <> 0%nat /\ a2 <> 0%nat /\ a1 <> a2
         /\ LayoutPacker.heap splitDisplay !! a1 = Some n1
         /\ LayoutPacker.heap splitDisplay !! a2 = Some n2
         /\ LayoutPacker.occupiedBy n1 = None
         /\ LayoutPacker.occupiedBy n2 = None
         /\ tiles "width" display (LayoutPacker.rect n1)
              (LayoutPacker.rect n2).
Proof.
  assert (E : LayoutPacker.nodeDivide "width" 0 display 40 100
                (hd display threeRects) true wholeDisplay = Ok (tt, splitDisplay))
    by (vm_compute; reflexivity).
  destruct (LayoutPacker.heap splitDisplay !! 0%nat) as [n'|] eqn:Hn;
    [|vm_compute in Hn; discriminate Hn].
  destruct (LayoutPacker.child n') as [children|] eqn:Hc;
    [|vm_compute in Hn; injection Hn as <-; discriminate Hc].
  exists n', children. split; [reflexivity|]. split; [exact Hc|].
  apply (nodeDivide_tiles_the_node "width" 0 display (hd display threeRects)
           40 100 true wholeDisplay splitDisplay
           (LayoutPacker.freshNode 0 display None) n' children);
    [reflexivity|reflexivity|reflexivity|reflexivity|reflexivity|reflexivity
    |exact E|exact Hn|exact Hc].
Defined.
